(* ===== verification/_CoqProject ===== *)
-Q . S2P
Prelude.v
Hoare.v
Seq.v
SelectiveAck.v
Packet.v
SendBuffer.v
BTree.v
RecvBuffer.v
TimeWheel.v
DelayMap.v
SyncMap.v
Utils.v
Cid.v
Float64.v
FloatError.v
DelayHeap.v
Controller.v
Congestion.v
SentPackets.v
Conn.v
ConnStates.v
Emissions.v
ConnSafety.v
ConnLoop.v
Handshake.v
Socket.v
SocketTables.v
SocketRouting.v
SocketIO.v
MockLink.v
Stream.v
Delivery.v
Liveness.v
