(* ===== verification/Prelude.v ===== *)
(** * utp-go: a verification of a uTP transport

    utp-go implements the Micro Transport Protocol (a reliable byte stream over
    UDP with delay-based congestion control).  This library models its Go code
    and proves properties of the model.

    ** The program

    A socket (utp_socket.go) owns a UDP connection.  Its event loop decodes
    datagrams (packet.go) and routes them, by a key derived from the connection
    id and the peer (cid.go), to the channel of a connection; SYNs that nobody
    accepts yet and accepts whose SYN has not come wait in two maps with expiry
    wheels (delay_set.go).  Each stream (stream.go) has a connection (conn.go)
    that runs its own event loop: it handles packets, writes, timeouts and the
    shutdown request, and keeps a receive buffer (recv_buffer.go) that
    reassembles the incoming stream, a send buffer (send_buffer.go), the list of
    sent packets (sent_packet.go) that processes acknowledgements and detects
    losses, and a congestion controller (congestion.go) that the list of sent
    packets consults.  seq.go has ranges of 16-bit sequence numbers.

    ** Files

    - Prelude: outcomes, errors, the monad of methods, machine integers, slices.
      Hoare: rules to show that a method returns.
    - Seq (seq.go): circular ranges.  SelectiveAck, Packet (packet.go): the wire
      format, its decoder and the packet builder.
    - SendBuffer (send_buffer.go).  BTree: the interface of the third-party
      B-tree, with its laws and an instance.  RecvBuffer (recv_buffer.go).
    - TimeWheel (delay_set.go).  DelayMap (delay_map.go) with the timers of the
      runtime.  SyncMap (sync_map.go).  Utils (utp_utils.go).  Cid (cid.go).
    - Float64: Go's float64 on the executable IEEE operations of the Standard
      Library.  FloatError: the error of its products and quotients.  DelayHeap (the delay accumulator of congestion.go with the heap
      of container/heap).  Controller: the interface [Controller] of
      congestion.go and the laws that its client relies on.  Congestion: the
      default controller, with the instance of those laws.
    - SentPackets (sent_packet.go), over any controller that meets the laws.
    - Conn (conn.go, event.go): the connection's state and handlers;
      [newConnection], [start] and [loop_step] are its construction, the code
      before the loop and one turn of the loop.  ConnStates, ConnSafety and
      ConnLoop: its invariants.  Emissions: what the handlers send.  Handshake: an initiator and an acceptor.
    - Socket (utp_socket.go): the tables and handlers of the socket.
      SocketTables: their invariant.  SocketRouting: routing, accepting and
      connecting.  SocketIO: its read loop and event loop, over a store of byte
      arrays.  MockLink (integrated/test_utils.go): the network of the tests.
    - Stream (stream.go): the calls of the user and the life of a stream.
      Delivery: two connections and the network between them.  Liveness: the end
      of a connection attempt.

    Names are those of the source, with a prefix where Go's methods would clash:
    [rb_Write] is the method [Write] of the receive buffer, [sp_onAck] the method
    [onAck] of the sent packets, [cc_] the congestion controller, [tw_] the
    timing wheel, [sb_] the send buffer, [da_] the delay accumulator.

    ** How the code is modelled

    - Integers are [Z], with the wrap-around of their width written out ([u16],
      [u32], [i64]); [⊕] and [⊖] are uint16 addition and subtraction.  [int] and
      [time.Duration] are 64 bits; times are nanoseconds.
    - A function that can panic returns an [outcome]; one that returns an error a
      sum.  A method with a receiver that it changes is a [method]: from the state
      to an outcome of a result and the new state.
    - Loops that are not structural take fuel, and the theorems show that the fuel
      given is enough: the number of bytes that can be read for the loop of
      [processReads], of bytes in the send buffer for the packets that
      [processWrites] composes, of waiting writes for the loop that fills the
      buffer, of waiting packets for the delivery loop of the receive buffer.
    - A handler reads the clock and the random generator once ([env]).  Channels
      to the outside are a trace of what was sent; sends do not block.  The
      goroutine of a timing wheel is the input [InTick].  Mutexes make the
      operations of a wheel, a map and the controller atomic.
    - Slices are values, but for the read buffer of the socket (SocketIO).  The
      send buffer of the code keeps the slice that the caller of [Write] passed,
      so the theorems on the stream speak of callers that leave it alone.
    - The two selects of the socket's event loop are one turn, and a lookup and the
      update that follows it one step, although the code takes the lock twice.
    - Third-party code is a parameter with named laws: the B-tree ([BTreeLaws]),
      the digest ([Hasher]), and the platform's conversion of out-of-range floats
      ([FloatConv]); each has an instance, on which the examples run.

    ** What is shown

    - The whole: two connections that complete the handshake and then run over a
      network that loses, duplicates, delays and reorders packets (and drops those
      with a stale extension byte, which only a timeout makes) deliver to each
      reader a prefix of the bytes that the other side's writes were accepted
      for, and all of them when the reader sees the end of file
      ([stream_end_to_end]); every packet they send is one that the wire format
      can carry ([outgoing_packets_typed]).  An attempt to connect that hears
      nothing ends after a bounded number of rounds ([connect_gives_up]).
    - Packets: decoding inverts encoding, the decoder is total, selective acks keep
      their bits, [EncodedLen] is right.
    - Buffers: the send buffer is a bounded queue; the receive buffer delivers a
      prefix of the stream whatever the order of the packets, its acknowledgement
      number names the last packet of that prefix, and its selective ack exactly
      the packets it holds beyond.
    - Timing wheel: an entry expires when it should, up to the wheel's span.  Delay
      map: an entry arrives at most once, not early, and not after its removal.
    - Congestion: the window stays within its bounds and follows LEDBAT to the byte
      before or after, in spite of the floats; the bytes in flight are those of
      the unacknowledged packets while new packets fit the window; the base delay
      is a minimum.
    - Sent packets: what an acknowledgement does, for any acknowledgement.
    - Connection: any run of the event loop keeps the invariant and does not panic,
      but for one case that the code gets wrong ([dies_of_fin]); states only move
      forward; writes are neither lost nor reordered, and fit the windows; the
      loop stops its timer when it ends, with a notice to the socket unless the
      context was cancelled; the handshake makes both sides agree.
    - Socket and stream: the loops of the socket handle datagrams intact and in
      order, the tables stay consistent, an accept meets its SYN in either order,
      ids are fresh, a reader gets the bytes of the buffer.
    - Where the code does not do what it means to, a theorem says what it does
      (sequence numbers running out, delays beyond the wheel, the FIN that
      panics, [Connect] and [Accept], a refused attempt that is never reported,
      neighbouring ids, the retransmission that corrupts a payload, the entry of
      a delay map that outlives its replacement).

    Bounds: the theorems on a connection take fewer than 65533 packets sent on it
    (the code never forgets a packet, see [sequence_number_exhaustion]), fewer
    than 2^32 turns, and a clock within 13 days of its start (so that round-trip
    times are exact in a float).  [stream_end_to_end] takes the packets with a stale
    extension byte as lost: [timeout_corrupts_payload] shows what they do.  The
    LEDBAT rule is shown for the default gain, increments below 65536 and at least
    one byte in flight.

    ** What is not modelled

    The system calls of the UDP connection, logging and the [String] methods that
    only it uses, contexts other than their end, blocking on a full channel, and
    the demonstration program of native/cgo, whose work is done by a C library.
    Next: liveness of the transfer itself (a network that delivers infinitely
    often), and the capacity of the channels. *)

From Stdlib Require Import ZArith Lia.
From stdpp Require Import base list gmap fin_maps strings.

#[global] Open Scope Z_scope.
#[global] Arguments Nat.div : simpl never.
#[global] Arguments Nat.modulo : simpl never.
#[global] Arguments Z.div : simpl never.
#[global] Arguments Z.modulo : simpl never.
Declare Scope go_scope.
Delimit Scope go_scope with go.
#[global] Open Scope go_scope.

(** ** Outcomes of Go code

    A Go function that can panic returns an [outcome]: [Ret] carries the
    value, [Panic] the run-time panic it raises.  [NoFuel] marks a loop of the
    model whose fuel was too small, which the theorems exclude, or, where the
    model is given the events that a call waits for, a call that still waits when
    they are used up. *)

Inductive panic :=
  | IndexOutOfRange
  | SliceBoundsOutOfRange
  | NilDereference
  | PanicOutOfOrderTransmit
  | PanicExceedsSendWindow
  | PanicController
  | PanicNonPositiveInterval
  | PanicCloseOfClosedChannel
  | PanicSendOnClosedChannel
  | PanicWrongPeer
  | PanicInvalidState.

Inductive outcome (A : Type) :=
  | Ret (a : A)
  | Panic (p : panic)
  | NoFuel.
Arguments Ret {A} a.
Arguments Panic {A} p.
Arguments NoFuel {A}.

#[global] Instance outcome_ret : MRet outcome := @Ret.
#[global] Instance outcome_bind : MBind outcome := fun A B f m =>
  match m with
  | Ret a => f a
  | Panic p => Panic p
  | NoFuel => NoFuel
  end.

Section outcome_laws.
Context {A B C : Type}.

Lemma outcome_bind_ret (a : A) (f : A → outcome B) : (Ret a ≫= f) = f a.
Proof. reflexivity. Qed.

Lemma outcome_bind_assoc (m : outcome A) (f : A → outcome B) (g : B → outcome C) :
  ((m ≫= f) ≫= g) = (m ≫= λ a, f a ≫= g).
Proof. by destruct m. Qed.

Lemma outcome_bind_Ret_inv (m : outcome A) (f : A → outcome B) b :
  (m ≫= f) = Ret b → ∃ a, m = Ret a ∧ f a = Ret b.
Proof. destruct m; simpl; [eauto|discriminate..]. Qed.
End outcome_laws.

(** [returns m] says that the code neither panics nor runs out of fuel. *)
Definition returns {A} (m : outcome A) : Prop := ∃ a, m = Ret a.

Lemma returns_bind {A B} (m : outcome A) (f : A → outcome B) a :
  m = Ret a → returns (f a) → returns (m ≫= f).
Proof. intros ->. done. Qed.

(** ** Go errors

    The package's error values.  [ErrInsufficientSpace] and [ErrUnreachable]
    are the two that the code makes inline with [errors.New]. *)

Inductive error :=
  | ErrInvalidHeaderSize
  | ErrInvalidPacketType
  | ErrInsufficientLen
  | ErrInsufficientSelectiveAckLen
  | ErrInvalidSelectiveAckLen
  | ErrEmptyDataPayload
  | ErrInvalidAckNum
  | ErrNoneAckNum
  | ErrCannotFindLostPacket
  | ErrSentPacketMarkLost
  | ErrInsufficientWindowSize
  | ErrUnknownSeqNum
  | ErrDuplicateTransmission
  | ErrInvalidFin
  | ErrInvalidSeqNum
  | ErrInvalidSyn
  | ErrReset
  | ErrSynFromAcceptor
  | ErrTimedOut
  | ErrEOF
  | ErrInsufficientSpace
  | ErrUnreachable.

#[global] Instance error_eq_dec : EqDecision error.
Proof. solve_decision. Defined.

(** A call that returns [(value, error)], or panics. *)
Abbreviation fallible A := (outcome (error + A)).
Definition ok {A} (a : A) : fallible A := Ret (inr a).
Definition fail {A} (e : error) : fallible A := Ret (inl e).

(** [if err != nil { return err }] after a call. *)
Definition check {A B} (m : fallible A) (k : A → fallible B) : fallible B :=
  m ≫= λ r, match r with inl e => fail e | inr a => k a end.
Notation "x ←? m ; k" := (check m (λ x, k))
  (at level 20, m at level 100, k at level 200, only parsing) : go_scope.
Notation "' x ←? m ; k" := (check m (λ x, k))
  (at level 20, x pattern, m at level 100, k at level 200, only parsing) : go_scope.

(** ** Methods

    A method that changes its receiver, may return an error and may panic.
    What it changed before returning an error stays changed. *)

Definition method (S A : Type) : Type := S → outcome ((error + A) * S).

Definition done_ {S A} (a : A) : method S A := λ s, Ret (inr a, s).
Definition error_ {S A} (e : error) : method S A := λ s, Ret (inl e, s).
Definition panic_ {S A} (p : panic) : method S A := λ _, Panic p.
Definition get_ {S} : method S S := λ s, Ret (inr s, s).
Definition put_ {S} (s : S) : method S unit := λ _, Ret (inr tt, s).
Definition modify_ {S} (f : S → S) : method S unit := λ s, Ret (inr tt, f s).
(** A call that can only panic, and one that also returns an error. *)
Definition lift_ {S A} (m : outcome A) : method S A := λ s, a ← m; Ret (inr a, s).

(** Sequencing, with [if err != nil { return err }]. *)
Definition bind_ {S A B} (m : method S A) (k : A → method S B) : method S B := λ s,
  '(r, s') ← m s;
  match r with
  | inl e => Ret (inl e, s')
  | inr a => k a s'
  end.

(** A call whose error is inspected or dropped by the caller. *)
Definition try_ {S A} (m : method S A) : method S (error + A) := λ s,
  '(r, s') ← m s; Ret (inr r, s').

Notation "x ←! m ; k" := (bind_ m (λ x, k))
  (at level 20, m at level 100, k at level 200, only parsing) : go_scope.
Notation "' x ←! m ; k" := (bind_ m (λ x, k))
  (at level 20, x pattern, m at level 100, k at level 200, only parsing) : go_scope.
Notation "m ;! k" := (bind_ m (λ _, k))
  (at level 100, k at level 200, right associativity, only parsing) : go_scope.

(** [for _, x := range l { body x }] *)
Fixpoint each_ {S X} (body : X → method S unit) (l : list X) : method S unit :=
  match l with
  | [] => done_ tt
  | x :: l => body x ;! each_ body l
  end.

Section method_laws.
Context {S A B : Type}.

Lemma bind_Ret (m : method S A) (k : A → method S B) s a s' :
  m s = Ret (inr a, s') → bind_ m k s = k a s'.
Proof. unfold bind_. by intros ->. Qed.

Lemma bind_error (m : method S A) (k : A → method S B) s e s' :
  m s = Ret (inl e, s') → bind_ m k s = Ret (inl e, s').
Proof. unfold bind_. by intros ->. Qed.

Lemma each_app {X} (body : X → method S unit) l1 l2 s :
  each_ body (l1 ++ l2) s = (each_ body l1 ;! each_ body l2) s.
Proof.
  revert s. induction l1 as [|x l1 IH]; intros s; [done|]. simpl. unfold bind_ in *.
  destruct (body x s) as [[[e|[]] s']| |]; simpl; done || apply IH.
Qed.
End method_laws.

(** ** Machine integers

    A Go integer of width [w] is a [Z] with its wrap-around written out. *)

Definition u8 (z : Z) : Z := z mod 256.
Definition u16 (z : Z) : Z := z mod 65536.
Definition u32 (z : Z) : Z := z mod 4294967296.
Definition i64 (z : Z) : Z :=
  (z + 9223372036854775808) mod 18446744073709551616 - 9223372036854775808.

Definition is_u8 (z : Z) : Prop := 0 ≤ z < 256.
Definition is_u16 (z : Z) : Prop := 0 ≤ z < 65536.
Definition is_u32 (z : Z) : Prop := 0 ≤ z < 4294967296.
Definition is_i64 (z : Z) : Prop :=
  -9223372036854775808 ≤ z < 9223372036854775808.

Definition MaxUint16 : Z := 65535.
Definition MaxUint32 : Z := 4294967295.

Notation "a ⊕ b" := (u16 (a + b)) (at level 50, left associativity) : go_scope.
Notation "a ⊖ b" := (u16 (a - b)) (at level 50, left associativity) : go_scope.

(** Linear arithmetic with the wrap-arounds turned into division equations. *)
Ltac go_unfold :=
  unfold u8, u16, u32, i64, is_u8, is_u16, is_u32, is_i64, MaxUint16, MaxUint32 in *.
Ltac go_lia := go_unfold; Z.to_euclidean_division_equations; lia.

Section wrap.
Implicit Types z : Z.

Lemma u8_range z : is_u8 (u8 z).
Proof. go_lia. Qed.
Lemma u16_range z : is_u16 (u16 z).
Proof. go_lia. Qed.
Lemma u32_range z : is_u32 (u32 z).
Proof. go_lia. Qed.
Lemma i64_range z : is_i64 (i64 z).
Proof. go_lia. Qed.

Lemma u8_id z : is_u8 z → u8 z = z.
Proof. go_lia. Qed.
Lemma u16_id z : is_u16 z → u16 z = z.
Proof. go_lia. Qed.
Lemma u32_id z : is_u32 z → u32 z = z.
Proof. go_lia. Qed.
Lemma i64_id z : is_i64 z → i64 z = z.
Proof. go_lia. Qed.
End wrap.

(** A bitwise or of disjoint bit fields is an addition. *)
Lemma lor_shiftl_add a b n :
  0 ≤ n → 0 ≤ a < 2 ^ n → Z.lor a (Z.shiftl b n) = a + b * 2 ^ n.
Proof.
  intros Hn Ha. rewrite <- Z.shiftl_mul_pow2 by done. symmetry. apply Z.add_nocarry_lor.
  apply Z.bits_inj'. intros i Hi. rewrite Z.land_spec, Z.bits_0.
  destruct (Z.lt_ge_cases i n) as [Hlt|Hge].
  - rewrite Z.shiftl_spec_low by done. apply andb_false_r.
  - rewrite <- (Z.mod_small a (2 ^ n)) by done.
    by rewrite Z.mod_pow2_bits_high by lia.
Qed.

Create HintDb go.
Create Rewrite HintDb go.
#[export] Hint Resolve u8_range u16_range u32_range i64_range : go.
#[export] Hint Rewrite u8_id u16_id u32_id i64_id using (go_lia) : go.

(** Case analysis on the boolean comparisons of the source. *)
Ltac case_bool :=
  match goal with
  | |- context [?a =? ?b] => destruct (Z.eqb_spec a b)
  | |- context [?a <? ?b] => destruct (Z.ltb_spec a b)
  | |- context [?a <=? ?b] => destruct (Z.leb_spec a b)
  | H : context [?a =? ?b] |- _ => destruct (Z.eqb_spec a b)
  | H : context [?a <? ?b] |- _ => destruct (Z.ltb_spec a b)
  | H : context [?a <=? ?b] |- _ => destruct (Z.leb_spec a b)
  end.

(** Inversion of a monadic computation that returned. *)
Ltac outcome_inv :=
  repeat match goal with
  | H : (_ ≫= _) = Ret _ |- _ =>
      apply outcome_bind_Ret_inv in H as (? & ? & H)
  | H : Ret _ = Ret _ |- _ => injection H as H
  | H : Panic _ = Ret _ |- _ => discriminate H
  | H : NoFuel = Ret _ |- _ => discriminate H
  | H : mret _ = Ret _ |- _ => unfold mret, outcome_ret in H
  end; simplify_eq.

(** ** Slices

    A Go slice read by the code is a list; [len] is its length as an [int].
    [index] and [slice] raise the run-time panics of [s[i]] and [s[lo:hi]].
    Go bounds [hi] by the capacity; the model bounds it by the length, which is
    stricter, so that a theorem that [slice] returns covers both. *)

Definition len {A} (l : list A) : Z := Z.of_nat (length l).

Definition index {A} (l : list A) (i : Z) : outcome A :=
  if i <? 0 then Panic IndexOutOfRange
  else match l !! Z.to_nat i with
       | Some x => Ret x
       | None => Panic IndexOutOfRange
       end.

Definition slice {A} (l : list A) (lo hi : Z) : outcome (list A) :=
  if (0 <=? lo) && (lo <=? hi) && (hi <=? len l)
  then Ret (take (Z.to_nat (hi - lo)) (drop (Z.to_nat lo) l))
  else Panic SliceBoundsOutOfRange.

Definition slice_from {A} (l : list A) (lo : Z) : outcome (list A) :=
  slice l lo (len l).

(** [copy(dst, src)]: the destination afterwards (the count is the minimum of
    the two lengths). *)
Definition go_copy {A} (dst src : list A) : list A :=
  take (length dst) src ++ drop (length src) dst.

Section slices.
Context {A : Type}.
Implicit Types l : list A.

Lemma len_nonneg l : 0 ≤ len l.
Proof. unfold len. lia. Qed.
Lemma len_app l k : len (l ++ k) = len l + len k.
Proof. unfold len. rewrite length_app. lia. Qed.
Lemma len_cons x l : len (x :: l) = len l + 1.
Proof. unfold len. simpl. lia. Qed.
Lemma len_nil : len (@nil A) = 0.
Proof. reflexivity. Qed.
Lemma len_zero l : len l = 0 → l = [].
Proof. unfold len. destruct l; [done|simpl; lia]. Qed.
Lemma len_take n l : len (take n l) = Z.min (Z.of_nat n) (len l).
Proof. unfold len. rewrite length_take. lia. Qed.
Lemma len_drop n l : len (drop n l) = Z.max 0 (len l - Z.of_nat n).
Proof. unfold len. rewrite length_drop. lia. Qed.

Lemma index_Ret l i x : l !! i = Some x → index l (Z.of_nat i) = Ret x.
Proof.
  intros H. unfold index. case_bool; [lia|]. by rewrite Nat2Z.id, H.
Qed.

Lemma index_inv l i x :
  index l i = Ret x → 0 ≤ i < len l ∧ l !! Z.to_nat i = Some x.
Proof.
  unfold index, len. case_bool; [done|]. destruct (l !! Z.to_nat i) eqn:E; [|done].
  intros [= ->]. apply lookup_lt_Some in E as ?. split; [lia|done].
Qed.

Lemma index_returns l i : 0 ≤ i < len l → returns (index l i).
Proof.
  unfold index, len. intros. case_bool; [lia|].
  destruct (l !! Z.to_nat i) eqn:E; [by eexists|].
  apply lookup_ge_None in E. lia.
Qed.

Lemma slice_Ret l lo hi :
  0 ≤ lo ≤ hi → hi ≤ len l →
  slice l lo hi = Ret (take (Z.to_nat (hi - lo)) (drop (Z.to_nat lo) l)).
Proof. intros. unfold slice. repeat case_bool; simpl; done || lia. Qed.

Lemma slice_from_Ret l lo :
  0 ≤ lo ≤ len l → slice_from l lo = Ret (drop (Z.to_nat lo) l).
Proof.
  intros. unfold slice_from. rewrite slice_Ret by lia.
  rewrite take_ge; [done|]. rewrite length_drop. unfold len in *. lia.
Qed.

Lemma slice_prefix l hi :
  0 ≤ hi ≤ len l → slice l 0 hi = Ret (take (Z.to_nat hi) l).
Proof. intros. rewrite slice_Ret by lia. by rewrite Z.sub_0_r, drop_0. Qed.

Lemma go_copy_length l k : length (go_copy l k) = length l.
Proof. unfold go_copy. rewrite length_app, length_take, length_drop. lia. Qed.
End slices.

#[export] Hint Rewrite @len_app @len_cons @len_nil @len_take @len_drop : go.
