(* ===== verification/Hoare.v ===== *)
(** * Methods that return

    Rules to show that a [method] returns without an error ([total]) or with a
    value or an error ([returns_with]), in a state that satisfies a predicate. *)

From Stdlib Require Import ZArith Lia.
From stdpp Require Import base list.
From S2P Require Import Prelude.

Section total.
Context {S : Type}.

(** The method returns a value (no error, no panic) and [Q] holds. *)
Definition total {A} (m : method S A) (s : S) (Q : A → S → Prop) : Prop :=
  ∃ a s', m s = Ret (inr a, s') ∧ Q a s'.

Lemma total_bind {A B} (m : method S A) (k : A → method S B) s (Q : B → S → Prop) :
  total m s (λ a s', total (k a) s' Q) → total (bind_ m k) s Q.
Proof. intros (a & s' & E & Hk). unfold total. rewrite (bind_Ret _ _ _ _ _ E). apply Hk. Qed.

Lemma total_done {A} (a : A) s (Q : A → S → Prop) : Q a s → total (done_ a) s Q.
Proof. intros HQ. by exists a, s. Qed.

Lemma total_get {B} (k : S → method S B) s (Q : B → S → Prop) :
  total (k s) s Q → total (bind_ get_ k) s Q.
Proof. intros (b & s' & E & HQ). by exists b, s'. Qed.

Lemma total_modify (f : S → S) s (Q : unit → S → Prop) : Q tt (f s) → total (modify_ f) s Q.
Proof. intros HQ. by exists tt, (f s). Qed.

Lemma total_lift {A} (m : outcome A) a s (Q : A → S → Prop) :
  m = Ret a → Q a s → total (lift_ m) s Q.
Proof. intros -> HQ. by exists a, s. Qed.

Lemma total_weaken {A} (m : method S A) s (Q Q' : A → S → Prop) :
  total m s Q → (∀ a s', Q a s' → Q' a s') → total m s Q'.
Proof. intros (a & s' & E & HQ) HW. exists a, s'. auto. Qed.

Lemma total_seq {A B} (m : method S A) (k : A → method S B) s (I : S → Prop) (Q : B → S → Prop) :
  total m s (λ _ s', I s') → (∀ a s', I s' → total (k a) s' Q) → total (bind_ m k) s Q.
Proof. intros Hm Hk. apply total_bind. eapply total_weaken; [exact Hm|]. intros a s'. apply Hk. Qed.

Lemma total_each {X} (body : X → method S unit) (I : S → Prop) l s :
  I s → (∀ x s', x ∈ l → I s' → total (body x) s' (λ _ s'', I s'')) →
  total (each_ body l) s (λ _ s', I s').
Proof.
  intros HI Hb. revert s HI. induction l as [|x l IH]; intros s HI; simpl; [by apply total_done|].
  apply total_bind. destruct (Hb x s) as (a & s1 & E & HI1); [by left|done|]. exists a, s1. split; [done|].
  apply IH; [|done]. intros y s' Hy. apply Hb. by right.
Qed.

(** The method returns, with a value or an error. *)
Definition returns_with {A} (m : method S A) (s : S) (Q : S → Prop) : Prop :=
  ∃ r s', m s = Ret (r, s') ∧ Q s'.

Lemma total_try {A} (m : method S A) s (Q : S → Prop) :
  returns_with m s Q → total (try_ m) s (λ _ s', Q s').
Proof. intros (r & s' & E & HQ). exists r, s'. unfold try_. by rewrite E. Qed.

Lemma returns_total {A} (m : method S A) s (Q : S → Prop) :
  total m s (λ _ s', Q s') → returns_with m s Q.
Proof. intros (a & s' & E & HQ). by exists (inr a), s'. Qed.

Lemma returns_error {A} e s (Q : S → Prop) : Q s → returns_with (error_ (A := A) e) s Q.
Proof. intros HQ. by exists (inl e), s. Qed.

Lemma returns_with_bind {A B} (m : method S A) (k : A → method S B) s (Q : S → Prop) :
  total m s (λ a s', returns_with (k a) s' Q) → returns_with (bind_ m k) s Q.
Proof.
  intros (a & s' & E & r & s2 & E2 & HQ). exists r, s2. split; [|done]. by rewrite (bind_Ret _ _ _ _ _ E).
Qed.

Lemma bind_panic {A B} (m : method S A) (k : A → method S B) s p : m s = Panic p → bind_ m k s = Panic p.
Proof. intros E. unfold bind_. by rewrite E. Qed.
End total.
