(* ===== verification/Seq.v ===== *)
(** * Circular ranges of sequence numbers (seq.go)

    [circularRangeInclusive] is the struct of the same name, with its three
    fields; [Contains] and [Next] are its methods.  The abstract reading of a
    range is the set of the offsets [0 .. cr_dist r] from its start, taken
    modulo 2^16; the theorems of this file show that membership and iteration
    both implement it, for every position of the two bounds. *)

From Stdlib Require Import ZArith Lia.
From stdpp Require Import base list.
From S2P Require Import Prelude.

Record circularRangeInclusive := mkRange {
  cr_start : Z;
  cr_end : Z;
  cr_exhausted : bool;
}.

Definition newCircularRangeInclusive (start end_ : Z) : circularRangeInclusive :=
  mkRange start end_ false.

Definition Contains (r : circularRangeInclusive) (item : Z) : bool :=
  if cr_start r <=? cr_end r then (cr_start r <=? item) && (item <=? cr_end r)
  else if cr_start r <=? item then true
  else item <=? cr_end r.

(** [Next] returns the item and its [ok] flag, with the mutated range. *)
Definition Next (r : circularRangeInclusive) : (Z * bool) * circularRangeInclusive :=
  if cr_exhausted r then ((0, false), r)
  else if cr_start r =? cr_end r then
    ((cr_end r, true), mkRange (cr_start r) (cr_end r) true)
  else ((cr_start r, true), mkRange (cr_start r ⊕ 1) (cr_end r) false).

(** A range whose bounds are 16-bit values. *)
Definition range_wf (r : circularRangeInclusive) : Prop :=
  is_u16 (cr_start r) ∧ is_u16 (cr_end r).

(** The number of steps from the start of the range to its end. *)
Definition cr_dist (r : circularRangeInclusive) : Z := cr_end r ⊖ cr_start r.

Lemma Contains_offset r item :
  range_wf r → is_u16 item →
  Contains r item = true ↔ item ⊖ cr_start r ≤ cr_dist r.
Proof.
  unfold range_wf, Contains, cr_dist. intros [??] ?.
  repeat case_bool; simpl; split; intros; try done; go_lia.
Qed.

(** Calls of [Next] made by a [for] loop: at most [n] of them, stopping at the
    first [false]; the second component tells whether the loop stopped. *)
Fixpoint drain (n : nat) (r : circularRangeInclusive) : list Z * bool :=
  match n with
  | O => ([], false)
  | S n' =>
      match Next r with
      | ((_, false), _) => ([], true)
      | ((x, true), r') => let '(xs, b) := drain n' r' in (x :: xs, b)
      end
  end.

Definition range_items (start : Z) (count : nat) : list Z :=
  (λ i, start ⊕ Z.of_nat i) <$> seq 0 count.

Lemma range_items_cons start n :
  is_u16 start → range_items start (S n) = start :: range_items (start ⊕ 1) n.
Proof.
  intros. unfold range_items. simpl. rewrite Z.add_0_r, u16_id by done. f_equal.
  rewrite <- seq_shift, <- list_fmap_compose.
  apply list_fmap_ext. intros i x _. simpl. go_lia.
Qed.

Lemma drain_range d r n :
  range_wf r → cr_exhausted r = false → cr_dist r = Z.of_nat d → (S d < n)%nat →
  drain n r = (range_items (cr_start r) (S d), true).
Proof.
  revert r n. induction d as [|d IH]; intros [s e x] n [Hs He] Hx Hd Hn;
    unfold cr_dist in Hd; simpl in *; subst x; (destruct n as [|n]; [lia|]); simpl.
  - assert (s = e) as -> by go_lia. unfold Next; simpl. rewrite Z.eqb_refl.
    destruct n as [|n]; [lia|]. simpl. unfold range_items. simpl.
    by rewrite Z.add_0_r, u16_id.
  - unfold Next; simpl. case_bool; [subst; go_lia|].
    rewrite (IH (mkRange (s ⊕ 1) e false)); simpl;
      [|split; simpl; auto with go|done|unfold cr_dist; simpl; go_lia|lia].
    by rewrite (range_items_cons s (S d)).
Qed.

Lemma elem_of_range_items start n x :
  is_u16 start → is_u16 x → Z.of_nat n ≤ 65536 →
  x ∈ range_items start n ↔ x ⊖ start < Z.of_nat n.
Proof.
  intros ?? Hn. unfold range_items. rewrite list_elem_of_fmap. split.
  - intros (i & -> & [??]%elem_of_seq). go_lia.
  - intros Hlt. exists (Z.to_nat (x ⊖ start)). split; [go_lia|].
    apply elem_of_seq. go_lia.
Qed.

Lemma NoDup_range_items start n : Z.of_nat n ≤ 65536 → NoDup (range_items start n).
Proof.
  intros. apply NoDup_fmap_2_strong; [|apply NoDup_seq].
  intros i j [??]%elem_of_seq [??]%elem_of_seq; simpl; intros. go_lia.
Qed.

#[export] Hint Resolve NoDup_range_items : go.

(** C29. Membership and iteration of a circular range agree: whatever the two
    16-bit bounds, a loop over [Next] stops after [cr_dist + 1] items, the
    items are pairwise distinct, start at the range's start, and are exactly
    the 16-bit values for which [Contains] holds. *)
Theorem range_iteration_agrees_with_Contains (s e : Z) (n : nat) :
  is_u16 s → is_u16 e → 65537 < Z.of_nat n →
  ∃ xs, drain n (newCircularRangeInclusive s e) = (xs, true) ∧
    NoDup xs ∧ head xs = Some s ∧ last xs = Some e ∧ len xs = e ⊖ s + 1 ∧
    ∀ x, is_u16 x →
      x ∈ xs ↔ Contains (newCircularRangeInclusive s e) x = true.
Proof.
  intros Hs He Hn. set (d := Z.to_nat (e ⊖ s)).
  assert (Hd : Z.of_nat d = e ⊖ s) by (subst d; go_lia).
  assert (Hwf : range_wf (newCircularRangeInclusive s e)) by done.
  exists (range_items s (S d)). split_and!.
  - apply drain_range; [done|done|done|]. go_lia.
  - apply NoDup_range_items. go_lia.
  - by rewrite range_items_cons.
  - unfold range_items. rewrite seq_S, fmap_app. simpl. rewrite last_snoc. f_equal. go_lia.
  - unfold len, range_items. rewrite length_fmap, length_seq. lia.
  - intros x Hx. rewrite (elem_of_range_items s (S d) x), Contains_offset by (done || go_lia).
    unfold cr_dist. simpl. lia.
Qed.

Lemma range_iteration_agrees_with_Contains_witness :
  ∃ xs, drain (Z.to_nat 65538) (newCircularRangeInclusive 65534 1) = (xs, true) ∧
    NoDup xs ∧ head xs = Some 65534 ∧ last xs = Some 1 ∧ len xs = 1 ⊖ 65534 + 1 ∧
    ∀ x, is_u16 x →
      x ∈ xs ↔ Contains (newCircularRangeInclusive 65534 1) x = true.
Proof.
  apply (range_iteration_agrees_with_Contains 65534 1 (Z.to_nat 65538));
    unfold is_u16; lia.
Defined.

Example Contains_wrapping :
  map (Contains (newCircularRangeInclusive 65534 1)) [65533; 65534; 65535; 0; 1; 2]
  = [false; true; true; true; true; false].
Proof. reflexivity. Qed.
