(* ===== verification/SelectiveAck.v ===== *)
(** * Selective acknowledgements (packet.go, lines 131-208)

    A [SelectiveAck] is a list of 32-bit words, each an array of 32 booleans;
    on the wire a word is four bytes, most significant bit first.  The file
    proves that the constructor pads with [false] and loses nothing, and that
    [Encode] and [DecodeSelectiveAck] are inverse to each other. *)

From Stdlib Require Import ZArith Lia.
From stdpp Require Import base list.
From S2P Require Import Prelude.

Definition SELECTIVE_ACK_BITS : nat := 32.

Record SelectiveAck := mkSelectiveAck { sa_acked : list (list bool) }.

(** [var fragment [32]bool; copy(fragment[:], src)] *)
Definition fragment (src : list bool) : list bool :=
  go_copy (replicate SELECTIVE_ACK_BITS false) src.

Definition NewSelectiveAck (acked : list bool) : SelectiveAck :=
  let chunks := (length acked / SELECTIVE_ACK_BITS)%nat in
  let remainder := (length acked mod SELECTIVE_ACK_BITS)%nat in
  let full := (λ i, fragment (take SELECTIVE_ACK_BITS (drop (i * SELECTIVE_ACK_BITS) acked)))
              <$> seq 0 chunks in
  mkSelectiveAck
    (if (0 <? remainder)%nat
     then full ++ [fragment (drop (chunks * SELECTIVE_ACK_BITS) acked)]
     else full).

Definition sa_EncodedLen (s : SelectiveAck) : Z :=
  (len (sa_acked s) * Z.of_nat SELECTIVE_ACK_BITS) `div` 8.

Definition Acked (s : SelectiveAck) : list bool := concat (sa_acked s).

(** The inner loop of [Encode]: the byte of [word[i..i+7]]. *)
Definition sa_byte (word : list bool) (i : nat) : Z :=
  fold_left (λ byteVal j,
      if ((i + j) <? length word)%nat && nth (i + j) word false
      then Z.lor byteVal (u8 (Z.shiftl 1 (7 - Z.of_nat j)))
      else byteVal)
    (seq 0 8) 0.

Definition sa_Encode (s : SelectiveAck) : list Z :=
  concat ((λ word, (sa_byte word) <$> [0; 8; 16; 24]%nat) <$> sa_acked s).

(** The two inner loops of [DecodeSelectiveAck]. *)
Definition byte_bits (byteVal : Z) : list bool :=
  (λ k, negb (Z.land byteVal (Z.shiftl 1 (7 - Z.of_nat k)) =? 0)) <$> seq 0 8.

Definition decode_word (bs : list Z) : list bool := concat (byte_bits <$> bs).

Definition DecodeSelectiveAck (data : list Z) : error + SelectiveAck :=
  if len data <? 4 then inl ErrInsufficientSelectiveAckLen
  else if negb (len data mod 4 =? 0) then inl ErrInvalidSelectiveAckLen
  else inr (mkSelectiveAck
    ((λ i, decode_word (take 4 (drop (4 * i) data))) <$> seq 0 (length data / 4))).

(** Every word is a [[32]bool]. *)
Definition sack_wf (s : SelectiveAck) : Prop :=
  Forall (λ w, length w = SELECTIVE_ACK_BITS) (sa_acked s).

(** ** Splitting a list into blocks of a fixed size *)

Section blocks.
Context {A : Type}.

Definition blocks (n k : nat) (l : list A) : list (list A) :=
  (λ i, take n (drop (n * i) l)) <$> seq 0 k.

Lemma blocks_cons n k (b l : list A) :
  length b = n → blocks n (S k) (b ++ l) = b :: blocks n k l.
Proof.
  intros Hb. unfold blocks. simpl. rewrite Nat.mul_0_r, drop_0.
  rewrite take_app_le, take_ge by lia. f_equal.
  rewrite <- seq_shift, <- list_fmap_compose. apply list_fmap_ext.
  intros j i _. simpl. rewrite Nat.mul_succ_r, Nat.add_comm, <- drop_drop.
  by rewrite drop_app_length' by done.
Qed.

Lemma blocks_concat n (ls : list (list A)) :
  Forall (λ b, length b = n) ls → blocks n (length ls) (concat ls) = ls.
Proof.
  induction 1 as [|b ls Hb Hls IH]; [done|].
  simpl. rewrite blocks_cons by done. by rewrite IH.
Qed.

Lemma concat_blocks n k (l : list A) :
  length l = (n * k)%nat → concat (blocks n k l) = l.
Proof.
  revert l. induction k as [|k IH]; intros l Hl.
  - destruct l; [done|simpl in Hl; lia].
  - rewrite <- (take_drop n l) at 1.
    rewrite blocks_cons by (rewrite length_take; lia). simpl.
    rewrite IH by (rewrite length_drop; lia). apply take_drop.
Qed.

Lemma length_blocks n k (l : list A) : length (blocks n k l) = k.
Proof. unfold blocks. by rewrite length_fmap, length_seq. Qed.

Lemma blocks_length n k (l : list A) :
  (n * k ≤ length l)%nat → Forall (λ b, length b = n) (blocks n k l).
Proof.
  intros Hl. apply Forall_fmap, Forall_seq. intros i Hi. simpl.
  rewrite length_take, length_drop. nia.
Qed.

Lemma length_concat_uniform n (ls : list (list A)) :
  Forall (λ b, length b = n) ls → length (concat ls) = (n * length ls)%nat.
Proof. induction 1; simpl; [lia|]. rewrite length_app. lia. Qed.
End blocks.

(** ** Padding *)

Lemma fragment_eq src :
  fragment src = take 32 src ++ replicate (32 - length src) false.
Proof.
  unfold fragment, go_copy. rewrite length_replicate, drop_replicate. done.
Qed.

Lemma fragment_full src : length src = 32%nat → fragment src = src.
Proof. intros H. rewrite fragment_eq, take_ge, H, app_nil_r; [done|lia]. Qed.

Lemma length_fragment src : length (fragment src) = 32%nat.
Proof. unfold fragment. by rewrite go_copy_length, length_replicate. Qed.

Lemma full_chunks (l : list bool) k :
  (32 * k ≤ length l)%nat →
  (λ i, fragment (take SELECTIVE_ACK_BITS (drop (i * SELECTIVE_ACK_BITS) l))) <$> seq 0 k
  = blocks 32 k l.
Proof.
  intros Hk. unfold blocks. apply list_fmap_ext. intros j i Hi.
  apply lookup_seq in Hi as [-> Hj]. unfold SELECTIVE_ACK_BITS. simpl plus.
  rewrite (Nat.mul_comm j). apply fragment_full. rewrite length_take, length_drop. lia.
Qed.

Lemma concat_blocks_prefix {A} n k (l : list A) :
  (n * k ≤ length l)%nat → concat (blocks n k l) = take (n * k) l.
Proof.
  intros Hl. transitivity (concat (blocks n k (take (n * k) l))).
  - f_equal. unfold blocks. apply list_fmap_ext. intros j i [-> Hj]%lookup_seq. simpl.
    rewrite skipn_firstn_comm, take_take. f_equal. nia.
  - apply concat_blocks. rewrite length_take. lia.
Qed.

Lemma NewSelectiveAck_wf l : sack_wf (NewSelectiveAck l).
Proof.
  unfold sack_wf, NewSelectiveAck. simpl.
  assert (Forall (λ w, length w = SELECTIVE_ACK_BITS)
    ((λ i, fragment (take SELECTIVE_ACK_BITS (drop (i * SELECTIVE_ACK_BITS) l)))
       <$> seq 0 (length l / SELECTIVE_ACK_BITS))).
  { apply Forall_fmap, Forall_seq. intros. apply length_fragment. }
  case_match; [|done]. apply Forall_app. split; [done|].
  apply Forall_singleton, length_fragment.
Qed.

(** The number of padding bits. *)
Definition sack_pad (n : nat) : nat := ((32 - n mod 32) mod 32)%nat.

Lemma Acked_NewSelectiveAck l :
  Acked (NewSelectiveAck l) = l ++ replicate (sack_pad (length l)) false.
Proof.
  unfold Acked, NewSelectiveAck, sack_pad. simpl sa_acked.
  pose proof (Nat.div_mod_eq (length l) 32) as Hdm.
  pose proof (Nat.mod_upper_bound (length l) 32).
  rewrite full_chunks by (unfold SELECTIVE_ACK_BITS; lia). unfold SELECTIVE_ACK_BITS in *.
  destruct (Nat.ltb_spec 0 (length l mod 32)) as [Hr|Hr].
  - rewrite concat_app, concat_blocks_prefix by lia. simpl. rewrite app_nil_r, fragment_eq.
    rewrite (Nat.mul_comm _ 32). rewrite (take_ge _ 32) by (rewrite length_drop; lia).
    rewrite app_assoc, take_drop. f_equal. f_equal. rewrite length_drop, Nat.mod_small; lia.
  - replace (length l mod 32)%nat with 0%nat by lia. simpl. rewrite app_nil_r.
    rewrite concat_blocks_prefix by lia. apply take_ge. lia.
Qed.

Lemma length_NewSelectiveAck l :
  length (sa_acked (NewSelectiveAck l)) = ((length l + 31) / 32)%nat.
Proof.
  unfold NewSelectiveAck. simpl sa_acked. unfold SELECTIVE_ACK_BITS.
  destruct (Nat.ltb_spec 0 (length l mod 32));
    rewrite ?length_app, length_fmap, length_seq; simpl;
    pose proof (Nat.div_mod_eq (length l) 32);
    pose proof (Nat.mod_upper_bound (length l) 32).
  - apply Nat.div_unique with (length l mod 32 - 1)%nat; lia.
  - apply Nat.div_unique with 31%nat; lia.
Qed.

(** ** The bit order of a byte *)

(** The byte of eight bits, most significant first. *)
Definition bits_byte (bs : list bool) : Z :=
  fold_left (λ v b, 2 * v + Z.b2z b) bs 0.

Lemma sa_byte_bits w i :
  (i + 8 ≤ length w)%nat → sa_byte w i = bits_byte (take 8 (drop i w)).
Proof.
  intros Hi. rewrite <- (take_drop i w) at 1.
  assert (Hp : length (take i w) = i) by (rewrite length_take; lia).
  assert (Hd : (8 ≤ length (drop i w))%nat) by (rewrite length_drop; lia).
  revert Hp Hd. generalize (take i w) as p, (drop i w) as q. intros p q <- Hd.
  do 8 (destruct q as [|? q]; [simpl in Hd; lia|]). clear Hd.
  unfold sa_byte. cbn [seq fold_left].
  repeat match goal with
  | |- context [(length p + ?j <? length ?l)%nat] =>
      replace (length p + j <? length l)%nat with true
        by (symmetry; apply Nat.ltb_lt; rewrite length_app; simpl; lia)
  end.
  repeat match goal with
  | |- context [nth (length p + ?j) (p ++ ?l) false] =>
      replace (nth (length p + j) (p ++ l) false) with (nth j l false)
        by (rewrite app_nth2_plus; done)
  end.
  cbn [nth andb]. destruct b, b0, b1, b2, b3, b4, b5, b6; reflexivity.
Qed.

Lemma byte_bits_bits_byte bs :
  length bs = 8%nat → byte_bits (bits_byte bs) = bs.
Proof.
  intros H. do 8 (destruct bs as [|? bs]; [discriminate|]). destruct bs; [|discriminate].
  destruct b, b0, b1, b2, b3, b4, b5, b6; reflexivity.
Qed.

Lemma bits_byte_byte_bits c : is_u8 c → bits_byte (byte_bits c) = c.
Proof.
  intros Hc.
  assert (Hall : Forall (λ n, bits_byte (byte_bits (Z.of_nat n)) = Z.of_nat n) (seq 0 256)).
  { apply Forall_forall. intros n Hn.
    assert (forallb (λ n, bits_byte (byte_bits (Z.of_nat n)) =? Z.of_nat n) (seq 0 256) = true)
      as Hb by (vm_compute; reflexivity).
    rewrite forallb_forall in Hb. apply Z.eqb_eq, Hb. by apply list_elem_of_In. }
  rewrite Forall_seq in Hall. specialize (Hall (Z.to_nat c)).
  rewrite Z2Nat.id in Hall by go_lia. apply Hall. go_lia.
Qed.

Lemma length_byte_bits c : length (byte_bits c) = 8%nat.
Proof. reflexivity. Qed.

Lemma bits_byte_range bs : length bs = 8%nat → is_u8 (bits_byte bs).
Proof.
  intros H. do 8 (destruct bs as [|? bs]; [discriminate|]). destruct bs; [|discriminate].
  destruct b, b0, b1, b2, b3, b4, b5, b6; vm_compute; split; congruence.
Qed.

(** ** Words *)

Definition encode_word (w : list bool) : list Z := sa_byte w <$> [0; 8; 16; 24]%nat.

Lemma encode_word_bits w :
  length w = 32%nat → encode_word w = bits_byte <$> blocks 8 4 w.
Proof.
  intros Hw. unfold encode_word, blocks. simpl.
  rewrite !sa_byte_bits by lia. by rewrite drop_0.
Qed.

Lemma decode_encode_word w : length w = 32%nat → decode_word (encode_word w) = w.
Proof.
  intros Hw. unfold decode_word. rewrite encode_word_bits, <- list_fmap_compose by done.
  transitivity (concat (blocks 8 4 w)); [|by apply concat_blocks].
  f_equal. transitivity (id <$> blocks 8 4 w); [|apply list_fmap_id].
  apply list_fmap_ext. intros j b Hb. apply byte_bits_bits_byte.
  pose proof (blocks_length 8 4 w ltac:(lia)) as HF. rewrite Forall_lookup in HF. eauto.
Qed.

Lemma length_decode_word bs : length (decode_word bs) = (8 * length bs)%nat.
Proof.
  unfold decode_word. rewrite (length_concat_uniform 8), length_fmap; [done|].
  apply Forall_fmap, Forall_true. done.
Qed.

Lemma encode_decode_word bs :
  Forall is_u8 bs → length bs = 4%nat → encode_word (decode_word bs) = bs.
Proof.
  intros Hb Hl. rewrite encode_word_bits by (rewrite length_decode_word; lia).
  unfold decode_word. pose proof (blocks_concat 8 (byte_bits <$> bs)) as HB.
  rewrite length_fmap, Hl in HB. rewrite HB by (apply Forall_fmap, Forall_true; done).
  rewrite <- list_fmap_compose. transitivity (id <$> bs); [|apply list_fmap_id].
  apply list_fmap_ext. intros j c Hc. rewrite Forall_lookup in Hb.
  apply bits_byte_byte_bits. eauto.
Qed.

Lemma encode_word_range w : length w = 32%nat → Forall is_u8 (encode_word w).
Proof.
  intros Hw. rewrite encode_word_bits by done. apply Forall_fmap.
  eapply Forall_impl; [apply (blocks_length 8 4); lia|]. apply bits_byte_range.
Qed.

Lemma length_encode_word w : length (encode_word w) = 4%nat.
Proof. reflexivity. Qed.

(** ** Encoding and decoding *)

Lemma sa_Encode_words s : sa_Encode s = concat (encode_word <$> sa_acked s).
Proof. reflexivity. Qed.

Lemma length_sa_Encode s : length (sa_Encode s) = (4 * length (sa_acked s))%nat.
Proof.
  rewrite sa_Encode_words, (length_concat_uniform 4), length_fmap; [done|].
  apply Forall_fmap, Forall_true. apply length_encode_word.
Qed.

Lemma sa_EncodedLen_words s : sa_EncodedLen s = 4 * len (sa_acked s).
Proof. unfold sa_EncodedLen, SELECTIVE_ACK_BITS. go_lia. Qed.

Lemma sa_EncodedLen_correct s : sa_EncodedLen s = len (sa_Encode s).
Proof. rewrite sa_EncodedLen_words. unfold len. rewrite length_sa_Encode. lia. Qed.

Lemma decode_encode_sack s :
  sack_wf s → sa_acked s ≠ [] → DecodeSelectiveAck (sa_Encode s) = inr s.
Proof.
  intros Hwf Hne. unfold DecodeSelectiveAck, len. rewrite length_sa_Encode.
  assert (0 < length (sa_acked s))%nat by (destruct (sa_acked s); simpl; [done|lia]).
  case_bool; [|go_lia]. case_bool; [lia|]. cbn [negb]. f_equal. destruct s as [ws]. f_equal.
  cbn [sa_acked] in *. replace (4 * length ws / 4)%nat with (length ws)
    by (symmetry; rewrite Nat.mul_comm; by apply Nat.div_mul).
  pose proof (blocks_concat 4 (encode_word <$> ws)
    ltac:(apply Forall_fmap, Forall_true; apply length_encode_word)) as HB.
  rewrite length_fmap in HB.
  transitivity (decode_word <$> (encode_word <$> ws)).
  { rewrite <- HB. unfold blocks. by rewrite <- list_fmap_compose. }
  rewrite <- list_fmap_compose. transitivity (id <$> ws); [|apply list_fmap_id].
  apply list_fmap_ext. intros j w Hw. unfold sack_wf in Hwf. rewrite Forall_lookup in Hwf.
  apply decode_encode_word. eauto.
Qed.

Lemma encode_decode_sack data s :
  Forall is_u8 data → DecodeSelectiveAck data = inr s →
  sa_Encode s = data ∧ sack_wf s ∧ sa_acked s ≠ [].
Proof.
  intros Hb. unfold DecodeSelectiveAck. case_bool; [|by case_bool]. case_bool; [done|].
  intros [= <-]. cbn [sa_acked]. set (k := (length data / 4)%nat).
  assert (Hk : length data = (4 * k)%nat)
    by (subst k; apply Nat.Div0.div_exact; unfold len in *; rewrite <- (Nat2Z.id (_ mod _));
        rewrite Nat2Z.inj_mod; go_lia).
  assert (HF : Forall (λ b, length b = 4%nat) (blocks 4 k data)) by (apply blocks_length; lia).
  assert (HB : Forall (Forall is_u8) (blocks 4 k data)).
  { apply Forall_fmap, Forall_true. intros i. by apply Forall_take, Forall_drop. }
  split_and!.
  - rewrite sa_Encode_words. simpl.
    transitivity (concat (blocks 4 k data)); [|by apply concat_blocks].
    f_equal. rewrite <- list_fmap_compose. apply list_fmap_ext. intros j i Hi. simpl.
    rewrite Forall_lookup in HF, HB.
    assert (Hj : blocks 4 k data !! j = Some (take 4 (drop (4 * i) data)))
      by (unfold blocks; rewrite list_lookup_fmap, Hi; done).
    apply encode_decode_word; eauto.
  - apply Forall_fmap. eapply (Forall_fmap (λ i, take 4 (drop (4 * i) data))) in HF.
    eapply Forall_impl; [exact HF|]. simpl. intros i Hi. rewrite length_decode_word, Hi. done.
  - unfold len in *. destruct k; [lia|done].
Qed.

(** A selective ack made from any non-empty bit list survives the wire:
    decoding its encoding gives it back, its bits are the given ones followed
    by fewer than 32 [false] bits, and it takes four bytes per started word. *)
Theorem SelectiveAck_wire_roundtrip (l : list bool) :
  l ≠ [] →
  DecodeSelectiveAck (sa_Encode (NewSelectiveAck l)) = inr (NewSelectiveAck l) ∧
  Acked (NewSelectiveAck l) = l ++ replicate (sack_pad (length l)) false ∧
  (sack_pad (length l) < 32)%nat ∧
  len (sa_Encode (NewSelectiveAck l)) = 4 * ((len l + 31) `div` 32).
Proof.
  intros Hl. split_and!.
  - apply decode_encode_sack; [apply NewSelectiveAck_wf|].
    intros H%(f_equal length). rewrite length_NewSelectiveAck in H. simpl in H.
    assert (0 < length l)%nat by (destruct l; simpl; [done|lia]).
    apply Nat.div_small_iff in H; lia.
  - apply Acked_NewSelectiveAck.
  - apply Nat.mod_upper_bound. done.
  - unfold len. rewrite length_sa_Encode, length_NewSelectiveAck.
    rewrite Nat2Z.inj_mul, Nat2Z.inj_div, Nat2Z.inj_add. done.
Qed.

Lemma SelectiveAck_wire_roundtrip_witness :
  [true; false; true] ≠ [] ∧
  DecodeSelectiveAck (sa_Encode (NewSelectiveAck [true; false; true]))
  = inr (NewSelectiveAck [true; false; true]).
Proof.
  split; [done|]. apply (SelectiveAck_wire_roundtrip [true; false; true]). done.
Defined.

(** [DecodeSelectiveAck] accepts exactly the byte strings of positive
    length divisible by four, and what it accepts is what [Encode] writes. *)
Theorem DecodeSelectiveAck_complete (data : list Z) :
  Forall is_u8 data →
  match DecodeSelectiveAck data with
  | inr s => 4 ≤ len data ∧ len data mod 4 = 0 ∧
             sa_Encode s = data ∧ sack_wf s ∧ len (sa_acked s) = len data `div` 4
  | inl e => len data < 4 ∧ e = ErrInsufficientSelectiveAckLen ∨
             4 ≤ len data ∧ len data mod 4 ≠ 0 ∧ e = ErrInvalidSelectiveAckLen
  end.
Proof.
  intros Hb. destruct (DecodeSelectiveAck data) as [e|s] eqn:E.
  - unfold DecodeSelectiveAck in E. do 2 case_bool; simplify_eq/=; auto with lia.
  - destruct (encode_decode_sack data s Hb E) as (He & Hwf & Hne).
    unfold DecodeSelectiveAck in E. do 2 case_bool; simplify_eq.
    split_and!; auto. unfold len. rewrite length_sa_Encode. go_lia.
Qed.

Lemma DecodeSelectiveAck_complete_witness :
  Forall is_u8 [128; 0; 0; 1] ∧
  sa_Encode (mkSelectiveAck [decode_word [128; 0; 0; 1]]) = [128; 0; 0; 1].
Proof.
  assert (Forall is_u8 [128; 0; 0; 1]) by (repeat constructor; unfold is_u8; lia).
  split; [done|]. apply (DecodeSelectiveAck_complete [128; 0; 0; 1]). done.
Defined.
