(* ===== verification/Packet.v ===== *)
(** * Packets and their wire format (packet.go)

    The header, the packet, the encoder, the decoder and the builder of
    packet.go.  A byte is a [Z] below 256.  [PacketType] is the five-valued
    enumeration of the constants; [PacketType_of_byte] is the conversion of a
    nibble followed by [Check].  The decoder works in the [outcome] monad, so
    that its index and slice expressions can panic in the model as they can in
    Go; the theorems show that they never do, on any input. *)

From Stdlib Require Import ZArith Lia.
From stdpp Require Import base list sets.
From S2P Require Import Prelude.
From S2P Require Import SelectiveAck.

Definition MINIMAL_HEADER_SIZE : Z := 20.
Definition PROTOCOL_VERSION_ONE : Z := 1.
Definition EXTENSION_TYPE_LEN : Z := 1.
Definition EXTENSION_LEN_LEN : Z := 1.

Inductive PacketType := st_data | st_fin | st_state | st_reset | st_syn.

#[global] Instance PacketType_eq_dec : EqDecision PacketType.
Proof. solve_decision. Defined.

Definition PacketType_byte (t : PacketType) : Z :=
  match t with
  | st_data => 0 | st_fin => 1 | st_state => 2 | st_reset => 3 | st_syn => 4
  end.

(** [PacketType(b)] and [Check]. *)
Definition PacketType_of_byte (b : Z) : error + PacketType :=
  if 4 <? b then inl ErrInvalidPacketType
  else inr (if b =? 0 then st_data else if b =? 1 then st_fin
            else if b =? 2 then st_state else if b =? 3 then st_reset else st_syn).

Record PacketHeaderV1 := mkHeader {
  h_PacketType : PacketType;
  h_Version : Z;
  h_Extension : Z;
  h_ConnectionId : Z;
  h_Timestamp : Z;
  h_TimestampDiff : Z;
  h_WndSize : Z;
  h_SeqNum : Z;
  h_AckNum : Z;
}.

(** ** Big-endian integers (encoding/binary) *)

Definition AppendUint16 (b : list Z) (v : Z) : list Z :=
  b ++ [u8 (Z.shiftr v 8); u8 v].
Definition AppendUint32 (b : list Z) (v : Z) : list Z :=
  b ++ [u8 (Z.shiftr v 24); u8 (Z.shiftr v 16); u8 (Z.shiftr v 8); u8 v].

Definition BE_Uint16 (b : list Z) : outcome Z :=
  b1 ← index b 1; b0 ← index b 0;
  mret (Z.lor b1 (Z.shiftl b0 8)).
Definition BE_Uint32 (b : list Z) : outcome Z :=
  b3 ← index b 3; b2 ← index b 2; b1 ← index b 1; b0 ← index b 0;
  mret (Z.lor (Z.lor (Z.lor b3 (Z.shiftl b2 8)) (Z.shiftl b1 16)) (Z.shiftl b0 24)).

(** ** The header *)

Definition encodeTypeVer (h : PacketHeaderV1) : Z :=
  Z.lor (u8 (Z.shiftl (PacketType_byte (h_PacketType h)) 4)) (h_Version h).

Definition EncodeToBytes (h : PacketHeaderV1) : list Z :=
  let b := [encodeTypeVer h; h_Extension h] in
  let b := AppendUint16 b (h_ConnectionId h) in
  let b := AppendUint32 b (u32 (h_Timestamp h)) in
  let b := AppendUint32 b (h_TimestampDiff h) in
  let b := AppendUint32 b (h_WndSize h) in
  let b := AppendUint16 b (h_SeqNum h) in
  AppendUint16 b (h_AckNum h).

Definition DecodePacketHeader (value : list Z) : fallible PacketHeaderV1 :=
  if len value <? MINIMAL_HEADER_SIZE then fail ErrInvalidHeaderSize
  else
    v0 ← index value 0;
    match PacketType_of_byte (Z.shiftr v0 4) with
    | inl err => fail err
    | inr packetTypeVal =>
        let version := Z.land v0 15 in
        extension ← index value 1;
        connID ← slice value 2 4 ≫= BE_Uint16;
        tsMicros ← slice value 4 8 ≫= BE_Uint32;
        tsDiffMicros ← slice value 8 12 ≫= BE_Uint32;
        windowSize ← slice value 12 16 ≫= BE_Uint32;
        seqNum ← slice value 16 18 ≫= BE_Uint16;
        ackNum ← slice value 18 20 ≫= BE_Uint16;
        ok (mkHeader packetTypeVal version extension connID tsMicros
                     tsDiffMicros windowSize seqNum ackNum)
    end.

(** ** The packet *)

Record packet := mkPacket {
  Header : PacketHeaderV1;
  Eack : option SelectiveAck;
  Body : list Z;
}.

Definition EncodedLen (p : packet) : Z :=
  let length := MINIMAL_HEADER_SIZE in
  let length := match Eack p with
                | Some e => length + (sa_EncodedLen e + EXTENSION_TYPE_LEN + EXTENSION_LEN_LEN)
                | None => length
                end in
  length + len (Body p).

Definition Encode (p : packet) : list Z :=
  EncodeToBytes (Header p)
  ++ match Eack p with
     | Some e => let ack := sa_Encode e in [0; u8 (len ack)] ++ ack
     | None => []
     end
  ++ Body p.

Record ExtensionData := mkExt { ext_extension : Z; ext_payload : list Z }.

(** The loop of [DecodeRawExtensions]; every iteration advances [idx] by at
    least two, so [length data + 1] iterations are enough. *)
Fixpoint raw_extensions (fuel : nat) (ext : Z) (idx : Z) (data : list Z)
    (extensions : list ExtensionData) : fallible (list ExtensionData * Z) :=
  match fuel with
  | O => NoFuel
  | S fuel =>
      if ext =? 0 then ok (extensions, idx)
      else
        rest ← slice_from data idx;
        if len rest <? 2 then fail ErrInsufficientLen
        else
          nextExt ← index data idx;
          extLen ← index data (idx + 1);
          let extStart := idx + 2 in
          rest' ← slice_from data extStart;
          if len rest' <? extLen then fail ErrInsufficientLen
          else
            extData ← slice data extStart (extStart + extLen);
            raw_extensions fuel nextExt (extStart + extLen) data
              (extensions ++ [mkExt ext extData])
  end.

Definition DecodeRawExtensions (firstExt : Z) (data : list Z)
    : fallible (list ExtensionData * Z) :=
  raw_extensions (S (length data)) firstExt 0 data [].

(** [var extension ExtensionData; for ... if e.extension == 1 { extension = e }] *)
Definition last_sack_ext (extensions : list ExtensionData) : ExtensionData :=
  fold_left (λ acc e, if ext_extension e =? 1 then e else acc) extensions (mkExt 0 []).

Definition DecodePacket (b : list Z) : fallible packet :=
  if len b <? MINIMAL_HEADER_SIZE then fail ErrInvalidHeaderSize
  else
    hb ← slice b 0 MINIMAL_HEADER_SIZE;
    header ←? DecodePacketHeader hb;
    rest ← slice_from b MINIMAL_HEADER_SIZE;
    '(extensions, extensionsLen) ←? DecodeRawExtensions (h_Extension header) rest;
    let extension := last_sack_ext extensions in
    ack ←? (if negb (len (ext_payload extension) =? 0)
            then match DecodeSelectiveAck (ext_payload extension) with
                 | inl err => fail err
                 | inr a => ok (Some a)
                 end
            else ok None);
    let payloadStartIndex := MINIMAL_HEADER_SIZE + extensionsLen in
    payload ← (if len b =? payloadStartIndex then mret []
               else slice_from b payloadStartIndex);
    if bool_decide (h_PacketType header = st_data) && (len payload =? 0)
    then fail ErrEmptyDataPayload
    else ok (mkPacket header ack payload).

(** ** The builder *)

Record PacketBuilder := mkBuilder {
  b_packetType : PacketType;
  b_connID : Z;
  b_tsMicros : Z;
  b_tsDiffMicros : Z;
  b_windowSize : Z;
  b_seqNum : Z;
  b_ackNum : Z;
  b_selectiveAck : option SelectiveAck;
  b_payload : list Z;
}.

Definition NewPacketBuilder (packetType : PacketType)
    (connID tsMicros windowSize seqNum : Z) : PacketBuilder :=
  mkBuilder packetType connID tsMicros 0 windowSize seqNum 0 None [].

Definition WithTsMicros (ts : Z) (b : PacketBuilder) : PacketBuilder :=
  mkBuilder (b_packetType b) (b_connID b) ts (b_tsDiffMicros b) (b_windowSize b)
    (b_seqNum b) (b_ackNum b) (b_selectiveAck b) (b_payload b).
Definition WithTsDiffMicros (d : Z) (b : PacketBuilder) : PacketBuilder :=
  mkBuilder (b_packetType b) (b_connID b) (b_tsMicros b) d (b_windowSize b)
    (b_seqNum b) (b_ackNum b) (b_selectiveAck b) (b_payload b).
Definition WithWindowSize (w : Z) (b : PacketBuilder) : PacketBuilder :=
  mkBuilder (b_packetType b) (b_connID b) (b_tsMicros b) (b_tsDiffMicros b) w
    (b_seqNum b) (b_ackNum b) (b_selectiveAck b) (b_payload b).
Definition WithAckNum (a : Z) (b : PacketBuilder) : PacketBuilder :=
  mkBuilder (b_packetType b) (b_connID b) (b_tsMicros b) (b_tsDiffMicros b) (b_windowSize b)
    (b_seqNum b) a (b_selectiveAck b) (b_payload b).
Definition WithSelectiveAck (s : option SelectiveAck) (b : PacketBuilder) : PacketBuilder :=
  mkBuilder (b_packetType b) (b_connID b) (b_tsMicros b) (b_tsDiffMicros b) (b_windowSize b)
    (b_seqNum b) (b_ackNum b) s (b_payload b).
Definition WithPayload (p : list Z) (b : PacketBuilder) : PacketBuilder :=
  mkBuilder (b_packetType b) (b_connID b) (b_tsMicros b) (b_tsDiffMicros b) (b_windowSize b)
    (b_seqNum b) (b_ackNum b) (b_selectiveAck b) p.

Definition Build (b : PacketBuilder) : packet :=
  let headerExtension := match b_selectiveAck b with Some _ => 1 | None => 0 end in
  mkPacket
    (mkHeader (b_packetType b) PROTOCOL_VERSION_ONE headerExtension (b_connID b)
       (b_tsMicros b) (b_tsDiffMicros b) (b_windowSize b) (b_seqNum b) (b_ackNum b))
    (b_selectiveAck b) (b_payload b).

(** ** Well-formed packets *)

(** The ranges that the field types of the struct enforce, together with the
    4-bit version that fits the first byte. *)
Record header_wf (h : PacketHeaderV1) : Prop := {
  hw_version : 0 ≤ h_Version h < 16;
  hw_extension : is_u8 (h_Extension h);
  hw_connid : is_u16 (h_ConnectionId h);
  hw_tsdiff : is_u32 (h_TimestampDiff h);
  hw_wnd : is_u32 (h_WndSize h);
  hw_seq : is_u16 (h_SeqNum h);
  hw_ack : is_u16 (h_AckNum h);
}.

(** A selective ack whose byte length fits the one-byte length field. *)
Definition sack_encodable (s : SelectiveAck) : Prop :=
  sack_wf s ∧ 1 ≤ len (sa_acked s) ≤ 63.

(** The extension byte announces the selective ack that follows the header. *)
Definition ext_consistent (p : packet) : Prop :=
  match Eack p with
  | None => h_Extension (Header p) = 0
  | Some s => h_Extension (Header p) = 1 ∧ sack_encodable s
  end.

Definition packet_wf (p : packet) : Prop :=
  header_wf (Header p) ∧ ext_consistent p ∧
  (h_PacketType (Header p) = st_data → Body p ≠ []).

(** What the wire keeps of a packet: the low 32 bits of the timestamp. *)
Definition wire_header (h : PacketHeaderV1) : PacketHeaderV1 :=
  mkHeader (h_PacketType h) (h_Version h) (h_Extension h) (h_ConnectionId h)
    (u32 (h_Timestamp h)) (h_TimestampDiff h) (h_WndSize h) (h_SeqNum h) (h_AckNum h).
Definition wire_packet (p : packet) : packet :=
  mkPacket (wire_header (Header p)) (Eack p) (Body p).

(** ** Integers on the wire *)

Lemma BE_Uint16_Append v :
  is_u16 v → BE_Uint16 [u8 (Z.shiftr v 8); u8 v] = Ret v.
Proof.
  intros Hv. lazy -[u8 Z.lor Z.shiftl Z.shiftr]. f_equal.
  rewrite lor_shiftl_add, Z.shiftr_div_pow2 by (lia || apply u8_range). go_lia.
Qed.

Lemma BE_Uint32_Append v :
  is_u32 v →
  BE_Uint32 [u8 (Z.shiftr v 24); u8 (Z.shiftr v 16); u8 (Z.shiftr v 8); u8 v] = Ret v.
Proof.
  intros Hv. lazy -[u8 Z.lor Z.shiftl Z.shiftr]. f_equal.
  pose proof (u8_range v). pose proof (u8_range (Z.shiftr v 8)).
  pose proof (u8_range (Z.shiftr v 16)). unfold is_u8 in *.
  rewrite (lor_shiftl_add (u8 v)), (lor_shiftl_add _ _ 16), (lor_shiftl_add _ _ 24) by lia.
  rewrite !Z.shiftr_div_pow2 by lia. clear -Hv. go_lia.
Qed.

(** Integers read from the wire fit their width. *)
Lemma BE_Uint16_range b0 b1 v :
  is_u8 b0 → is_u8 b1 → BE_Uint16 [b0; b1] = Ret v → is_u16 v.
Proof.
  intros ?? H. lazy -[Z.lor Z.shiftl is_u8 is_u16] in H. injection H as <-.
  rewrite lor_shiftl_add by go_lia. go_lia.
Qed.

(** ** The header round trip *)

Lemma encodeTypeVer_fields t v :
  0 ≤ v < 16 →
  Z.shiftr (Z.lor (u8 (Z.shiftl (PacketType_byte t) 4)) v) 4 = PacketType_byte t ∧
  Z.land (Z.lor (u8 (Z.shiftl (PacketType_byte t) 4)) v) 15 = v.
Proof.
  intros Hv. assert (Hin : v ∈ seqZ 0 16) by (apply elem_of_seqZ; lia).
  clear Hv. revert v Hin. apply Forall_forall.
  destruct t; vm_compute; repeat constructor.
Qed.

Lemma PacketType_roundtrip t : PacketType_of_byte (PacketType_byte t) = inr t.
Proof. by destruct t. Qed.

Lemma length_EncodeToBytes h : length (EncodeToBytes h) = 20%nat.
Proof. reflexivity. Qed.

(** The decoder on twenty bytes. *)
Lemma DecodePacketHeader_bytes b0 b1 b2 b3 b4 b5 b6 b7 b8 b9 b10 b11 b12 b13 b14 b15
    b16 b17 b18 b19 :
  DecodePacketHeader [b0; b1; b2; b3; b4; b5; b6; b7; b8; b9; b10; b11; b12; b13; b14;
                      b15; b16; b17; b18; b19]
  = match PacketType_of_byte (Z.shiftr b0 4) with
    | inl err => fail err
    | inr t =>
        connID ← BE_Uint16 [b2; b3];
        ts ← BE_Uint32 [b4; b5; b6; b7];
        td ← BE_Uint32 [b8; b9; b10; b11];
        w ← BE_Uint32 [b12; b13; b14; b15];
        sq ← BE_Uint16 [b16; b17];
        ak ← BE_Uint16 [b18; b19];
        ok (mkHeader t (Z.land b0 15) b1 connID ts td w sq ak)
    end.
Proof. lazy -[Z.shiftr Z.land Z.lor PacketType_of_byte BE_Uint16 BE_Uint32]. done. Qed.

Lemma DecodePacketHeader_Encode h :
  header_wf h → DecodePacketHeader (EncodeToBytes h) = ok (wire_header h).
Proof.
  intros [? ? ? ? ? ? ?]. destruct h as [t v e c ts td w sq ak]. simpl in *.
  destruct (encodeTypeVer_fields t v) as [Ht Hv]; [done|].
  unfold EncodeToBytes, encodeTypeVer, AppendUint16, AppendUint32. cbn [h_PacketType h_Version
    h_Extension h_ConnectionId h_Timestamp h_TimestampDiff h_WndSize h_SeqNum h_AckNum app].
  rewrite DecodePacketHeader_bytes, Ht, PacketType_roundtrip, Hv.
  rewrite !BE_Uint16_Append, !BE_Uint32_Append by (done || apply u32_range). done.
Qed.

(** ** The extension chain *)

(** An iteration of the loop, on data split at the read position. *)
Lemma raw_extensions_step fuel ext next l pre payload post acc :
  ext ≠ 0 → len payload = l →
  raw_extensions (S fuel) ext (len pre) (pre ++ next :: l :: payload ++ post) acc
  = raw_extensions fuel next (len pre + 2 + l) (pre ++ next :: l :: payload ++ post)
      (acc ++ [mkExt ext payload]).
Proof.
  intros Hext Hl. set (data := pre ++ next :: l :: payload ++ post).
  assert (Hlen : len data = len pre + 2 + l + len post).
  { subst data. autorewrite with go. lia. }
  pose proof (len_nonneg pre). pose proof (len_nonneg payload). pose proof (len_nonneg post).
  cbn [raw_extensions]. case_bool; [done|].
  rewrite (slice_from_Ret data (len pre)) by lia. cbn [mbind outcome_bind].
  case_bool; [rewrite len_drop in *; lia|].
  assert (Hp : length pre = Z.to_nat (len pre)) by (unfold len; lia).
  assert (Hi0 : index data (len pre) = Ret next).
  { unfold len. apply index_Ret. subst data. by rewrite list_lookup_middle. }
  assert (Hi1 : index data (len pre + 1) = Ret l).
  { replace (len pre + 1) with (Z.of_nat (S (length pre))) by (unfold len; lia).
    apply index_Ret. subst data. rewrite lookup_app_r by lia.
    by replace (S (length pre) - length pre)%nat with 1%nat by lia. }
  rewrite Hi0. cbn [mbind outcome_bind]. rewrite Hi1. cbn [mbind outcome_bind].
  rewrite (slice_from_Ret data (len pre + 2)) by lia. cbn [mbind outcome_bind].
  case_bool; [rewrite len_drop in *; lia|].
  rewrite slice_Ret by lia. cbn [mbind outcome_bind].
  replace (Z.to_nat (len pre + 2)) with (length pre + 2)%nat by (unfold len; lia).
  replace (Z.to_nat (len pre + 2 + l - (len pre + 2))) with (length payload)
    by (unfold len in *; lia).
  subst data. rewrite drop_app_add. cbn [drop]. by rewrite drop_0, take_app_length.
Qed.

Lemma raw_extensions_stop fuel idx data acc :
  raw_extensions (S fuel) 0 idx data acc = ok (acc, idx).
Proof. reflexivity. Qed.

Lemma DecodeRawExtensions_none data : DecodeRawExtensions 0 data = ok ([], 0).
Proof. apply raw_extensions_stop. Qed.

Lemma DecodeRawExtensions_sack l payload post :
  len payload = l →
  DecodeRawExtensions 1 (0 :: l :: payload ++ post) = ok ([mkExt 1 payload], 2 + l).
Proof.
  intros Hl. unfold DecodeRawExtensions.
  pose proof (raw_extensions_step (S (S (length (payload ++ post)))) 1 0 l [] payload post []
    ltac:(done) Hl) as Hs. cbn [app] in Hs. change (len (@nil Z)) with 0 in Hs.
  cbn [length]. rewrite Hs. rewrite raw_extensions_stop. done.
Qed.

(** ** Decoding, split at the header *)

(** The part of [DecodePacket] that follows the header, on the bytes after it. *)
Definition decode_body (header : PacketHeaderV1) (rest : list Z) : fallible packet :=
  '(extensions, extensionsLen) ←? DecodeRawExtensions (h_Extension header) rest;
  let extension := last_sack_ext extensions in
  ack ←? (if negb (len (ext_payload extension) =? 0)
          then match DecodeSelectiveAck (ext_payload extension) with
               | inl err => fail err
               | inr a => ok (Some a)
               end
          else ok None);
  payload ← slice_from rest extensionsLen;
  if bool_decide (h_PacketType header = st_data) && (len payload =? 0)
  then fail ErrEmptyDataPayload
  else ok (mkPacket header ack payload).

Lemma slice_from_app {A} (hb rest : list A) i :
  0 ≤ i → slice_from (hb ++ rest) (len hb + i) = slice_from rest i.
Proof.
  intros Hi. unfold slice_from, slice. rewrite len_app.
  pose proof (len_nonneg hb). pose proof (len_nonneg rest).
  repeat case_bool; simpl; try lia; try done. f_equal.
  replace (Z.to_nat (len hb + i)) with (length hb + Z.to_nat i)%nat by (unfold len; lia).
  rewrite drop_app_add. f_equal. lia.
Qed.

Lemma raw_extensions_idx fuel ext idx data acc exts n :
  0 ≤ idx → raw_extensions fuel ext idx data acc = Ret (inr (exts, n)) → Forall is_u8 data →
  idx ≤ n.
Proof.
  intros Hi H Hb. revert ext idx acc Hi H. induction fuel as [|fuel IH]; [done|].
  intros ext idx acc Hi H. cbn [raw_extensions] in H. case_bool.
  { unfold ok in H. outcome_inv. lia. }
  apply outcome_bind_Ret_inv in H as (rest & Hr & H). destruct (_ <? 2); [done|].
  apply outcome_bind_Ret_inv in H as (nx & _ & H).
  apply outcome_bind_Ret_inv in H as (el & Hel & H).
  apply outcome_bind_Ret_inv in H as (rest' & _ & H). destruct (_ <? el); [done|].
  apply outcome_bind_Ret_inv in H as (d & _ & H).
  apply index_inv in Hel as [_ Hel]. rewrite Forall_lookup in Hb. apply Hb in Hel.
  apply IH in H; go_lia.
Qed.

Lemma DecodePacket_split hb rest :
  len hb = 20 → Forall is_u8 rest →
  DecodePacket (hb ++ rest) =
  (header ←? DecodePacketHeader hb; decode_body header rest).
Proof.
  intros Hhb Hb. unfold DecodePacket, MINIMAL_HEADER_SIZE. pose proof (len_nonneg rest).
  case_bool; [rewrite len_app in *; lia|]. rewrite slice_prefix by (rewrite len_app; lia).
  replace (Z.to_nat 20) with (length hb) by (unfold len in Hhb; lia).
  rewrite take_app_length. cbn [mbind outcome_bind].
  destruct (DecodePacketHeader hb) as [[e|header]| |]; cbn [check mbind outcome_bind]; try done.
  rewrite <- (Z.add_0_r 20), <- Hhb, slice_from_app by lia.
  rewrite slice_from_Ret, drop_0 by lia. cbn [mbind outcome_bind]. unfold decode_body.
  destruct (DecodeRawExtensions (h_Extension header) rest) as [[e|[exts n]]| |] eqn:HE;
    cbn [check mbind outcome_bind]; try done.
  assert (0 ≤ n).
  { unfold DecodeRawExtensions in HE. eapply raw_extensions_idx in HE; done || lia. }
  set (m := if negb _ then _ else _). destruct m as [[e|ack]| |]; cbn [check mbind outcome_bind];
    try done.
  rewrite len_app. destruct (Z.eqb_spec (len hb + len rest) (len hb + 0 + n)) as [He|He].
  - rewrite (slice_from_Ret rest n) by lia. cbn [mbind outcome_bind mret outcome_ret].
    rewrite drop_ge by (unfold len in *; lia). done.
  - by rewrite Z.add_0_r, slice_from_app.
Qed.

(** ** The decoder is total *)

Lemma raw_extensions_returns fuel ext idx data acc :
  Forall is_u8 data → 0 ≤ idx ≤ len data → len data - idx < Z.of_nat fuel →
  ∃ r, raw_extensions fuel ext idx data acc = Ret r ∧
       match r with inr (_, n) => idx ≤ n ≤ len data | inl e => e = ErrInsufficientLen end.
Proof.
  intros Hb. revert ext idx acc. induction fuel as [|fuel IH]; intros ext idx acc Hi Hf; [lia|].
  cbn [raw_extensions]. case_bool; [eexists; split; [done|]; simpl; lia|].
  rewrite (slice_from_Ret data idx) by lia. cbn [mbind outcome_bind].
  rewrite len_drop. case_bool; [by eexists|].
  destruct (index_returns data idx) as [nx ->]; [lia|]. cbn [mbind outcome_bind].
  destruct (index_returns data (idx + 1)) as [el Hel]; [lia|]. rewrite Hel.
  cbn [mbind outcome_bind]. apply index_inv in Hel as [_ Hel].
  rewrite Forall_lookup in Hb. pose proof (Hb _ _ Hel) as Hel8. rewrite <- Forall_lookup in Hb.
  rewrite (slice_from_Ret data (idx + 2)) by lia. cbn [mbind outcome_bind].
  rewrite len_drop. case_bool; [by eexists|]. unfold is_u8 in Hel8.
  rewrite slice_Ret by lia. cbn [mbind outcome_bind].
  destruct (IH nx (idx + 2 + el) (acc ++ [mkExt ext
    (take (Z.to_nat (idx + 2 + el - (idx + 2))) (drop (Z.to_nat (idx + 2)) data))]))
    as (r & -> & Hr); [lia|lia|].
  exists r. split; [done|]. destruct r as [|[? m]]; [done|lia].
Qed.

Lemma DecodeRawExtensions_returns ext data :
  Forall is_u8 data →
  ∃ r, DecodeRawExtensions ext data = Ret r ∧
       match r with inr (_, n) => 0 ≤ n ≤ len data | inl e => e = ErrInsufficientLen end.
Proof.
  intros Hb. apply raw_extensions_returns; [done| |unfold len; lia].
  pose proof (len_nonneg data). lia.
Qed.

(** A twenty-byte list, named byte by byte. *)
Ltac twenty_bytes hb H :=
  do 20 (destruct hb as [|? hb]; [discriminate H|]); destruct hb; [|discriminate H].

Lemma encodeTypeVer_inv c t :
  is_u8 c → PacketType_of_byte (Z.shiftr c 4) = inr t →
  Z.lor (u8 (Z.shiftl (PacketType_byte t) 4)) (Z.land c 15) = c ∧ 0 ≤ Z.land c 15 < 16.
Proof.
  intros Hc. assert (Hin : c ∈ seqZ 0 256) by (apply elem_of_seqZ; go_lia).
  clear Hc. revert c Hin.
  assert (Hall : forallb (λ c,
    match PacketType_of_byte (Z.shiftr c 4) with
    | inr t => (Z.lor (u8 (Z.shiftl (PacketType_byte t) 4)) (Z.land c 15) =? c)
               && (0 <=? Z.land c 15) && (Z.land c 15 <? 16)
    | inl _ => true end) (seqZ 0 256) = true) by (vm_compute; reflexivity).
  rewrite forallb_forall in Hall. intros c Hin%list_elem_of_In Ht.
  apply Hall in Hin. rewrite Ht in Hin. lia.
Qed.

Lemma BE_Uint16_inv b0 b1 :
  is_u8 b0 → is_u8 b1 → ∃ v, BE_Uint16 [b0; b1] = Ret v ∧ is_u16 v ∧
  b0 = u8 (Z.shiftr v 8) ∧ b1 = u8 v.
Proof.
  intros ??. eexists. split; [lazy -[Z.lor Z.shiftl]; reflexivity|].
  rewrite lor_shiftl_add, Z.shiftr_div_pow2 by go_lia. go_lia.
Qed.

Lemma BE_Uint32_inv b0 b1 b2 b3 :
  is_u8 b0 → is_u8 b1 → is_u8 b2 → is_u8 b3 →
  ∃ v, BE_Uint32 [b0; b1; b2; b3] = Ret v ∧ is_u32 v ∧
  b0 = u8 (Z.shiftr v 24) ∧ b1 = u8 (Z.shiftr v 16) ∧ b2 = u8 (Z.shiftr v 8) ∧ b3 = u8 v.
Proof.
  intros H0 H1 H2 H3. eexists. split; [lazy -[Z.lor Z.shiftl]; reflexivity|].
  unfold is_u8 in *.
  rewrite (lor_shiftl_add b3), (lor_shiftl_add _ _ 16), (lor_shiftl_add _ _ 24) by lia.
  rewrite !Z.shiftr_div_pow2 by lia. go_lia.
Qed.

Lemma DecodePacketHeader_total hb :
  Forall is_u8 hb → length hb = 20%nat →
  ∃ r, DecodePacketHeader hb = Ret r ∧
       match r with
       | inr h => header_wf h ∧ is_u32 (h_Timestamp h) ∧ EncodeToBytes h = hb
       | inl e => e = ErrInvalidPacketType ∧ ∃ c, hb !! 0%nat = Some c ∧ 4 < Z.shiftr c 4
       end.
Proof.
  intros Hb Hl. twenty_bytes hb Hl. rewrite DecodePacketHeader_bytes.
  repeat match goal with H : Forall _ (_ :: _) |- _ => apply Forall_cons in H as [? H] end.
  destruct (PacketType_of_byte (Z.shiftr z 4)) as [e|t] eqn:Ht.
  { eexists. split; [done|]. unfold PacketType_of_byte in Ht.
    destruct (Z.ltb_spec 4 (Z.shiftr z 4)); simplify_eq/=; eauto. }
  destruct (encodeTypeVer_inv z t) as [Htv Hv]; [done..|].
  destruct (BE_Uint16_inv z1 z2) as (cid & -> & ? & ? & ?); [done..|]. cbn [mbind outcome_bind].
  destruct (BE_Uint32_inv z3 z4 z5 z6) as (ts & -> & ? & ? & ? & ? & ?); [done..|].
  destruct (BE_Uint32_inv z7 z8 z9 z10) as (td & -> & ? & ? & ? & ? & ?); [done..|].
  destruct (BE_Uint32_inv z11 z12 z13 z14) as (w & -> & ? & ? & ? & ? & ?); [done..|].
  destruct (BE_Uint16_inv z15 z16) as (sq & -> & ? & ? & ?); [done..|].
  destruct (BE_Uint16_inv z17 z18) as (ak & -> & ? & ? & ?); [done..|].
  eexists. split; [done|]. split_and!; [by constructor|done|].
  unfold EncodeToBytes, encodeTypeVer, AppendUint16, AppendUint32. cbn [h_PacketType h_Version
    h_Extension h_ConnectionId h_Timestamp h_TimestampDiff h_WndSize h_SeqNum h_AckNum app].
  rewrite Htv, (u32_id ts) by done. congruence.
Qed.

(** ** The packet round trip *)

Lemma sa_Encode_bytes s : sack_wf s → Forall is_u8 (sa_Encode s).
Proof.
  intros Hs. rewrite sa_Encode_words. apply Forall_concat, Forall_fmap.
  eapply Forall_impl; [exact Hs|]. apply encode_word_range.
Qed.

Lemma DecodePacket_Encode_split p :
  header_wf (Header p) → Forall is_u8 (Body p) →
  (∀ s, Eack p = Some s → sack_wf s) →
  DecodePacket (Encode p) =
  decode_body (wire_header (Header p))
    (match Eack p with
     | Some e => [0; u8 (len (sa_Encode e))] ++ sa_Encode e
     | None => []
     end ++ Body p).
Proof.
  intros Hh Hb Hs. unfold Encode. rewrite DecodePacket_split; [|done|].
  - by rewrite DecodePacketHeader_Encode.
  - apply Forall_app. split; [|done]. destruct (Eack p) as [s|] eqn:E; [|done].
    apply Forall_app. split; [repeat constructor; apply u8_range || done|].
    apply sa_Encode_bytes. eauto.
Qed.

Lemma slice_from_app_exact {A} (pre post : list A) :
  slice_from (pre ++ post) (len pre) = Ret post.
Proof.
  rewrite slice_from_Ret by (rewrite len_app; unfold len; lia).
  unfold len. by rewrite Nat2Z.id, drop_app_length.
Qed.

(** [decode_body] on a well-formed extension area. *)
Lemma decode_body_plain h body :
  h_Extension h = 0 → (h_PacketType h = st_data → body ≠ []) →
  decode_body h body = ok (mkPacket h None body).
Proof.
  intros He Hd. unfold decode_body. rewrite He, DecodeRawExtensions_none.
  cbn -[slice_from]. change (slice_from body 0) with (slice_from ([] ++ body) (len (@nil Z))).
  rewrite slice_from_app_exact. cbn [mbind outcome_bind].
  case_bool_decide; [|done]. destruct body; [by destruct Hd|done].
Qed.

Lemma decode_body_sack h s body :
  h_Extension h = 1 → sack_encodable s → (h_PacketType h = st_data → body ≠ []) →
  decode_body h (([0; u8 (len (sa_Encode s))] ++ sa_Encode s) ++ body)
  = ok (mkPacket h (Some s) body).
Proof.
  intros He [Hs Hlen] Hd. unfold decode_body. rewrite He.
  assert (Hl : len (sa_Encode s) = 4 * len (sa_acked s))
    by (rewrite <- sa_EncodedLen_words; symmetry; apply sa_EncodedLen_correct).
  rewrite (u8_id (len _)) by go_lia. rewrite <- app_assoc. cbn [app].
  rewrite DecodeRawExtensions_sack by done.
  cbn [check mbind outcome_bind ok last_sack_ext fold_left ext_extension Z.eqb Pos.eqb ext_payload].
  destruct (Z.eqb_spec (len (sa_Encode s)) 0); [lia|]. cbn [negb].
  assert (Hne : sa_acked s ≠ []) by (intros E; rewrite E in Hlen; unfold len in Hlen; simpl in Hlen; lia).
  rewrite decode_encode_sack by done.
  cbn [check mbind outcome_bind ok].
  replace (0 :: len (sa_Encode s) :: sa_Encode s ++ body)
    with ((0 :: len (sa_Encode s) :: sa_Encode s) ++ body) by done.
  replace (2 + len (sa_Encode s)) with (len (0 :: len (sa_Encode s) :: sa_Encode s))
    by (rewrite !len_cons; lia).
  rewrite slice_from_app_exact. cbn [mbind outcome_bind].
  case_bool_decide; [|done]. destruct body; [by destruct Hd|done].
Qed.

Lemma wire_roundtrip (p : packet) :
  packet_wf p → Forall is_u8 (Body p) →
  DecodePacket (Encode p) = ok (wire_packet p).
Proof.
  intros (Hh & Hc & Hd) Hb. unfold ext_consistent in Hc. rewrite DecodePacket_Encode_split;
    [|done|done|intros s E; rewrite E in Hc; apply Hc].
  destruct p as [h [s|] body]; simpl in *.
  - destruct Hc as [He Hs]. apply (decode_body_sack (wire_header h) s body); done.
  - apply decode_body_plain; done.
Qed.

(** C18. Every well-formed packet survives the wire: decoding its encoding gives
    the packet back, up to the timestamp, of which the wire carries the low 32
    bits. *)
Theorem packet_wire_roundtrip (p : packet) :
  packet_wf p → Forall is_u8 (Body p) →
  DecodePacket (Encode p) = ok (wire_packet p).
Proof. apply wire_roundtrip. Qed.

Lemma packet_wire_roundtrip_witness :
  let p := Build (WithPayload [1; 2; 255] (WithSelectiveAck (Some (NewSelectiveAck [true; false]))
             (WithAckNum 7 (NewPacketBuilder st_data 49317 3734955 1048576 65535)))) in
  packet_wf p ∧ DecodePacket (Encode p) = ok p.
Proof.
  intros p. assert (Hwf : packet_wf p).
  { split_and!; [constructor; vm_compute; by split|split; [done|]|done].
    split; [apply NewSelectiveAck_wf|vm_compute; by split]. }
  split; [done|]. apply (packet_wire_roundtrip p Hwf).
  repeat constructor; vm_compute; congruence.
Defined.

(** The retransmission path of conn.go copies the extension byte of the original
    header and attaches the current selective ack: when the original had none,
    the receiver takes the extension bytes for payload. *)
Lemma stale_extension_misparse p s :
  header_wf (Header p) → h_Extension (Header p) = 0 → Eack p = Some s → sack_wf s →
  Forall is_u8 (Body p) →
  DecodePacket (Encode p) =
  ok (mkPacket (wire_header (Header p)) None
       ([0; u8 (len (sa_Encode s))] ++ sa_Encode s ++ Body p)).
Proof.
  intros Hh He Hs Hwf Hb. rewrite DecodePacket_Encode_split; [|done|done|naive_solver].
  rewrite Hs, <- app_assoc. by apply decode_body_plain.
Qed.

(** [EncodedLen] is the length of [Encode], for every packet. *)
Theorem EncodedLen_correct (p : packet) : EncodedLen p = len (Encode p).
Proof.
  unfold EncodedLen, Encode, MINIMAL_HEADER_SIZE, EXTENSION_TYPE_LEN, EXTENSION_LEN_LEN.
  rewrite len_app. change (len (EncodeToBytes (Header p))) with 20.
  destruct (Eack p) as [s|]; autorewrite with go; [|lia].
  rewrite sa_EncodedLen_correct. cbn [app]. autorewrite with go. lia.
Qed.

(** ** Totality *)

Lemma decode_body_total h rest :
  header_wf h → Forall is_u8 rest →
  ∃ r, decode_body h rest = Ret r ∧
  match r with
  | inr p => Header p = h ∧ (h_PacketType h = st_data → Body p ≠ []) ∧
             (∃ pre, rest = pre ++ Body p) ∧ (h_Extension h = 0 → Eack p = None ∧ Body p = rest)
  | inl e => e ∈ [ErrInsufficientLen; ErrInsufficientSelectiveAckLen;
                  ErrInvalidSelectiveAckLen; ErrEmptyDataPayload]
  end.
Proof.
  intros Hh Hb. unfold decode_body.
  destruct (DecodeRawExtensions_returns (h_Extension h) rest Hb) as (r & Hr & Hn). rewrite Hr.
  destruct r as [e|[exts n]]; cbn [check mbind outcome_bind].
  { eexists. split; [done|]. subst. set_solver. }
  assert (Hack : ∃ r, (if negb (len (ext_payload (last_sack_ext exts)) =? 0)
      then match DecodeSelectiveAck (ext_payload (last_sack_ext exts)) with
           | inl err => fail err | inr a => ok (Some a) end else ok None) = Ret r ∧
      match r with inl e => e = ErrInsufficientSelectiveAckLen ∨ e = ErrInvalidSelectiveAckLen
                 | inr a => exts = [] → a = None end).
  { case_bool; simpl; [by eexists|].
    destruct (DecodeSelectiveAck _) as [e|a] eqn:E; eexists; split; try done; simpl.
    - unfold DecodeSelectiveAck in E. do 2 case_bool; naive_solver.
    - intros ->. done. }
  destruct Hack as ([e|a] & -> & Ha); cbn [check mbind outcome_bind].
  { eexists. split; [done|]. destruct Ha as [-> | ->]; set_solver. }
  rewrite slice_from_Ret by lia. cbn [mbind outcome_bind].
  case_bool_decide as Ht; [destruct (Z.eqb_spec (len (drop (Z.to_nat n) rest)) 0) as [Hz|Hz]|];
    simpl; (eexists; split; [done|]); simpl.
  { set_solver. }
  all: split_and!; [done|intros ?; first [congruence | intros E; by rewrite E in Hz]| |].
  1, 3: exists (take (Z.to_nat n) rest); by rewrite take_drop.
  all: intros He; rewrite He, DecodeRawExtensions_none in Hr; injection Hr as <- <-;
    split; [by apply Ha|done].
Qed.

(** What the decoder returns on any datagram. *)
Lemma DecodePacket_cases (b : list Z) :
  Forall is_u8 b →
  ∃ r, DecodePacket b = Ret r ∧
  match r with
  | inr p => header_wf (Header p) ∧ is_u32 (h_Timestamp (Header p)) ∧
             (h_PacketType (Header p) = st_data → Body p ≠ []) ∧
             (∃ pre, b = pre ++ Body p ∧ 20 ≤ len pre) ∧
             (h_Extension (Header p) = 0 → Eack p = None ∧ Encode p = b)
  | inl e => e ∈ [ErrInvalidHeaderSize; ErrInvalidPacketType; ErrInsufficientLen;
                  ErrInsufficientSelectiveAckLen; ErrInvalidSelectiveAckLen; ErrEmptyDataPayload]
  end.
Proof.
  intros Hb. destruct (Z.ltb_spec (len b) 20) as [Hs|Hs].
  { eexists. unfold DecodePacket, MINIMAL_HEADER_SIZE. case_bool; [|lia].
    split; [done|]. set_solver. }
  rewrite <- (take_drop 20 b) in Hb |- *. apply Forall_app in Hb as [Hb1 Hb2].
  assert (Hl : length (take 20 b) = 20%nat) by (rewrite length_take; unfold len in Hs; lia).
  rewrite DecodePacket_split by (done || unfold len; lia).
  destruct (DecodePacketHeader_total _ Hb1 Hl) as ([e|h] & -> & Hh);
    cbn [check mbind outcome_bind].
  { eexists. split; [done|]. destruct Hh as [-> _]. set_solver. }
  destruct Hh as (Hh & Hts & Henc).
  destruct (decode_body_total h (drop 20 b) Hh Hb2) as ([e|p] & -> & Hp).
  { eexists. split; [done|]. set_solver. }
  eexists. split; [done|]. destruct Hp as (<- & Hd & [pre Hpre] & Hext). split_and!; try done.
  - exists (take 20 b ++ pre). rewrite <- app_assoc, <- Hpre. split; [done|].
    autorewrite with go. unfold len in *. lia.
  - intros He. destruct (Hext He) as [HE HB]. split; [done|].
    unfold Encode. rewrite HE, Henc, HB. done.
Qed.

(** C19. The decoder is total on the network's bytes: it never panics, its loop
    over the extension chain ends, and it either returns one of the package's
    errors or a packet whose header fields are in range, whose payload is a
    suffix of the datagram (non-empty for DATA), and which, when no extension
    was announced, re-encodes to the very same datagram. *)
Theorem DecodePacket_total (b : list Z) :
  Forall is_u8 b →
  ∃ r, DecodePacket b = Ret r ∧
  match r with
  | inr p => header_wf (Header p) ∧ is_u32 (h_Timestamp (Header p)) ∧
             (h_PacketType (Header p) = st_data → Body p ≠ []) ∧
             (∃ pre, b = pre ++ Body p ∧ 20 ≤ len pre) ∧
             (h_Extension (Header p) = 0 → Eack p = None ∧ Encode p = b)
  | inl e => e ∈ [ErrInvalidHeaderSize; ErrInvalidPacketType; ErrInsufficientLen;
                  ErrInsufficientSelectiveAckLen; ErrInvalidSelectiveAckLen; ErrEmptyDataPayload]
  end.
Proof. apply DecodePacket_cases. Qed.

(** A DATA packet of two bytes. *)
Definition demo_datagram : list Z := [1; 0; 0; 7; 0; 0; 0; 1; 0; 0; 0; 2; 0; 0; 1; 0; 0; 9; 0; 8; 42; 43].

Lemma DecodePacket_total_witness :
  (∃ e, DecodePacket [65; 0; 0; 1] = Ret (inl e)) ∧
  (∃ p, DecodePacket demo_datagram = Ret (inr p) ∧ header_wf (Header p) ∧ Body p = [42; 43] ∧ Encode p = demo_datagram).
Proof.
  split.
  - destruct (DecodePacket_total [65; 0; 0; 1]) as ([e|p] & Hr & _); [repeat constructor; vm_compute; congruence|..].
    + exists e. exact Hr.
    + vm_compute in Hr. discriminate Hr.
  - destruct (DecodePacket_total demo_datagram) as ([e|p] & Hr & Hp); [repeat constructor; vm_compute; congruence|..].
    + vm_compute in Hr. discriminate Hr.
    + exists p. destruct Hp as (Hh & _ & _ & _ & He). split; [exact Hr|]. split; [exact Hh|].
      vm_compute in Hr. injection Hr as <-. split; [reflexivity|]. apply He. reflexivity.
Defined.

(** ** What the builder makes *)

Lemma Build_wf b :
  is_u16 (b_connID b) → is_u32 (b_tsDiffMicros b) → is_u32 (b_windowSize b) →
  is_u16 (b_seqNum b) → is_u16 (b_ackNum b) →
  (∀ s, b_selectiveAck b = Some s → sack_encodable s) →
  (b_packetType b = st_data → b_payload b ≠ []) →
  packet_wf (Build b).
Proof.
  intros. split_and!; [|unfold ext_consistent; simpl; destruct (b_selectiveAck b); eauto|done].
  constructor; simpl; try done.
  destruct (b_selectiveAck b); go_lia.
Qed.
#[export] Hint Resolve Build_wf : go.
