(* ===== verification/SendBuffer.v ===== *)
(** * The send buffer (send_buffer.go)

    A queue of the caller's slices with the number of bytes of the first one
    that were already read.  Its abstract reading is a bounded byte queue
    ([sb_contents]): [Write] appends the prefix that fits and [Read] removes a
    prefix, for any interleaving of the two.  The code keeps the slices
    themselves; here they are values, as for a caller that does not write to a
    slice it has passed to [Write]. *)

From Stdlib Require Import ZArith Lia.
From stdpp Require Import base list.
From S2P Require Import Prelude.

Record sendBuffer := mkSendBuffer {
  sb_pending : list (list Z);
  sb_offset : Z;
  sb_size : Z;
}.

Definition newSendBuffer (size : Z) : sendBuffer := mkSendBuffer [] 0 size.

Definition sb_used (pending : list (list Z)) : Z :=
  fold_left (λ used data, used + len data) pending 0.

Definition sb_Available (sb : sendBuffer) : Z :=
  sb_size sb + sb_offset sb - sb_used (sb_pending sb).

Definition sb_IsEmpty (sb : sendBuffer) : bool := len (sb_pending sb) =? 0.

(** [Write] returns the number of bytes taken. *)
Definition sb_Write (data : list Z) (sb : sendBuffer) : outcome (Z * sendBuffer) :=
  let available := sb_Available sb in
  if len data <=? available then
    mret (len data, mkSendBuffer (sb_pending sb ++ [data]) (sb_offset sb) (sb_size sb))
  else
    d ← slice data 0 available;
    mret (available, mkSendBuffer (sb_pending sb ++ [d]) (sb_offset sb) (sb_size sb)).

(** [Read] returns the count and the caller's buffer after the copy. *)
Definition sb_Read (buf : list Z) (sb : sendBuffer) : outcome (Z * list Z * sendBuffer) :=
  if len buf =? 0 then mret (0, buf, sb)
  else if len (sb_pending sb) =? 0 then mret (0, buf, sb)
  else
    data ← index (sb_pending sb) 0;
    let n := Z.min (len data - sb_offset sb) (len buf) in
    src ← slice data (sb_offset sb) (sb_offset sb + n);
    let buf := go_copy buf src in
    if sb_offset sb + n =? len data then
      rest ← slice_from (sb_pending sb) 1;
      mret (n, buf, mkSendBuffer rest 0 (sb_size sb))
    else mret (n, buf, mkSendBuffer (sb_pending sb) (sb_offset sb + n) (sb_size sb)).

(** ** The abstract queue *)

Definition sb_contents (sb : sendBuffer) : list Z :=
  drop (Z.to_nat (sb_offset sb)) (concat (sb_pending sb)).

(** The offset lies inside the first slice, and the bytes held fit the size. *)
Definition sb_inv (sb : sendBuffer) : Prop :=
  0 ≤ sb_offset sb ∧
  match sb_pending sb with
  | [] => sb_offset sb = 0
  | d :: _ => sb_offset sb = 0 ∨ sb_offset sb < len d
  end ∧
  len (sb_contents sb) ≤ sb_size sb.

Lemma sb_used_acc (pending : list (list Z)) acc :
  fold_left (λ used data, used + len data) pending acc = acc + len (concat pending).
Proof.
  revert acc. induction pending as [|d ds IH]; intros acc; simpl; [unfold len; simpl; lia|].
  rewrite IH, len_app. lia.
Qed.

Lemma sb_used_concat pending : sb_used pending = len (concat pending).
Proof. unfold sb_used. rewrite sb_used_acc. lia. Qed.

Lemma sb_offset_bound sb : sb_inv sb → sb_offset sb ≤ len (concat (sb_pending sb)).
Proof.
  intros (H0 & Ho & _). destruct (sb_pending sb) as [|d ds]; simpl; [unfold len; simpl; lia|].
  rewrite len_app. pose proof (len_nonneg d). pose proof (len_nonneg (concat ds)). lia.
Qed.

Lemma sb_IsEmpty_contents sb : sb_IsEmpty sb = true → sb_contents sb = [].
Proof.
  unfold sb_IsEmpty, sb_contents. intros E%Z.eqb_eq. rewrite (len_zero _ E). apply drop_nil.
Qed.

Lemma sb_Available_contents sb :
  sb_inv sb → sb_Available sb = sb_size sb - len (sb_contents sb).
Proof.
  intros H. pose proof (sb_offset_bound sb H) as Hob. destruct H as (H0 & _).
  unfold sb_Available, sb_contents. rewrite sb_used_concat, len_drop. lia.
Qed.

Lemma sb_contents_snoc sb d :
  sb_inv sb →
  sb_contents (mkSendBuffer (sb_pending sb ++ [d]) (sb_offset sb) (sb_size sb))
  = sb_contents sb ++ d.
Proof.
  intros H. pose proof (sb_offset_bound sb H) as Hob. destruct H as (H0 & _).
  unfold sb_contents. simpl. rewrite concat_app. simpl. rewrite app_nil_r.
  rewrite drop_app_le; [done|]. unfold len in *. lia.
Qed.

Lemma sb_inv_snoc sb d :
  sb_inv sb → len d ≤ sb_Available sb →
  sb_inv (mkSendBuffer (sb_pending sb ++ [d]) (sb_offset sb) (sb_size sb)).
Proof.
  intros H Hd. rewrite sb_Available_contents in Hd by done.
  unfold sb_inv. rewrite sb_contents_snoc, len_app by done.
  destruct H as (H0 & Ho & Hc). split_and!; [done| |simpl; lia].
  destruct sb as [[|d0 ds] o s]; simpl in *; [left; lia|done].
Qed.

Lemma newSendBuffer_inv size : 0 ≤ size → sb_inv (newSendBuffer size).
Proof. intros. unfold sb_inv, sb_contents. simpl. split_and!; [done..|unfold len; simpl; lia]. Qed.

(** [Write] appends the longest prefix that fits. *)
Lemma sb_Write_spec data sb :
  sb_inv sb →
  let k := Z.min (len data) (sb_Available sb) in
  ∃ sb', sb_Write data sb = Ret (k, sb') ∧ sb_inv sb' ∧ sb_size sb' = sb_size sb ∧
         sb_contents sb' = sb_contents sb ++ take (Z.to_nat k) data.
Proof.
  intros H k. subst k. pose proof (sb_Available_contents sb H) as Ha.
  pose proof (len_nonneg data). assert (len (sb_contents sb) ≤ sb_size sb) by apply H.
  unfold sb_Write. case_bool.
  - eexists. rewrite Z.min_l by lia. split; [done|]. split_and!; [by apply sb_inv_snoc|done|].
    rewrite sb_contents_snoc, take_ge; [done| |done]. unfold len. lia.
  - rewrite slice_prefix by lia. cbn [mbind outcome_bind]. rewrite Z.min_r by lia. eexists.
    split; [done|]. split_and!; [apply sb_inv_snoc|done|by rewrite sb_contents_snoc]; [done|].
    rewrite len_take. lia.
Qed.

Lemma go_copy_short {A} (buf src : list A) :
  (length src ≤ length buf)%nat → take (length src) (go_copy buf src) = src.
Proof.
  intros H. unfold go_copy. rewrite (take_ge src) by done. by rewrite take_app_length.
Qed.

(** [Read] removes a prefix; it is non-empty unless the buffer given is empty,
    there is nothing to read, or the first slice held is empty. *)
Lemma sb_Read_spec buf sb :
  sb_inv sb →
  ∃ n buf' sb', sb_Read buf sb = Ret (n, buf', sb') ∧ sb_inv sb' ∧ sb_size sb' = sb_size sb ∧
    0 ≤ n ≤ len buf ∧ length buf' = length buf ∧
    sb_contents sb = take (Z.to_nat n) buf' ++ sb_contents sb' ∧
    (buf ≠ [] → sb_pending sb ≠ [] → head (sb_pending sb) ≠ Some [] → 0 < n) ∧
    (len (sb_pending sb') ≤ len (sb_pending sb)).
Proof.
  intros H. unfold sb_Read. pose proof (len_nonneg buf). case_bool.
  { eexists 0, buf, sb. rewrite Z2Nat.inj_0, take_0. split_and!; try done || lia.
    intros Hb. destruct buf; [done|unfold len in *; simpl in *; lia]. }
  case_bool.
  { eexists 0, buf, sb. rewrite Z2Nat.inj_0, take_0. split_and!; try done || lia.
    intros _ Hb. by apply len_zero in e. }
  destruct sb as [[|d ds] o s]; [done|]. cbn [sb_pending sb_offset sb_size] in *.
  destruct H as (Hz & Ho & Hc). cbn [sb_pending sb_offset sb_size] in *.
  change (index (d :: ds) 0) with (Ret d). cbn [mbind outcome_bind].
  assert (Hod : o ≤ len d) by (pose proof (len_nonneg d); lia).
  rename n into Hbne. set (n := Z.min (len d - o) (len buf)). assert (Hn : 0 ≤ n ≤ len buf ∧ o + n ≤ len d) by lia.
  rewrite slice_Ret by lia. cbn [mbind outcome_bind].
  replace (o + n - o) with n by lia. set (src := take (Z.to_nat n) (drop (Z.to_nat o) d)).
  assert (Hsrc : length src = Z.to_nat n).
  { subst src. rewrite length_take, length_drop. unfold len in *. lia. }
  assert (Hbuf' : take (Z.to_nat n) (go_copy buf src) = src).
  { rewrite <- Hsrc. apply go_copy_short. unfold len in *. lia. }
  assert (Hpos : buf ≠ [] → d :: ds ≠ [] → head (d :: ds) ≠ Some [] → 0 < n).
  { intros _ _ Hd. destruct d; [done|]. unfold len in *. simpl in *. lia. }
  unfold sb_contents in *. cbn [sb_pending sb_offset sb_size concat] in *.
  rewrite drop_app_le in * by (unfold len in *; lia).
  assert (Hsplit : drop (Z.to_nat o) d = src ++ drop (Z.to_nat (o + n)) d).
  { subst src. rewrite Z2Nat.inj_add, <- drop_drop by lia. by rewrite take_drop. }
  destruct (Z.eqb_spec (o + n) (len d)) as [Heq|Hne].
  - change (slice_from (d :: ds) 1) with (slice_from ([d] ++ ds) (len [d] + 0)).
    rewrite slice_from_Ret by (autorewrite with go; pose proof (len_nonneg ds); lia).
    cbn [mbind outcome_bind]. replace (drop _ ([d] ++ ds)) with ds by done.
    eexists n, _, _. split; [done|]. cbn [sb_pending sb_offset sb_size].
    rewrite Hbuf', Hsplit, go_copy_length, drop_0.
    rewrite (drop_ge d) in * by (unfold len in *; lia). rewrite app_nil_r in *.
    split_and!; try done || lia.
    + unfold sb_inv, sb_contents. cbn [sb_pending sb_offset sb_size]. rewrite drop_0.
      split_and!; [lia|destruct ds; [done|by left]|]. rewrite Hsplit, !len_app in Hc.
      pose proof (len_nonneg src). pose proof (len_nonneg (drop (Z.to_nat (o + n)) d)). lia.
    + autorewrite with go. lia.
  - eexists n, _, _. split; [done|]. cbn [sb_pending sb_offset sb_size concat].
    rewrite Hbuf', go_copy_length, (drop_app_le d) by (unfold len in *; lia).
    split_and!; try done || lia.
    + unfold sb_inv, sb_contents. cbn [sb_pending sb_offset sb_size concat].
      rewrite drop_app_le by (unfold len in *; lia). split_and!; [lia|lia|].
      rewrite Hsplit in Hc. rewrite !len_app in *. pose proof (len_nonneg src). lia.
    + by rewrite Hsplit, <- app_assoc.
Qed.
(** A [Read] fills the caller's buffer or finishes the first slice. *)
Lemma sb_Read_progress buf sb n buf' sb' :
  sb_Read buf sb = Ret (n, buf', sb') →
  n = 0 ∨ (n = len buf ∧ len (sb_pending sb') = len (sb_pending sb)) ∨
  len (sb_pending sb') = len (sb_pending sb) - 1.
Proof.
  unfold sb_Read. case_bool; [intros [= <- _ _]; by left|]. case_bool; [intros [= <- _ _]; by left|].
  intros E. outcome_inv. case_bool.
  - outcome_inv. right; right. simpl. unfold slice_from, slice in *. repeat case_bool; try done.
    simpl in *. outcome_inv. rewrite len_take, len_drop. lia.
  - outcome_inv. simpl in *. destruct (Z.eq_dec (Z.min (len x - sb_offset sb) (len buf)) (len buf)) as [E|E];
      [right; left; done|]. exfalso. lia.
Qed.

#[export] Hint Resolve newSendBuffer_inv : go.

(** ** Traces *)

(** The calls a client makes on a buffer. *)
Inductive sb_op := OpWrite (data : list Z) | OpRead (buf : list Z).

(** A client's run: the bytes the buffer accepted and the bytes it handed out. *)
Fixpoint sb_run (ops : list sb_op) (sb : sendBuffer)
    : outcome (list Z * list Z * sendBuffer) :=
  match ops with
  | [] => mret ([], [], sb)
  | OpWrite data :: ops =>
      '(k, sb) ← sb_Write data sb;
      '(acc, out, sb) ← sb_run ops sb;
      mret (take (Z.to_nat k) data ++ acc, out, sb)
  | OpRead buf :: ops =>
      '(n, buf, sb) ← sb_Read buf sb;
      '(acc, out, sb) ← sb_run ops sb;
      mret (acc, take (Z.to_nat n) buf ++ out, sb)
  end.

Lemma sb_run_fifo ops sb :
  sb_inv sb →
  ∃ acc out sb', sb_run ops sb = Ret (acc, out, sb') ∧ sb_inv sb' ∧
    sb_size sb' = sb_size sb ∧ sb_contents sb ++ acc = out ++ sb_contents sb'.
Proof.
  revert sb. induction ops as [|[data|buf] ops IH]; intros sb H; cbn [sb_run].
  - eexists [], [], sb. by rewrite app_nil_r.
  - destruct (sb_Write_spec data sb H) as (sb1 & -> & H1 & Hs & Hc). cbn [mbind outcome_bind].
    destruct (IH sb1 H1) as (acc & out & sb2 & -> & H2 & Hs2 & Hf). cbn [mbind outcome_bind].
    eexists _, _, _. split; [done|]. split_and!; [done|congruence|].
    by rewrite app_assoc, <- Hc.
  - destruct (sb_Read_spec buf sb H) as (n & buf' & sb1 & -> & H1 & Hs & _ & _ & Hc & _).
    cbn [mbind outcome_bind].
    destruct (IH sb1 H1) as (acc & out & sb2 & -> & H2 & Hs2 & Hf). cbn [mbind outcome_bind].
    eexists _, _, _. split; [done|]. split_and!; [done|congruence|].
    by rewrite Hc, <- !app_assoc, Hf.
Qed.

(** C21. The send buffer is a bounded FIFO byte queue: any interleaving of
    [Write] and [Read] calls on a new buffer runs without a panic, the bytes
    handed out followed by the bytes still held are exactly the accepted bytes
    in order, and [Available] is the room left, between 0 and the size. *)
Theorem sendBuffer_fifo (size : Z) (ops : list sb_op) :
  0 ≤ size →
  ∃ acc out sb, sb_run ops (newSendBuffer size) = Ret (acc, out, sb) ∧
    acc = out ++ sb_contents sb ∧
    sb_Available sb = size - len (sb_contents sb) ∧ 0 ≤ sb_Available sb ≤ size.
Proof.
  intros Hs. destruct (sb_run_fifo ops _ (newSendBuffer_inv size Hs))
    as (acc & out & sb & Hr & Hi & Hsz & Hf).
  exists acc, out, sb. rewrite sb_Available_contents, Hsz by done.
  destruct Hi as (_ & _ & Hc). rewrite Hsz in Hc. simpl in *.
  pose proof (len_nonneg (sb_contents sb)). split_and!; done || lia.
Qed.

Lemma sendBuffer_fifo_witness :
  ∃ acc out sb,
    sb_run [OpWrite [1; 2; 3]; OpRead [0; 0]; OpWrite [4; 5; 6]; OpRead [0; 0]; OpRead [0]]
      (newSendBuffer 4) = Ret (acc, out, sb) ∧ acc = out ++ sb_contents sb.
Proof.
  destruct (sendBuffer_fifo 4
    [OpWrite [1; 2; 3]; OpRead [0; 0]; OpWrite [4; 5; 6]; OpRead [0; 0]; OpRead [0]])
    as (acc & out & sb & H1 & H2 & _); [lia|]. by exists acc, out, sb.
Defined.

Example sendBuffer_run :
  sb_run [OpWrite [1; 2; 3]; OpRead [0; 0]; OpWrite [4; 5; 6]; OpRead [0; 0]; OpRead [0]]
    (newSendBuffer 4)
  = Ret ([1; 2; 3; 4; 5; 6], [1; 2; 3; 4], mkSendBuffer [[4; 5; 6]] 1 4).
Proof. vm_compute. reflexivity. Qed.
