(* ===== verification/BTree.v ===== *)
(** * The ordered tree used by the buffers (github.com/google/btree)

    The package is not part of the repository, so it is a parameter of the
    model: [BTreeImpl] lists the operations the code calls, on trees whose items
    are a 16-bit key with a value, and [BTreeLaws] what its documentation
    promises about them.  [gmap_btree] is an instance over finite maps, which
    shows that the laws can be met and lets the examples compute. *)

From Stdlib Require Import ZArith Lia.
From stdpp Require Import base list gmap fin_maps sorting.
From S2P Require Import Prelude.

Class BTreeImpl := {
  btree : Type → Type;
  bt_New {V} : btree V;
  bt_Get {V} : Z → btree V → option V;
  bt_Has {V} : Z → btree V → bool;
  bt_ReplaceOrInsert {V} : Z → V → btree V → btree V;
  bt_Delete {V} : Z → btree V → btree V;
  bt_Len {V} : btree V → Z;
  (** The items in the order [Ascend] visits them. *)
  bt_Ascend {V} : btree V → list (Z * V);
}.

Class BTreeLaws `{BTreeImpl} : Prop := {
  bt_Get_New V k : bt_Get k (bt_New (V:=V)) = None;
  bt_Get_Insert V k k' (v : V) t :
    bt_Get k (bt_ReplaceOrInsert k' v t) = if decide (k = k') then Some v else bt_Get k t;
  bt_Get_Delete V k k' (t : btree V) :
    bt_Get k (bt_Delete k' t) = if decide (k = k') then None else bt_Get k t;
  bt_Has_Get V k (t : btree V) : bt_Has k t = bool_decide (is_Some (bt_Get k t));
  bt_Len_Ascend V (t : btree V) : bt_Len t = len (bt_Ascend t);
  bt_Ascend_Get V k v (t : btree V) : (k, v) ∈ bt_Ascend t ↔ bt_Get k t = Some v;
  bt_Ascend_sorted V (t : btree V) : StronglySorted Z.lt (bt_Ascend t).*1;
}.

(** ** A tree read as a finite map *)

Section btree_map.
Context `{BTreeLaws}.
Context {V : Type}.
Implicit Types t : btree V.

Definition bt_map t : gmap Z V := list_to_map (bt_Ascend t).

Lemma bt_Ascend_NoDup t : NoDup (bt_Ascend t).*1.
Proof.
  pose proof (bt_Ascend_sorted V t) as Hs. induction Hs as [|k l Hl IH Hk]; constructor; [|done].
  intros Hin. rewrite Forall_forall in Hk. apply Hk in Hin. lia.
Qed.

Lemma bt_map_lookup t k : bt_map t !! k = bt_Get k t.
Proof.
  apply option_eq. intros v. unfold bt_map. rewrite <- elem_of_list_to_map by apply bt_Ascend_NoDup.
  apply bt_Ascend_Get.
Qed.

Lemma bt_Ascend_map t : bt_Ascend t ≡ₚ map_to_list (bt_map t).
Proof. unfold bt_map. symmetry. apply map_to_list_to_map, bt_Ascend_NoDup. Qed.

Lemma bt_map_New : bt_map bt_New = ∅.
Proof. apply map_eq. intros k. by rewrite bt_map_lookup, bt_Get_New, lookup_empty. Qed.

Lemma bt_map_Insert k v t : bt_map (bt_ReplaceOrInsert k v t) = <[k := v]> (bt_map t).
Proof.
  apply map_eq. intros k'. rewrite bt_map_lookup, bt_Get_Insert, lookup_insert, bt_map_lookup.
  repeat case_decide; congruence.
Qed.

Lemma bt_map_Delete k t : bt_map (bt_Delete k t) = delete k (bt_map t).
Proof.
  apply map_eq. intros k'. rewrite bt_map_lookup, bt_Get_Delete, lookup_delete, bt_map_lookup.
  repeat case_decide; congruence.
Qed.

Lemma bt_Len_map t : bt_Len t = Z.of_nat (size (bt_map t)).
Proof.
  rewrite bt_Len_Ascend. unfold len. rewrite bt_Ascend_map. by rewrite length_map_to_list.
Qed.

(** Sums over the items of a tree. *)
Definition bt_sum (f : V → Z) t : Z := foldr (λ kv acc, f kv.2 + acc) 0 (bt_Ascend t).

Definition list_sum_of (f : V → Z) (l : list (Z * V)) : Z :=
  foldr (λ kv acc, f kv.2 + acc) 0 l.

#[global] Instance list_sum_of_perm f : Proper ((≡ₚ) ==> (=)) (list_sum_of f).
Proof.
  intros l1 l2 HP. unfold list_sum_of. induction HP; simpl; lia.
Qed.

Lemma bt_sum_map f t : bt_sum f t = list_sum_of f (map_to_list (bt_map t)).
Proof. unfold bt_sum. fold (list_sum_of f (bt_Ascend t)). by rewrite bt_Ascend_map. Qed.

Lemma bt_sum_New f : bt_sum f bt_New = 0.
Proof. rewrite bt_sum_map, bt_map_New, map_to_list_empty. done. Qed.

Lemma bt_sum_Insert f k v t :
  bt_Get k t = None → bt_sum f (bt_ReplaceOrInsert k v t) = f v + bt_sum f t.
Proof.
  intros Hk. rewrite !bt_sum_map, bt_map_Insert, map_to_list_insert; [done|].
  by rewrite bt_map_lookup.
Qed.

Lemma bt_sum_Delete f k v t :
  bt_Get k t = Some v → bt_sum f (bt_Delete k t) = bt_sum f t - f v.
Proof.
  intros Hk. rewrite !bt_sum_map, bt_map_Delete.
  rewrite <- (map_to_list_delete (bt_map t) k v) by (by rewrite bt_map_lookup). simpl. lia.
Qed.

Lemma bt_sum_nonneg f t : (∀ v, 0 ≤ f v) → 0 ≤ bt_sum f t.
Proof. intros Hf. unfold bt_sum. induction (bt_Ascend t) as [|kv l IH]; simpl; [lia|]. specialize (Hf kv.2). lia. Qed.

Lemma bt_Len_Delete k v t : bt_Get k t = Some v → bt_Len (bt_Delete k t) = bt_Len t - 1.
Proof.
  intros Hk. rewrite !bt_Len_map, bt_map_Delete.
  rewrite map_size_delete_Some by (rewrite bt_map_lookup; eauto).
  assert (size (bt_map t) ≠ 0%nat); [|lia].
  apply map_size_ne_0_lookup. exists k. rewrite bt_map_lookup. eauto.
Qed.

Lemma bt_Len_nonneg t : 0 ≤ bt_Len t.
Proof. rewrite bt_Len_Ascend. apply len_nonneg. Qed.

Lemma bt_Len_zero t : bt_Len t = 0 → ∀ k, bt_Get k t = None.
Proof.
  intros Hz k. rewrite bt_Len_map in Hz. rewrite <- bt_map_lookup.
  assert (size (bt_map t) = 0%nat) as ->%map_size_empty_inv by lia. apply lookup_empty.
Qed.
End btree_map.

(** ** The finite-map instance *)

#[local] Definition key_le (a b : Z) : Prop := a ≤ b.
#[local] Instance key_le_dec : RelDecision key_le.
Proof. intros a b. unfold key_le. apply _. Defined.

Definition gmap_keys {V} (m : gmap Z V) : list Z := merge_sort key_le (elements (dom m)).

#[global] Instance gmap_btree : BTreeImpl := {|
  btree V := gmap Z V;
  bt_New V := ∅;
  bt_Get V k m := m !! k;
  bt_Has V k m := bool_decide (is_Some (m !! k));
  bt_ReplaceOrInsert V k v m := <[k := v]> m;
  bt_Delete V k m := delete k m;
  bt_Len V m := Z.of_nat (size m);
  bt_Ascend V m := omap (λ k, (k,.) <$> m !! k) (gmap_keys m);
|}.

Lemma gmap_keys_elem {V} (m : gmap Z V) k : k ∈ gmap_keys m ↔ is_Some (m !! k).
Proof.
  unfold gmap_keys. rewrite (merge_sort_Permutation key_le).
  by rewrite elem_of_elements, elem_of_dom.
Qed.

Lemma omap_keys {V} (m : gmap Z V) l :
  (∀ k, k ∈ l → is_Some (m !! k)) → (omap (λ k, (k,.) <$> m !! k) l).*1 = l.
Proof.
  induction l as [|k l IH]; intros Hl; [done|]. simpl.
  destruct (Hl k) as [v Hv]; [by left|]. rewrite Hv. simpl. f_equal.
  apply IH. intros k' Hk'. apply Hl. by right.
Qed.

Lemma StronglySorted_lt (l : list Z) :
  NoDup l → StronglySorted key_le l → StronglySorted Z.lt l.
Proof.
  intros Hnd Hs. induction Hs as [|k l Hl IH Hk]; constructor; apply NoDup_cons in Hnd as [Hn Hnd].
  - by apply IH.
  - rewrite Forall_forall in Hk |- *. intros k' Hin. specialize (Hk k' Hin). unfold key_le in Hk.
    assert (k ≠ k') by (intros ->; done). lia.
Qed.

#[global] Instance gmap_btree_laws : BTreeLaws (H := gmap_btree).
Proof.
  split; intros; simpl.
  - apply lookup_empty.
  - rewrite lookup_insert. repeat case_decide; congruence.
  - rewrite lookup_delete. repeat case_decide; congruence.
  - done.
  - unfold len. f_equal. rewrite <- (length_fmap fst), omap_keys by (intros; by apply gmap_keys_elem).
    unfold gmap_keys. rewrite (merge_sort_Permutation key_le). symmetry. apply size_dom.
  - rewrite list_elem_of_omap. split.
    + intros (k' & _ & (v' & Hv & [= <- <-])%fmap_Some). done.
    + intros Hk. exists k. split; [apply gmap_keys_elem; eauto|by rewrite Hk].
  - rewrite omap_keys by (intros; by apply gmap_keys_elem). apply StronglySorted_lt.
    + unfold gmap_keys. rewrite (merge_sort_Permutation key_le). apply NoDup_elements.
    + apply StronglySorted_merge_sort; [intros ???; unfold key_le; lia|].
      intros a b. unfold key_le. lia.
Qed.
