(* ===== verification/RecvBuffer.v ===== *)
(** * The receive buffer (recv_buffer.go)

    A fixed array of bytes whose first [offset] bytes are readable, and a tree
    of the packets that arrived ahead of the next one in sequence.  [Write]
    files a packet and then moves every packet that is now in sequence into the
    array; [SelectiveAck] reports the packets that wait.

    The abstract reading is a stream reassembler: for a sender whose [i]-th
    packet carries [f i] under the sequence number [init + 1 + i], the bytes
    read so far followed by the readable bytes are the first [consumed] packets
    in order, whatever the order in which packets arrived, and each packet that
    waits is one of the sender's. *)

From Stdlib Require Import ZArith Lia.
From stdpp Require Import base list gmap fin_maps sets.
From S2P Require Import Prelude.
From S2P Require Import Seq.
From S2P Require Import SelectiveAck.
From S2P Require Import Packet.
From S2P Require Import BTree.

Definition MAX_SELECTIVE_ACK_COUNT : nat := 32 * 63.

Section receive_buffer.
Context `{BTreeImpl}.

Record receiveBuffer := mkRecvBuffer {
  rb_buf : list Z;
  rb_offset : Z;
  rb_pending : btree (list Z);
  rb_initSeqNum : Z;
  rb_consumed : Z;
}.

Definition newReceiveBuffer (size : Z) (initSeqNum : Z) : receiveBuffer :=
  mkRecvBuffer (replicate (Z.to_nat size) 0) 0 bt_New initSeqNum 0.

Definition rb_Available (rb : receiveBuffer) : Z :=
  fold_left (λ available item, available - len item.2)
    (bt_Ascend (rb_pending rb)) (len (rb_buf rb) - rb_offset rb).

Definition rb_IsEmpty (rb : receiveBuffer) : bool :=
  (rb_offset rb =? 0) && (bt_Len (rb_pending rb) =? 0).

Definition rb_InitSeqNum (rb : receiveBuffer) : Z := rb_initSeqNum rb.

Definition rb_WasWritten (rb : receiveBuffer) (seqNum : Z) : bool :=
  let exists_ := bt_Has seqNum (rb_pending rb) in
  let writtenRange := mkRange (rb_initSeqNum rb) (rb_initSeqNum rb ⊕ rb_consumed rb) false in
  exists_ || Contains writtenRange seqNum.

(** [Read] returns the count and the caller's buffer after the copy; the rest of
    the readable bytes move to the front of the array. *)
Definition rb_Read (buf : list Z) (rb : receiveBuffer) : outcome (Z * list Z * receiveBuffer) :=
  if len buf =? 0 then mret (0, buf, rb)
  else
    let n := Z.min (len buf) (rb_offset rb) in
    src ← slice (rb_buf rb) 0 n;
    let buf := go_copy buf src in
    let remaining := rb_offset rb - n in
    rest ← slice (rb_buf rb) n (n + remaining);
    mret (n, buf, mkRecvBuffer (go_copy (rb_buf rb) rest) remaining (rb_pending rb)
                    (rb_initSeqNum rb) (rb_consumed rb)).

(** [copy(buf[lo:hi], src)] *)
Definition copy_at (buf : list Z) (lo hi : Z) (src : list Z) : outcome (list Z) :=
  window ← slice buf lo hi;
  mret (take (Z.to_nat lo) buf ++ go_copy window src ++ drop (Z.to_nat hi) buf).

(** The loop of [Write]: every iteration removes a waiting packet, so one more
    iteration than there are packets is enough. *)
Fixpoint rb_deliver (fuel : nat) (next : Z) (rb : receiveBuffer) : outcome receiveBuffer :=
  match fuel with
  | O => NoFuel
  | S fuel =>
      match bt_Get next (rb_pending rb) with
      | None => mret rb
      | Some data =>
          let end_ := rb_offset rb + len data in
          buf ← copy_at (rb_buf rb) (rb_offset rb) end_ data;
          rb_deliver fuel (next ⊕ 1)
            (mkRecvBuffer buf end_ (bt_Delete next (rb_pending rb))
               (rb_initSeqNum rb) (rb_consumed rb ⊕ 1))
      end
  end.

(** [Write] returns [nil] ([None]) or an error. *)
Definition rb_Write (data : list Z) (seqNum : Z) (rb : receiveBuffer)
    : outcome (option error * receiveBuffer) :=
  if rb_WasWritten rb seqNum then mret (None, rb)
  else if rb_Available rb <? len data then mret (Some ErrInsufficientSpace, rb)
  else
    let rb := mkRecvBuffer (rb_buf rb) (rb_offset rb)
                (bt_ReplaceOrInsert seqNum data (rb_pending rb))
                (rb_initSeqNum rb) (rb_consumed rb) in
    let next := rb_initSeqNum rb ⊕ 1 ⊕ rb_consumed rb in
    rb ← rb_deliver (S (Z.to_nat (bt_Len (rb_pending rb)))) next rb;
    mret (None, rb).

Definition rb_AckNum (rb : receiveBuffer) : Z := rb_initSeqNum rb ⊕ rb_consumed rb.

(** The loop of [SelectiveAck]; [room] is what is left of the maximal count. *)
Fixpoint sack_loop (room : nat) (pendingSeqs : gset Z) (lastAck : Z) : list bool :=
  match room with
  | O => []
  | S room =>
      if bool_decide (pendingSeqs = ∅) then []
      else if bool_decide (lastAck ∈ pendingSeqs)
      then true :: sack_loop room (pendingSeqs ∖ {[lastAck]}) (lastAck ⊕ 1)
      else false :: sack_loop room pendingSeqs (lastAck ⊕ 1)
  end.

Definition rb_SelectiveAck (rb : receiveBuffer) : option SelectiveAck :=
  if bt_Len (rb_pending rb) =? 0 then None
  else
    let lastAck := rb_AckNum rb ⊕ 2 in
    let pendingSeqs := list_to_set (bt_Ascend (rb_pending rb)).*1 in
    Some (NewSelectiveAck (sack_loop MAX_SELECTIVE_ACK_COUNT pendingSeqs lastAck)).

End receive_buffer.

(** ** Invariant *)

Section receive_buffer_proofs.
Context `{BTreeLaws}.
Implicit Types rb : receiveBuffer.

Definition pending_bytes rb : Z := bt_sum len (rb_pending rb).

(** The bytes that [Read] can hand out. *)
Definition readable rb : list Z := take (Z.to_nat (rb_offset rb)) (rb_buf rb).

(** Everything but the position of the waiting packets, which are at least [d]
    steps ahead of the last packet consumed. *)
Record rb_ahead (d : Z) rb : Prop := {
  ri_init : is_u16 (rb_initSeqNum rb);
  ri_consumed : is_u16 (rb_consumed rb);
  ri_offset : 0 ≤ rb_offset rb;
  ri_space : rb_offset rb + pending_bytes rb ≤ len (rb_buf rb);
  ri_keys k data : bt_Get k (rb_pending rb) = Some data →
    is_u16 k ∧ rb_consumed rb + d ≤ k ⊖ rb_initSeqNum rb;
}.

(** The invariant: no waiting packet is next in sequence. *)
Definition rb_inv rb : Prop := rb_ahead 2 rb.

Lemma pending_bytes_nonneg rb : 0 ≤ pending_bytes rb.
Proof. apply bt_sum_nonneg. intros; apply len_nonneg. Qed.

Lemma fold_left_sub (l : list (Z * list Z)) acc :
  fold_left (λ available item, available - len item.2) l acc
  = acc - foldr (λ kv acc, len kv.2 + acc) 0 l.
Proof. revert acc. induction l as [|kv l IH]; intros acc; simpl; [lia|]. rewrite IH. lia. Qed.

Lemma rb_Available_eq rb : rb_Available rb = len (rb_buf rb) - rb_offset rb - pending_bytes rb.
Proof. unfold rb_Available. by rewrite fold_left_sub. Qed.

Lemma newReceiveBuffer_inv size init :
  0 ≤ size → is_u16 init → rb_inv (newReceiveBuffer size init).
Proof.
  intros Hs Hi. split; simpl; [done|go_lia|lia| |].
  - unfold pending_bytes. simpl. rewrite bt_sum_New. apply len_nonneg.
  - intros k data. rewrite bt_Get_New. done.
Qed.

(** ** Copying into the array *)

Lemma copy_at_spec buf lo src :
  0 ≤ lo → lo + len src ≤ len buf →
  ∃ buf', copy_at buf lo (lo + len src) src = Ret buf' ∧ len buf' = len buf ∧
          take (Z.to_nat (lo + len src)) buf' = take (Z.to_nat lo) buf ++ src.
Proof.
  intros Hlo Hhi. pose proof (len_nonneg src). unfold copy_at. rewrite slice_Ret by lia.
  cbn [mbind outcome_bind]. set (w := take _ (drop _ buf)).
  assert (Hw : length w = length src).
  { subst w. rewrite length_take, length_drop. unfold len in *. lia. }
  assert (Hg : go_copy w src = src).
  { unfold go_copy. rewrite take_ge, drop_ge, app_nil_r by lia. done. }
  rewrite Hg. eexists. split; [done|]. split.
  - autorewrite with go. lia.
  - rewrite app_assoc. rewrite take_app_le; [apply take_ge|];
      rewrite length_app, length_take; unfold len in *; lia.
Qed.

(** ** The delivery loop *)

(** The packets taken by the loop: [ds] are the packets filed under the sequence
    numbers that follow the last one consumed. *)
Record delivered rb (ds : list (list Z)) rb' : Prop := {
  dl_init : rb_initSeqNum rb' = rb_initSeqNum rb;
  dl_size : len (rb_buf rb') = len (rb_buf rb);
  dl_consumed : rb_consumed rb' = rb_consumed rb + len ds;
  dl_bytes : readable rb' = readable rb ++ concat ds;
  dl_taken i d : ds !! i = Some d →
    bt_Get (rb_initSeqNum rb ⊕ (1 + rb_consumed rb + Z.of_nat i)) (rb_pending rb) = Some d;
  dl_left k : bt_Get k (rb_pending rb') =
    if decide (k ⊖ rb_initSeqNum rb ≤ rb_consumed rb') then None else bt_Get k (rb_pending rb);
}.

Lemma delivered_nil rb : rb_ahead 2 rb → delivered rb [] rb.
Proof.
  intros H1. split; [done|done|rewrite len_nil; lia|by rewrite app_nil_r|done|].
  intros k. case_decide as Hk; [|done].
  destruct (bt_Get k (rb_pending rb)) as [d|] eqn:E; [|done].
  apply (ri_keys _ _ H1) in E. lia.
Qed.

Lemma ahead_next rb k :
  rb_ahead 1 rb → is_u16 k →
  k ⊖ rb_initSeqNum rb = rb_consumed rb + 1 →
  k = rb_initSeqNum rb ⊕ (1 + rb_consumed rb).
Proof. intros [Hi Hc _ _ _] Hk Heq. go_lia. Qed.

Lemma rb_deliver_spec fuel rb :
  rb_ahead 1 rb → bt_Len (rb_pending rb) < Z.of_nat fuel →
  ∃ ds rb', rb_deliver fuel (rb_initSeqNum rb ⊕ (1 + rb_consumed rb)) rb = Ret rb' ∧
            rb_inv rb' ∧ delivered rb ds rb'.
Proof.
  revert rb. induction fuel as [|fuel IH]; intros rb Ha Hf.
  { pose proof (bt_Len_nonneg (rb_pending rb)). lia. }
  set (next := rb_initSeqNum rb ⊕ (1 + rb_consumed rb)). cbn [rb_deliver].
  destruct Ha as [Hi Hc Ho Hs Hk]. destruct (bt_Get next (rb_pending rb)) as [d|] eqn:Hnext.
  - destruct (Hk _ _ Hnext) as [Hn16 Hnk].
    assert (Hc' : rb_consumed rb < 65535) by (subst next; go_lia).
    unfold pending_bytes in Hs.
    assert (Hd : bt_sum len (bt_Delete next (rb_pending rb))
                 = bt_sum len (rb_pending rb) - len d) by (by apply bt_sum_Delete).
    assert (Hnn : 0 ≤ bt_sum len (bt_Delete next (rb_pending rb)))
      by (apply bt_sum_nonneg; intros; apply len_nonneg).
    destruct (copy_at_spec (rb_buf rb) (rb_offset rb) d) as (buf' & -> & Hbl & Hbt); [lia|lia|].
    cbn [mbind outcome_bind]. pose proof (len_nonneg d).
    set (rb1 := mkRecvBuffer buf' (rb_offset rb + len d) (bt_Delete next (rb_pending rb))
                  (rb_initSeqNum rb) (rb_consumed rb ⊕ 1)).
    assert (Hc1 : rb_consumed rb ⊕ 1 = rb_consumed rb + 1) by go_lia.
    destruct (IH rb1) as (ds & rb' & Hr & Hinv & Hdel).
    { split; simpl; rewrite ?Hc1; try done || lia.
      - go_lia.
      - unfold pending_bytes. simpl. lia.
      - intros k data. rewrite bt_Get_Delete. case_decide; [done|]. intros Hk'.
        destruct (Hk _ _ Hk') as [? ?]. split; [done|]. subst next. go_lia. }
    { simpl. rewrite (bt_Len_Delete _ d) by done. lia. }
    replace (next ⊕ 1) with (rb_initSeqNum rb1 ⊕ (1 + rb_consumed rb1)).
    2:{ simpl. rewrite Hc1. subst next. go_lia. }
    rewrite Hr. exists (d :: ds), rb'. split; [done|]. split; [done|].
    destruct Hdel as [D1 D2 D3 D4 D5 D6]. simpl in *. rewrite Hc1 in *. split.
    + done.
    + lia.
    + rewrite len_cons. lia.
    + rewrite D4. unfold readable at 1. simpl. by rewrite Hbt, <- app_assoc.
    + intros [|i] d' Hd'; simpl in Hd'; [injection Hd' as <-|].
      * replace (1 + rb_consumed rb + Z.of_nat 0) with (1 + rb_consumed rb) by lia. done.
      * apply D5 in Hd'. rewrite bt_Get_Delete in Hd'. case_decide; [done|]. rewrite <- Hd'.
        do 2 f_equal. lia.
    + intros k. rewrite D6, bt_Get_Delete. pose proof (len_nonneg ds).
      repeat case_decide; try done. subst. subst next. go_lia.
  - exists [], rb. split; [done|].
    assert (rb_ahead 2 rb) as Ha.
    { split; try done. intros k data Hk'. destruct (Hk _ _ Hk') as [? Hge]. split; [done|].
      destruct (decide (k ⊖ rb_initSeqNum rb = rb_consumed rb + 1)) as [He|]; [|lia].
      apply ahead_next in He; [|by split|done]. rewrite He in Hk'. fold next in Hk'. congruence. }
    split; [done|]. by apply delivered_nil.
Qed.

(** ** [Write] *)

Lemma WasWritten_spec rb seqNum :
  rb_inv rb → is_u16 seqNum →
  rb_WasWritten rb seqNum = true ↔
  seqNum ⊖ rb_initSeqNum rb ≤ rb_consumed rb ∨ is_Some (bt_Get seqNum (rb_pending rb)).
Proof.
  intros [Hi Hc _ _ _] Hs. unfold rb_WasWritten.
  rewrite orb_true_iff, bt_Has_Get, bool_decide_eq_true, Contains_offset;
    [|split; simpl; auto with go|done].
  unfold cr_dist. simpl.
  replace (rb_initSeqNum rb ⊕ rb_consumed rb ⊖ rb_initSeqNum rb) with (rb_consumed rb)
    by go_lia. tauto.
Qed.

(** The three ways a call of [Write] can go. *)
Lemma rb_Write_spec data seqNum rb :
  rb_inv rb → is_u16 seqNum →
  (rb_WasWritten rb seqNum = true ∧ rb_Write data seqNum rb = Ret (None, rb)) ∨
  (rb_WasWritten rb seqNum = false ∧ rb_Available rb < len data ∧
   rb_Write data seqNum rb = Ret (Some ErrInsufficientSpace, rb)) ∨
  (rb_WasWritten rb seqNum = false ∧ len data ≤ rb_Available rb ∧
   ∃ ds rb', rb_Write data seqNum rb = Ret (None, rb') ∧ rb_inv rb' ∧
     delivered (mkRecvBuffer (rb_buf rb) (rb_offset rb)
                  (bt_ReplaceOrInsert seqNum data (rb_pending rb))
                  (rb_initSeqNum rb) (rb_consumed rb)) ds rb').
Proof.
  intros Hinv Hs. destruct (rb_WasWritten rb seqNum) eqn:Hw; unfold rb_Write; rewrite Hw.
  { by left. }
  right. case_bool; [by left|]. right. split; [done|]. split; [done|].
  assert (Hnew : ¬ (seqNum ⊖ rb_initSeqNum rb ≤ rb_consumed rb) ∧
                 bt_Get seqNum (rb_pending rb) = None).
  { pose proof (WasWritten_spec rb seqNum Hinv Hs) as HW. rewrite Hw in HW.
    apply not_true_iff_false in Hw as Hw'. rewrite Hw in Hw'. split.
    - intros Hle. apply Hw'. apply HW. by left.
    - apply eq_None_not_Some. intros Hsome. apply Hw'. apply HW. by right. }
  destruct Hnew as [Hfar Hnone].
  set (rb1 := mkRecvBuffer _ _ _ _ _). rewrite rb_Available_eq in *.
  destruct Hinv as [Hi Hc Ho Hsp Hk].
  replace (rb_initSeqNum rb1 ⊕ 1 ⊕ rb_consumed rb1)
    with (rb_initSeqNum rb1 ⊕ (1 + rb_consumed rb1)) by (simpl; go_lia).
  destruct (rb_deliver_spec (S (Z.to_nat (bt_Len (rb_pending rb1)))) rb1)
    as (ds & rb' & Hd & Hinv & Hdel).
  - split; simpl; try done.
    + unfold pending_bytes in *. simpl. rewrite bt_sum_Insert by done. lia.
    + intros k d. rewrite bt_Get_Insert. case_decide; [intros _; subst; split; [done|lia]|].
      intros Hk'. destruct (Hk _ _ Hk'). split; [done|lia].
  - pose proof (bt_Len_nonneg (rb_pending rb1)). lia.
  - rewrite Hd. eauto.
Qed.

(** ** [Read] *)

Lemma rb_Read_spec buf rb :
  rb_inv rb →
  let n := Z.min (len buf) (rb_offset rb) in
  ∃ buf' rb', rb_Read buf rb = Ret (n, buf', rb') ∧ rb_inv rb' ∧
    length buf' = length buf ∧ readable rb = take (Z.to_nat n) buf' ++ readable rb' ∧
    rb_pending rb' = rb_pending rb ∧ rb_initSeqNum rb' = rb_initSeqNum rb ∧
    rb_consumed rb' = rb_consumed rb ∧ rb_offset rb' = rb_offset rb - n ∧
    len (rb_buf rb') = len (rb_buf rb).
Proof.
  intros Hinv n. pose proof Hinv as [Hi Hc Ho Hsp Hk]. pose proof (pending_bytes_nonneg rb).
  pose proof (len_nonneg buf). unfold rb_Read. case_bool.
  { exists buf, rb. assert (n = 0) as -> by lia. rewrite Z2Nat.inj_0, take_0.
    split_and!; done || lia. }
  fold n. rewrite slice_prefix by lia. cbn [mbind outcome_bind].
  replace (n + (rb_offset rb - n)) with (rb_offset rb) by lia.
  rewrite slice_Ret by lia. cbn [mbind outcome_bind].
  set (src := take (Z.to_nat n) (rb_buf rb)).
  set (rest := take _ (drop _ (rb_buf rb))).
  assert (Hsrc : length src = Z.to_nat n).
  { subst src. rewrite length_take. unfold len in *. lia. }
  assert (Hrest : length rest = Z.to_nat (rb_offset rb - n)).
  { subst rest. rewrite length_take, length_drop. unfold len in *. lia. }
  eexists _, _. split; [done|]. simpl. rewrite go_copy_length. split_and!; try done.
  - split; simpl; try done; [lia|]. unfold pending_bytes in *. simpl.
    unfold len in *. rewrite go_copy_length. lia.
  - unfold readable. simpl.
    assert (take (Z.to_nat n) (go_copy buf src) = src) as ->.
    { unfold go_copy. rewrite <- Hsrc, (take_ge src) by (unfold len in *; lia).
      by rewrite take_app_length. }
    assert (take (Z.to_nat (rb_offset rb - n)) (go_copy (rb_buf rb) rest) = rest) as ->.
    { unfold go_copy. rewrite <- Hrest, (take_ge rest) by (unfold len in *; lia).
      by rewrite take_app_length. }
    subst src rest. rewrite Z2Nat.inj_sub by lia.
    rewrite <- (take_drop (Z.to_nat n) (take (Z.to_nat (rb_offset rb)) (rb_buf rb))).
    rewrite take_take, skipn_firstn_comm. do 2 f_equal; lia.
  - unfold len. by rewrite go_copy_length.
Qed.

End receive_buffer_proofs.

(** ** Reassembly of a stream *)

Section reassembly.
Context `{BTreeLaws}.
(** The payload of the sender's [i]-th packet, the sequence number that precedes
    its first packet, and the size of the receiver's array. *)
Context (f : nat → list Z) (init size : Z).

Definition packet_seq (i : nat) : Z := init ⊕ (1 + Z.of_nat i).

(** What happens at the receiver: the network hands over some packet of the
    stream, or the reader asks for bytes. *)
Inductive rb_event := Arrive (i : nat) | ReadInto (buf : list Z).

(** A run: the bytes read, and the packets for which [Write] returned no error. *)
Fixpoint rb_run (evs : list rb_event) (rb : receiveBuffer)
    : outcome (list Z * list nat * receiveBuffer) :=
  match evs with
  | [] => mret ([], [], rb)
  | Arrive i :: evs =>
      '(err, rb) ← rb_Write (f i) (packet_seq i) rb;
      '(out, got, rb) ← rb_run evs rb;
      mret (out, match err with None => i :: got | Some _ => got end, rb)
  | ReadInto buf :: evs =>
      '(n, buf, rb) ← rb_Read buf rb;
      '(out, got, rb) ← rb_run evs rb;
      mret (take (Z.to_nat n) buf ++ out, got, rb)
  end.

(** The state of a reassembler that has read [out] and accepted [got]. *)
Record reassembling (out : list Z) (got : list nat) (rb : receiveBuffer) : Prop := {
  rs_inv : rb_inv rb;
  rs_init : rb_initSeqNum rb = init;
  rs_size : len (rb_buf rb) = size;
  rs_bytes : out ++ readable rb = concat (f <$> seq 0 (Z.to_nat (rb_consumed rb)));
  rs_pending k d : bt_Get k (rb_pending rb) = Some d → d = f (Z.to_nat (k ⊖ init - 1));
  rs_got i : i ∈ got → Z.of_nat i < 65535 →
    Z.of_nat i < rb_consumed rb ∨ is_Some (bt_Get (packet_seq i) (rb_pending rb));
  rs_prefix i : Z.of_nat i < rb_consumed rb → i ∈ got;
  rs_keys k : is_Some (bt_Get k (rb_pending rb)) → Z.to_nat (k ⊖ init - 1) ∈ got;
}.

Lemma packet_seq_offset i :
  is_u16 init → Z.of_nat i < 65535 → packet_seq i ⊖ init = 1 + Z.of_nat i.
Proof. intros. unfold packet_seq. go_lia. Qed.

Lemma reassembling_new :
  0 ≤ size → is_u16 init → reassembling [] [] (newReceiveBuffer size init).
Proof.
  intros. split; simpl; [by apply newReceiveBuffer_inv|done| |done| |set_solver|lia|].
  - unfold len. rewrite length_replicate. lia.
  - intros k d. rewrite bt_Get_New. done.
  - intros k. rewrite bt_Get_New. by intros [].
Qed.

Lemma reassembling_Read buf out got rb n buf' rb' :
  reassembling out got rb → rb_Read buf rb = Ret (n, buf', rb') →
  reassembling (out ++ take (Z.to_nat n) buf') got rb'.
Proof.
  intros [R1 R2 RS R3 R4 R5 R6 R7] Hr.
  destruct (rb_Read_spec buf rb R1) as (b' & r' & Hr' & Hi & _ & Hrd & Hp & Hin & Hc & _ & Hsz).
  rewrite Hr' in Hr. simplify_eq. split; rewrite ?Hp, ?Hc, ?Hin, ?Hsz; try done.
  by rewrite <- app_assoc, <- Hrd.
Qed.

(** The packets delivered by one [Write] continue the stream. *)
Lemma delivered_stream rb ds rb' :
  is_u16 init → is_u16 (rb_consumed rb) → rb_initSeqNum rb = init → is_u16 (rb_consumed rb') →
  (∀ k d, bt_Get k (rb_pending rb) = Some d → d = f (Z.to_nat (k ⊖ init - 1))) →
  delivered rb ds rb' →
  ds = f <$> seq (Z.to_nat (rb_consumed rb)) (length ds).
Proof.
  intros Hi Hc Hin Hc' Hp [D1 _ D3 _ D5 _]. apply list_eq. intros j.
  rewrite list_lookup_fmap. destruct (ds !! j) as [d|] eqn:Hj.
  - apply lookup_lt_Some in Hj as Hlt. rewrite lookup_seq_lt by done. simpl. f_equal.
    apply D5 in Hj. rewrite (Hp _ _ Hj), Hin. f_equal. unfold len in *. go_lia.
  - apply lookup_ge_None in Hj. by rewrite lookup_seq_ge.
Qed.

Lemma reassembling_Write i out got rb :
  reassembling out got rb → Z.of_nat i < 65535 →
  ∃ err rb', rb_Write (f i) (packet_seq i) rb = Ret (err, rb') ∧
    reassembling out (match err with None => i :: got | Some _ => got end) rb' ∧
    (err = None ∨ err = Some ErrInsufficientSpace).
Proof.
  intros [R1 R2 RS R3 R4 R5 R6 R7] Hi. pose proof R1 as [I1 I2 _ _ _]. rewrite R2 in I1.
  assert (Hs : is_u16 (packet_seq i)) by apply u16_range.
  pose proof (packet_seq_offset i I1 Hi) as Hoff.
  destruct (rb_Write_spec (f i) (packet_seq i) rb R1 Hs)
    as [[Hw ->]|[(_ & _ & ->)|(_ & _ & ds & rb' & -> & Hinv & Hdel)]].
  - exists None, rb. split; [done|]. split; [|by left]. split; try done.
    apply WasWritten_spec in Hw; [|done|done]. rewrite R2, Hoff in Hw.
    + intros j [->|Hj]%elem_of_cons; [|by apply R5]. intros _. destruct Hw; [left; lia|by right].
    + intros j Hj. right. by apply R6.
    + intros k Hk. right. by apply R7.
  - exists (Some ErrInsufficientSpace), rb. split; [done|]. split; [by split|by right].
  - exists None, rb'. split; [done|]. split; [|by left].
    pose proof Hinv as [J1 J2 _ _ _].
    assert (Hpend : ∀ k d, bt_Get k (bt_ReplaceOrInsert (packet_seq i) (f i) (rb_pending rb))
                           = Some d → d = f (Z.to_nat (k ⊖ init - 1))).
    { intros k d. rewrite bt_Get_Insert. case_decide; [|by apply R4]. intros [= <-]. subst.
      rewrite Hoff. f_equal. lia. }
    assert (Hkeys : ∀ k, is_Some (bt_Get k (bt_ReplaceOrInsert (packet_seq i) (f i) (rb_pending rb))) →
                         Z.to_nat (k ⊖ init - 1) ∈ i :: got).
    { intros k. rewrite bt_Get_Insert. case_decide; [|intros Hk; right; by apply R7]. intros _. subst.
      apply elem_of_cons. left. rewrite Hoff. lia. }
    pose proof Hdel as Hds. apply delivered_stream in Hds; [|done..].
    destruct Hdel as [D1 D2 D3 D4 D5 D6]. simpl in *. split; try done.
    + by rewrite D1.
    + by rewrite D2.
    + rewrite D4, D3. change (readable (mkRecvBuffer _ _ _ _ _)) with (readable rb).
      unfold len. rewrite Z2Nat.inj_add, Nat2Z.id by go_lia.
      rewrite seq_app, fmap_app, concat_app. simpl. by rewrite <- Hds, <- R3, <- app_assoc.
    + intros k d. rewrite D6. case_decide; [done|]. apply Hpend.
    + intros j Hj Hj5. rewrite D6, D3, R2, packet_seq_offset by done.
      case_decide; [left; lia|]. rewrite bt_Get_Insert. case_decide as He; [by right|].
      apply elem_of_cons in Hj as [->|Hj]; [done|].
      destruct (R5 j Hj Hj5); [|by right]. pose proof (len_nonneg ds). lia.
    + intros j Hj. rewrite D3 in Hj. destruct (Z.lt_ge_cases (Z.of_nat j) (rb_consumed rb)) as [Hlt|Hge]; [right; by apply R6|].
      set (o := Z.to_nat (Z.of_nat j - rb_consumed rb)). destruct (lookup_lt_is_Some_2 ds o) as [d Hd]; [unfold len in *; lia|].
      apply D5 in Hd. rewrite R2 in Hd. replace (1 + rb_consumed rb + Z.of_nat o) with (1 + Z.of_nat j) in Hd by lia.
      assert (Hj5 : Z.of_nat j < 65535) by (unfold is_u16 in J2; lia). fold (packet_seq j) in Hd.
      pose proof (Hkeys _ ltac:(by eexists)) as Hk. rewrite packet_seq_offset in Hk by done.
      replace (Z.to_nat (1 + Z.of_nat j - 1)) with j in Hk by lia. done.
    + intros k. rewrite D6. case_decide; [by intros []|]. apply Hkeys.
Qed.

Definition event_ok (ev : rb_event) : Prop :=
  match ev with Arrive i => Z.of_nat i < 65535 | ReadInto _ => True end.

Lemma rb_run_reassembles evs out got rb :
  reassembling out got rb → Forall event_ok evs →
  ∃ out' got' rb', rb_run evs rb = Ret (out', got', rb') ∧
    reassembling (out ++ out') (rev got' ++ got) rb'.
Proof.
  intros HR Hevs. revert out got rb HR.
  induction Hevs as [|[i|buf] evs Hev Hevs IH]; intros out got rb HR; cbn [rb_run].
  - eexists [], [], rb. by rewrite app_nil_r.
  - destruct (reassembling_Write i out got rb HR Hev) as (err & rb1 & -> & HR1 & _).
    cbn [mbind outcome_bind]. destruct (IH _ _ _ HR1) as (out' & got' & rb2 & -> & HR2).
    cbn [mbind outcome_bind]. eexists _, _, _. split; [done|].
    destruct err; [done|]. simpl. by rewrite <- app_assoc.
  - destruct (rb_Read_spec buf rb (rs_inv _ _ _ HR)) as (b' & r' & Hr & _).
    pose proof (reassembling_Read _ _ _ _ _ _ _ HR Hr) as HR1. rewrite Hr.
    cbn [mbind outcome_bind]. destruct (IH _ _ _ HR1) as (out' & got' & rb2 & -> & HR2).
    cbn [mbind outcome_bind]. eexists _, _, _. split; [done|]. by rewrite app_assoc.
Qed.

(** The first packet that is not in sequence has not been accepted. *)
Lemma reassembling_gap out got rb :
  reassembling out got rb → rb_consumed rb < 65535 → Z.to_nat (rb_consumed rb) ∉ got.
Proof.
  intros [R1 R2 _ _ _ R5 _ _] HM Hin. pose proof R1 as [I1 I2 _ _ I5].
  set (i := Z.to_nat (rb_consumed rb)) in *. assert (Hi : Z.of_nat i = rb_consumed rb) by go_lia.
  destruct (R5 i) as [Hlt|[d Hd]]; [done|lia|lia|].
  apply I5 in Hd as [_ Hd]. rewrite R2 in *. rewrite packet_seq_offset in Hd by (done || lia). lia.
Qed.

End reassembly.

(** C8. The receive buffer reassembles the sender's stream.  For any packets
    [f 0, f 1, ...] sent under consecutive sequence numbers, any arrival order,
    duplication and loss of the first 65535 of them, and any interleaved reads:
    no call panics; the longest prefix of packets that [Write] accepted, of length
    [k], is what the reader has read and can read, in order; and the
    acknowledgement number is the sequence number of its last packet (of the SYN
    if there is none). *)
Theorem receiveBuffer_reassembles `{BTreeLaws} (f : nat → list Z) (init size : Z)
    (evs : list rb_event) :
  0 ≤ size → is_u16 init → Forall event_ok evs →
  ∃ out got rb k, rb_run f init evs (newReceiveBuffer size init) = Ret (out, got, rb) ∧
    (∀ i, (i < k)%nat → i ∈ got) ∧ (k ∉ got ∨ Z.of_nat k = 65535) ∧
    out ++ readable rb = concat (f <$> seq 0 k) ∧
    rb_AckNum rb = init ⊕ Z.of_nat k ∧ (∀ i, k = S i → rb_AckNum rb = packet_seq init i) ∧
    0 ≤ rb_Available rb ≤ size.
Proof.
  intros Hs Hi Hevs.
  destruct (rb_run_reassembles f init size evs _ _ _ (reassembling_new f init size Hs Hi) Hevs)
    as (out & got & rb & Hr & HR).
  rewrite app_nil_l, app_nil_r in HR. pose proof (rs_inv _ _ _ _ _ _ HR) as [_ Hc I3 I4 _].
  assert (Hgot : ∀ i, i ∈ rev got ↔ i ∈ got) by (intros i; rewrite !list_elem_of_In; symmetry; apply in_rev).
  exists out, got, rb, (Z.to_nat (rb_consumed rb)). unfold rb_AckNum. rewrite (rs_init _ _ _ _ _ _ HR). split_and!.
  - done.
  - intros i Hlt. apply Hgot, (rs_prefix _ _ _ _ _ _ HR). lia.
  - destruct (Z.lt_ge_cases (rb_consumed rb) 65535); [left|right; go_lia]. rewrite <- Hgot. by eapply reassembling_gap.
  - apply HR.
  - rewrite Z2Nat.id by go_lia. done.
  - intros i Hk. unfold packet_seq. go_lia.
  - pose proof (pending_bytes_nonneg rb). rewrite rb_Available_eq, (rs_size _ _ _ _ _ _ HR) in *. lia.
  - pose proof (pending_bytes_nonneg rb). rewrite rb_Available_eq, (rs_size _ _ _ _ _ _ HR) in *. lia.
Qed.

(** A run in which the second packet overtakes the first. *)
Definition demo_payload (i : nat) : list Z := [Z.of_nat i; 7].

Example receiveBuffer_run :
  rb_run demo_payload 65535 [Arrive 1; Arrive 1; ReadInto [0]; Arrive 0; ReadInto [0; 0; 0]]
    (newReceiveBuffer 8 65535)
  = Ret ([0; 7; 1], [1; 1; 0]%nat, mkRecvBuffer [7; 7; 1; 7; 0; 0; 0; 0] 1 ∅ 65535 2).
Proof. vm_compute. reflexivity. Qed.

Lemma receiveBuffer_reassembles_witness :
  ∃ out got rb,
    rb_run demo_payload 65535 [Arrive 1; Arrive 1; ReadInto [0]; Arrive 0; ReadInto [0; 0; 0]]
      (newReceiveBuffer 8 65535) = Ret (out, got, rb) ∧
    out ++ readable rb = [0; 7; 1; 7] ∧ rb_AckNum rb = 1.
Proof.
  destruct (receiveBuffer_reassembles demo_payload 65535 8
    [Arrive 1; Arrive 1; ReadInto [0]; Arrive 0; ReadInto [0; 0; 0]])
    as (out & got & rb & k & H1 & _ & Hk & H2 & Ha & _); [lia|split; lia|repeat constructor; lia|].
  exists out, got, rb. split; [exact H1|]. rewrite receiveBuffer_run in H1. injection H1 as <- <- <-. split; reflexivity.
Defined.

(** ** The effect of one [Write] *)

Section write_claims.
Context `{BTreeLaws}.

(** [Write] is total and idempotent on a well-formed buffer: it keeps the
    invariant, the capacity and the initial sequence number; it refuses a new
    packet exactly when it does not fit, leaving the buffer as it was; it never
    moves the acknowledged position backwards; and once a packet was accepted,
    it counts as written and writing it again changes nothing. *)
Theorem rb_Write_total (rb : receiveBuffer) (data : list Z) (seqNum : Z) :
  rb_inv rb → is_u16 seqNum →
  ∃ err rb', rb_Write data seqNum rb = Ret (err, rb') ∧ rb_inv rb' ∧
    rb_initSeqNum rb' = rb_initSeqNum rb ∧ len (rb_buf rb') = len (rb_buf rb) ∧
    rb_consumed rb ≤ rb_consumed rb' ∧
    match err with
    | Some e => e = ErrInsufficientSpace ∧ rb' = rb ∧
                rb_WasWritten rb seqNum = false ∧ rb_Available rb < len data
    | None => (rb_WasWritten rb seqNum = true ∨ len data ≤ rb_Available rb) ∧
              rb_WasWritten rb' seqNum = true ∧
              ∀ data', rb_Write data' seqNum rb' = Ret (None, rb')
    end.
Proof.
  intros Hinv Hs. assert (Hidem : ∀ r, rb_WasWritten r seqNum = true →
    ∀ data', rb_Write data' seqNum r = Ret (None, r)).
  { intros r Hw data'. unfold rb_Write. by rewrite Hw. }
  destruct (rb_Write_spec data seqNum rb Hinv Hs)
    as [[Hw ->]|[(Hw & Ha & ->)|(Hw & Ha & ds & rb' & -> & Hinv' & [D1 D2 D3 D4 D5 D6])]].
  - exists None, rb. split_and!; auto with lia.
  - exists (Some ErrInsufficientSpace), rb. split_and!; auto with lia.
  - exists None, rb'. simpl in *. pose proof (len_nonneg ds).
    assert (rb_WasWritten rb' seqNum = true).
    { apply WasWritten_spec; [done|done|]. rewrite D1.
      destruct (decide (seqNum ⊖ rb_initSeqNum rb ≤ rb_consumed rb')) as [|Hgt]; [by left|].
      right. rewrite D6, decide_False by done. rewrite bt_Get_Insert, decide_True; eauto. }
    split_and!; auto with lia.
Qed.

(** C35. The buffer stops after 65535 packets: once [consumed] is 65535 every
    sequence number counts as written, so [Write] accepts any later packet
    without storing it and the acknowledged position never moves again. *)
Theorem receiveBuffer_wedges (rb : receiveBuffer) :
  rb_inv rb → rb_consumed rb = 65535 →
  ∀ data seqNum, is_u16 seqNum →
    rb_Write data seqNum rb = Ret (None, rb) ∧ rb_AckNum rb = rb_initSeqNum rb ⊖ 1.
Proof.
  intros Hinv Hc data seqNum Hs. pose proof Hinv as [Hi _ _ _ _]. split.
  - assert (rb_WasWritten rb seqNum = true) as Hw.
    { apply WasWritten_spec; [done|done|]. left. rewrite Hc. go_lia. }
    unfold rb_Write. by rewrite Hw.
  - unfold rb_AckNum. rewrite Hc. go_lia.
Qed.

End write_claims.

(** An empty buffer that has put [consumed] packets in sequence. *)
Definition demo_buffer (consumed : Z) : receiveBuffer := mkRecvBuffer [0; 0; 0; 0] 0 ∅ 100 consumed.

Lemma demo_buffer_inv c : is_u16 c → rb_inv (demo_buffer c).
Proof.
  intros Hc. split; simpl; [unfold is_u16; lia|done|lia|vm_compute; congruence|].
  intros k d. rewrite lookup_empty. done.
Qed.

Lemma rb_Write_total_witness :
  rb_inv (demo_buffer 0) ∧ is_u16 102 ∧
  ∃ err rb', rb_Write [1; 2; 3] 102 (demo_buffer 0) = Ret (err, rb').
Proof.
  assert (H : rb_inv (demo_buffer 0)) by (apply demo_buffer_inv; unfold is_u16; lia).
  assert (H' : is_u16 102) by (unfold is_u16; lia). split; [done|]. split; [done|].
  destruct (rb_Write_total (demo_buffer 0) [1; 2; 3] 102 H H') as (e & r & Hr & _). eauto.
Defined.

Lemma receiveBuffer_wedges_witness :
  rb_inv (demo_buffer 65535) ∧
  rb_Write [1; 2] 101 (demo_buffer 65535) = Ret (None, demo_buffer 65535).
Proof.
  assert (H : rb_inv (demo_buffer 65535)) by (apply demo_buffer_inv; unfold is_u16; lia).
  split; [done|]. apply (receiveBuffer_wedges (demo_buffer 65535) H); [done|unfold is_u16; lia].
Defined.

(** ** Selective acknowledgements *)

Lemma sack_loop_spec room (S : gset Z) l :
  is_u16 l → (∀ k, k ∈ S → is_u16 k) → Z.of_nat room ≤ 65536 →
  (∀ i, (i < room)%nat → nth i (sack_loop room S l) false = bool_decide (l ⊕ Z.of_nat i ∈ S)) ∧
  (length (sack_loop room S l) ≤ room)%nat.
Proof.
  revert S l. induction room as [|room IH]; intros S l Hl HS Hroom; [split; [lia|done]|].
  cbn [sack_loop]. case_bool_decide as Hempty.
  { subst S. split; [|simpl; lia]. intros i Hi. rewrite nth_overflow by (simpl; lia).
    symmetry. apply bool_decide_eq_false. set_solver. }
  set (S' := if bool_decide (l ∈ S) then S ∖ {[l]} else S).
  assert (Heq : (if bool_decide (l ∈ S)
                 then true :: sack_loop room (S ∖ {[l]}) (l ⊕ 1)
                 else false :: sack_loop room S (l ⊕ 1))
                = bool_decide (l ∈ S) :: sack_loop room S' (l ⊕ 1)).
  { subst S'. by case_bool_decide. }
  rewrite Heq. destruct (IH S' (l ⊕ 1)) as [IHn IHl]; [apply u16_range| |lia|].
  { intros k Hk. apply HS. subst S'. case_bool_decide; set_solver. }
  split; [|simpl; lia]. intros [|i] Hi; simpl.
  - by rewrite Z.add_0_r, u16_id.
  - rewrite IHn by lia. apply bool_decide_ext.
    replace (l ⊕ 1 ⊕ Z.of_nat i) with (l ⊕ Z.of_nat (Datatypes.S i)) by go_lia.
    subst S'. case_bool_decide; [|done].
    assert (l ⊕ Z.of_nat (Datatypes.S i) ≠ l) by go_lia. set_solver.
Qed.

Lemma sack_loop_nonempty room (S : gset Z) l k :
  k ∈ S → (0 < room)%nat → sack_loop room S l ≠ [].
Proof.
  intros Hk Hroom. destruct room; [lia|]. cbn [sack_loop].
  rewrite bool_decide_false by (intros ->; by apply not_elem_of_empty in Hk).
  by case_bool_decide.
Qed.

(** Padding does not change the bits. *)
Lemma nth_Acked l i : nth i (Acked (NewSelectiveAck l)) false = nth i l false.
Proof.
  rewrite Acked_NewSelectiveAck. destruct (Nat.lt_ge_cases i (length l)).
  - by rewrite app_nth1.
  - rewrite app_nth2 by done. rewrite (nth_overflow l) by done.
    generalize (i - length l)%nat (sack_pad (length l)). clear. intros i n.
    revert i. induction n; intros [|i]; simpl; auto.
Qed.

Lemma max_count_pos : (0 < MAX_SELECTIVE_ACK_COUNT)%nat.
Proof. unfold MAX_SELECTIVE_ACK_COUNT. lia. Qed.

Lemma rb_SelectiveAck_cases `{BTreeLaws} (rb : receiveBuffer) :
  rb_inv rb →
  match rb_SelectiveAck rb with
  | None => ∀ k, bt_Get k (rb_pending rb) = None
  | Some s => sack_encodable s ∧ (∃ k, is_Some (bt_Get k (rb_pending rb))) ∧
      ∀ i, (i < MAX_SELECTIVE_ACK_COUNT)%nat →
        nth i (Acked s) false = true ↔
        is_Some (bt_Get (rb_AckNum rb ⊕ 2 ⊕ Z.of_nat i) (rb_pending rb))
  end.
Proof.
  intros [Hi Hc _ _ Hk]. unfold rb_SelectiveAck.
  destruct (Z.eqb_spec (bt_Len (rb_pending rb)) 0) as [Hz|Hz]; [by apply bt_Len_zero|].
  set (S := list_to_set (bt_Ascend (rb_pending rb)).*1 : gset Z).
  assert (HS : ∀ k, k ∈ S ↔ is_Some (bt_Get k (rb_pending rb))).
  { intros k. subst S. rewrite elem_of_list_to_set, list_elem_of_fmap. split.
    - intros ([k' d] & -> & Hin%bt_Ascend_Get). simpl. rewrite Hin. eauto.
    - intros [d Hd]. exists (k, d). split; [done|]. by apply bt_Ascend_Get. }
  assert (Hex : ∃ k, k ∈ S).
  { rewrite bt_Len_Ascend in Hz. destruct (bt_Ascend (rb_pending rb)) as [|[k d] l] eqn:E; [done|].
    exists k. apply HS. exists d. apply bt_Ascend_Get. rewrite E. by left. }
  assert (HSu : ∀ k, k ∈ S → is_u16 k) by (intros k [d Hd]%HS; by apply Hk in Hd as [? _]).
  pose proof (sack_loop_spec MAX_SELECTIVE_ACK_COUNT S (rb_AckNum rb ⊕ 2)
    (u16_range _) HSu ltac:(vm_compute; congruence)) as [Hn Hl].
  split_and!.
  - split; [apply NewSelectiveAck_wf|]. unfold len. rewrite length_NewSelectiveAck.
    destruct Hex as [k Hin].
    pose proof (sack_loop_nonempty MAX_SELECTIVE_ACK_COUNT S (rb_AckNum rb ⊕ 2) k Hin
      max_count_pos) as Hne.
    destruct (sack_loop _ _ _) as [|b bs]; [done|]. clear -Hl. unfold MAX_SELECTIVE_ACK_COUNT in Hl.
    rewrite Nat2Z.inj_div. cbn [length] in *. go_lia.
  - destruct Hex as [k ?%HS]. eauto.
  - intros i Hlt. rewrite nth_Acked, Hn, bool_decide_eq_true by done. apply HS.
Qed.

Lemma rb_SelectiveAck_encodable `{BTreeLaws} (rb : receiveBuffer) s :
  rb_inv rb → rb_SelectiveAck rb = Some s → sack_encodable s.
Proof. intros Hi E. pose proof (rb_SelectiveAck_cases rb Hi) as Hs. rewrite E in Hs. apply Hs. Qed.

(** C22. The selective ack describes the waiting packets: there is none exactly
    when nothing waits; otherwise it fits the one-byte length field of the wire
    format, and for each of the 2016 positions it can carry, bit [i] says
    whether the packet numbered [AckNum + 2 + i] waits. *)
Theorem rb_SelectiveAck_spec `{BTreeLaws} (rb : receiveBuffer) :
  rb_inv rb →
  match rb_SelectiveAck rb with
  | None => ∀ k, bt_Get k (rb_pending rb) = None
  | Some s => sack_encodable s ∧ (∃ k, is_Some (bt_Get k (rb_pending rb))) ∧
      ∀ i, (i < MAX_SELECTIVE_ACK_COUNT)%nat →
        nth i (Acked s) false = true ↔
        is_Some (bt_Get (rb_AckNum rb ⊕ 2 ⊕ Z.of_nat i) (rb_pending rb))
  end.
Proof. apply rb_SelectiveAck_cases. Qed.

Lemma rb_SelectiveAck_spec_witness :
  let rb := mkRecvBuffer [0; 0; 0; 0] 0 {[ 104 := [1] ]} 100 1 in
  rb_inv rb ∧ rb_SelectiveAck rb = Some (NewSelectiveAck [false; true]) ∧
  nth 1 (Acked (NewSelectiveAck [false; true])) false = true.
Proof.
  intros rb. assert (H : rb_inv rb).
  { split; simpl; [unfold is_u16; lia|unfold is_u16; lia|lia|vm_compute; congruence|].
    intros k d [<- <-]%lookup_singleton_Some. unfold is_u16. split; [lia|]. vm_compute. congruence. }
  split; [done|]. split; [vm_compute; reflexivity|].
  pose proof (rb_SelectiveAck_spec rb H) as Hs.
  replace (rb_SelectiveAck rb) with (Some (NewSelectiveAck [false; true])) in Hs
    by (vm_compute; reflexivity).
  apply Hs; [vm_compute; lia|]. exists [1]. vm_compute. reflexivity.
Defined.
