(* ===== verification/TimeWheel.v ===== *)
(** * The timing wheel (delay_set.go)

    [slotNum] maps from keys to values, and a cursor that a ticker advances by
    one slot per [interval]; the slot under the cursor is emptied and its items
    are handed to the expiry function.  [tw_tick] is the body of the ticker case
    of [run]; it returns the items in the order of [map_to_list], which stands
    for Go's unspecified map order.  The mutex makes each operation atomic, so a
    concurrent execution is a sequence of operations. *)

From Stdlib Require Import ZArith Lia.
From stdpp Require Import base list gmap fin_maps.
From S2P Require Import Prelude.

Section time_wheel.
Context {K : Type} `{Countable K} {P : Type}.

Record timeWheel := mkWheel {
  tw_stopped : bool;
  tw_interval : Z;
  tw_slots : list (gmap K P);
  tw_current : Z;
  tw_slotNum : Z;
  tw_maxDelay : Z;
}.

(** [time.NewTicker] panics on a non-positive interval. *)
Definition newTimeWheel (interval slotNum : Z) : outcome timeWheel :=
  if interval <=? 0 then Panic PanicNonPositiveInterval
  else mret (mkWheel false interval (replicate (Z.to_nat slotNum) ∅) 0 slotNum
               (i64 (slotNum * interval))).

Definition tw_with_slots (tw : timeWheel) (slots : list (gmap K P)) : timeWheel :=
  mkWheel (tw_stopped tw) (tw_interval tw) slots (tw_current tw) (tw_slotNum tw) (tw_maxDelay tw).

Definition tw_put (key : K) (value : P) (delay : Z) (tw : timeWheel) : outcome timeWheel :=
  let delay := if tw_maxDelay tw <? delay then tw_maxDelay tw else delay in
  let slots := Z.quot delay (tw_interval tw) in
  let idx := Z.rem (tw_current tw + slots) (tw_slotNum tw) in
  slot ← index (tw_slots tw) idx;
  mret (tw_with_slots tw (<[Z.to_nat idx := <[key := value]> slot]> (tw_slots tw))).

Definition tw_retain (shouldRemove : K → bool) (tw : timeWheel) : timeWheel :=
  tw_with_slots tw
    ((λ slot, filter (λ kv, shouldRemove kv.1 = false) slot) <$> tw_slots tw).

(** The loop of [remove] stops at the first slot that holds the key. *)
Fixpoint remove_first (key : K) (slots : list (gmap K P)) : list (gmap K P) :=
  match slots with
  | [] => []
  | slot :: slots =>
      match slot !! key with
      | Some _ => delete key slot :: slots
      | None => slot :: remove_first key slots
      end
  end.

Definition tw_remove (key : K) (tw : timeWheel) : timeWheel :=
  tw_with_slots tw (remove_first key (tw_slots tw)).

Definition tw_tick (tw : timeWheel) : outcome (list (K * P) * timeWheel) :=
  currentSlot ← index (tw_slots tw) (tw_current tw);
  mret (map_to_list currentSlot,
        mkWheel (tw_stopped tw) (tw_interval tw)
          (<[Z.to_nat (tw_current tw) := ∅]> (tw_slots tw))
          (Z.rem (tw_current tw + 1) (tw_slotNum tw)) (tw_slotNum tw) (tw_maxDelay tw)).

Definition tw_Len (tw : timeWheel) : Z :=
  fold_left (λ length slot, length + Z.of_nat (size slot)) (tw_slots tw) 0.

Definition tw_stop (tw : timeWheel) : outcome timeWheel :=
  if tw_stopped tw then Panic PanicCloseOfClosedChannel
  else mret (mkWheel true (tw_interval tw) (tw_slots tw) (tw_current tw)
               (tw_slotNum tw) (tw_maxDelay tw)).

(** ** Invariant *)

Record tw_inv (tw : timeWheel) : Prop := {
  ti_interval : 0 < tw_interval tw;
  ti_num : 0 < tw_slotNum tw;
  ti_slots : len (tw_slots tw) = tw_slotNum tw;
  ti_current : 0 ≤ tw_current tw < tw_slotNum tw;
  ti_max : tw_maxDelay tw = tw_slotNum tw * tw_interval tw;
  ti_running : tw_stopped tw = false;
}.

Lemma newTimeWheel_inv interval slotNum :
  0 < interval → 0 < slotNum → is_i64 (slotNum * interval) →
  ∃ tw, newTimeWheel interval slotNum = Ret tw ∧ tw_inv tw ∧ tw_Len tw = 0.
Proof.
  intros Hi Hn Hm. unfold newTimeWheel. case_bool; [lia|]. eexists. split; [done|]. split.
  - split; simpl; try lia; [unfold len; rewrite length_replicate; lia|by apply i64_id].
  - unfold tw_Len. simpl. induction (Z.to_nat slotNum); [done|]. simpl. by rewrite map_size_empty.
Qed.

Lemma tw_with_slots_inv tw slots :
  tw_inv tw → length slots = length (tw_slots tw) → tw_inv (tw_with_slots tw slots).
Proof. intros [? ? ? ? ?] Hl. split; simpl; try done. unfold len in *. by rewrite Hl. Qed.

Lemma length_remove_first key slots : length (remove_first key slots) = length slots.
Proof. induction slots as [|s l IH]; simpl; [done|]. destruct (s !! key); simpl; congruence. Qed.

Lemma tw_retain_inv f tw : tw_inv tw → tw_inv (tw_retain f tw).
Proof. intros. apply tw_with_slots_inv; [done|]. by rewrite length_fmap. Qed.

Lemma tw_remove_inv key tw : tw_inv tw → tw_inv (tw_remove key tw).
Proof. intros. apply tw_with_slots_inv; [done|]. by rewrite length_remove_first. Qed.

(** The slot that a delay is filed under, relative to the cursor. *)
Definition put_slot (tw : timeWheel) (delay : Z) : Z :=
  (tw_current tw + Z.min delay (tw_maxDelay tw) `div` tw_interval tw) mod tw_slotNum tw.

Lemma put_slot_range tw delay : tw_inv tw → 0 ≤ put_slot tw delay < tw_slotNum tw.
Proof. intros [? ? ? ? ?]. apply Z.mod_pos_bound. done. Qed.

Lemma tw_put_spec key value delay tw :
  tw_inv tw → 0 ≤ delay →
  ∃ slot, tw_slots tw !! Z.to_nat (put_slot tw delay) = Some slot ∧
    tw_put key value delay tw =
    Ret (tw_with_slots tw
           (<[Z.to_nat (put_slot tw delay) := <[key := value]> slot]> (tw_slots tw))).
Proof.
  intros Hinv Hd. pose proof (put_slot_range tw delay Hinv) as Hr.
  destruct Hinv as [Hi Hn Hs Hc Hm]. unfold tw_put.
  replace (if tw_maxDelay tw <? delay then tw_maxDelay tw else delay)
    with (Z.min delay (tw_maxDelay tw)) by (case_bool; lia).
  assert (0 ≤ Z.min delay (tw_maxDelay tw)) by nia.
  rewrite Z.quot_div_nonneg by lia.
  assert (0 ≤ Z.min delay (tw_maxDelay tw) `div` tw_interval tw) by (apply Z.div_pos; lia).
  rewrite Z.rem_mod_nonneg by lia. fold (put_slot tw delay).
  destruct (index_returns (tw_slots tw) (put_slot tw delay)) as [slot Hslot]; [lia|].
  rewrite Hslot. apply index_inv in Hslot as [_ Hslot]. eauto.
Qed.

Lemma tw_put_inv key value delay tw tw' :
  tw_inv tw → 0 ≤ delay → tw_put key value delay tw = Ret tw' → tw_inv tw'.
Proof.
  intros Hinv Hd Hp. destruct (tw_put_spec key value delay tw Hinv Hd) as (slot & _ & Hp').
  rewrite Hp' in Hp. simplify_eq. apply tw_with_slots_inv; [done|]. apply length_insert.
Qed.

(** ** Ticks *)

Fixpoint tw_ticks (n : nat) (tw : timeWheel) : outcome (list (list (K * P)) * timeWheel) :=
  match n with
  | O => mret ([], tw)
  | S n =>
      '(expired, tw) ← tw_tick tw;
      '(rest, tw) ← tw_ticks n tw;
      mret (expired :: rest, tw)
  end.

Lemma tw_tick_spec tw :
  tw_inv tw →
  ∃ slot tw', tw_slots tw !! Z.to_nat (tw_current tw) = Some slot ∧
    tw_tick tw = Ret (map_to_list slot, tw') ∧ tw_inv tw' ∧
    tw_slots tw' = <[Z.to_nat (tw_current tw) := ∅]> (tw_slots tw) ∧
    tw_current tw' = (tw_current tw + 1) mod tw_slotNum tw ∧
    tw_slotNum tw' = tw_slotNum tw.
Proof.
  intros [Hi Hn Hs Hc Hm]. unfold tw_tick.
  destruct (index_returns (tw_slots tw) (tw_current tw)) as [slot Hslot]; [lia|].
  rewrite Hslot. apply index_inv in Hslot as [_ Hslot]. eexists _, _. split; [done|].
  split; [done|]. simpl. rewrite Z.rem_mod_nonneg by lia.
  split_and!; try done. split; simpl; try done.
  - unfold len in *. by rewrite length_insert.
  - by apply Z.mod_pos_bound.
Qed.

(** In one revolution, the [j]-th tick empties the slot [j] steps ahead. *)
Lemma tw_ticks_spec n tw :
  tw_inv tw → Z.of_nat n ≤ tw_slotNum tw →
  ∃ ex tw', tw_ticks n tw = Ret (ex, tw') ∧ tw_inv tw' ∧ length ex = n ∧
    ∀ j, (j < n)%nat →
      ex !! j = map_to_list <$>
        tw_slots tw !! Z.to_nat ((tw_current tw + Z.of_nat j) mod tw_slotNum tw).
Proof.
  revert tw. induction n as [|n IH]; intros tw Hinv Hn.
  { eexists [], tw. split_and!; done || lia. }
  destruct (tw_tick_spec tw Hinv) as (slot & tw1 & Hslot & Ht & Hinv1 & Hs1 & Hc1 & Hn1).
  cbn [tw_ticks]. rewrite Ht. cbn [mbind outcome_bind].
  destruct (IH tw1 Hinv1) as (ex & tw2 & Hr & Hinv2 & Hl & Hex); [lia|]. rewrite Hr.
  cbn [mbind outcome_bind]. eexists _, _. split; [done|]. split; [done|]. split; [simpl; lia|].
  pose proof (ti_current _ Hinv). intros [|j] Hj; simpl.
  - rewrite Z.add_0_r, Z.mod_small, Hslot by done. done.
  - rewrite Hex by lia. rewrite Hs1, Hc1, Hn1, Zplus_mod_idemp_l.
    replace (tw_current tw + 1 + Z.of_nat j) with (tw_current tw + Z.of_nat (S j)) by lia.
    rewrite list_lookup_insert_ne; [done|].
    pose proof (Z.mod_pos_bound (tw_current tw + Z.of_nat (S j)) (tw_slotNum tw)).
    intros Heq. apply Z2Nat.inj in Heq; [|lia|lia].
    assert (Heq' : (tw_current tw + Z.of_nat (S j)) mod tw_slotNum tw = tw_current tw mod tw_slotNum tw)
      by (rewrite (Z.mod_small (tw_current tw)); lia).
    assert (Hdiv : Z.of_nat (S j) mod tw_slotNum tw = 0).
    { replace (Z.of_nat (S j)) with (tw_current tw + Z.of_nat (S j) - tw_current tw) by lia.
      rewrite Zminus_mod, Heq', Z.sub_diag. apply Z.mod_0_l. lia. }
    rewrite Z.mod_small in Hdiv by lia. lia.
Qed.

(** ** Expiry of one item *)

Lemma put_then_ticks key value delay s tw :
  tw_inv tw → 0 ≤ delay → 0 ≤ s < tw_slotNum tw →
  put_slot tw delay = (tw_current tw + s) mod tw_slotNum tw →
  ∃ tw' ex ex' t t',
    tw_put key value delay tw = Ret tw' ∧ tw_inv tw' ∧
    tw_ticks (Z.to_nat (tw_slotNum tw)) tw = Ret (ex, t) ∧
    tw_ticks (Z.to_nat (tw_slotNum tw)) tw' = Ret (ex', t') ∧
    (∀ j, 0 ≤ j < tw_slotNum tw → j ≠ s → ex' !! Z.to_nat j = ex !! Z.to_nat j) ∧
    ∃ l, ex' !! Z.to_nat s = Some l ∧ (key, value) ∈ l.
Proof.
  intros Hinv Hd Hs Hslot. pose proof Hinv as [Hi Hn Hls Hc Hm].
  destruct (tw_put_spec key value delay tw Hinv Hd) as (slot & Hlk & Hp).
  set (tw' := tw_with_slots tw _) in Hp.
  assert (Hinv' : tw_inv tw') by (apply tw_with_slots_inv; [done|apply length_insert]).
  destruct (tw_ticks_spec (Z.to_nat (tw_slotNum tw)) tw Hinv) as (ex & t & Ht & _ & _ & Hex);
    [lia|].
  destruct (tw_ticks_spec (Z.to_nat (tw_slotNum tw)) tw' Hinv')
    as (ex' & t' & Ht' & _ & _ & Hex'); [simpl; lia|].
  exists tw', ex, ex', t, t'. split_and!; try done.
  - intros j Hj Hne. rewrite Hex, Hex' by lia. subst tw'. simpl.
    rewrite list_lookup_insert_ne; [done|]. rewrite Hslot, Z2Nat.id by lia. intros Heq.
    apply Z2Nat.inj in Heq; [|apply Z.mod_pos_bound; lia..].
    assert (Hz : (s - j) mod tw_slotNum tw = 0).
    { replace (s - j) with ((tw_current tw + s) - (tw_current tw + j)) by lia.
      rewrite Zminus_mod, Heq, Z.sub_diag. apply Z.mod_0_l. lia. }
    apply Z.mod_divide in Hz as [q Hq]; [|lia]. assert (q = 0) by nia. lia.
  - exists (map_to_list (<[key := value]> slot)). split.
    + rewrite Hex' by lia. subst tw'. simpl. rewrite Z2Nat.id, <- Hslot by lia.
      rewrite list_lookup_insert_eq; [done|]. by apply lookup_lt_Some in Hlk.
    + apply elem_of_map_to_list. apply lookup_insert_eq.
Qed.


Lemma put_slot_long tw delay :
  tw_inv tw → tw_maxDelay tw ≤ delay →
  put_slot tw delay = (tw_current tw + 0) mod tw_slotNum tw.
Proof.
  intros [Hi Hn _ _ Hm] Hd. unfold put_slot. rewrite Z.min_r, Hm by lia.
  rewrite Z.div_mul by lia. by rewrite <- Z.add_mod_idemp_r, Z.mod_same by lia.
Qed.

(** ** Removal *)

(** The number of slots that hold a key. *)
Definition slots_count (key : K) (slots : list (gmap K P)) : nat :=
  length (filter (λ slot, is_Some (slot !! key)) slots).
Definition tw_count (key : K) (tw : timeWheel) : nat := slots_count key (tw_slots tw).

Lemma slots_count_cons k slot slots :
  slots_count k (slot :: slots) =
  ((if decide (is_Some (slot !! k)) then 1 else 0) + slots_count k slots)%nat.
Proof. unfold slots_count. rewrite filter_cons. by case_decide. Qed.

Lemma remove_first_count key slots :
  slots_count key (remove_first key slots) = pred (slots_count key slots).
Proof.
  induction slots as [|slot slots IH]; [done|]. cbn [remove_first].
  destruct (slot !! key) eqn:E; rewrite !slots_count_cons.
  - by rewrite lookup_delete_eq, E.
  - by rewrite E, IH.
Qed.

Lemma remove_first_other key k slots :
  k ≠ key → slots_count k (remove_first key slots) = slots_count k slots.
Proof.
  intros Hk. induction slots as [|slot slots IH]; [done|]. cbn [remove_first].
  destruct (slot !! key) eqn:E; rewrite !slots_count_cons.
  - by rewrite lookup_delete_ne.
  - by rewrite IH.
Qed.

Lemma retain_count f k slots :
  slots_count k ((λ slot, filter (λ kv, f kv.1 = false) slot) <$> slots)
  = (if f k then 0 else slots_count k slots)%nat.
Proof.
  induction slots as [|slot slots IH]; [by destruct (f k)|].
  rewrite fmap_cons, !slots_count_cons, IH.
  destruct (f k) eqn:Hf.
  - rewrite decide_False; [done|]. intros [v Hv].
    apply map_lookup_filter_Some in Hv as [_ Hv]. simpl in Hv. congruence.
  - f_equal. apply decide_ext. unfold is_Some. setoid_rewrite map_lookup_filter_Some.
    simpl. naive_solver.
Qed.

End time_wheel.
Arguments timeWheel K {_ _} P.

Section wheel_claims.
Context {K : Type} `{Countable K} {P : Type}.


(** C36. The cap on the delay defeats itself: a delay at or above the wheel's
    range is filed in the slot under the cursor, so the item expires at the very
    next tick instead of after a full revolution. *)
Theorem tw_put_overlong_expires_at_once (key : K) (value : P) (delay : Z) (tw : timeWheel K P) :
  tw_inv tw → tw_maxDelay tw ≤ delay →
  ∃ tw' l t, tw_put key value delay tw = Ret tw' ∧ tw_tick tw' = Ret (l, t) ∧ (key, value) ∈ l.
Proof.
  intros Hinv Hd. pose proof Hinv as [Hi Hn Hls Hc Hm].
  destruct (put_then_ticks key value delay 0 tw Hinv)
    as (tw' & ex & ex' & t & t' & Hp & Hinv' & _ & Ht' & _ & l & Hl & Hin);
    [nia|lia|by apply put_slot_long|].
  destruct (Z.to_nat (tw_slotNum tw)) as [|n] eqn:En; [lia|]. cbn [tw_ticks] in Ht'.
  apply outcome_bind_Ret_inv in Ht' as ([l0 t0] & Htick & Ht').
  apply outcome_bind_Ret_inv in Ht' as ([rest t1] & _ & Ht'). unfold mret, outcome_ret in Ht'.
  simplify_eq/=. eauto 10.
Qed.

(** [retain] clears a key from every slot, but [remove] clears it from one
    slot only: the number of slots that hold the removed key drops by one, so a
    key filed under two slots stays in the wheel. *)
Theorem tw_removal (f : K → bool) (key k : K) (tw : timeWheel K P) :
  tw_count k (tw_retain f tw) = (if f k then 0 else tw_count k tw)%nat ∧
  tw_count key (tw_remove key tw) = pred (tw_count key tw) ∧
  (k ≠ key → tw_count k (tw_remove key tw) = tw_count k tw).
Proof.
  split_and!; [apply retain_count|apply remove_first_count|apply remove_first_other].
Qed.

End wheel_claims.

(** The wheel of a connection with a 4-second initial timeout: 8 slots of one
    second. *)
Definition demo_wheel : timeWheel Z Z :=
  mkWheel false 1000000000 (replicate 8 ∅) 3 8 8000000000.

Lemma demo_wheel_inv : tw_inv demo_wheel.
Proof. split; vm_compute; try done. Qed.


Lemma tw_put_overlong_expires_at_once_witness :
  tw_inv demo_wheel ∧ tw_maxDelay demo_wheel ≤ 8000000000 ∧
  ∃ tw' l t, tw_put 7 42 8000000000 demo_wheel = Ret tw' ∧ tw_tick tw' = Ret (l, t) ∧ (7, 42) ∈ l.
Proof.
  split; [apply demo_wheel_inv|]. split; [vm_compute; congruence|].
  apply (tw_put_overlong_expires_at_once 7 42 8000000000 demo_wheel demo_wheel_inv).
  vm_compute. congruence.
Defined.

Lemma tw_removal_witness :
  (0 ≠ 7 → tw_count 0 (tw_remove 7 demo_wheel) = tw_count 0 demo_wheel) ∧ 0 ≠ 7.
Proof. split; [|done]. apply (tw_removal (λ _, true) 7 0 demo_wheel). Defined.
