(* ===== verification/DelayMap.v ===== *)
(** * The delay map (delay_map.go)

    A map whose entries carry timers of the Go runtime: when the timer of an
    entry expires, a goroutine sends the entry on the map's channel.  The state
    has, beside the fields of the struct, what the runtime keeps: the clock, the
    timers that run, and the goroutines that wait for room in the channel.  An
    entry is a pointer in the source; the number of its timer is its identity. *)

From Stdlib Require Import ZArith Lia.
From stdpp Require Import base list gmap fin_maps.
From S2P Require Import Prelude.

Section delay_map.
Context {K : Type} `{Countable K} {P : Type}.

(** A timer, with the time at which it expires. *)
Record Timer := mk_Timer { tm_id : nat; tm_when : Z }.

Record delayItem := mk_delayItem { di_Item : P; di_Key : K; di_timer : Timer }.

Definition item_id (it : delayItem) : nat := tm_id (di_timer it).

Record delayMap := mk_delayMap {
  dm_locked : bool;
  dm_innerMap : gmap K delayItem;
  dm_itemTimeoutCh : list delayItem;
  dm_shouldLock : bool;
  dm_now : Z;
  dm_running : gmap nat delayItem;
  dm_senders : list delayItem;
  dm_next : nat;
}.

Definition with_locked b m :=
  mk_delayMap b (dm_innerMap m) (dm_itemTimeoutCh m) (dm_shouldLock m) (dm_now m) (dm_running m) (dm_senders m) (dm_next m).
Definition with_inner inner m :=
  mk_delayMap (dm_locked m) inner (dm_itemTimeoutCh m) (dm_shouldLock m) (dm_now m) (dm_running m) (dm_senders m) (dm_next m).
Definition with_channel ch senders m :=
  mk_delayMap (dm_locked m) (dm_innerMap m) ch (dm_shouldLock m) (dm_now m) (dm_running m) senders (dm_next m).
Definition with_running running senders m :=
  mk_delayMap (dm_locked m) (dm_innerMap m) (dm_itemTimeoutCh m) (dm_shouldLock m) (dm_now m) running senders (dm_next m).

Definition newDelayMap (now : Z) : delayMap := mk_delayMap false ∅ [] false now ∅ [] 0.

(** [m.lock.Lock(); defer m.lock.Unlock()] when [shouldLock] is set: a call that
    finds the lock taken waits for ever, as the lock is not reentrant. *)
Definition locking {A} (body : delayMap → outcome (A * delayMap)) (m : delayMap) : outcome (A * delayMap) :=
  if dm_shouldLock m then
    if dm_locked m then NoFuel
    else '(a, m) ← body (with_locked true m); mret (a, with_locked false m)
  else body m.

(** [time.AfterFunc(timeout, func() { m.itemTimeoutCh <- item })] *)
Definition AfterFunc (key : K) (value : P) (timeout : Z) (m : delayMap) : delayItem * delayMap :=
  let item := mk_delayItem value key (mk_Timer (dm_next m) (dm_now m + timeout)) in
  (item, mk_delayMap (dm_locked m) (dm_innerMap m) (dm_itemTimeoutCh m) (dm_shouldLock m) (dm_now m)
           (<[dm_next m := item]> (dm_running m)) (dm_senders m) (S (dm_next m))).

(** [timer.Stop()]: no effect on a timer that has expired. *)
Definition Stop (t : Timer) (m : delayMap) : delayMap :=
  with_running (delete (tm_id t) (dm_running m)) (dm_senders m) m.

Definition dm_put (key : K) (value : P) (timeout : Z) : delayMap → outcome (unit * delayMap) :=
  locking (λ m,
    let '(item, m) := AfterFunc key value timeout m in
    mret (tt, with_inner (<[key := item]> (dm_innerMap m)) m)).

(** [m.innerMap[key].Item], on a map of pointers. *)
Definition dm_get (key : K) : delayMap → outcome (P * delayMap) :=
  locking (λ m,
    match dm_innerMap m !! key with
    | Some item => mret (di_Item item, m)
    | None => Panic NilDereference
    end).

Definition dm_remove (key : K) : delayMap → outcome (unit * delayMap) :=
  locking (λ m,
    let m := match dm_innerMap m !! key with Some item => Stop (di_timer item) m | None => m end in
    mret (tt, with_inner (delete key (dm_innerMap m)) m)).

Fixpoint retain_loop (shouldRemove : K → bool) (keys : list K) (m : delayMap) : outcome (unit * delayMap) :=
  match keys with
  | [] => mret (tt, m)
  | k :: keys =>
      '(_, m) ← (if shouldRemove k then dm_remove k m else mret (tt, m));
      retain_loop shouldRemove keys m
  end.

Definition dm_retain (shouldRemove : K → bool) : delayMap → outcome (unit * delayMap) :=
  locking (λ m, retain_loop shouldRemove (map_to_list (dm_innerMap m)).*1 m).

Definition dm_keys : delayMap → outcome (list K * delayMap) :=
  locking (λ m, mret ((map_to_list (dm_innerMap m)).*1, m)).

(** ** The runtime *)

Definition elapse (d : Z) (m : delayMap) : delayMap :=
  mk_delayMap (dm_locked m) (dm_innerMap m) (dm_itemTimeoutCh m) (dm_shouldLock m) (dm_now m + Z.max 0 d)
    (dm_running m) (dm_senders m) (dm_next m).

(** The timer expires: its function starts in a goroutine of its own. *)
Definition fire (id : nat) (m : delayMap) : delayMap :=
  match dm_running m !! id with
  | Some item =>
      if tm_when (di_timer item) <=? dm_now m
      then with_running (delete id (dm_running m)) (dm_senders m ++ [item]) m
      else m
  | None => m
  end.

(** The [j]-th waiting goroutine sends, when the channel (of capacity 100) has room. *)
Definition chan_send (j : nat) (m : delayMap) : delayMap :=
  match dm_senders m !! j with
  | Some item =>
      if len (dm_itemTimeoutCh m) <? 100
      then with_channel (dm_itemTimeoutCh m ++ [item]) (delete j (dm_senders m)) m
      else m
  | None => m
  end.

(** [<-m.timeoutCh()] *)
Definition chan_recv (m : delayMap) : list delayItem * delayMap :=
  match dm_itemTimeoutCh m with
  | item :: ch => ([item], with_channel ch (dm_senders m) m)
  | [] => ([], m)
  end.

Inductive dm_op :=
  | DmPut (key : K) (value : P) (timeout : Z)
  | DmRemove (key : K)
  | DmRetain (shouldRemove : K → bool)
  | DmElapse (d : Z)
  | DmFire (id : nat)
  | DmSend (j : nat)
  | DmRecv.

Definition dm_step (op : dm_op) (m : delayMap) : outcome (list delayItem * delayMap) :=
  match op with
  | DmPut k v d => '(_, m) ← dm_put k v d m; mret ([], m)
  | DmRemove k => '(_, m) ← dm_remove k m; mret ([], m)
  | DmRetain f => '(_, m) ← dm_retain f m; mret ([], m)
  | DmElapse d => mret ([], elapse d m)
  | DmFire id => mret ([], fire id m)
  | DmSend j => mret ([], chan_send j m)
  | DmRecv => mret (chan_recv m)
  end.

(** A run, with the entries received so far. *)
Fixpoint dm_run (ops : list dm_op) (rs : list delayItem) (m : delayMap) : outcome (list delayItem * delayMap) :=
  match ops with
  | [] => mret (rs, m)
  | op :: ops => '(r, m) ← dm_step op m; dm_run ops (rs ++ r) m
  end.
End delay_map.
Arguments delayItem : clear implicits.
Arguments delayMap K {_ _} P.
Arguments dm_op : clear implicits.

(** ** Where the entries are *)

Section delay_map_laws.
Context {K : Type} `{Countable K} {P : Type}.
Implicit Types (m : delayMap K P) (it : delayItem K P) (rs : list (delayItem K P)) (op : dm_op K P) (k : K).

(** The entries whose timers run, whose goroutines wait, which are in the
    channel, or which have been received. *)
Definition places m rs : list (delayItem K P) :=
  (map_to_list (dm_running m)).*2 ++ dm_senders m ++ dm_itemTimeoutCh m ++ rs.

Record dm_inv m rs : Prop := {
  di_unlocked : dm_shouldLock m = false;
  di_nodup : NoDup (item_id <$> places m rs);
  di_fresh : ∀ it, it ∈ places m rs → (item_id it < dm_next m)%nat;
  di_run : ∀ id it, dm_running m !! id = Some it → item_id it = id;
  di_inner : ∀ k it, dm_innerMap m !! k = Some it → di_Key it = k ∧ (item_id it < dm_next m)%nat ∧
    ∀ it', dm_running m !! item_id it = Some it' → it' = it;
  di_due : ∀ it, it ∈ dm_senders m ++ dm_itemTimeoutCh m ++ rs → tm_when (di_timer it) ≤ dm_now m;
}.

(** The keys whose entries an operation removes. *)
Definition removes op k : bool :=
  match op with
  | DmRemove k' => bool_decide (k' = k)
  | DmRetain f => f k
  | _ => false
  end.

Lemma newDelayMap_inv now : dm_inv (newDelayMap now) [].
Proof.
  split; simpl; try done.
  - unfold places. simpl. rewrite map_to_list_empty. constructor.
  - unfold places. simpl. rewrite map_to_list_empty. by intros it ?%elem_of_nil.
  - intros it ?%elem_of_nil. done.
Qed.

Lemma elem_of_running m it : (∀ id it, dm_running m !! id = Some it → item_id it = id) →
  it ∈ (map_to_list (dm_running m)).*2 ↔ dm_running m !! item_id it = Some it.
Proof.
  intros Hr. rewrite list_elem_of_fmap. split.
  - intros ([id it'] & -> & Hin%elem_of_map_to_list). simpl in *. by rewrite (Hr _ _ Hin).
  - intros Hl. exists (item_id it, it). split; [done|]. by apply elem_of_map_to_list.
Qed.

(** A permutation of the places keeps what the invariant says of them. *)
Lemma dm_inv_moves m m' rs rs' :
  dm_inv m rs → places m' rs' ⊆+ places m rs → dm_shouldLock m' = dm_shouldLock m → dm_next m' = dm_next m →
  dm_innerMap m' ⊆ dm_innerMap m → dm_running m' ⊆ dm_running m →
  (∀ it, it ∈ dm_senders m' ++ dm_itemTimeoutCh m' ++ rs' → tm_when (di_timer it) ≤ dm_now m') →
  dm_inv m' rs'.
Proof.
  intros [] Hp Hl Hn Hi Hr Hd. split; try done.
  - congruence.
  - destruct (submseteq_Permutation _ _ Hp) as [rest Hrest]. rewrite Hrest, fmap_app in di_nodup0.
    by apply NoDup_app in di_nodup0 as [? _].
  - intros it Hin. rewrite Hn. apply di_fresh0. by eapply elem_of_submseteq.
  - intros id it Hin. apply di_run0. by eapply lookup_weaken.
  - intros k it Hin. rewrite Hn. destruct (di_inner0 k it) as (? & ? & Hu); [by eapply lookup_weaken|].
    split_and!; try done. intros it' Hin'. apply Hu. by eapply lookup_weaken.
Qed.

Lemma places_fire id it m :
  dm_running m !! id = Some it →
  (map_to_list (delete id (dm_running m))).*2 ++ [it] ≡ₚ (map_to_list (dm_running m)).*2.
Proof. intros Hl. rewrite <- (map_to_list_delete _ _ _ Hl), fmap_cons. simpl. by rewrite <- Permutation_cons_append. Qed.

Lemma fire_inv id m rs : dm_inv m rs → dm_inv (fire id m) rs ∧ places (fire id m) rs ≡ₚ places m rs.
Proof.
  intros Hi. unfold fire. destruct (dm_running m !! id) as [it|] eqn:Hl; [|done].
  destruct (Z.leb_spec (tm_when (di_timer it)) (dm_now m)) as [Hd|]; [|done].
  assert (Hp : places (with_running (delete id (dm_running m)) (dm_senders m ++ [it]) m) rs ≡ₚ places m rs).
  { unfold places. simpl. rewrite <- (places_fire id it m Hl). rewrite <- !app_assoc. by rewrite !(Permutation_app_comm [it]), <- !app_assoc. }
  split; [|done]. eapply dm_inv_moves; [done|by rewrite Hp|done|done|done|apply delete_subseteq|]. simpl.
  intros it'. pose proof (di_due _ _ Hi it') as Hdue. set_unfold. intuition congruence.
Qed.

Lemma chan_send_inv j m rs : dm_inv m rs → dm_inv (chan_send j m) rs ∧ places (chan_send j m) rs ≡ₚ places m rs.
Proof.
  intros Hi. unfold chan_send. destruct (dm_senders m !! j) as [it|] eqn:Hl; [|done]. destruct (_ <? _); [|done].
  assert (Hp : dm_senders m ++ dm_itemTimeoutCh m ++ rs ≡ₚ delete j (dm_senders m) ++ (dm_itemTimeoutCh m ++ [it]) ++ rs).
  { rewrite (delete_Permutation _ _ _ Hl) at 1. simpl. rewrite <- (app_assoc _ [it]). simpl.
    by rewrite <- Permutation_middle, <- Permutation_middle. }
  assert (Hp' : places (with_channel (dm_itemTimeoutCh m ++ [it]) (delete j (dm_senders m)) m) rs ≡ₚ places m rs)
    by (unfold places; simpl; by rewrite Hp).
  split; [|done]. eapply dm_inv_moves; [done|by rewrite Hp'|done|done|done|done|]. simpl.
  intros it'. rewrite <- Hp. apply (di_due _ _ Hi).
Qed.

Lemma chan_recv_inv m rs :
  dm_inv m rs → dm_inv (chan_recv m).2 (rs ++ (chan_recv m).1) ∧ places (chan_recv m).2 (rs ++ (chan_recv m).1) ≡ₚ places m rs.
Proof.
  intros Hi. unfold chan_recv. destruct (dm_itemTimeoutCh m) as [|it ch] eqn:Hl; simpl; [by rewrite app_nil_r|].
  assert (Hp : dm_senders m ++ ch ++ rs ++ [it] ≡ₚ dm_senders m ++ dm_itemTimeoutCh m ++ rs).
  { rewrite Hl. simpl. by rewrite (app_assoc ch), <- (Permutation_cons_append (ch ++ rs) it). }
  assert (Hp' : places (with_channel ch (dm_senders m) m) (rs ++ [it]) ≡ₚ places m rs) by (unfold places; simpl; by rewrite Hp).
  split; [|done]. eapply dm_inv_moves; [done|by rewrite Hp'|done|done|done|done|]. simpl.
  intros it'. rewrite Hp. apply (di_due _ _ Hi).
Qed.

Lemma elapse_inv d m rs : dm_inv m rs → dm_inv (elapse d m) rs.
Proof.
  intros Hi. eapply dm_inv_moves; [done..|]. simpl. intros it Hin. pose proof (di_due _ _ Hi it Hin). lia.
Qed.

(** Putting an entry. *)
Definition new_item k (v : P) (d : Z) m : delayItem K P := mk_delayItem v k (mk_Timer (dm_next m) (dm_now m + d)).
Definition after_put k (v : P) (d : Z) m : delayMap K P :=
  let it := new_item k v d m in
  mk_delayMap (dm_locked m) (<[k := it]> (dm_innerMap m)) (dm_itemTimeoutCh m) (dm_shouldLock m) (dm_now m)
    (<[dm_next m := it]> (dm_running m)) (dm_senders m) (S (dm_next m)).

Lemma dm_put_eq k v d m : dm_shouldLock m = false → dm_put k v d m = Ret (tt, after_put k v d m).
Proof. intros Hl. unfold dm_put, locking. by rewrite Hl. Qed.

Lemma places_put k v d m rs :
  dm_inv m rs → places (after_put k v d m) rs ≡ₚ new_item k v d m :: places m rs.
Proof.
  intros Hi. unfold places. simpl. rewrite map_to_list_insert; [done|].
  destruct (dm_running m !! dm_next m) as [it|] eqn:Hl; [|done].
  pose proof (di_run _ _ Hi _ _ Hl) as Hid. enough ((item_id it < dm_next m)%nat) by lia. apply (di_fresh _ _ Hi).
  unfold places. apply elem_of_app. left. apply (elem_of_running m it (di_run _ _ Hi)). by rewrite Hid.
Qed.

Lemma after_put_inv k v d m rs : dm_inv m rs → dm_inv (after_put k v d m) rs.
Proof.
  intros Hi. pose proof (places_put k v d m rs Hi) as Hp. pose proof Hi as []. split; try done.
  - rewrite Hp, fmap_cons. constructor; [|done]. intros (it & Heq & Hin)%list_elem_of_fmap.
    pose proof (di_fresh0 it Hin) as Hlt. rewrite <- Heq in Hlt. cbn in Hlt. lia.
  - intros it. rewrite Hp, elem_of_cons. intros [->|Hin]; simpl; [cbn; lia|]. specialize (di_fresh0 it Hin). lia.
  - intros id it. simpl. intros [[<- <-]|[_ Hl]]%lookup_insert_Some; [done|]. by apply di_run0.
  - intros k' it. simpl. intros [[<- <-]|[Hne Hl]]%lookup_insert_Some.
    + split_and!; [done|cbn; lia|]. cbn. intros it'. rewrite lookup_insert_eq. congruence.
    + destruct (di_inner0 k' it Hl) as (? & Hlt & Hu). split_and!; [done|lia|]. intros it'.
      rewrite lookup_insert_ne by lia. apply Hu.
Qed.

(** Removing an entry. *)
Definition after_remove k m : delayMap K P :=
  let m := match dm_innerMap m !! k with Some it => Stop (di_timer it) m | None => m end in
  with_inner (delete k (dm_innerMap m)) m.

Lemma dm_remove_eq k m : dm_shouldLock m = false → dm_remove k m = Ret (tt, after_remove k m).
Proof. intros Hl. unfold dm_remove, locking. by rewrite Hl. Qed.

Lemma after_remove_fields k m :
  dm_shouldLock (after_remove k m) = dm_shouldLock m ∧ dm_next (after_remove k m) = dm_next m ∧
  dm_now (after_remove k m) = dm_now m ∧ dm_senders (after_remove k m) = dm_senders m ∧
  dm_itemTimeoutCh (after_remove k m) = dm_itemTimeoutCh m ∧
  dm_innerMap (after_remove k m) = delete k (dm_innerMap m) ∧
  dm_running (after_remove k m) =
    match dm_innerMap m !! k with Some it => delete (item_id it) (dm_running m) | None => dm_running m end.
Proof. unfold after_remove. by destruct (dm_innerMap m !! k). Qed.

Lemma after_remove_running k m : dm_running (after_remove k m) ⊆ dm_running m.
Proof.
  destruct (after_remove_fields k m) as (_ & _ & _ & _ & _ & _ & ->). destruct (dm_innerMap m !! k); [apply delete_subseteq|done].
Qed.

(** What a step does to the entries that are somewhere. *)
Record moves m rs m' rs' : Prop := {
  mv_inv : dm_inv m' rs';
  mv_next : (dm_next m ≤ dm_next m')%nat;
  mv_now : dm_now m ≤ dm_now m';
  mv_old : ∀ it, it ∈ places m' rs' → it ∈ places m rs ∨ (dm_next m ≤ item_id it)%nat;
}.

Lemma moves_trans m1 rs1 m2 rs2 m3 rs3 : moves m1 rs1 m2 rs2 → moves m2 rs2 m3 rs3 → moves m1 rs1 m3 rs3.
Proof.
  intros [] []. split; [done|lia|lia|]. intros it [Hin|?]%mv_old1; [|right; lia]. by apply mv_old0.
Qed.

Lemma moves_perm m rs m' rs' :
  dm_inv m' rs' → places m' rs' ≡ₚ places m rs → dm_next m' = dm_next m → dm_now m ≤ dm_now m' → moves m rs m' rs'.
Proof. intros Hi Hp Hn Ht. split; [done|lia|done|]. intros it. rewrite Hp. auto. Qed.

Lemma after_remove_moves k m rs :
  dm_inv m rs → moves m rs (after_remove k m) rs ∧
  (∀ it, it ∈ places m rs → dm_innerMap m !! k ≠ Some it → it ∈ places (after_remove k m) rs) ∧
  (∀ it, dm_innerMap m !! k = Some it → dm_running m !! item_id it = Some it → it ∉ places (after_remove k m) rs).
Proof.
  intros Hi. pose proof (after_remove_fields k m) as (Hl & Hn & Ht & Hs & Hc & Hm & Hr).
  pose proof (after_remove_running k m) as Hsub.
  assert (Hp : places (after_remove k m) rs ⊆+ places m rs).
  { unfold places. rewrite Hs, Hc. apply submseteq_app; [|done]. by apply fmap_submseteq, map_to_list_submseteq. }
  assert (Hi' : dm_inv (after_remove k m) rs).
  { eapply dm_inv_moves; [done|done|done|done|rewrite Hm; apply delete_subseteq|done|]. rewrite Hs, Hc, Ht. apply Hi. }
  split_and!.
  - split; [done|lia|lia|]. intros it Hin. left. by eapply elem_of_submseteq.
  - intros it Hin Hne. unfold places in *. rewrite Hs, Hc. rewrite elem_of_app in *. destruct Hin as [Hin|]; [left|by right].
    apply (elem_of_running m it (di_run _ _ Hi)) in Hin. apply (elem_of_running _ it (di_run _ _ Hi')). rewrite Hr.
    destruct (dm_innerMap m !! k) as [it0|] eqn:Hk; [|done]. rewrite lookup_delete_ne; [done|]. intros Heq.
    destruct (di_inner _ _ Hi k it0 Hk) as (_ & _ & Hu). apply Hne. by rewrite (Hu it) by (by rewrite Heq).
  - intros it Hk Hrun Hin. pose proof (di_nodup _ _ Hi) as Hnd. unfold places in Hnd. rewrite <- (places_fire _ _ _ Hrun) in Hnd.
    rewrite Hk in Hr. unfold places in Hin. rewrite Hs, Hc, Hr in Hin. rewrite <- app_assoc in Hnd. simpl in Hnd.
    rewrite <- Permutation_middle, fmap_cons in Hnd. apply NoDup_cons in Hnd as [Hnot _]. apply Hnot.
    by apply list_elem_of_fmap_2.
Qed.

Lemma retain_loop_moves f keys m rs :
  dm_inv m rs →
  ∃ m', retain_loop f keys m = Ret (tt, m') ∧ moves m rs m' rs ∧ dm_innerMap m' ⊆ dm_innerMap m ∧
    ∀ it, it ∈ places m rs → (∀ k, dm_innerMap m !! k = Some it → f k = false) → it ∈ places m' rs.
Proof.
  revert m. induction keys as [|k keys IH]; intros m Hi; cbn [retain_loop].
  { exists m. split; [done|]. split; [by apply moves_perm|]. done. }
  destruct (f k) eqn:Hf; [|by destruct (IH m Hi) as (m' & ? & ? & ?); exists m'].
  rewrite dm_remove_eq by apply Hi. rewrite outcome_bind_ret.
  destruct (after_remove_moves k m rs Hi) as (Hm1 & Hkeep & _).
  pose proof (after_remove_fields k m) as (_ & _ & _ & _ & _ & Hin & _).
  assert (Hsub : dm_innerMap (after_remove k m) ⊆ dm_innerMap m) by (rewrite Hin; apply delete_subseteq).
  destruct (IH (after_remove k m) (mv_inv _ _ _ _ Hm1)) as (m' & E & Hm2 & Hs2 & Hk2).
  exists m'. split_and!; [done|by eapply moves_trans|by etrans|].
  intros it Hit Hspare. apply Hk2.
  - apply Hkeep; [done|]. intros Hk. specialize (Hspare k Hk). congruence.
  - intros k' Hk'. apply Hspare. by eapply lookup_weaken.
Qed.

(** Every operation returns; an entry disappears only when its key is removed. *)
Lemma dm_step_moves op m rs :
  dm_inv m rs →
  ∃ r m', dm_step op m = Ret (r, m') ∧ moves m rs m' (rs ++ r) ∧
    ∀ it, it ∈ places m rs → (∀ k, dm_innerMap m !! k = Some it → removes op k = false) → it ∈ places m' (rs ++ r).
Proof.
  intros Hi. destruct op as [k v d|k|f|d|id|j|]; cbn [dm_step].
  - eexists [], _. rewrite dm_put_eq by apply Hi. split; [done|]. rewrite app_nil_r.
    pose proof (places_put k v d m rs Hi) as Hp. split.
    + split; [by apply after_put_inv|simpl; lia|done|]. intros it. rewrite Hp, elem_of_cons. intros [->|?]; [right; done|by left].
    + intros it Hin _. rewrite Hp. by right.
  - eexists [], _. rewrite dm_remove_eq by apply Hi. split; [done|]. rewrite app_nil_r.
    destruct (after_remove_moves k m rs Hi) as (Hm & Hkeep & _). split; [done|]. intros it Hin Hs. apply Hkeep; [done|].
    intros Hk. specialize (Hs k Hk). simpl in Hs. by rewrite bool_decide_eq_true_2 in Hs.
  - unfold dm_retain, locking. rewrite (di_unlocked _ _ Hi).
    destruct (retain_loop_moves f (map_to_list (dm_innerMap m)).*1 m rs Hi) as (m' & E & Hm & _ & Hkeep).
    exists [], m'. rewrite E, app_nil_r. done.
  - eexists [], _. split; [done|]. rewrite app_nil_r. split; [|done]. apply moves_perm; [by apply elapse_inv|done|done|simpl; lia].
  - eexists [], _. split; [done|]. rewrite app_nil_r. destruct (fire_inv id m rs Hi) as [Hi' Hp]. split; [|intros it; by rewrite Hp].
    apply moves_perm; [done|done|unfold fire|unfold fire]; repeat case_match; done.
  - eexists [], _. split; [done|]. rewrite app_nil_r. destruct (chan_send_inv j m rs Hi) as [Hi' Hp]. split; [|intros it; by rewrite Hp].
    apply moves_perm; [done|done|unfold chan_send|unfold chan_send]; repeat case_match; done.
  - eexists _, _. split; [apply f_equal, surjective_pairing|]. destruct (chan_recv_inv m rs Hi) as [Hi' Hp]. split; [|intros it; by rewrite Hp].
    apply moves_perm; [done|done|unfold chan_recv|unfold chan_recv]; by case_match.
Qed.

Lemma dm_run_moves ops m rs :
  dm_inv m rs →
  ∃ rs' m', dm_run ops rs m = Ret (rs', m') ∧ moves m rs m' rs' ∧
    ∀ it, it ∈ places m rs → Forall (λ op, removes op (di_Key it) = false) ops → it ∈ places m' rs'.
Proof.
  revert m rs. induction ops as [|op ops IH]; intros m rs Hi; cbn [dm_run].
  { exists rs, m. split; [done|]. split; [by apply moves_perm|done]. }
  destruct (dm_step_moves op m rs Hi) as (r & m1 & E & Hm & Hkeep). rewrite E, outcome_bind_ret.
  destruct (IH m1 (rs ++ r) (mv_inv _ _ _ _ Hm)) as (rs' & m' & E' & Hm' & Hkeep').
  exists rs', m'. split; [done|]. split; [by eapply moves_trans|]. intros it Hin [Ho Hops]%Forall_cons.
  apply Hkeep'; [|done]. apply Hkeep; [done|]. intros k Hk. destruct (di_inner _ _ Hi k it Hk) as [<- _]. done.
Qed.
End delay_map_laws.

(** C30.  Timers of the delay map.  Whatever sequence of calls, expiries, sends and
    receives came before, every operation returns; no entry is received twice or
    before its time; an entry that is put stays (its timer runs, its goroutine
    waits, it is in the channel, or it was received) as long as its key is not
    removed; and once its key is removed while its timer runs, it is never
    received. *)
Theorem delay_map_timers `{Countable K} {P : Type} (now : Z) (before after : list (dm_op K P)) (k : K) (v : P) (d : Z) :
  ∃ rs m m1, dm_run before [] (newDelayMap now) = Ret (rs, m) ∧ dm_put k v d m = Ret (tt, m1) ∧
  ∃ it rs2 m2, dm_innerMap m1 !! k = Some it ∧ di_Item it = v ∧ dm_run after rs m1 = Ret (rs2, m2) ∧
    NoDup (item_id <$> rs2) ∧ (it ∈ rs2 → dm_now m + d ≤ dm_now m2) ∧
    (Forall (λ op, removes op k = false) after → it ∈ places m2 rs2) ∧
    (dm_innerMap m2 !! k = Some it → dm_running m2 !! item_id it = Some it →
     ∃ m3, dm_remove k m2 = Ret (tt, m3) ∧ dm_innerMap m3 !! k = None ∧
       ∀ later, ∃ rs4 m4, dm_run later rs2 m3 = Ret (rs4, m4) ∧ it ∉ rs4).
Proof.
  destruct (dm_run_moves before (newDelayMap now) [] (newDelayMap_inv now)) as (rs & m & E & Hm & _).
  pose proof (mv_inv _ _ _ _ Hm) as Hi. pose proof (after_put_inv k v d m rs Hi) as Hi1.
  destruct (dm_run_moves after (after_put k v d m) rs Hi1) as (rs2 & m2 & E2 & Hm2 & Hkeep2).
  pose proof (mv_inv _ _ _ _ Hm2) as Hi2.
  exists rs, m, (after_put k v d m). split; [done|]. split; [by apply dm_put_eq, Hi|].
  exists (new_item k v d m), rs2, m2. split; [apply lookup_insert_eq|]. split; [done|]. split; [done|]. split_and!.
  - pose proof (di_nodup _ _ Hi2) as Hnd. unfold places in Hnd. rewrite !fmap_app in Hnd.
    apply NoDup_app in Hnd as (_ & _ & Hnd). apply NoDup_app in Hnd as (_ & _ & Hnd). by apply NoDup_app in Hnd as (_ & _ & ?).
  - intros Hin. apply (di_due _ _ Hi2 (new_item k v d m)). rewrite !elem_of_app. auto.
  - apply (Hkeep2 (new_item k v d m)). rewrite (places_put k v d m rs Hi). by left.
  - intros Hk Hrun. destruct (after_remove_moves k m2 rs2 Hi2) as (Hm3 & _ & Hgone).
    exists (after_remove k m2). split; [by apply dm_remove_eq, Hi2|].
    split; [by rewrite (proj1 (proj2 (proj2 (proj2 (proj2 (proj2 (after_remove_fields k m2))))))), lookup_delete_eq|].
    intros later. destruct (dm_run_moves later _ rs2 (mv_inv _ _ _ _ Hm3)) as (rs4 & m4 & E4 & Hm4 & _).
    exists rs4, m4. split; [done|]. intros Hin. specialize (Hgone _ Hk Hrun).
    destruct (mv_old _ _ _ _ Hm4 (new_item k v d m)) as [?|Hge]; [|done|].
    { unfold places. rewrite !elem_of_app. auto. }
    destruct (di_inner _ _ Hi2 k _ Hk) as (_ & Hlt & _). pose proof (mv_next _ _ _ _ Hm3). lia.
Qed.

(** C40.  A replaced entry still expires.  [put] does not stop the timer of an entry
    that it replaces: after two puts of a key and its removal, [get] fails on the
    key (a nil dereference, as on any missing key), and yet the first value
    arrives on the channel when its delay is over. *)
Theorem delay_map_replaced_fires `{Countable K} {P : Type} (now : Z) (before : list (dm_op K P)) (k : K) (v1 v2 : P)
    (d1 d2 : Z) :
  0 ≤ d1 →
  ∃ rs m, dm_run before [] (newDelayMap now) = Ret (rs, m) ∧
    (dm_senders m = [] → dm_itemTimeoutCh m = [] →
     ∃ m1 it m2, dm_run [DmPut k v1 d1; DmPut k v2 d2; DmRemove k] rs m = Ret (rs, m1) ∧
       dm_get k m1 = Panic NilDereference ∧
       dm_run [DmElapse d1; DmFire (item_id it); DmSend 0; DmRecv] rs m1 = Ret (rs ++ [it], m2) ∧
       di_Key it = k ∧ di_Item it = v1).
Proof.
  intros Hd. destruct (dm_run_moves before (newDelayMap now) [] (newDelayMap_inv now)) as (rs & m & E & Hm & _).
  pose proof (mv_inv _ _ _ _ Hm) as Hi. exists rs, m. split; [done|]. intros Hs Hc.
  pose proof (di_unlocked _ _ Hi) as Hl. set (ma := after_put k v1 d1 m). set (mb := after_put k v2 d2 ma).
  pose proof (after_remove_fields k mb) as (Hl1 & _ & Ht1 & Hs1 & Hc1 & Hi1 & Hr1).
  change (dm_innerMap mb) with (<[k := new_item k v2 d2 ma]> (dm_innerMap ma)) in Hr1, Hi1. rewrite lookup_insert_eq in Hr1.
  exists (after_remove k mb), (new_item k v1 d1 m). eexists. split_and!; try done.
  - cbn [dm_run dm_step]. rewrite (dm_put_eq k v1 d1 m Hl), outcome_bind_ret. cbn [mret outcome_ret]. rewrite outcome_bind_ret.
    fold ma. rewrite (dm_put_eq k v2 d2 ma Hl), outcome_bind_ret. cbn [mret outcome_ret]. rewrite outcome_bind_ret.
    fold mb. rewrite (dm_remove_eq k mb Hl), outcome_bind_ret. cbn [mret outcome_ret]. by rewrite outcome_bind_ret, !app_nil_r.
  - unfold dm_get, locking. rewrite Hl1. change (dm_shouldLock mb) with (dm_shouldLock m). by rewrite Hl, Hi1, lookup_delete_eq.
  - cbn [dm_run dm_step]. set (mc := after_remove k mb) in *.
    assert (Hf : fire (dm_next m) (elapse d1 mc)
      = with_running (delete (dm_next m) (dm_running mc)) [new_item k v1 d1 m] (elapse d1 mc)).
    { unfold fire. change (dm_running (elapse d1 mc)) with (dm_running mc).
      assert (Hrun : dm_running mc !! dm_next m = Some (new_item k v1 d1 m)).
      { rewrite Hr1. change (dm_running mb) with (<[S (dm_next m) := new_item k v2 d2 ma]> (<[dm_next m := new_item k v1 d1 m]> (dm_running m))).
        rewrite lookup_delete_ne by (cbn; lia). rewrite lookup_insert_ne by lia. apply lookup_insert_eq. }
      rewrite Hrun. change (dm_now (elapse d1 mc)) with (dm_now mc + Z.max 0 d1). rewrite Ht1.
      change (dm_senders (elapse d1 mc)) with (dm_senders mc). rewrite Hs1. cbn.
      destruct (Z.leb_spec (dm_now m + d1) (dm_now m + Z.max 0 d1)); [|lia]. by rewrite Hs. }
    change (item_id (new_item k v1 d1 m)) with (dm_next m). cbn [mret outcome_ret]. rewrite !outcome_bind_ret, Hf.
    unfold chan_send. cbn [dm_senders with_running lookup list_lookup dm_itemTimeoutCh elapse].
    rewrite Hc1. change (dm_itemTimeoutCh mb) with (dm_itemTimeoutCh m). rewrite Hc. cbn. by rewrite !app_nil_r.
Qed.

(** A map that locks cannot be filtered: [retain] holds the lock when it calls
    [remove]. *)
Lemma dm_retain_deadlocks `{Countable K} {P : Type} (f : K → bool) (m : delayMap K P) (k : K) (it : delayItem K P) :
  dm_shouldLock m = true → dm_locked m = false → dm_innerMap m !! k = Some it → f k = true → dm_retain f m = NoFuel.
Proof.
  intros Hs Hl Hk Hf. unfold dm_retain, locking. rewrite Hs, Hl. change (dm_innerMap (with_locked true m)) with (dm_innerMap m).
  assert (Hin : k ∈ (map_to_list (dm_innerMap m)).*1) by (apply list_elem_of_fmap; exists (k, it); by rewrite elem_of_map_to_list).
  assert (Hloop : ∀ ks, k ∈ ks → retain_loop f ks (with_locked true m) = NoFuel).
  { intros ks. induction ks as [|k' ks IH]; [by intros ?%elem_of_nil|]. intros [->|Hks]%elem_of_cons; cbn [retain_loop].
    - rewrite Hf. unfold dm_remove, locking. simpl. by rewrite Hs.
    - destruct (f k'); [|by apply IH]. unfold dm_remove, locking. simpl. by rewrite Hs. }
  by rewrite Hloop.
Qed.

Lemma delay_map_replaced_fires_witness :
  ∃ m1 it m2, dm_run [DmPut 7 10 5; DmPut 7 20 9; DmRemove 7] [] (newDelayMap (K := Z) (P := Z) 0) = Ret ([], m1) ∧
    dm_get 7 m1 = Panic NilDereference ∧
    dm_run [DmElapse 5; DmFire (item_id it); DmSend 0; DmRecv] [] m1 = Ret ([] ++ [it], m2) ∧ di_Item it = 10.
Proof.
  destruct (delay_map_replaced_fires (K := Z) (P := Z) 0 [] 7 10 20 5 9) as (rs & m & E & Hr); [lia|].
  injection E as <- <-. destruct (Hr eq_refl eq_refl) as (m1 & it & m2 & E1 & E2 & E3 & _ & E5).
  exists m1, it, m2. split; [exact E1|]. split; [exact E2|]. split; [exact E3|exact E5].
Defined.
