(* ===== verification/SyncMap.v ===== *)
(** * The synchronised map (sync_map.go)

    A map under a mutex, which makes every operation atomic; the model is the
    operation.  [Range] walks the entries in the order of [map_to_list], which
    stands for Go's unspecified order, until the callback returns [false]; the
    variables that the callback assigns are its state. *)

From Stdlib Require Import ZArith Lia.
From stdpp Require Import base list gmap fin_maps.
From S2P Require Import Prelude.

Section sync_map.
Context {K : Type} `{Countable K} {P : Type}.

Definition syncMap : Type := gmap K P.

Definition newSyncMap : syncMap := ∅.
Definition sm_get (key : K) (m : syncMap) : option P := m !! key.
Definition sm_put (key : K) (value : P) (m : syncMap) : syncMap := <[key := value]> m.
Definition sm_remove (key : K) (m : syncMap) : syncMap := delete key m.

Fixpoint range_loop {A} (f : K → P → A → A * bool) (entries : list (K * P)) (a : A) : A :=
  match entries with
  | [] => a
  | (k, v) :: entries =>
      let '(a, goOn) := f k v a in
      if (goOn : bool) then range_loop f entries a else a
  end.

Definition sm_Range {A} (f : K → P → A → A * bool) (m : syncMap) (a : A) : A := range_loop f (map_to_list m) a.

(** A callback that never stops sees every entry once. *)
Lemma sm_Range_all {A} (f : K → P → A → A) m a :
  sm_Range (λ k v a, (f k v a, true)) m a = fold_left (λ a kv, f kv.1 kv.2 a) (map_to_list m) a.
Proof. unfold sm_Range. revert a. induction (map_to_list m) as [|[k v] l IH]; intros a; [done|]. simpl. apply IH. Qed.

(** One that stops at once sees the first entry, if there is one. *)
Lemma sm_Range_first {A} (f : K → P → A → A) m a :
  sm_Range (λ k v a, (f k v a, false)) m a = match map_to_list m with [] => a | (k, v) :: _ => f k v a end.
Proof. unfold sm_Range. by destruct (map_to_list m) as [|[k v] l]. Qed.
End sync_map.
Arguments syncMap K {_ _} P.
Arguments sm_get {K _ _ P} key m /.
Arguments sm_put {K _ _ P} key value m /.
Arguments sm_remove {K _ _ P} key m /.
