(* ===== verification/Utils.v ===== *)
(** * Small helpers (utp_utils.go)

    The integer helpers, on [Z] with the wrap-arounds of their types.  The
    random numbers come from github.com/valyala/fastrand, a parameter. *)

From Stdlib Require Import ZArith Lia.
From stdpp Require Import base.
From S2P Require Import Prelude.

Definition minInt (a b : Z) : Z := if a <? b then a else b.
Definition minUint32 (a b : Z) : Z := if a <? b then a else b.
Definition maxInt64 (a b : Z) : Z := if b <? a then a else b.

Definition ClampUint32 (value min max : Z) : Z :=
  if value <? min then min else if max <? value then max else value.

(** [NowMicro] of a clock that reads [unixMicro] microseconds. *)
Definition NowMicro (unixMicro : Z) : Z := u32 unixMicro.

Definition DurationBetween (earlier later : Z) : Z :=
  if later <? earlier then u32 (u32 (MaxUint32 - earlier) + later)
  else u32 (later - earlier).

(** [RandomUint16] from a generator that draws below its argument. *)
Definition RandomUint16 (Uint32n : Z → Z) : Z := u16 (Uint32n 65535).

Lemma minInt_min a b : minInt a b = Z.min a b.
Proof. unfold minInt. case_bool; lia. Qed.
Lemma minUint32_min a b : minUint32 a b = Z.min a b.
Proof. unfold minUint32. case_bool; lia. Qed.
Lemma maxInt64_max a b : maxInt64 a b = Z.max a b.
Proof. unfold maxInt64. case_bool; lia. Qed.
