(* ===== verification/Cid.v ===== *)
(** * Connection identifiers (cid.go)

    A connection id has the two 16-bit numbers, the peer and the key under which
    the socket files the connection: the hexadecimal form of the first twenty
    bytes of the SHA3-256 digest of the text [send:recv:peer].  A peer is the
    text that its [Hash] method returns.  The digest is code outside the
    repository: [Hasher] says what is used of it. *)

From Stdlib Require Import ZArith Lia Ascii.
From stdpp Require Import base list strings pretty.
From S2P Require Import Prelude.

#[local] Open Scope string_scope.
#[local] Open Scope Z_scope.

Class Hasher := {
  sha3_256 : string → list Z;
  sha3_256_bytes s : length (sha3_256 s) = 32%nat ∧ Forall is_u8 (sha3_256 s);
}.

Record ConnectionId := mk_ConnectionId {
  cid_Send : Z;
  cid_Recv : Z;
  cid_Peer : string;
  cid_hash : string;
}.

(** [fmt.Sprintf("%d:%d:%v", ...)] *)
Definition id_text (send recv : Z) (peer : string) : string :=
  pretty send +:+ ":" +:+ pretty recv +:+ ":" +:+ peer.

(** [hex.EncodeToString] *)
Definition hex_digit (n : Z) : ascii :=
  if n <? 10 then ascii_of_nat (Z.to_nat (48 + n)) else ascii_of_nat (Z.to_nat (87 + n)).
Fixpoint EncodeToString (bytes : list Z) : string :=
  match bytes with
  | [] => ""
  | b :: bytes => String (hex_digit (Z.shiftr b 4)) (String (hex_digit (Z.land b 15)) (EncodeToString bytes))
  end.

Definition genHash `{Hasher} (send recv : Z) (peer : string) : string :=
  EncodeToString (take 20 (sha3_256 (id_text send recv peer))).

Definition NewConnectionId `{Hasher} (peer : string) (recvId sendId : Z) : ConnectionId :=
  mk_ConnectionId sendId recvId peer (genHash sendId recvId peer).

(** ** Hexadecimal *)

Lemma hex_digit_inj a b : 0 ≤ a < 16 → 0 ≤ b < 16 → hex_digit a = hex_digit b → a = b.
Proof.
  intros Ha Hb E.
  assert (Hall : ∀ x, x ∈ seqZ 0 16 → ∀ y, y ∈ seqZ 0 16 → hex_digit x = hex_digit y → x = y).
  { assert (Hd : Forall (λ x, Forall (λ y, hex_digit x = hex_digit y → x = y) (seqZ 0 16)) (seqZ 0 16))
      by (repeat constructor; (reflexivity || discriminate)).
    intros x Hx y Hy. rewrite Forall_forall in Hd. specialize (Hd x Hx). rewrite Forall_forall in Hd. by apply Hd. }
  apply Hall; [apply elem_of_seqZ; lia|apply elem_of_seqZ; lia|done].
Qed.

Lemma EncodeToString_inj l k :
  Forall is_u8 l → Forall is_u8 k → EncodeToString l = EncodeToString k → l = k.
Proof.
  intros Hl. revert k. induction Hl as [|a l Ha Hl IH]; intros [|b k] Hk E; try done.
  apply Forall_cons in Hk as [Hb Hk]. injection E as E1 E2 E3.
  assert (Hsplit : ∀ x, is_u8 x → 0 ≤ Z.shiftr x 4 < 16 ∧ 0 ≤ Z.land x 15 < 16 ∧ x = Z.shiftr x 4 * 16 + Z.land x 15).
  { intros x Hx. change 15 with (Z.ones 4). rewrite Z.land_ones, Z.shiftr_div_pow2 by lia. unfold is_u8 in Hx.
    change (2 ^ 4) with 16. Z.to_euclidean_division_equations; lia. }
  destruct (Hsplit a Ha) as (Ha1 & Ha2 & Ea), (Hsplit b Hb) as (Hb1 & Hb2 & Eb).
  apply hex_digit_inj in E1; [|done|done]. apply hex_digit_inj in E2; [|done|done].
  f_equal; [congruence|by apply IH].
Qed.

(** ** The text of an id *)

Fixpoint no_colon (s : string) : bool :=
  match s with
  | EmptyString => true
  | String a s => negb (Ascii.eqb a ":") && no_colon s
  end.

Lemma no_colon_go x s : no_colon s = true → no_colon (pretty_N_go x s) = true.
Proof.
  revert s. induction (N.lt_wf_0 x) as [x _ IH]. intros s Hs. destruct (decide (x = 0)%N) as [->|Hx]; [done|].
  rewrite pretty_N_go_step by lia. apply IH; [apply N.div_lt; lia|]. simpl. rewrite Hs, andb_true_r.
  by repeat (destruct x as [|x] || idtac); unfold pretty_N_char; repeat case_match.
Qed.

Lemma no_colon_pretty (z : Z) : no_colon (pretty z) = true.
Proof.
  assert (Hp : ∀ p : positive, no_colon (pretty p) = true).
  { intros p. unfold pretty, pretty_positive, pretty, pretty_N. case_decide; [done|]. by apply no_colon_go. }
  destruct z as [|p|p]; [done|apply Hp|]. unfold pretty, pretty_Z. simpl. apply Hp.
Qed.

Lemma split_colon a b x y :
  no_colon a = true → no_colon b = true → a +:+ ":" +:+ x = b +:+ ":" +:+ y → a = b ∧ x = y.
Proof.
  revert b. induction a as [|c a IH]; intros [|d b] Ha Hb E; simpl in *.
  - injection E as E. split; [done|exact E].
  - injection E as <- E. done.
  - injection E as -> E. done.
  - injection E as -> E. apply andb_true_iff in Ha as [_ Ha], Hb as [_ Hb].
    destruct (IH b Ha Hb E) as [-> ->]. done.
Qed.

Lemma id_text_inj s r p s' r' p' :
  id_text s r p = id_text s' r' p' → s = s' ∧ r = r' ∧ p = p'.
Proof.
  intros [E1 E]%split_colon; [|apply no_colon_pretty..]. apply split_colon in E as [E2 E3]; [|apply no_colon_pretty..].
  split_and!; [by apply (inj pretty)|by apply (inj pretty)|done].
Qed.

Lemma genHash_eq `{Hasher} s r p s' r' p' :
  (take 20 (sha3_256 (id_text s r p)) = take 20 (sha3_256 (id_text s' r' p')) → id_text s r p = id_text s' r' p') →
  genHash s r p = genHash s' r' p' ↔ s = s' ∧ r = r' ∧ p = p'.
Proof.
  intros Hcol. split; [|by intros (-> & -> & ->)]. intros E. apply id_text_inj, Hcol.
  apply EncodeToString_inj; [apply Forall_take, sha3_256_bytes..|exact E].
Qed.

(** C28.  Keys of connections.  Two connection ids whose texts the digest keeps
    apart have the same key exactly when they have the same send number, receive
    number and peer: the text separates the three parts, whatever the peer's
    text is, and the hexadecimal form loses nothing. *)
Theorem genHash_injective `{Hasher} (s r : Z) (p : string) (s' r' : Z) (p' : string) :
  (take 20 (sha3_256 (id_text s r p)) = take 20 (sha3_256 (id_text s' r' p')) → id_text s r p = id_text s' r' p') →
  cid_hash (NewConnectionId p r s) = cid_hash (NewConnectionId p' r' s') ↔ s = s' ∧ r = r' ∧ p = p'.
Proof. apply genHash_eq. Qed.

(** ** Witnesses *)

(** A digest that keeps short texts apart: their first bytes, filled up. *)
Fixpoint bytes_of (s : string) : list Z :=
  match s with EmptyString => [] | String a s => Z.of_nat (nat_of_ascii a) :: bytes_of s end.

Lemma bytes_of_u8 s : Forall is_u8 (bytes_of s).
Proof.
  induction s as [|a s IH]; constructor; [|done]. pose proof (nat_ascii_bounded a). unfold is_u8. lia.
Qed.

Definition prefix_digest (s : string) : list Z := take 32 (bytes_of s ++ replicate 32 0).

Lemma prefix_digest_bytes s : length (prefix_digest s) = 32%nat ∧ Forall is_u8 (prefix_digest s).
Proof.
  unfold prefix_digest. split; [rewrite length_take, length_app, length_replicate; lia|].
  apply Forall_take, Forall_app. split; [apply bytes_of_u8|]. apply Forall_replicate. unfold is_u8. lia.
Qed.

#[global] Instance prefix_hasher : Hasher := {| sha3_256_bytes := prefix_digest_bytes |}.

Lemma genHash_injective_witness :
  cid_hash (NewConnectionId "1.2.3.4:5" 1 2) ≠ cid_hash (NewConnectionId "1.2.3.4:5" 12 2).
Proof.
  intros E. apply (genHash_injective 2 1 "1.2.3.4:5" 2 12 "1.2.3.4:5") in E as (_ & E & _); [discriminate E|].
  intros Hd. vm_compute in Hd. discriminate Hd.
Defined.

(** The ids of the demonstrations: an initiator and its acceptor. *)
Definition demo_peer_a : string := "10.0.0.1:9000".
Definition demo_peer_b : string := "10.0.0.2:9000".
Definition demo_cid : ConnectionId := NewConnectionId demo_peer_b 7 8.
Definition demo_cid_b : ConnectionId := NewConnectionId demo_peer_a 8 7.
