(* ===== verification/Float64.v ===== *)
(** * Go's float64 arithmetic

    congestion.go computes in [float64].  The model uses the executable IEEE 754
    operations of the Standard Library's [SpecFloat] at the binary64 format,
    with Go's conversions and the [math] functions the code calls.  A conversion
    of a float that the integer type cannot represent is implementation
    dependent in Go: its value is a parameter ([FloatConv]).

    The second half shows when the arithmetic is exact: on integers below 2^53,
    conversion, comparison, subtraction and division by a power of two compute
    the integer operations, so that the congestion code can be read over [Z]. *)

From Stdlib Require Import ZArith Lia.
From Stdlib Require Import SpecFloat.
From stdpp Require Import base list.
From S2P Require Import Prelude.

Definition f64 := spec_float.
Definition f_prec : Z := 53.
Definition f_emax : Z := 1024.

(** ** Operations *)

(** [float64(z)] for an integer [z]: round to nearest even. *)
Definition f64_of_Z (z : Z) : f64 := binary_normalize f_prec f_emax z 0 false.
Definition f64_sub : f64 → f64 → f64 := SFsub f_prec f_emax.
Definition f64_add : f64 → f64 → f64 := SFadd f_prec f_emax.
Definition f64_mul : f64 → f64 → f64 := SFmul f_prec f_emax.
Definition f64_div : f64 → f64 → f64 := SFdiv f_prec f_emax.

(** [float64(x)] for a [float32]: a change of format, exact. *)
Definition f64_of_f32 (x : spec_float) : f64 :=
  match x with
  | S754_finite s m e => binary_round f_prec f_emax s m e
  | _ => x
  end.

(** [math.Abs], [math.Max] and [math.Min], with their special cases. *)
Definition math_Abs : f64 → f64 := SFabs.

Definition is_pinf (x : f64) : bool := match x with S754_infinity false => true | _ => false end.
Definition is_ninf (x : f64) : bool := match x with S754_infinity true => true | _ => false end.
Definition is_nan (x : f64) : bool := match x with S754_nan => true | _ => false end.
Definition signbit (x : f64) : bool :=
  match x with
  | S754_zero s | S754_infinity s | S754_finite s _ _ => s
  | S754_nan => false
  end.
Definition is_zero (x : f64) : bool := match x with S754_zero _ => true | _ => false end.

Definition math_Max (x y : f64) : f64 :=
  if is_pinf x || is_pinf y then S754_infinity false
  else if is_nan x || is_nan y then S754_nan
  else if is_zero x && is_zero y then (if signbit x then y else x)
  else if SFltb y x then x else y.

Definition math_Min (x y : f64) : f64 :=
  if is_ninf x || is_ninf y then S754_infinity true
  else if is_nan x || is_nan y then S754_nan
  else if is_zero x && is_zero y then (if signbit x then x else y)
  else if SFltb x y then x else y.

(** The integer part of a finite float. *)
Definition f64_trunc (x : f64) : option Z :=
  match x with
  | S754_zero _ => Some 0
  | S754_finite s m e =>
      Some (cond_Zopp s (if 0 <=? e then Zpos m * 2 ^ e else Zpos m `div` 2 ^ (- e)))
  | _ => None
  end.

(** The values of the conversions that Go leaves to the implementation. *)
Class FloatConv := {
  oob_int64 : f64 → Z;
  oob_int64_range x : is_i64 (oob_int64 x);
  oob_uint32 : f64 → Z;
  oob_uint32_range x : is_u32 (oob_uint32 x);
}.

Section conversions.
Context `{FloatConv}.

(** [int64(x)] *)
Definition f64_to_int64 (x : f64) : Z :=
  match f64_trunc x with
  | Some z => if (-9223372036854775808 <=? z) && (z <? 9223372036854775808) then z
              else oob_int64 x
  | None => oob_int64 x
  end.

(** [uint32(x)] *)
Definition f64_to_uint32 (x : f64) : Z :=
  match f64_trunc x with
  | Some z => if (0 <=? z) && (z <? 4294967296) then z else oob_uint32 x
  | None => oob_uint32 x
  end.

Lemma f64_to_int64_range x : is_i64 (f64_to_int64 x).
Proof.
  unfold f64_to_int64. destruct (f64_trunc x) as [z|]; [|apply oob_int64_range].
  destruct (andb _ _) eqn:E; [go_lia|apply oob_int64_range].
Qed.

Lemma f64_to_uint32_range x : is_u32 (f64_to_uint32 x).
Proof.
  unfold f64_to_uint32. destruct (f64_trunc x) as [z|]; [|apply oob_uint32_range].
  destruct (andb _ _) eqn:E; [go_lia|apply oob_uint32_range].
Qed.
End conversions.

(** The amd64 conversions: the most negative integer, and 0. *)
#[global] Instance amd64_conv : FloatConv := {
  oob_int64 _ := -9223372036854775808;
  oob_int64_range _ := ltac:(unfold is_i64; lia);
  oob_uint32 _ := 0;
  oob_uint32_range _ := ltac:(unfold is_u32; lia);
}.

(** ** Digits *)

Definition digits (m : positive) : Z := Zpos (digits2_pos m).

Lemma digits_log2 m : digits m = Z.log2 (Zpos m) + 1.
Proof.
  unfold digits. assert (Hs : digits2_pos m = Pos.size m) by (induction m; simpl; congruence).
  rewrite Hs. destruct m; simpl; lia.
Qed.

Lemma digits_bounds m : 2 ^ (digits m - 1) ≤ Zpos m < 2 ^ digits m.
Proof.
  rewrite digits_log2. pose proof (Z.log2_spec (Zpos m) ltac:(lia)) as Hl.
  replace (Z.log2 (Zpos m) + 1 - 1) with (Z.log2 (Zpos m)) by lia.
  by rewrite <- Z.add_1_r in Hl.
Qed.

Lemma digits_unique m k : 0 < k → 2 ^ (k - 1) ≤ Zpos m < 2 ^ k → digits m = k.
Proof.
  intros Hk Hm. rewrite digits_log2. rewrite (Z.log2_unique (Zpos m) (k - 1)); [lia|lia|].
  by replace (Z.succ (k - 1)) with k by lia.
Qed.

Lemma digits_pos m : 1 ≤ digits m.
Proof. unfold digits. lia. Qed.

Lemma digits_le m k : 0 ≤ k → Zpos m < 2 ^ k → digits m ≤ k.
Proof.
  intros Hk Hm. destruct (Z.le_gt_cases (digits m) k) as [|Hgt]; [done|].
  pose proof (digits_bounds m) as [Hb _].
  assert (2 ^ k ≤ 2 ^ (digits m - 1)) by (apply Z.pow_le_mono_r; lia). lia.
Qed.

(** Shifting a positive to the left. *)
Definition shl_pos (m : positive) (k : Z) : positive := Z.to_pos (Zpos m * 2 ^ k).

Lemma shl_pos_Z m k : 0 ≤ k → Zpos (shl_pos m k) = Zpos m * 2 ^ k.
Proof.
  intros. unfold shl_pos. apply Z2Pos.id. assert (0 < 2 ^ k) by (apply Z.pow_pos_nonneg; lia). nia.
Qed.

Lemma digits_shl m k : 0 ≤ k → digits (shl_pos m k) = digits m + k.
Proof.
  intros Hk. pose proof (digits_pos m). pose proof (digits_bounds m) as [Hl Hu].
  apply digits_unique; [lia|]. rewrite shl_pos_Z by done.
  assert (0 < 2 ^ k) by (apply Z.pow_pos_nonneg; lia).
  replace (digits m + k - 1) with (digits m - 1 + k) by lia. rewrite !Z.pow_add_r by lia. nia.
Qed.

Lemma iter_xO m d : Zpos (Pos.iter xO m d) = Zpos m * 2 ^ Zpos d.
Proof.
  induction d using Pos.peano_ind; [simpl; lia|]. rewrite Pos.iter_succ.
  change (Zpos (xO (Pos.iter xO m d)) = Zpos m * 2 ^ Zpos (Pos.succ d)).
  rewrite Pos2Z.inj_xO, IHd, Pos2Z.inj_succ, Z.pow_succ_r by lia. lia.
Qed.

Lemma iter_pos_iter {A} (f : A → A) p x : SpecFloat.iter_pos f p x = Pos.iter f x p.
Proof.
  revert x. induction p as [p IH|p IH|]; intros x; simpl; [|by rewrite !IH|done].
  rewrite !IH. by rewrite <- !Pos.iter_swap.
Qed.

Lemma pow2_pos k : 0 < 2 ^ k ∨ k < 0.
Proof. destruct (Z.lt_ge_cases k 0); [by right|left; apply Z.pow_pos_nonneg; lia]. Qed.

(** ** Rounding *)

Lemma shr_1_m mrs : 0 ≤ shr_m mrs → shr_m (shr_1 mrs) = shr_m mrs `div` 2.
Proof.
  destruct mrs as [m r s]. simpl. intros Hm. destruct m as [|[p|p|]|p]; simpl; try done.
  - rewrite (Pos2Z.inj_xI p). go_lia.
  - rewrite (Pos2Z.inj_xO p). go_lia.
Qed.

Lemma iter_shr_m p mrs :
  0 ≤ shr_m mrs → shr_m (SpecFloat.iter_pos shr_1 p mrs) = shr_m mrs `div` 2 ^ Zpos p.
Proof.
  rewrite iter_pos_iter. intros Hm. induction p as [|p IH] using Pos.peano_ind.
  { simpl. by apply shr_1_m. }
  rewrite Pos.iter_succ, shr_1_m; [|rewrite IH; apply Z.div_pos; [done|lia]].
  rewrite IH, Z.div_div by lia. f_equal. rewrite Pos2Z.inj_succ, Z.pow_succ_r by lia. lia.
Qed.

Lemma iter_shr_exact p c :
  0 ≤ c → SpecFloat.iter_pos shr_1 p (Build_shr_record (c * 2 ^ Zpos p) false false)
          = Build_shr_record c false false.
Proof.
  intros Hc. rewrite iter_pos_iter. revert c Hc.
  induction p as [|p IH] using Pos.peano_ind; intros c Hc.
  { rewrite Z.mul_comm. by destruct c. }
  rewrite Pos.iter_succ. rewrite Pos2Z.inj_succ, Z.pow_succ_r, Z.mul_assoc by lia.
  rewrite IH by lia. rewrite Z.mul_comm. by destruct c.
Qed.

Lemma fexp_normal e : -1021 ≤ e → fexp f_prec f_emax e = e - 53.
Proof. unfold fexp, emin, f_prec, f_emax. lia. Qed.

(** Rounding is exact when the bits that it shifts out are zero. *)
Lemma binary_round_aux_exact s m c e k :
  Zpos m = Zpos c * 2 ^ k → 0 ≤ k → k = digits m - 53 →
  -1021 ≤ digits m + e → e + k ≤ 971 →
  binary_round_aux f_prec f_emax s (Zpos m) e loc_Exact = S754_finite s c (e + k).
Proof.
  intros Hm Hk Hd He Hmax. assert (Hc : digits m = digits c + k).
  { rewrite <- digits_shl by done. f_equal. apply (inj Zpos). by rewrite shl_pos_Z. }
  unfold binary_round_aux, shr_fexp. cbn [Zdigits2]. fold (digits m).
  rewrite fexp_normal by lia. replace (digits m + e - 53 - e) with k by lia.
  assert (Hs : shr (shr_record_of_loc (Zpos m) loc_Exact) e k
               = (Build_shr_record (Zpos c) false false, e + k)).
  { unfold shr, shr_record_of_loc. rewrite Hm. destruct k as [|k|k]; [|by rewrite iter_shr_exact|lia].
    by rewrite Z.mul_1_r, Z.add_0_r. }
  rewrite Hs. simpl. fold (digits c). rewrite fexp_normal by lia.
  replace (digits c + (e + k) - 53 - (e + k)) with 0 by lia. simpl.
  case_bool; [done|]. unfold f_emax, f_prec in *. lia.
Qed.

(** The float [c * 2^e], in normal form, for a mantissa that fits. *)
Definition fl (s : bool) (c : positive) (e : Z) : f64 :=
  S754_finite s (shl_pos c (53 - digits c)) (e - (53 - digits c)).

Lemma shl_align_le m e e' :
  e' ≤ e → shl_align m e e' = (shl_pos m (e - e'), e').
Proof.
  intros Hle. unfold shl_align. destruct (e' - e) eqn:E; [|lia|].
  - replace e' with e by lia. f_equal. apply (inj Zpos). rewrite shl_pos_Z by lia.
    rewrite Z.sub_diag. lia.
  - f_equal. apply (inj Zpos). rewrite iter_xO, shl_pos_Z by lia. do 2 f_equal. lia.
Qed.

Lemma shl_shl m j k : 0 ≤ j → 0 ≤ k → shl_pos (shl_pos m j) k = shl_pos m (j + k).
Proof.
  intros. apply (inj Zpos). rewrite !shl_pos_Z, Z.pow_add_r by lia. lia.
Qed.

Lemma binary_round_exact s c t e :
  0 ≤ t → digits c ≤ 53 → -1021 ≤ e → e + t ≤ 800 →
  binary_round f_prec f_emax s (shl_pos c t) e = fl s c (e + t).
Proof.
  intros Ht Hc Hlo Hhi. pose proof (digits_pos c).
  unfold binary_round, fl. fold (digits (shl_pos c t)).
  rewrite digits_shl, fexp_normal by lia. set (d := digits c) in *.
  destruct (Z.le_gt_cases (d + t) 53) as [Hd|Hd].
  - rewrite shl_align_le, shl_shl by lia. fold d.
    replace (t + (e - (d + t + e - 53))) with (53 - d) by lia.
    rewrite (binary_round_aux_exact _ _ (shl_pos c (53 - d)) _ 0);
      rewrite ?digits_shl by lia; fold d; try lia.
    f_equal. lia.
  - assert (Ha : shl_align (shl_pos c t) e (d + t + e - 53) = (shl_pos c t, e)).
    { unfold shl_align. destruct (d + t + e - 53 - e) eqn:E; [done|done|lia]. }
    rewrite Ha. rewrite (binary_round_aux_exact _ _ (shl_pos c (53 - d)) _ (d + t - 53));
      rewrite ?digits_shl by lia; fold d; try lia.
    + f_equal. lia.
    + rewrite !shl_pos_Z, <- Z.mul_assoc, <- Z.pow_add_r by lia. do 2 f_equal. lia.
Qed.

Lemma shl_pos_0 c : shl_pos c 0 = c.
Proof. apply (inj Zpos). rewrite shl_pos_Z by lia. lia. Qed.

(** ** The floats of small integers *)

(** The float of an integer below 2^53. *)
Definition f_int (z : Z) : f64 :=
  match z with
  | 0 => S754_zero false
  | Zpos p => fl false p 0
  | Zneg p => fl true p 0
  end.

Definition small (z : Z) : Prop := - 2 ^ 53 < z < 2 ^ 53.

Lemma small_digits p : small (Zpos p) → 1 ≤ digits p ≤ 53.
Proof. intros [_ H]. split; [apply digits_pos|apply digits_le; lia]. Qed.

Lemma binary_normalize_exact z t :
  small z → 0 ≤ t ≤ 1000 →
  binary_normalize f_prec f_emax (z * 2 ^ t) (- t) false = f_int z.
Proof.
  intros Hz Ht. destruct z as [|p|p]; [done|..]; simpl f_int.
  - rewrite <- shl_pos_Z by lia. cbn [binary_normalize].
    rewrite binary_round_exact by (apply small_digits in Hz; lia). f_equal. lia.
  - assert (Hp : 1 ≤ digits p ≤ 53) by (apply small_digits; unfold small in *; lia).
    change (Zneg p) with (- Zpos p). rewrite Z.mul_opp_l, <- shl_pos_Z by lia.
    change (- Zpos (shl_pos p t)) with (Zneg (shl_pos p t)). cbn [binary_normalize].
    rewrite binary_round_exact by lia. f_equal. lia.
Qed.

Lemma f64_of_Z_small z : small z → f64_of_Z z = f_int z.
Proof.
  intros Hz. unfold f64_of_Z. rewrite <- (binary_normalize_exact z 0) by (done || lia).
  f_equal; lia.
Qed.

Lemma fl_trunc s c e :
  1 ≤ digits c ≤ 53 → e ≤ 0 → f64_trunc (fl s c e) = Some (cond_Zopp s (Zpos c `div` 2 ^ (- e))).
Proof.
  intros Hd He. unfold fl, f64_trunc. do 2 f_equal. rewrite shl_pos_Z by lia.
  case_bool.
  - replace e with 0 by lia. replace (53 - digits c) with 0 by lia.
    change (2 ^ (- 0)) with 1. rewrite Z.div_1_r. lia.
  - replace (- (e - (53 - digits c))) with (53 - digits c + - e) by lia.
    rewrite Z.pow_add_r, (Z.mul_comm (Zpos c)) by lia.
    apply Z.div_mul_cancel_l; apply Z.pow_nonzero; lia.
Qed.

Lemma f_int_trunc z : small z → f64_trunc (f_int z) = Some z.
Proof.
  intros Hz. destruct z as [|p|p]; [done|..]; simpl f_int.
  - rewrite fl_trunc by (apply small_digits in Hz; lia). simpl. by rewrite Z.div_1_r.
  - rewrite fl_trunc; [simpl; by rewrite Z.div_1_r| |lia].
    apply small_digits. unfold small in *. lia.
Qed.

(** Comparison of normal floats is comparison of their mantissas and exponents. *)
Lemma fl_compare_pos a b :
  small (Zpos a) → small (Zpos b) →
  match 0 - (53 - digits a) ?= 0 - (53 - digits b) with
  | Lt => Lt | Gt => Gt
  | Eq => Pos.compare_cont Eq (shl_pos a (53 - digits a)) (shl_pos b (53 - digits b))
  end = (Zpos a ?= Zpos b).
Proof.
  intros Ha%small_digits Hb%small_digits.
  pose proof (digits_bounds a) as [La Ua]. pose proof (digits_bounds b) as [Lb Ub].
  destruct (Z.compare_spec (0 - (53 - digits a)) (0 - (53 - digits b))) as [E|E|E].
  - replace (digits b) with (digits a) by lia.
    change (Pos.compare_cont Eq ?x ?y) with (Zpos x ?= Zpos y). rewrite !shl_pos_Z by lia.
    symmetry. apply Zmult_compare_compat_r. apply Z.lt_gt, Z.pow_pos_nonneg; lia.
  - symmetry. apply Z.compare_lt_iff. assert (2 ^ digits a ≤ 2 ^ (digits b - 1)); [|lia].
    apply Z.pow_le_mono_r; lia.
  - symmetry. apply Z.compare_gt_iff. assert (2 ^ digits b ≤ 2 ^ (digits a - 1)); [|lia].
    apply Z.pow_le_mono_r; lia.
Qed.

Lemma f_int_compare a b :
  small a → small b → SFcompare (f_int a) (f_int b) = Some (a ?= b).
Proof.
  intros Ha Hb. destruct a as [|a|a], b as [|b|b]; try done; simpl f_int; unfold fl, SFcompare; f_equal.
  - by apply fl_compare_pos.
  - change (Zneg a ?= Zneg b) with (CompOpp (Zpos a ?= Zpos b)).
    rewrite <- fl_compare_pos by (unfold small in *; lia). by destruct (Z.compare _ _).
Qed.

(** A larger integer is rounded to a float with a positive exponent. *)
Lemma round_nearest_even_cases m l :
  round_nearest_even m l = m ∨ round_nearest_even m l = m + 1.
Proof. destruct l as [|[]]; simpl; auto. destruct (Z.even m); auto. Qed.

Lemma shr_1_finite r e :
  2 ^ 52 ≤ r ≤ 2 ^ 53 → 1 ≤ e →
  ∃ m e', (shr_m (fst (shr_fexp f_prec f_emax r e loc_Exact)),
           snd (shr_fexp f_prec f_emax r e loc_Exact)) = (Zpos m, e') ∧ e ≤ e' ≤ e + 1.
Proof.
  intros Hr He. destruct r as [|r|]; [lia| |lia]. unfold shr_fexp. cbn [Zdigits2].
  fold (digits r). assert (Hd : digits r = 53 ∨ digits r = 54).
  { destruct (Z.eq_dec (Zpos r) (2 ^ 53)).
    - right. apply digits_unique; lia.
    - left. apply digits_unique; lia. }
  rewrite fexp_normal by lia. destruct Hd as [Hd|Hd]; rewrite Hd.
  - replace (53 + e - 53 - e) with 0 by lia. simpl. eexists _, _. split; [done|lia].
  - replace (54 + e - 53 - e) with 1 by lia.
    change (shr ?x e 1) with (shr_1 x, e + 1). cbn [fst snd]. rewrite shr_1_m by (simpl; lia).
    cbn [shr_record_of_loc shr_m].
    exists (Z.to_pos (Zpos r `div` 2)), (e + 1). split; [|lia]. f_equal.
    rewrite Z2Pos.id; [done|]. go_lia.
Qed.

Lemma binary_round_big s p :
  2 ^ 53 ≤ Zpos p ≤ 2 ^ 63 →
  ∃ m e, binary_round f_prec f_emax s p 0 = S754_finite s m e ∧ 1 ≤ e.
Proof.
  intros Hp. pose proof (digits_bounds p) as Hb. set (d := digits p) in *.
  assert (Hd : 54 ≤ d ≤ 64).
  { split; [|apply digits_le; lia]. destruct (Z.le_gt_cases 54 d) as [|Hlt]; [done|].
    assert (2 ^ d ≤ 2 ^ 53) by (apply Z.pow_le_mono_r; lia). lia. }
  unfold binary_round. fold (digits p). fold d. rewrite fexp_normal by lia.
  assert (Ha : shl_align p 0 (d + 0 - 53) = (p, 0)).
  { unfold shl_align. destruct (d + 0 - 53 - 0) eqn:E; [done|done|lia]. }
  rewrite Ha. unfold binary_round_aux. unfold shr_fexp at 1. cbn [Zdigits2]. fold (digits p).
  fold d. rewrite fexp_normal by lia. destruct (d + 0 - 53 - 0) as [|k|] eqn:Ek; [lia| |lia].
  cbn [shr]. set (mrs := SpecFloat.iter_pos _ _ _).
  assert (Hq : 2 ^ 52 ≤ shr_m mrs < 2 ^ 53).
  { unfold mrs. rewrite iter_shr_m by (simpl; lia). cbn [shr_record_of_loc shr_m].
    assert (Hk : 0 < 2 ^ Zpos k) by lia.
    assert (E1 : 2 ^ (d - 1) = 2 ^ 52 * 2 ^ Zpos k) by (rewrite <- Z.pow_add_r; f_equal; lia).
    assert (E2 : 2 ^ d = 2 ^ 53 * 2 ^ Zpos k) by (rewrite <- Z.pow_add_r; f_equal; lia).
    split; [apply Z.div_le_lower_bound|apply Z.div_lt_upper_bound]; lia. }
  destruct (shr_1_finite (round_nearest_even (shr_m mrs) (loc_of_shr_record mrs)) (0 + Zpos k))
    as (m & e' & Hm & He'); [|lia|].
  { destruct (round_nearest_even_cases (shr_m mrs) (loc_of_shr_record mrs)) as [-> | ->]; lia. }
  destruct (shr_fexp _ _ _ _ _) as [mrs'' e'']. injection Hm as -> ->.
  exists m, e'. case_bool; [split; [done|lia]|]. unfold f_emax, f_prec in *. lia.
Qed.

(** A comparison with a small integer is exact whatever the other [int64]. *)
Lemma f64_of_Z_compare a b :
  is_i64 a → small b → SFcompare (f64_of_Z a) (f_int b) = Some (a ?= b).
Proof.
  intros Ha Hb. destruct (decide (- 2 ^ 53 < a ∧ a < 2 ^ 53)) as [Hs|Hs].
  { rewrite f64_of_Z_small by done. by apply f_int_compare. }
  unfold is_i64, small in *. assert (Hbd := small_digits). unfold f64_of_Z.
  destruct a as [|p|p]; [lia|..]; cbn [binary_normalize].
  - destruct (binary_round_big false p) as (m & e & -> & He); [lia|].
    rewrite (proj2 (Z.compare_gt_iff _ _)) by lia.
    destruct b as [|b|b]; [done| |done]. unfold f_int, fl, SFcompare. do 2 f_equal.
    specialize (Hbd b ltac:(unfold small; lia)).
    by rewrite (proj2 (Z.compare_gt_iff _ _)) by lia.
  - destruct (binary_round_big true p) as (m & e & -> & He); [lia|].
    rewrite (proj2 (Z.compare_lt_iff _ _)) by lia.
    destruct b as [|b|b]; [done|done|]. unfold f_int, fl, SFcompare. do 2 f_equal.
    specialize (Hbd b ltac:(unfold small; lia)).
    by rewrite (proj2 (Z.compare_gt_iff _ _)) by lia.
Qed.

(** ** Minimum and maximum *)

Lemma SFcompare_swap x y c : SFcompare x y = Some c → SFcompare y x = Some (CompOpp c).
Proof.
  destruct x as [|[]| |[] mx ex], y as [|[]| |[] my ey]; simpl; intros [= <-]; try done; f_equal;
    rewrite (Z.compare_antisym ex ey); destruct (ex ?= ey); try done; simpl;
    rewrite (Pos.compare_antisym mx my : Pos.compare_cont Eq my mx = _); try done;
    by destruct (Pos.compare mx my) eqn:E; unfold Pos.compare in *; rewrite E.
Qed.

Lemma f64_of_Z_shape z :
  is_i64 z → f64_of_Z z = S754_zero false ∨ ∃ s m e, f64_of_Z z = S754_finite s m e.
Proof.
  intros Hz. destruct (decide (- 2 ^ 53 < z ∧ z < 2 ^ 53)) as [Hs|Hs].
  { rewrite f64_of_Z_small by done. destruct z; simpl; [by left|right; unfold fl; eauto..]. }
  right. unfold is_i64, f64_of_Z in *. destruct z as [|p|p]; [lia|..]; cbn [binary_normalize].
  - destruct (binary_round_big false p) as (m & e & -> & _); [lia|eauto].
  - destruct (binary_round_big true p) as (m & e & -> & _); [lia|eauto].
Qed.

Lemma small_i64 z : small z → is_i64 z.
Proof. unfold small, is_i64. lia. Qed.

Lemma math_Min_Z a b :
  is_i64 a → small b → math_Min (f64_of_Z a) (f64_of_Z b) = f64_of_Z (Z.min a b).
Proof.
  intros Ha Hb. assert (Hc := f64_of_Z_compare a b Ha Hb). rewrite <- f64_of_Z_small in Hc by done.
  unfold math_Min, SFltb. rewrite Hc.
  assert (E : (match a ?= b with Lt => f64_of_Z a | _ => f64_of_Z b end) = f64_of_Z (Z.min a b)).
  { destruct (Z.compare_spec a b); f_equal; lia. }
  rewrite <- E.
  destruct (f64_of_Z_shape a Ha) as [Ea|(s & m & e & Ea)], (f64_of_Z_shape b (small_i64 b Hb))
    as [Eb|(s' & m' & e' & Eb)]; rewrite Ea, Eb; simpl; by destruct (a ?= b).
Qed.

Lemma math_Max_Z a b :
  is_i64 a → small b → math_Max (f64_of_Z a) (f64_of_Z b) = f64_of_Z (Z.max a b).
Proof.
  intros Ha Hb. assert (Hc := f64_of_Z_compare a b Ha Hb). rewrite <- f64_of_Z_small in Hc by done.
  apply SFcompare_swap in Hc. unfold math_Max, SFltb. rewrite Hc.
  assert (E : (match CompOpp (a ?= b) with Lt => f64_of_Z a | _ => f64_of_Z b end)
              = f64_of_Z (Z.max a b)).
  { destruct (Z.compare_spec a b); simpl; f_equal; lia. }
  rewrite <- E.
  destruct (f64_of_Z_shape a Ha) as [Ea|(s & m & e & Ea)], (f64_of_Z_shape b (small_i64 b Hb))
    as [Eb|(s' & m' & e' & Eb)]; rewrite Ea, Eb; simpl; by destruct (a ?= b).
Qed.

Section exact_conversions.
Context `{FloatConv}.

Lemma f64_to_int64_small z : small z → f64_to_int64 (f64_of_Z z) = z.
Proof.
  intros Hz. unfold f64_to_int64. rewrite f64_of_Z_small, f_int_trunc by done.
  apply small_i64 in Hz. unfold is_i64 in Hz. repeat case_bool; simpl; done || lia.
Qed.

Lemma f64_to_uint32_exact z : is_u32 z → f64_to_uint32 (f64_of_Z z) = z.
Proof.
  intros Hz. assert (Hs : small z) by (unfold small, is_u32 in *; lia).
  unfold f64_to_uint32. rewrite f64_of_Z_small, f_int_trunc by done.
  unfold is_u32 in Hz. repeat case_bool; simpl; done || lia.
Qed.
End exact_conversions.

(** ** Addition, subtraction and division by a power of two *)

Lemma fl_aligned c ez :
  1 ≤ digits c ≤ 53 → ez ≤ 0 - (53 - digits c) →
  Zpos (fst (shl_align (shl_pos c (53 - digits c)) (0 - (53 - digits c)) ez)) = Zpos c * 2 ^ (- ez).
Proof.
  intros Hd He. rewrite shl_align_le, shl_shl by lia. cbn [fst].
  rewrite shl_pos_Z by lia. do 2 f_equal. lia.
Qed.

Lemma fl_int s c : fl s c 0 = f_int (cond_Zopp s (Zpos c)).
Proof. by destruct s. Qed.

Lemma cond_Zopp_mul s a b : cond_Zopp s (a * b) = cond_Zopp s a * b.
Proof. destruct s; simpl; lia. Qed.

Lemma f_int_fl z : z ≠ 0 → ∃ s c, z = cond_Zopp s (Zpos c) ∧ f_int z = fl s c 0.
Proof. destruct z as [|p|p]; [done|exists false, p|exists true, p]; done. Qed.

Lemma f64_sub_exact a b :
  small a → small b → small (a - b) → f64_sub (f_int a) (f_int b) = f_int (a - b).
Proof.
  intros Ha Hb Hab. unfold f64_sub.
  destruct (decide (a = 0)) as [->|Ha0]; [by destruct b|].
  destruct (decide (b = 0)) as [->|Hb0]; [rewrite Z.sub_0_r; by destruct a|].
  destruct (f_int_fl a Ha0) as (sa & ca & Ea & ->), (f_int_fl b Hb0) as (sb & cb & Eb & ->).
  assert (Da : 1 ≤ digits ca ≤ 53) by (apply small_digits; destruct sa; unfold small in *; simpl in *; lia).
  assert (Db : 1 ≤ digits cb ≤ 53) by (apply small_digits; destruct sb; unfold small in *; simpl in *; lia).
  unfold fl, SFsub. set (ez := Z.min _ _).
  rewrite !fl_aligned by (done || lia). rewrite !cond_Zopp_mul, <- Ea, <- Eb, <- Z.mul_sub_distr_r.
  replace ez with (- - ez) at 2 by lia. apply binary_normalize_exact; [done|lia].
Qed.

Lemma f64_add_exact a b :
  small a → small b → small (a + b) → f64_add (f_int a) (f_int b) = f_int (a + b).
Proof.
  intros Ha Hb Hab. unfold f64_add.
  destruct (decide (a = 0)) as [->|Ha0]; [by destruct b|].
  destruct (decide (b = 0)) as [->|Hb0]; [rewrite Z.add_0_r; by destruct a|].
  destruct (f_int_fl a Ha0) as (sa & ca & Ea & ->), (f_int_fl b Hb0) as (sb & cb & Eb & ->).
  assert (Da : 1 ≤ digits ca ≤ 53) by (apply small_digits; destruct sa; unfold small in *; simpl in *; lia).
  assert (Db : 1 ≤ digits cb ≤ 53) by (apply small_digits; destruct sb; unfold small in *; simpl in *; lia).
  unfold fl, SFadd. set (ez := Z.min _ _).
  rewrite !fl_aligned by (done || lia). rewrite !cond_Zopp_mul, <- Ea, <- Eb, <- Z.mul_add_distr_r.
  replace ez with (- - ez) at 2 by lia. apply binary_normalize_exact; [done|lia].
Qed.

(** [2 ^ k] as a float. *)
Definition f_pow2 (k : Z) : f64 := S754_finite false (Z.to_pos (2 ^ 52)) (k - 52).

Lemma fl_div_pow2 s c k :
  1 ≤ digits c ≤ 53 → 0 ≤ k ≤ 52 → f64_div (fl s c 0) (f_pow2 k) = fl s c (- k).
Proof.
  intros Hd Hk. unfold f64_div, fl, f_pow2, SFdiv, SFdiv_core_binary. cbn [Zdigits2].
  fold (digits (shl_pos c (53 - digits c))). rewrite digits_shl by lia.
  change (Zpos (digits2_pos (Z.to_pos (2 ^ 52)))) with 53.
  rewrite fexp_normal by lia. set (e1 := 0 - (53 - digits c)).
  replace (Z.min _ _) with (e1 - k - 1) by lia. replace (e1 - (k - 52) - (e1 - k - 1)) with 53 by lia.
  set (m1 := shl_pos c (53 - digits c)). rewrite Z.shiftl_mul_pow2 by lia.
  change (Zpos (Z.to_pos (2 ^ 52))) with (2 ^ 52).
  assert (Hq : Z.div_eucl (Zpos m1 * 2 ^ 53) (2 ^ 52) = (Zpos (xO m1), 0)).
  { assert (E : Zpos m1 * 2 ^ 53 = Zpos (xO m1) * 2 ^ 52) by lia. rewrite E.
    pose proof (Z.div_mul (Zpos (xO m1)) (2 ^ 52) ltac:(lia)) as Hd1.
    pose proof (Z.mod_mul (Zpos (xO m1)) (2 ^ 52) ltac:(lia)) as Hd2.
    unfold Z.div, Z.modulo in Hd1, Hd2. destruct (Z.div_eucl _ _); congruence. }
  rewrite Hq. change (new_location (2 ^ 52) 0) with loc_Exact.
  assert (D1 : digits (xO m1) = 54).
  { replace (xO m1) with (shl_pos m1 1) by (apply (inj Zpos); rewrite shl_pos_Z; lia).
    unfold m1. rewrite !digits_shl; lia. }
  rewrite (binary_round_aux_exact _ (xO m1) m1 (e1 - k - 1) 1) by lia.
  rewrite xorb_false_r. f_equal. lia.
Qed.

(** Division by a power of two, then truncation, is integer division towards
    zero. *)
Lemma f_int_div_pow2_trunc z k :
  small z → 0 ≤ k ≤ 52 → f64_trunc (f64_div (f_int z) (f_pow2 k)) = Some (z `quot` 2 ^ k).
Proof.
  intros Hz Hk. destruct (decide (z = 0)) as [->|Hz0]; [done|].
  destruct (f_int_fl z Hz0) as (s & c & Ec & ->).
  assert (Dc : 1 ≤ digits c ≤ 53) by (apply small_digits; destruct s; unfold small in *; simpl in *; lia).
  rewrite fl_div_pow2, fl_trunc, Z.opp_involutive by lia. f_equal. rewrite Ec.
  assert (0 < 2 ^ k) by (apply Z.pow_pos_nonneg; lia).
  destruct s; simpl cond_Zopp; rewrite ?Z.quot_opp_l, Z.quot_div_nonneg by lia; done.
Qed.
