(* ===== verification/FloatError.v ===== *)
(** * The error of float64 products and quotients

    A product or quotient of [Float64] is within a factor of [1 ± 2^-52] of the
    exact one, as long as no exponent leaves the range of the format.  The bound
    is twice the one of rounding to nearest, and does not depend on the direction
    of rounding.  Values are rationals. *)

From Stdlib Require Import ZArith Lia QArith Qpower Lqa.
From Stdlib Require Import SpecFloat.
From stdpp Require Import base list.
From S2P Require Import Prelude.
From S2P Require Import Float64.

Local Open Scope Z_scope.

(** ** Powers of two *)

Definition qpow2 (e : Z) : Q := Qpower 2 e.

Lemma qpow2_pos e : (0 < qpow2 e)%Q.
Proof. apply Qpower_0_lt. reflexivity. Qed.

Lemma qpow2_add a b : (qpow2 (a + b) == qpow2 a * qpow2 b)%Q.
Proof. apply Qpower_plus. discriminate. Qed.

Lemma qpow2_Z k : 0 ≤ k → (qpow2 k == inject_Z (2 ^ k))%Q.
Proof. intros Hk. unfold qpow2. by rewrite Zpower_Qpower by done. Qed.

(** ** One rounding *)

Definition eps : Q := 1 # 4503599627370496.
Definition below : Q := 1 - eps.
Definition above : Q := 1 + eps.

(** The float [m * 2^e] for a mantissa of 53 bits. *)
Definition magnitude (m : positive) (e : Z) : Q := inject_Z (Zpos m) * qpow2 e.

Lemma round_carry r e :
  2 ^ 52 ≤ r ≤ 2 ^ 53 → -1000 ≤ e →
  ∃ m e', (shr_m (fst (shr_fexp f_prec f_emax r e loc_Exact)),
           snd (shr_fexp f_prec f_emax r e loc_Exact)) = (Zpos m, e') ∧
    digits m = 53 ∧ e ≤ e' ≤ e + 1 ∧ r = Zpos m * 2 ^ (e' - e).
Proof.
  intros Hr He. destruct r as [|r|]; [lia| |lia]. unfold shr_fexp. cbn [Zdigits2]. fold (digits r).
  destruct (Z.eq_dec (Zpos r) (2 ^ 53)) as [Er|Er].
  - assert (Hd : digits r = 54) by (apply digits_unique; lia). rewrite fexp_normal, Hd by lia.
    replace (54 + e - 53 - e) with 1 by lia. change (shr ?x e 1) with (shr_1 x, e + 1). cbn [fst snd].
    rewrite shr_1_m by (simpl; lia). cbn [shr_record_of_loc shr_m]. rewrite Er.
    exists (Z.to_pos (2 ^ 52)), (e + 1). split_and!; [done|by apply digits_unique|lia|lia|].
    replace (e + 1 - e) with 1 by lia. done.
  - assert (Hd : digits r = 53) by (apply digits_unique; lia). rewrite fexp_normal, Hd by lia.
    replace (53 + e - 53 - e) with 0 by lia. simpl. exists r, e. rewrite Z.sub_diag. split_and!; done || lia.
Qed.

Lemma binary_round_aux_near s m e l :
  53 ≤ digits m → -900 ≤ digits m + e ≤ 900 →
  ∃ m' e' r, binary_round_aux f_prec f_emax s (Zpos m) e l = S754_finite s m' e' ∧
    digits m' = 53 ∧ digits m + e - 53 ≤ e' ≤ digits m + e - 52 ∧
    let k := digits m - 53 in let m1 := Zpos m `div` 2 ^ k in
    2 ^ 52 ≤ m1 ∧ (r = m1 ∨ r = m1 + 1) ∧ r = Zpos m' * 2 ^ (e' - (e + k)).
Proof.
  intros Hd He. set (k := digits m - 53). set (m1 := Zpos m `div` 2 ^ k).
  pose proof (digits_bounds m) as [Hl Hu].
  assert (H2 : 0 < 2 ^ k) by (apply Z.pow_pos_nonneg; lia).
  assert (E1 : 2 ^ (digits m - 1) = 2 ^ 52 * 2 ^ k) by (rewrite <- Z.pow_add_r; f_equal; lia).
  assert (E2 : 2 ^ digits m = 2 ^ 53 * 2 ^ k) by (rewrite <- Z.pow_add_r; f_equal; lia).
  assert (Hm1 : 2 ^ 52 ≤ m1 < 2 ^ 53)
    by (split; [apply Z.div_le_lower_bound|apply Z.div_lt_upper_bound]; lia).
  unfold binary_round_aux. unfold shr_fexp at 1. cbn [Zdigits2]. fold (digits m). rewrite fexp_normal by lia.
  replace (digits m + e - 53 - e) with k by lia.
  assert (Hs : ∃ mrs, shr (shr_record_of_loc (Zpos m) l) e k = (mrs, e + k) ∧ shr_m mrs = m1).
  { assert (Hx : shr_m (shr_record_of_loc (Zpos m) l) = Zpos m) by (by destruct l as [|[]]).
    unfold shr. destruct k as [|p|p] eqn:Ek; [|..|lia].
    - eexists. split; [f_equal; lia|]. unfold m1. by rewrite Hx, Z.div_1_r.
    - eexists. split; [done|]. unfold m1. by rewrite iter_shr_m, Hx by (rewrite Hx; lia). }
  destruct Hs as (mrs & -> & Hmrs). rewrite Hmrs.
  set (r := round_nearest_even m1 (loc_of_shr_record mrs)).
  assert (Hr : r = m1 ∨ r = m1 + 1) by apply round_nearest_even_cases.
  destruct (round_carry r (e + k)) as (m' & e' & Hsh & Hd' & He' & Er); [lia|lia|].
  destruct (shr_fexp _ _ _ _ _) as [mrs'' e'']. injection Hsh as -> ->. exists m', e', r.
  split_and!; try (done || lia). case_bool; [done|]. unfold f_emax, f_prec in *. lia.
Qed.

(** The rounded value of a mantissa and exponent that hold [v] from below. *)
Lemma round_near s m e l v :
  53 ≤ digits m → -900 ≤ digits m + e ≤ 900 →
  (inject_Z (Zpos m) * qpow2 e <= v <= inject_Z (Zpos m + 1) * qpow2 e)%Q →
  ∃ m' e', binary_round_aux f_prec f_emax s (Zpos m) e l = S754_finite s m' e' ∧
    digits m' = 53 ∧ digits m + e - 53 ≤ e' ≤ digits m + e - 52 ∧
    (below * v <= magnitude m' e' <= above * v)%Q.
Proof.
  intros Hd He Hv. destruct (binary_round_aux_near s m e l Hd He) as (m' & e' & r & E & Hd' & He' & Hm1 & Hr & Er).
  exists m', e'. split; [done|]. split; [done|]. split; [lia|]. set (k := digits m - 53) in *. set (m1 := Zpos m `div` 2 ^ k) in *.
  assert (H2 : 0 < 2 ^ k) by (apply Z.pow_pos_nonneg; lia).
  assert (Hlo : m1 * 2 ^ k ≤ Zpos m) by (unfold m1; pose proof (Z.mul_div_le (Zpos m) (2 ^ k)); lia).
  assert (Hhi : Zpos m + 1 ≤ (m1 + 1) * 2 ^ k).
  { unfold m1. pose proof (Z.mod_pos_bound (Zpos m) (2 ^ k) H2). pose proof (Z.div_mod (Zpos m) (2 ^ k)). lia. }
  set (u := qpow2 (e + k)). assert (Hu : (0 < u)%Q) by apply qpow2_pos.
  assert (Eu : (u == inject_Z (2 ^ k) * qpow2 e)%Q).
  { unfold u. rewrite qpow2_add, (qpow2_Z k) by lia. ring. }
  assert (Em : (magnitude m' e' == inject_Z r * u)%Q).
  { unfold magnitude, u. rewrite Er, inject_Z_mult, <- qpow2_Z by lia.
    replace e' with (e' - (e + k) + (e + k)) at 1 by lia. rewrite qpow2_add. ring. }
  assert (Ha : (inject_Z m1 * u <= v)%Q).
  { rewrite Eu, Qmult_assoc, <- inject_Z_mult. eapply Qle_trans; [|apply Hv].
    apply Qmult_le_compat_r; [by rewrite <- Zle_Qle|apply Qlt_le_weak, qpow2_pos]. }
  assert (Hb : (v <= inject_Z (m1 + 1) * u)%Q).
  { rewrite Eu, Qmult_assoc, <- inject_Z_mult. eapply Qle_trans; [apply Hv|].
    apply Qmult_le_compat_r; [by rewrite <- Zle_Qle|apply Qlt_le_weak, qpow2_pos]. }
  assert (Hc : (u <= eps * (inject_Z m1 * u))%Q).
  { rewrite Qmult_assoc. rewrite <- (Qmult_1_l u) at 1. apply Qmult_le_compat_r; [|by apply Qlt_le_weak].
    assert (Hx : (inject_Z (2 ^ 52) <= inject_Z m1)%Q) by (by rewrite <- Zle_Qle).
    change (inject_Z (2 ^ 52)) with (4503599627370496 # 1) in Hx. unfold eps. lra. }
  assert (Hr' : (magnitude m' e' == inject_Z m1 * u ∨ magnitude m' e' == inject_Z m1 * u + u)%Q).
  { destruct Hr as [-> | ->]; [by left|right]. rewrite Em, inject_Z_plus. ring. }
  rewrite inject_Z_plus in Hb. assert (Hb' : (v <= inject_Z m1 * u + u)%Q) by (eapply Qle_trans; [exact Hb|]; apply Qle_lteq; right; ring).
  unfold below, above. set (a := (inject_Z m1 * u)%Q) in *. assert (Hav : (eps * a <= eps * v)%Q) by (unfold eps; lra).
  destruct Hr' as [-> | ->]; split; lra.
Qed.

(** ** Chains of operations *)

(** [x] has the sign [s], and its magnitude is [v] after at most [k] roundings. *)
Record near (x : f64) (s : bool) (v : Q) (k : nat) (L : Z) : Prop := {
  nr_pos : (0 < v)%Q;
  nr_float : ∃ m e, x = S754_finite s m e ∧ digits m = 53 ∧ - L ≤ e ≤ L ∧
    (Qpower below (Z.of_nat k) * v <= magnitude m e <= Qpower above (Z.of_nat k) * v)%Q;
}.

Lemma below_pos k : (0 < Qpower below k)%Q.
Proof. apply Qpower_0_lt. reflexivity. Qed.
Lemma above_pos k : (0 < Qpower above k)%Q.
Proof. apply Qpower_0_lt. reflexivity. Qed.

Lemma magnitude_pos m e : (0 < magnitude m e)%Q.
Proof. apply Qmult_lt_0_compat; [done|apply qpow2_pos]. Qed.

(** An integer is a float without error. *)
Lemma near_int s c : 1 ≤ digits c ≤ 53 → near (fl s c 0) s (inject_Z (Zpos c)) 0 52.
Proof.
  intros Hd. split; [done|]. exists (shl_pos c (53 - digits c)), (0 - (53 - digits c)).
  split_and!; [done|rewrite digits_shl; lia|lia|lia|..];
  (assert (E : (magnitude (shl_pos c (53 - digits c)) (0 - (53 - digits c)) == inject_Z (Zpos c))%Q);
   [unfold magnitude; rewrite shl_pos_Z, inject_Z_mult, <- qpow2_Z, <- Qmult_assoc, <- qpow2_add by lia;
    replace (53 - digits c + (0 - (53 - digits c))) with 0 by lia; apply Qmult_1_r
   |rewrite E, Qpower_0_r, Qmult_1_l; apply Qle_refl]).
Qed.

(** A rounding of something that is itself near. *)
Lemma near_round s m e l v w k L :
  53 ≤ digits m → -900 ≤ digits m + e ≤ 900 → - L ≤ digits m + e - 53 → digits m + e - 52 ≤ L →
  (0 < v)%Q → (inject_Z (Zpos m) * qpow2 e <= w <= inject_Z (Zpos m + 1) * qpow2 e)%Q →
  (Qpower below (Z.of_nat k) * v <= w <= Qpower above (Z.of_nat k) * v)%Q →
  near (binary_round_aux f_prec f_emax s (Zpos m) e l) s v (S k) L.
Proof.
  intros Hd He HL1 HL2 Hv Hw [Hlo Hhi]. destruct (round_near s m e l w Hd He Hw) as (m' & e' & E & Hd' & He' & Hb & Ha).
  split; [done|]. exists m', e'. split; [done|]. split; [done|]. split; [lia|].
  replace (Z.of_nat (S k)) with (1 + Z.of_nat k) by lia. rewrite !Qpower_plus, !Qpower_1_r by discriminate.
  rewrite <- !Qmult_assoc. split.
  - eapply Qle_trans; [|exact Hb]. rewrite Qmult_le_l; [done|reflexivity].
  - eapply Qle_trans; [exact Ha|]. rewrite Qmult_le_l; [done|reflexivity].
Qed.

Lemma Qmult_between a b c d x y :
  (0 < a → 0 < c → a <= x <= b → c <= y <= d → a * c <= x * y <= b * d)%Q.
Proof. intros Ha Hc [??] [??]. split; apply Qmult_le_compat_nonneg; split; lra. Qed.

Lemma near_mul x y s t v w j k L L' :
  near x s v j L → near y t w k L' → L + L' ≤ 700 →
  near (f64_mul x y) (xorb s t) (v * w) (S (j + k)) (L + L' + 54).
Proof.
  intros [Hv (m & e & -> & Hd & He & Hx)] [Hw (m' & e' & -> & Hd' & He' & Hy)] HL.
  pose proof (digits_bounds m) as [Hm1 Hm2]. pose proof (digits_bounds m') as [Hn1 Hn2]. rewrite Hd in Hm1, Hm2. rewrite Hd' in Hn1, Hn2.
  assert (Hp : 2 ^ 104 ≤ Zpos (m * m') < 2 ^ 106) by (rewrite Pos2Z.inj_mul; nia).
  assert (Hdm : 105 ≤ digits (m * m') ≤ 106).
  { split; [|apply digits_le; lia]. destruct (Z.le_gt_cases 105 (digits (m * m'))) as [|Hlt]; [done|].
    pose proof (digits_bounds (m * m')) as [_ Hb]. assert (2 ^ digits (m * m') ≤ 2 ^ 104) by (apply Z.pow_le_mono_r; lia). lia. }
  assert (E : (inject_Z (Zpos (m * m')) * qpow2 (e + e') == magnitude m e * magnitude m' e')%Q).
  { unfold magnitude. rewrite Pos2Z.inj_mul, inject_Z_mult, qpow2_add. ring. }
  unfold f64_mul, SFmul. apply (near_round _ _ _ _ _ (magnitude m e * magnitude m' e')); try lia.
  - by apply Qmult_lt_0_compat.
  - rewrite <- E. split; [apply Qle_refl|]. apply Qmult_le_compat_r; [|apply Qlt_le_weak, qpow2_pos].
    rewrite <- Zle_Qle. lia.
  - rewrite Nat2Z.inj_add, !Qpower_plus by discriminate.
    assert (Hb : (Qpower below (Z.of_nat j) * v * (Qpower below (Z.of_nat k) * w) <= magnitude m e * magnitude m' e'
                  <= Qpower above (Z.of_nat j) * v * (Qpower above (Z.of_nat k) * w))%Q).
    { apply Qmult_between; try done; (apply Qmult_lt_0_compat; [apply below_pos|done]). }
    destruct Hb as [Hb1 Hb2]. split; [eapply Qle_trans; [|exact Hb1]|eapply Qle_trans; [exact Hb2|]]; apply Qle_lteq; right; ring.
Qed.

(** The quotient of two integers. *)
Lemma near_div s t a b :
  1 ≤ digits a ≤ 53 → 1 ≤ digits b ≤ 53 →
  near (f64_div (fl s a 0) (fl t b 0)) (xorb s t) (inject_Z (Zpos a) / inject_Z (Zpos b)) 1 200.
Proof.
  intros Ha Hb. unfold f64_div, fl, SFdiv, SFdiv_core_binary. cbn [Zdigits2].
  set (ma := shl_pos a (53 - digits a)). set (mb := shl_pos b (53 - digits b)).
  set (ea := 0 - (53 - digits a)). set (eb := 0 - (53 - digits b)).
  fold (digits ma). fold (digits mb).
  assert (Da : digits ma = 53) by (unfold ma; rewrite digits_shl; lia).
  assert (Db : digits mb = 53) by (unfold mb; rewrite digits_shl; lia).
  rewrite Da, Db. rewrite fexp_normal by lia. replace (Z.min _ _) with (ea - eb - 53) by lia.
  replace (ea - eb - (ea - eb - 53)) with 53 by lia. rewrite Z.shiftl_mul_pow2 by lia.
  pose proof (digits_bounds ma) as [Hm1 Hm2]. pose proof (digits_bounds mb) as [Hn1 Hn2]. rewrite Da in Hm1, Hm2. rewrite Db in Hn1, Hn2.
  pose proof (Z_div_mod (Zpos ma * 2 ^ 53) (Zpos mb) ltac:(lia)) as Hq.
  destruct (Z.div_eucl (Zpos ma * 2 ^ 53) (Zpos mb)) as [q r]. destruct Hq as [Hq Hr].
  assert (Hq52 : 2 ^ 52 ≤ q < 2 ^ 54) by nia. destruct q as [|q|]; [lia| |lia].
  assert (Hdq : 53 ≤ digits q ≤ 54).
  { split; [|apply digits_le; lia]. destruct (Z.le_gt_cases 53 (digits q)) as [|Hlt]; [done|].
    pose proof (digits_bounds q) as [_ Hu]. assert (2 ^ digits q ≤ 2 ^ 52) by (apply Z.pow_le_mono_r; lia). lia. }
  assert (Hpos : (0 < inject_Z (Zpos a) / inject_Z (Zpos b))%Q) by (apply Qlt_shift_div_l; [done|]; by rewrite Qmult_0_l).
  set (v := (inject_Z (Zpos a) / inject_Z (Zpos b))%Q) in *. set (u := qpow2 (ea - eb - 53)).
  assert (Hu : (0 < u)%Q) by apply qpow2_pos.
  assert (Ev : (inject_Z (Zpos ma * 2 ^ 53) * u == v * inject_Z (Zpos mb))%Q).
  { unfold v, ma, mb, u. rewrite !shl_pos_Z, !inject_Z_mult, <- !qpow2_Z by lia.
    assert (E1 : (qpow2 (53 - digits a) * qpow2 53 * qpow2 (ea - eb - 53) == qpow2 (53 - digits b))%Q).
    { rewrite <- !qpow2_add. replace (53 - digits a + 53 + (ea - eb - 53)) with (53 - digits b) by lia. reflexivity. }
    rewrite <- E1. field. discriminate. }
  apply (near_round _ _ _ _ v v 0); try lia; [done|..].
  - assert (Hmb : (0 < inject_Z (Zpos mb))%Q) by done. fold u. split.
    + apply (Qmult_le_r _ _ _ Hmb). rewrite <- Ev, <- Qmult_assoc, (Qmult_comm u), Qmult_assoc, <- inject_Z_mult.
      apply Qmult_le_compat_r; [rewrite <- Zle_Qle; lia|by apply Qlt_le_weak].
    + apply (Qmult_le_r _ _ _ Hmb). rewrite <- Ev, <- Qmult_assoc, (Qmult_comm u), Qmult_assoc, <- inject_Z_mult.
      apply Qmult_le_compat_r; [rewrite <- Zle_Qle; lia|by apply Qlt_le_weak].
  - rewrite !Qpower_0_r, Qmult_1_l. split; apply Qle_refl.
Qed.

(** ** Conversion to an integer *)

Lemma trunc_magnitude s m e :
  ∃ t, f64_trunc (S754_finite s m e) = Some (cond_Zopp s t) ∧ 0 ≤ t ∧
    (inject_Z t <= magnitude m e)%Q ∧ (magnitude m e < inject_Z t + 1)%Q.
Proof.
  unfold f64_trunc. eexists. split; [done|]. case_bool.
  - assert (E : (magnitude m e == inject_Z (Zpos m * 2 ^ e))%Q) by (unfold magnitude; by rewrite inject_Z_mult, <- qpow2_Z).
    split; [lia|]. rewrite E. split; lra.
  - assert (H2 : 0 < 2 ^ (- e)) by (apply Z.pow_pos_nonneg; lia). split; [by apply Z.div_pos|].
    assert (Hp : (0 < qpow2 (- e))%Q) by apply qpow2_pos.
    assert (E : (magnitude m e * qpow2 (- e) == inject_Z (Zpos m))%Q).
    { unfold magnitude. rewrite <- Qmult_assoc, <- qpow2_add. replace (e + - e) with 0 by lia. apply Qmult_1_r. }
    pose proof (Z.mul_div_le (Zpos m) (2 ^ (- e)) H2). pose proof (Z.mul_succ_div_gt (Zpos m) (2 ^ (- e)) H2). split.
    + apply (Qmult_le_r _ _ _ Hp). rewrite E, qpow2_Z, <- inject_Z_mult, <- Zle_Qle by lia. lia.
    + apply (Qmult_lt_r _ _ _ Hp). rewrite E, qpow2_Z by lia.
      change 1%Q with (inject_Z 1). rewrite <- inject_Z_plus, <- inject_Z_mult, <- Zlt_Qlt. lia.
Qed.

(** After five roundings the integer part is off by less than two, below 2^49. *)
Lemma near_trunc x s v L :
  near x s v 5 L → (v <= inject_Z (2 ^ 49))%Q →
  ∃ t, f64_trunc x = Some (cond_Zopp s t) ∧ 0 ≤ t ∧ (inject_Z t < v + 1)%Q ∧ (v < inject_Z t + 2)%Q.
Proof.
  intros [Hv (m & e & -> & _ & _ & Hlo & Hhi)] Hmax. destruct (trunc_magnitude s m e) as (t & -> & Ht & H1 & H2).
  exists t. split; [done|]. split; [done|].
  assert (Hb : (1 - 6 * eps <= Qpower below (Z.of_nat 5))%Q) by (vm_compute; discriminate).
  assert (Ha : (Qpower above (Z.of_nat 5) <= 1 + 6 * eps)%Q) by (vm_compute; discriminate).
  assert (Hb' : ((1 - 6 * eps) * v <= magnitude m e)%Q).
  { eapply Qle_trans; [|exact Hlo]. apply Qmult_le_compat_r; [done|by apply Qlt_le_weak]. }
  assert (Ha' : (magnitude m e <= (1 + 6 * eps) * v)%Q).
  { eapply Qle_trans; [exact Hhi|]. apply Qmult_le_compat_r; [done|by apply Qlt_le_weak]. }
  change (inject_Z (2 ^ 49)) with (562949953421312 # 1) in Hmax. unfold eps in *. split; lra.
Qed.

(** In integers: the quotient [a / b], up to one. *)
Lemma near_quot t a b :
  0 ≤ a → 0 < b → (inject_Z t < inject_Z a / inject_Z b + 1)%Q → (inject_Z a / inject_Z b < inject_Z t + 2)%Q →
  - 1 ≤ t - a `div` b ≤ 1.
Proof.
  intros Ha Hb H1 H2. assert (Hq : (0 < inject_Z b)%Q) by (change 0%Q with (inject_Z 0); by rewrite <- Zlt_Qlt).
  assert (E : (inject_Z a / inject_Z b * inject_Z b == inject_Z a)%Q) by (field; lra).
  apply (Qmult_lt_r _ _ _ Hq) in H1, H2. rewrite Qmult_plus_distr_l, E in H1. rewrite E in H2.
  assert (Ht1 : t * b < a + b).
  { rewrite Zlt_Qlt, inject_Z_mult, inject_Z_plus. lra. }
  assert (Ht2 : a < (t + 2) * b).
  { rewrite Zlt_Qlt, inject_Z_mult, inject_Z_plus. change (inject_Z 2) with 2%Q. lra. }
  pose proof (Z.mul_div_le a b Hb). pose proof (Z.mul_succ_div_gt a b Hb). nia.
Qed.

(** ** A gain, scaled by two quotients

    [1.0 * inc * (off / target) * (size / window)] as Go computes it, and the
    integer it is converted to. *)

Definition scaled (inc off target size window : Z) : f64 :=
  f64_mul (f64_mul (f64_mul (f_int 1) (f_int inc)) (f64_div (f_int off) (f_int target)))
          (f64_div (f_int size) (f_int window)).

Lemma scaled_near s (inc off target size window : positive) :
  Zpos inc < 2 ^ 16 → Zpos off ≤ 2 ^ 33 → Zpos target < 2 ^ 32 → (size <= window)%positive → Zpos window < 2 ^ 32 →
  ∃ t, f64_trunc (scaled (Zpos inc) (cond_Zopp s (Zpos off)) (Zpos target) (Zpos size) (Zpos window))
       = Some (cond_Zopp s t) ∧ 0 ≤ t ≤ 2 ^ 50 ∧
    - 1 ≤ t - (Zpos inc * Zpos off * Zpos size) `div` (Zpos target * Zpos window) ≤ 1.
Proof.
  intros Hi Ho Ht Hs Hw. assert (Hd : ∀ p, Zpos p ≤ 2 ^ 33 → 1 ≤ digits p ≤ 53) by (intros p Hp; apply small_digits; unfold small; lia).
  assert (N : near (scaled (Zpos inc) (cond_Zopp s (Zpos off)) (Zpos target) (Zpos size) (Zpos window)) s
    (inject_Z 1 * inject_Z (Zpos inc) * (inject_Z (Zpos off) / inject_Z (Zpos target))
     * (inject_Z (Zpos size) / inject_Z (Zpos window))) 5 666).
  { assert (N1 : near (f64_mul (f_int 1) (f_int (Zpos inc))) false (inject_Z 1 * inject_Z (Zpos inc)) 1 158).
    { apply (near_mul _ _ false false _ _ 0 0 52 52); [by apply (near_int false 1)|apply (near_int false); apply Hd; lia|lia]. }
    assert (N2 : near (f64_div (f_int (cond_Zopp s (Zpos off))) (f_int (Zpos target))) s
                   (inject_Z (Zpos off) / inject_Z (Zpos target)) 1 200).
    { rewrite <- fl_int. pose proof (near_div s false off target) as Hn. rewrite xorb_false_r in Hn. apply Hn; apply Hd; lia. }
    assert (N3 : near (f64_div (f_int (Zpos size)) (f_int (Zpos window))) false
                   (inject_Z (Zpos size) / inject_Z (Zpos window)) 1 200) by (apply (near_div false false); apply Hd; lia).
    unfold scaled. pose proof (near_mul _ _ _ _ _ _ _ _ _ _ (near_mul _ _ _ _ _ _ _ _ _ _ N1 N2 ltac:(lia)) N3 ltac:(lia)) as N.
    cbn [xorb] in N. rewrite xorb_false_r in N. exact N. }
  set (v := (inject_Z 1 * inject_Z (Zpos inc) * (inject_Z (Zpos off) / inject_Z (Zpos target))
             * (inject_Z (Zpos size) / inject_Z (Zpos window)))%Q) in *.
  set (a := Zpos inc * Zpos off * Zpos size). set (b := Zpos target * Zpos window).
  assert (Ev : (v == inject_Z a / inject_Z b)%Q).
  { unfold v, a, b. rewrite !inject_Z_mult. change (inject_Z 1) with 1%Q. field. split; discriminate. }
  assert (Hab : a ≤ 2 ^ 49 * b).
  { unfold a, b. assert (Zpos inc * Zpos off ≤ 2 ^ 16 * 2 ^ 33) by nia. assert (0 < Zpos inc * Zpos off) by lia.
    assert (Zpos size ≤ Zpos window) by lia. nia. }
  destruct (near_trunc _ _ _ _ N) as (t & E & H0 & H1 & H2).
  { rewrite Ev. apply Qle_shift_div_r; [done|]. rewrite <- inject_Z_mult, <- Zle_Qle. exact Hab. }
  exists t. rewrite Ev in H1, H2. pose proof (near_quot t a b ltac:(lia) ltac:(lia) H1 H2) as Hq.
  assert (Hdiv : a `div` b ≤ 2 ^ 49) by (apply Z.div_le_upper_bound; lia). split; [done|]. lia.
Qed.

(** Neither infinite nor a NaN. *)
Definition finite (x : f64) : Prop := match x with S754_zero _ | S754_finite _ _ _ => True | _ => False end.

Lemma near_finite x s v k L : near x s v k L → finite x.
Proof. by intros [_ (m & e & -> & _)]. Qed.

Lemma div_finite s a b : 1 ≤ digits b ≤ 53 → small (cond_Zopp s a) → 0 ≤ a → finite (f64_div (f_int (cond_Zopp s a)) (fl false b 0)).
Proof.
  intros Hb Hs Ha. destruct a as [|a|]; [by destruct s| |lia]. rewrite <- fl_int. eapply near_finite, near_div; [|done].
  apply small_digits. unfold small in *. destruct s; simpl in *; lia.
Qed.

Lemma mul_zero_l x y : is_zero x = true → finite y → is_zero (f64_mul x y) = true.
Proof. by destruct x, y. Qed.
Lemma mul_zero_r x y : finite x → is_zero y = true → is_zero (f64_mul x y) = true.
Proof. by destruct x, y. Qed.
Lemma zero_finite x : is_zero x = true → finite x.
Proof. by destruct x. Qed.

(** A factor that is zero makes the product zero. *)
Lemma scaled_zero s inc off target size window :
  0 ≤ inc < 2 ^ 16 → 0 ≤ off ≤ 2 ^ 33 → Zpos target < 2 ^ 32 → 0 ≤ size ≤ Zpos window → Zpos window < 2 ^ 32 →
  inc = 0 ∨ off = 0 ∨ size = 0 → is_zero (scaled inc (cond_Zopp s off) (Zpos target) size (Zpos window)) = true.
Proof.
  intros Hi Ho Ht Hs Hw Hz. assert (Hd : ∀ p, Zpos p ≤ 2 ^ 33 → 1 ≤ digits p ≤ 53) by (intros p Hp; apply small_digits; unfold small; lia).
  assert (FD : finite (f64_div (f_int (cond_Zopp s off)) (f_int (Zpos target)))).
  { apply div_finite; [apply Hd; lia| |lia]. unfold small. destruct s; simpl; lia. }
  assert (FW : finite (f64_div (f_int size) (f_int (Zpos window)))).
  { apply (div_finite false size); [apply Hd; lia| |lia]. unfold small. simpl. lia. }
  assert (FA : ∀ i, 0 ≤ i < 2 ^ 16 → i ≠ 0 → near (f64_mul (f_int 1) (f_int i)) false (inject_Z 1 * inject_Z i) 1 158).
  { intros i Hi' Hn. destruct i as [|i|]; [done| |lia].
    apply (near_mul _ _ false false _ _ 0 0 52 52); [by apply (near_int false 1)|apply (near_int false); apply Hd; lia|lia]. }
  unfold scaled. destruct Hz as [-> |[-> | ->]].
  - apply mul_zero_l; [|done]. by apply mul_zero_l.
  - apply mul_zero_l; [|done]. apply mul_zero_r; [|by destruct s]. destruct (decide (inc = 0)) as [-> |Hn]; [done|]. by eapply near_finite, FA.
  - apply mul_zero_r; [|done]. destruct (decide (inc = 0)) as [-> |Hn]; [by apply zero_finite, mul_zero_l|].
    destruct (decide (off = 0)) as [-> |Hn2].
    { apply zero_finite, mul_zero_r; [by eapply near_finite, FA|by destruct s]. }
    destruct off as [|off|]; [done| |lia]. eapply near_finite, near_mul; [by apply FA| |].
    + rewrite <- fl_int. apply (near_div s false); apply Hd; lia.
    + lia.
Qed.

(** The converted value has the sign of [off] and is the exact one up to one. *)
Lemma scaled_trunc inc off target size window :
  0 ≤ inc < 2 ^ 16 → - 2 ^ 33 ≤ off ≤ 2 ^ 33 → 0 < target < 2 ^ 32 → 0 ≤ size ≤ window → 0 < window < 2 ^ 32 →
  ∃ z, f64_trunc (scaled inc off target size window) = Some z ∧
    Z.abs (z - (inc * off * size) `quot` (target * window)) ≤ 1 ∧ (0 ≤ off → 0 ≤ z) ∧ (off ≤ 0 → z ≤ 0) ∧
    - 2 ^ 50 ≤ z ≤ 2 ^ 50.
Proof.
  intros Hi Ho Ht Hs Hw. destruct target as [|target|]; [lia| |lia]. destruct window as [|window|]; [lia| |lia].
  assert (∃ s o, off = cond_Zopp s o ∧ 0 ≤ o) as (s & o & -> & Ho').
  { destruct (Z.le_gt_cases 0 off); [exists false, off|exists true, (- off)]; simpl; lia. }
  assert (Ho2 : 0 ≤ o ≤ 2 ^ 33) by (destruct s; simpl in Ho; lia).
  destruct (decide (inc = 0 ∨ o = 0 ∨ size = 0)) as [Hz|Hnz].
  - pose proof (scaled_zero s inc o target size window Hi Ho2 ltac:(lia) Hs ltac:(lia) Hz) as E.
    exists 0. split; [by destruct (scaled _ _ _ _ _)|]. split; [|lia].
    assert (inc * cond_Zopp s o * size = 0) as -> by (destruct s; simpl; destruct Hz as [-> |[-> | ->]]; lia). done.
  - destruct inc as [|inc|]; [lia| |lia]. destruct o as [|o|]; [lia| |lia]. destruct size as [|size|]; [lia| |lia].
    destruct (scaled_near s inc o target size window) as (t & E & H0 & H1); [lia..|]. exists (cond_Zopp s t). split; [done|].
    set (d := Zpos target * Zpos window) in *. assert (Hd : 0 < d) by lia.
    assert (Eq : (Zpos inc * cond_Zopp s (Zpos o) * Zpos size) `quot` d = cond_Zopp s ((Zpos inc * Zpos o * Zpos size) `div` d)).
    { rewrite <- Z.quot_div_nonneg by lia. destruct s; unfold cond_Zopp; [|done]. rewrite <- Z.quot_opp_l by lia. f_equal. }
    rewrite Eq. clear Eq E. destruct s; unfold cond_Zopp in *; lia.
Qed.
