(* ===== verification/DelayHeap.v ===== *)
(** * The delay accumulator (congestion.go)

    [delayAccumulator] keeps the delays of the acknowledged packets in a binary
    heap ([delayHeap], driven by Go's [container/heap]) and answers
    [BaseDelay], the smallest delay that has not expired.  The model has the
    sift-up and sift-down loops of [container/heap] on the heap's slice; the
    theorems show that the heap order is kept and that [BaseDelay] is the
    minimum of the unexpired delays. *)

From Stdlib Require Import ZArith Lia.
From stdpp Require Import base list sets.
From S2P Require Import Prelude.

(** A [delay]: its value (a [time.Duration]) and its deadline (a [time.Time]),
    both in nanoseconds. *)
Record delay := mk_delay { Value : Z; Deadline : Z }.

(** ** [delayHeap] *)

Abbreviation delayHeap := (list delay).

Definition heap_Len (h : delayHeap) : nat := length h.

(** [Less] and [Swap]; [container/heap] calls them with indices in range. *)
Definition Less (h : delayHeap) (i j : nat) : bool :=
  match h !! i, h !! j with
  | Some a, Some b => Value a <? Value b
  | _, _ => false
  end.

Definition Swap (h : delayHeap) (i j : nat) : delayHeap :=
  match h !! i, h !! j with
  | Some a, Some b => <[i := b]> (<[j := a]> h)
  | _, _ => h
  end.

(** ** [container/heap]

    The loops run on fuel; a sift-up halves its index and a sift-down doubles
    it, so that the length of the heap is enough. *)

Definition parent (j : nat) : nat := (j - 1) / 2.

Fixpoint heap_up (fuel : nat) (h : delayHeap) (j : nat) : delayHeap :=
  match fuel with
  | O => h
  | S fuel =>
      let i := parent j in
      if bool_decide (i = j) || negb (Less h j i) then h
      else heap_up fuel (Swap h i j) i
  end.

Fixpoint heap_down (fuel : nat) (h : delayHeap) (i n : nat) : delayHeap :=
  match fuel with
  | O => h
  | S fuel =>
      let j1 := (2 * i + 1)%nat in
      if bool_decide (n ≤ j1)%nat then h
      else
        let j2 := (j1 + 1)%nat in
        let j := if bool_decide (j2 < n)%nat && Less h j2 j1 then j2 else j1 in
        if negb (Less h j i) then h
        else heap_down fuel (Swap h i j) j n
  end.

Definition heap_Push (h : delayHeap) (x : delay) : delayHeap :=
  let h := h ++ [x] in
  heap_up (length h) h (length h - 1).

(** [heap.Pop]: the heap afterwards (the caller drops the element). *)
Definition heap_Pop (h : delayHeap) : delayHeap :=
  let n := (length h - 1)%nat in
  let h := heap_down (length h) (Swap h 0 n) 0 n in
  take n h.

(** ** [delayAccumulator] *)

Record delayAccumulator := mk_delayAcc { da_delays : delayHeap; da_window : Z }.

Definition newDelayAccumulator (window : Z) : delayAccumulator := mk_delayAcc [] window.

Definition da_Push (da : delayAccumulator) (delayTime receivedAt : Z) : delayAccumulator :=
  mk_delayAcc (heap_Push (da_delays da) (mk_delay delayTime (receivedAt + da_window da)))
              (da_window da).

(** The loop of [BaseDelay] at the time [now]; each turn removes an element. *)
Fixpoint base_loop (fuel : nat) (h : delayHeap) (now : Z) : delayHeap * Z :=
  match fuel, h with
  | S fuel, min :: _ =>
      if Deadline min <? now then base_loop fuel (heap_Pop h) now
      else (h, Value min)
  | _, _ => (h, 0)
  end.

Definition BaseDelay (da : delayAccumulator) (now : Z) : delayAccumulator * Z :=
  let '(h, d) := base_loop (length (da_delays da)) (da_delays da) now in
  (mk_delayAcc h (da_window da), d).

(** ** Swapping *)

Definition transpose (i j k : nat) : nat :=
  if bool_decide (k = i) then j else if bool_decide (k = j) then i else k.

#[global] Instance transpose_inj i j : Inj (=) (=) (transpose i j).
Proof.
  intros a b. unfold transpose.
  destruct (bool_decide_reflect (a = i)), (bool_decide_reflect (b = i)),
           (bool_decide_reflect (a = j)), (bool_decide_reflect (b = j)); congruence.
Qed.

Lemma transpose_ne i j k : k ≠ i → k ≠ j → transpose i j k = k.
Proof. unfold transpose. intros. by rewrite !bool_decide_false. Qed.

Lemma Swap_length h i j : length (Swap h i j) = length h.
Proof. unfold Swap. destruct (h !! i), (h !! j); rewrite ?length_insert; done. Qed.

Lemma Swap_lookup h i j k :
  (i < length h)%nat → (j < length h)%nat → Swap h i j !! k = h !! transpose i j k.
Proof.
  intros [a Ha]%lookup_lt_is_Some [b Hb]%lookup_lt_is_Some. unfold Swap, transpose. rewrite Ha, Hb.
  assert (i < length h ∧ j < length h)%nat as [? ?] by (split; by eapply lookup_lt_Some).
  destruct (bool_decide_reflect (k = i)) as [->|Hi].
  { rewrite list_lookup_insert_eq; [done|]. by rewrite length_insert. }
  rewrite list_lookup_insert_ne by done.
  destruct (bool_decide_reflect (k = j)) as [->|Hj].
  - by rewrite list_lookup_insert_eq.
  - by rewrite list_lookup_insert_ne.
Qed.

Lemma Swap_perm h i j : Swap h i j ≡ₚ h.
Proof.
  destruct (decide (i < length h ∧ j < length h)%nat) as [[Hi Hj]|Hn].
  - apply Permutation_inj. split; [apply Swap_length|]. exists (transpose i j).
    split; [apply _|]. intros k. by apply Swap_lookup.
  - unfold Swap. destruct (h !! i) eqn:Ei, (h !! j) eqn:Ej; try done.
    apply lookup_lt_Some in Ei, Ej. naive_solver.
Qed.

(** The value at an index. *)
Definition hval (h : delayHeap) (i : nat) : Z := default 0 (Value <$> h !! i).

Lemma Less_hval h i j :
  (i < length h)%nat → (j < length h)%nat → Less h i j = (hval h i <? hval h j).
Proof.
  intros [a Ha]%lookup_lt_is_Some [b Hb]%lookup_lt_is_Some.
  unfold Less, hval. by rewrite Ha, Hb.
Qed.

Lemma Swap_hval h i j k :
  (i < length h)%nat → (j < length h)%nat → hval (Swap h i j) k = hval h (transpose i j k).
Proof. intros. unfold hval. by rewrite Swap_lookup. Qed.

(** ** Heap order *)

(** The first [n] elements are in heap order, except at the edges excluded. *)
Definition heap_except (P : nat → Prop) (h : delayHeap) (n : nat) : Prop :=
  ∀ k, (0 < k < n)%nat → ¬ P k → hval h (parent k) ≤ hval h k.

Definition is_heap (h : delayHeap) : Prop := heap_except (λ _, False) h (length h).

Lemma parent_spec k : (0 < k)%nat → (k = 2 * parent k + 1 ∨ k = 2 * parent k + 2)%nat.
Proof. unfold parent. intros. pose proof (Nat.div_mod_eq (k - 1) 2). pose proof (Nat.mod_upper_bound (k-1) 2). lia. Qed.

Lemma parent_lt k : (0 < k)%nat → (parent k < k)%nat.
Proof. intros H. apply parent_spec in H. lia. Qed.

Lemma parent_le k : (parent k ≤ k)%nat.
Proof. destruct k; [done|]. pose proof (parent_lt (S k)). lia. Qed.

Lemma parent_fix k : parent k = k ↔ k = 0%nat.
Proof. split; [|intros ->; done]. intros H. destruct k; [done|]. pose proof (parent_lt (S k)). lia. Qed.

(** Case analysis on which indices a swap moves. *)
Ltac transpose_cases :=
  unfold transpose in *;
  repeat match goal with
  | H : context [bool_decide ?P] |- _ => destruct (bool_decide_reflect P); try congruence
  | |- context [bool_decide ?P] => destruct (bool_decide_reflect P); try congruence
  end; subst.

(** ** Sift up *)

Lemma heap_up_perm fuel h j : heap_up fuel h j ≡ₚ h.
Proof.
  revert h j. induction fuel as [|fuel IH]; intros h j; simpl; [done|].
  destruct (orb _ _); [done|]. by rewrite IH, Swap_perm.
Qed.

(** One turn of the loop moves the violation from [j] to its parent. *)
Lemma heap_up_step h j :
  (0 < j < length h)%nat → hval h j < hval h (parent j) →
  heap_except (λ k, k = j) h (length h) →
  (∀ c, (0 < c < length h)%nat → parent c = j → (0 < j)%nat → hval h (parent j) ≤ hval h c) →
  let h' := Swap h (parent j) j in
  heap_except (λ k, k = parent j) h' (length h) ∧
  (∀ c, (0 < c < length h)%nat → parent c = parent j → (0 < parent j)%nat →
        hval h' (parent (parent j)) ≤ hval h' c).
Proof.
  intros Hj Hlt Hh Hc. pose proof (parent_lt j ltac:(lia)) as Hp. remember (parent j) as i eqn:Ei. cbv zeta.
  split.
  - intros k Hk Hki. rewrite !Swap_hval by lia.
    destruct (decide (k = j)) as [->|Hkj]; [rewrite <- Ei; transpose_cases; lia|].
    pose proof (Hh k Hk Hkj) as Hhk. pose proof (Hc k Hk) as Hck.
    destruct (decide (parent k = i)) as [Hpk|Hpk]; [rewrite Hpk in *|]; transpose_cases; lia.
  - intros c Hcr Hpc Hi. rewrite !Swap_hval by lia. pose proof (parent_lt i ltac:(lia)).
    assert (Hhi : hval h (parent i) ≤ hval h i) by (apply Hh; lia).
    destruct (decide (c = j)) as [->|Hcj]; [transpose_cases; lia|].
    pose proof (Hh c Hcr Hcj) as Hhc. rewrite Hpc in Hhc. pose proof (parent_lt c ltac:(lia)).
    transpose_cases; lia.
Qed.

Lemma heap_up_heap fuel h j :
  (j < fuel)%nat → (j < length h)%nat →
  heap_except (λ k, k = j) h (length h) →
  (∀ c, (0 < c < length h)%nat → parent c = j → (0 < j)%nat → hval h (parent j) ≤ hval h c) →
  is_heap (heap_up fuel h j).
Proof.
  revert h j. induction fuel as [|fuel IH]; intros h j Hf Hj Hh Hc; [lia|]. simpl.
  destruct (bool_decide_reflect (parent j = j)) as [Hj0%parent_fix|Hj0]; simpl.
  { subst j. intros k Hk _. apply Hh; lia. }
  assert (0 < j)%nat by (destruct j; [done|lia]). pose proof (parent_lt j ltac:(lia)).
  rewrite Less_hval by lia. destruct (Z.ltb_spec (hval h j) (hval h (parent j))) as [Hlt|Hge]; simpl.
  - apply heap_up_step in Hc as [Hh' Hc']; [|lia|done|done].
    apply IH; rewrite ?Swap_length; try done; lia.
  - intros k Hk _. destruct (decide (k = j)) as [->|]; [lia|by apply Hh].
Qed.

Lemma heap_Push_perm h x : heap_Push h x ≡ₚ x :: h.
Proof. unfold heap_Push. rewrite heap_up_perm. symmetry. apply Permutation_cons_append. Qed.

Lemma heap_Push_heap h x : is_heap h → is_heap (heap_Push h x).
Proof.
  intros Hh. unfold heap_Push. set (n := length h). assert (Hl : length (h ++ [x]) = S n) by (rewrite length_app; simpl; lia).
  rewrite Hl. replace (S n - 1)%nat with n by lia. apply heap_up_heap; rewrite ?Hl; try lia.
  - intros k Hk Hkn. unfold hval. pose proof (parent_le k).
    rewrite !lookup_app_l by (fold n; lia). apply Hh; [fold n; lia|tauto].
  - intros c Hc1 Hc2. pose proof (parent_lt c). lia.
Qed.

(** ** Sift down *)

Lemma heap_down_perm fuel h i n : heap_down fuel h i n ≡ₚ h.
Proof.
  revert h i. induction fuel as [|fuel IH]; intros h i; simpl; [done|].
  destruct (bool_decide _); [done|]. destruct (negb _); [done|]. by rewrite IH, Swap_perm.
Qed.

(** The smaller child of [i]. *)
Definition min_child (h : delayHeap) (i n : nat) : nat :=
  if bool_decide (2 * i + 1 + 1 < n)%nat && Less h (2 * i + 1 + 1) (2 * i + 1)
  then (2 * i + 1 + 1)%nat else (2 * i + 1)%nat.

Lemma min_child_spec h i n :
  (2 * i + 1 < n ≤ length h)%nat →
  let j := min_child h i n in
  (i < j < n)%nat ∧ parent j = i ∧
  (∀ c, (0 < c < n)%nat → parent c = i → hval h j ≤ hval h c).
Proof.
  intros Hn. unfold min_child. cbv zeta.
  assert (Hp : ∀ c, (c = 2 * i + 1 ∨ c = 2 * i + 1 + 1)%nat → parent c = i).
  { intros c Hc. pose proof (parent_spec c ltac:(lia)). lia. }
  assert (Hch : ∀ c, (0 < c)%nat → parent c = i → (c = 2 * i + 1 ∨ c = 2 * i + 1 + 1)%nat).
  { intros c Hc <-. pose proof (parent_spec c Hc). lia. }
  assert (Hl := Less_hval h (2 * i + 1 + 1) (2 * i + 1)).
  destruct (bool_decide_reflect (2 * i + 1 + 1 < n)%nat); cbn [andb]; [rewrite Hl by lia; case_bool|];
    (split_and!; [lia|lia|apply Hp; lia|]; intros c Hc E;
     destruct (Hch c ltac:(lia) E) as [-> | ->]; lia).
Qed.

Lemma heap_down_step h i j n :
  (n ≤ length h)%nat → (i < j < n)%nat → parent j = i → hval h j < hval h i →
  (∀ c, (0 < c < n)%nat → parent c = i → hval h j ≤ hval h c) →
  heap_except (λ k, parent k = i) h n →
  (∀ c, (0 < c < n)%nat → parent c = i → (0 < i)%nat → hval h (parent i) ≤ hval h c) →
  let h' := Swap h i j in
  heap_except (λ k, parent k = j) h' n ∧
  (∀ c, (0 < c < n)%nat → parent c = j → (0 < j)%nat → hval h' (parent j) ≤ hval h' c).
Proof.
  intros Hn Hij Hpj Hlt Hmin Hh Hc. cbv zeta. split.
  - intros k Hk Hkj. rewrite !Swap_hval by lia.
    destruct (decide (k = i)) as [->|Hki].
    { pose proof (parent_lt i ltac:(lia)). pose proof (Hc j ltac:(lia) Hpj ltac:(lia)).
      transpose_cases; lia. }
    destruct (decide (k = j)) as [->|Hkj']; [transpose_cases; lia|].
    destruct (decide (parent k = i)) as [Hpk|Hpk].
    + pose proof (Hmin k Hk Hpk). transpose_cases; lia.
    + pose proof (Hh k Hk Hpk). transpose_cases; lia.
  - intros c Hcn Hpc Hj0. rewrite !Swap_hval by lia. pose proof (parent_lt c ltac:(lia)).
    assert (Hpi : parent c ≠ i) by lia. pose proof (Hh c Hcn Hpi). transpose_cases; lia.
Qed.

Lemma heap_down_heap fuel h i n :
  (n ≤ length h)%nat → (n ≤ fuel + i)%nat →
  heap_except (λ k, parent k = i) h n →
  (∀ c, (0 < c < n)%nat → parent c = i → (0 < i)%nat → hval h (parent i) ≤ hval h c) →
  heap_except (λ _, False) (heap_down fuel h i n) n ∧
  (∀ k, (n ≤ k)%nat → heap_down fuel h i n !! k = h !! k).
Proof.
  revert h i. induction fuel as [|fuel IH]; intros h i Hn Hf Hh Hc.
  { split; [|done]. intros k Hk _. apply Hh; [done|]. pose proof (parent_lt k ltac:(lia)). lia. }
  cbn [heap_down]. fold (min_child h i n).
  destruct (bool_decide_reflect (n ≤ 2 * i + 1)%nat) as [Hle|Hgt].
  { split; [|done]. intros k Hk _. apply Hh; [done|]. pose proof (parent_spec k ltac:(lia)). lia. }
  destruct (min_child_spec h i n ltac:(lia)) as (Hij & Hpj & Hmin). set (j := min_child h i n) in *.
  rewrite Less_hval by lia. destruct (Z.ltb_spec (hval h j) (hval h i)) as [Hlt|Hge]; simpl negb; cbv iota.
  - eapply heap_down_step in Hc as [Hh' Hc']; [|done..].
    destruct (IH (Swap h i j) j) as [IH1 IH2]; rewrite ?Swap_length; try done; [lia|].
    split; [done|]. intros k Hk. rewrite IH2, Swap_lookup, transpose_ne by lia. done.
  - split; [|done]. intros k Hk _. destruct (decide (parent k = i)) as [Hpk|Hpk]; [|by apply Hh].
    rewrite Hpk. pose proof (Hmin k Hk Hpk). lia.
Qed.

(** [heap.Pop] removes the first element and keeps the heap order. *)
Lemma heap_Pop_spec x t :
  is_heap (x :: t) → is_heap (heap_Pop (x :: t)) ∧ heap_Pop (x :: t) ≡ₚ t.
Proof.
  intros Hh. unfold heap_Pop. set (h := x :: t) in *. set (n := (length h - 1)%nat).
  assert (Hn : length h = S n) by (subst n; simpl; lia).
  destruct (heap_down_heap (length h) (Swap h 0 n) 0 n) as [Hd1 Hd2];
    [rewrite Swap_length; lia|lia| |lia|].
  { intros k Hk Hpk. pose proof (parent_lt k ltac:(lia)). rewrite !Swap_hval by lia.
    rewrite !transpose_ne by lia. apply Hh; [lia|tauto]. }
  assert (Hperm : heap_down (length h) (Swap h 0 n) 0 n ≡ₚ h)
    by (by rewrite heap_down_perm, Swap_perm).
  set (h' := heap_down (length h) (Swap h 0 n) 0 n) in *.
  assert (Hl : length h' = S n) by (rewrite Hperm; done).
  assert (Hlast : h' !! n = Some x).
  { rewrite Hd2 by done. rewrite Swap_lookup by lia. unfold transpose.
    destruct (bool_decide_reflect (n = 0%nat)) as [E|]; [by rewrite E|]. by rewrite bool_decide_true. }
  split.
  - unfold is_heap. rewrite length_take_le by lia. intros k Hk _. unfold hval.
    pose proof (parent_lt k ltac:(lia)). rewrite !lookup_take_lt by lia. apply Hd1; [done|tauto].
  - apply (Permutation_cons_inv (a := x)). change (x :: take n h' ≡ₚ h). rewrite <- Hperm.
    rewrite Permutation_cons_append.
    rewrite <- (take_drop n h') at 2. f_equiv. rewrite (drop_S _ x) by done. rewrite drop_ge; [done|lia].
Qed.

(** In a heap the first element is the smallest. *)
Lemma heap_min x t y : is_heap (x :: t) → y ∈ x :: t → Value x ≤ Value y.
Proof.
  intros Hh [i Hi]%list_elem_of_lookup. set (h := x :: t) in *.
  assert (Hv : ∀ i, (i < length h)%nat → hval h 0 ≤ hval h i).
  { clear i Hi y. induction i as [i IH] using lt_wf_ind. intros Hi.
    destruct i as [|i]; [done|]. pose proof (parent_lt (S i) ltac:(lia)) as Hp.
    etrans; [apply (IH (parent (S i))); lia|]. apply Hh; [lia|tauto]. }
  specialize (Hv i (lookup_lt_Some _ _ _ Hi)). unfold hval in Hv. by rewrite Hi in Hv.
Qed.

(** ** The accumulator *)

Definition expired (now : Z) (d : delay) : Prop := Deadline d < now.

#[global] Instance expired_dec now d : Decision (expired now d).
Proof. unfold expired. apply _. Defined.

(** The loop drops only expired delays, and returns the smallest unexpired
    one, or 0 when there is none. *)
Lemma base_loop_spec fuel h now h' v :
  is_heap h → (length h ≤ fuel)%nat → base_loop fuel h now = (h', v) →
  is_heap h' ∧ (∃ dropped, h ≡ₚ dropped ++ h' ∧ Forall (expired now) dropped) ∧
  ((v = 0 ∧ h' = []) ∨
   (∃ d, d ∈ h' ∧ ¬ expired now d ∧ Value d = v ∧ ∀ y, y ∈ h' → v ≤ Value y)).
Proof.
  revert h. induction fuel as [|fuel IH]; intros [|x t] Hh Hf Hb; simpl in Hf; try lia.
  1-2: simplify_eq/=; split_and!; [done|by exists []|by left].
  cbn [base_loop] in Hb. case_bool.
  - destruct (heap_Pop_spec x t Hh) as [Hh1 Hp1].
    apply IH in Hb as (Hh' & (dr & Hdr & Hex) & Hv); [|done|rewrite Hp1; lia].
    split_and!; [done| |done]. exists (x :: dr). split; [|by constructor].
    simpl. by rewrite <- Hdr, Hp1.
  - simplify_eq/=. split_and!; [done|by exists []|]. right. exists x. split_and!; [left|..|done|].
    + unfold expired. lia.
    + intros y Hy. by eapply heap_min.
Qed.

(** ** Specification: a list of all the delays ever pushed *)

(** The smallest unexpired delay, 0 when there is none. *)
Definition min_unexpired (now : Z) (ds : list delay) : Z :=
  match Value <$> filter (λ d, ¬ expired now d) ds with
  | [] => 0
  | v :: vs => foldr Z.min v vs
  end.

Inductive da_op := DPush (delayTime receivedAt : Z) | DBase (now : Z).

Definition da_step (da : delayAccumulator) (op : da_op) : delayAccumulator * list Z :=
  match op with
  | DPush d r => (da_Push da d r, [])
  | DBase now => let '(da', v) := BaseDelay da now in (da', [v])
  end.

(** The answers of [BaseDelay] along a sequence of calls. *)
Fixpoint da_run (da : delayAccumulator) (ops : list da_op) : list Z :=
  match ops with
  | [] => []
  | op :: ops => let '(da', out) := da_step da op in out ++ da_run da' ops
  end.

Fixpoint da_spec_run (window : Z) (ds : list delay) (ops : list da_op) : list Z :=
  match ops with
  | [] => []
  | DPush d r :: ops => da_spec_run window (mk_delay d (r + window) :: ds) ops
  | DBase now :: ops => min_unexpired now ds :: da_spec_run window ds ops
  end.

(** The clock read by the calls of [BaseDelay] does not go back. *)
Fixpoint clock_monotone (t : Z) (ops : list da_op) : Prop :=
  match ops with
  | [] => True
  | DPush _ _ :: ops => clock_monotone t ops
  | DBase now :: ops => t ≤ now ∧ clock_monotone now ops
  end.

(** The heap holds the pushed delays but for some that have expired. *)
Definition da_rep (da : delayAccumulator) (t : Z) (ds : list delay) : Prop :=
  is_heap (da_delays da) ∧
  ∃ dropped, ds ≡ₚ dropped ++ da_delays da ∧ Forall (expired t) dropped.

Lemma foldr_min_spec v vs :
  foldr Z.min v vs ∈ v :: vs ∧ ∀ w, w ∈ v :: vs → foldr Z.min v vs ≤ w.
Proof.
  induction vs as [|u vs [IH1 IH2]]; simpl.
  { split; [left|]. intros w Hw%list_elem_of_singleton. lia. }
  split.
  - destruct (Z.min_spec u (foldr Z.min v vs)) as [[_ ->]|[_ ->]]; set_solver.
  - intros w Hw. assert (w = u ∨ w ∈ v :: vs) as [->|H] by set_solver; [lia|].
    specialize (IH2 w H). lia.
Qed.

(** [min_unexpired] is characterised by its two cases. *)
Lemma min_unexpired_eq now ds v :
  (v = 0 ∧ (∀ d, d ∈ ds → expired now d)) ∨
  (∃ d, d ∈ ds ∧ ¬ expired now d ∧ Value d = v ∧
        ∀ y, y ∈ ds → ¬ expired now y → v ≤ Value y) →
  min_unexpired now ds = v.
Proof.
  unfold min_unexpired. intros [[-> Hall]|(d & Hd & Hex & Hv & Hmin)].
  - destruct (filter _ ds) as [|x l] eqn:E; [done|]. exfalso.
    assert (Hx : x ∈ filter (λ d, ¬ expired now d) ds) by (rewrite E; left).
    apply list_elem_of_filter in Hx as [Hx1 Hx2]. by apply Hx1, Hall.
  - assert (Hin : v ∈ Value <$> filter (λ d, ¬ expired now d) ds).
    { rewrite <- Hv. apply list_elem_of_fmap_2. by apply list_elem_of_filter. }
    destruct (Value <$> _) as [|u us] eqn:E; [by apply not_elem_of_nil in Hin|].
    destruct (foldr_min_spec u us) as [H1 H2]. apply Z.le_antisymm; [by apply H2|].
    rewrite <- E in H1. apply list_elem_of_fmap in H1 as (y & -> & [Hy1 Hy2]%list_elem_of_filter).
    by apply Hmin.
Qed.

Lemma da_Push_rep da t ds d r :
  da_rep da t ds → da_rep (da_Push da d r) t (mk_delay d (r + da_window da) :: ds).
Proof.
  intros (Hh & dr & Hds & Hex). split; [by apply heap_Push_heap|]. exists dr. split; [|done].
  simpl. rewrite heap_Push_perm, Hds. apply Permutation_middle.
Qed.

Lemma BaseDelay_rep da t ds now :
  da_rep da t ds → t ≤ now →
  da_rep (fst (BaseDelay da now)) now ds ∧ snd (BaseDelay da now) = min_unexpired now ds ∧
  da_window (fst (BaseDelay da now)) = da_window da.
Proof.
  intros (Hh & dr & Hds & Hex) Ht. unfold BaseDelay. destruct (base_loop _ _ _) as [h' v] eqn:E.
  apply base_loop_spec in E as (Hh' & (dr' & Hdr' & Hex') & Hv); [|done|done].
  assert (Hex2 : Forall (expired now) (dr ++ dr')).
  { apply Forall_app. split; [|done]. eapply Forall_impl; [done|]. unfold expired. intros; lia. }
  assert (Hds' : ds ≡ₚ (dr ++ dr') ++ h') by (by rewrite Hds, Hdr', (assoc_L (++))).
  split_and!; [split; [done|by exists (dr ++ dr')]| |done]. symmetry. apply min_unexpired_eq. simpl.
  rewrite Forall_forall in Hex2. destruct Hv as [[-> ->]|(d & Hd & Hnex & Hvd & Hmin)].
  - left. split; [done|]. intros d Hd. apply Hex2. rewrite Hds' in Hd. by rewrite app_nil_r in Hd.
  - right. exists d. split_and!; [rewrite Hds'; set_solver|done|done|].
    intros y Hy Hny. rewrite Hds' in Hy. apply elem_of_app in Hy as [Hy|Hy]; [|by apply Hmin].
    by apply Hex2 in Hy.
Qed.

Lemma da_run_spec da t ds ops :
  da_rep da t ds → clock_monotone t ops → da_run da ops = da_spec_run (da_window da) ds ops.
Proof.
  revert da t ds. induction ops as [|[d r|now] ops IH]; intros da t ds Hrep Hclk; simpl; [done|..].
  - apply (IH (da_Push da d r) t); [by apply da_Push_rep|done].
  - destruct Hclk as [Ht Hclk]. destruct (BaseDelay_rep da t ds now Hrep Ht) as (Hrep' & Hv & Hw).
    destruct (BaseDelay da now) as [da' v]. simpl in *. rewrite Hv, <- Hw. f_equal. by eapply IH.
Qed.

(** C20.  The base delay of LEDBAT.  Along any sequence of [Push] and
    [BaseDelay] calls on a new accumulator, at clock readings that do not go
    back, every [BaseDelay] returns the minimum of all the delays ever pushed
    whose deadline has not passed, and 0 when there is none: the binary heap
    with its lazy removal refines a list of all delays. *)
Theorem BaseDelay_refines_minimum (window t : Z) (ops : list da_op) :
  clock_monotone t ops →
  da_run (newDelayAccumulator window) ops = da_spec_run window [] ops.
Proof.
  intros Hclk. apply (da_run_spec (newDelayAccumulator window) t []); [|done].
  split; [intros k; simpl; lia|by exists []].
Qed.

Lemma BaseDelay_refines_minimum_witness :
  da_run (newDelayAccumulator 100)
    [DPush 30 0; DPush 10 5; DPush 20 50; DBase 90; DPush 40 60; DBase 120; DBase 155; DBase 170]
  = [10; 20; 40; 0] ∧
  da_spec_run 100 []
    [DPush 30 0; DPush 10 5; DPush 20 50; DBase 90; DPush 40 60; DBase 120; DBase 155; DBase 170]
  = [10; 20; 40; 0].
Proof.
  split; [|reflexivity].
  rewrite (BaseDelay_refines_minimum 100 0); [reflexivity|simpl; lia].
Defined.
