(* ===== verification/Controller.v ===== *)
(** * The congestion controller interface (congestion.go)

    Go's [Controller] interface as a class of operations, and the contract that
    the sending side relies on as a class of laws: which packets the controller
    knows, with their sizes and whether they were acknowledged ([ctl_view]),
    and how each call changes that.  [Congestion] proves that
    [defaultController] meets the contract; [SentPackets] is verified against
    the contract alone. *)

From Stdlib Require Import ZArith Lia.
From stdpp Require Import base list gmap fin_maps.
From S2P Require Import Prelude.

Inductive Transmit := Initial | Retransmission.

#[global] Instance Transmit_eq_dec : EqDecision Transmit.
Proof. solve_decision. Defined.

(** Durations and times are in nanoseconds. *)
Record Ack := mk_Ack { ack_Delay : Z; ack_RTT : Z; ack_ReceivedAt : Z }.

(** The Go method set; an error result is an [option], and [OnAck] is given the
    reading of the clock that it makes. *)
Class Controller (C : Type) := {
  ctl_OnTransmit : Z → Transmit → Z → C → option error * C;
  ctl_OnAck : Z → Ack → Z → C → option error * C;
  ctl_OnLostPacket : Z → bool → C → option error * C;
  ctl_OnTimeout : C → C;
  ctl_Timeout : C → Z;
  ctl_BytesAvailableInWindow : C → Z;
}.

(** ** Sums over the known packets *)

Section map_sum.
Context {V : Type} (f : V → Z).
Implicit Types m : gmap Z V.

Definition map_sum m : Z := map_fold (λ _ v acc, f v + acc) 0 m.

Lemma map_sum_empty : map_sum ∅ = 0.
Proof. unfold map_sum. by rewrite map_fold_empty. Qed.

Lemma map_sum_insert m k v : m !! k = None → map_sum (<[k := v]> m) = f v + map_sum m.
Proof. intros Hk. unfold map_sum. rewrite map_fold_insert_L; [done| |done]. intros. lia. Qed.

Lemma map_sum_delete m k v : m !! k = Some v → map_sum m = f v + map_sum (delete k m).
Proof.
  intros Hk. rewrite <- (insert_delete_id m k v) at 1 by done. apply map_sum_insert, lookup_delete_eq.
Qed.

Lemma map_sum_update m k v w :
  m !! k = Some v → map_sum (<[k := w]> m) = map_sum m - f v + f w.
Proof.
  intros Hk. rewrite (map_sum_delete m k v) by done. rewrite <- insert_delete_eq.
  rewrite map_sum_insert by apply lookup_delete_eq. lia.
Qed.

Lemma map_sum_nonneg m : (∀ k v, m !! k = Some v → 0 ≤ f v) → 0 ≤ map_sum m.
Proof.
  unfold map_sum. intros Hf. apply (map_fold_weak_ind (λ acc m', (∀ k v, m' !! k = Some v → 0 ≤ f v) → 0 ≤ acc));
    [lia| |done].
  intros k v m' acc Hk IH Hf'. pose proof (Hf' k v ltac:(by rewrite lookup_insert_eq)).
  cut (0 ≤ acc); [lia|]. apply IH. intros k' v' Hk'. apply (Hf' k').
  rewrite lookup_insert_ne; [done|congruence].
Qed.

Lemma map_sum_le m k v :
  (∀ k v, m !! k = Some v → 0 ≤ f v) → m !! k = Some v → f v ≤ map_sum m.
Proof.
  intros Hf Hk. rewrite (map_sum_delete m k v) by done. cut (0 ≤ map_sum (delete k m)); [lia|].
  apply map_sum_nonneg. intros k' v' [_ ?]%lookup_delete_Some. by eapply Hf.
Qed.
End map_sum.

(** ** The contract *)

(** What the controller keeps of a packet: its size, how often it was sent and
    whether it was acknowledged. *)
Record pkt_view := mk_pkt_view { pv_size : Z; pv_count : Z; pv_acked : bool }.
Definition unacked_size (p : pkt_view) : Z := if pv_acked p then 0 else pv_size p.

Definition pv_resent (p : pkt_view) : pkt_view :=
  mk_pkt_view (pv_size p) (pv_count p + 1) (pv_acked p).
Definition pv_ack (p : pkt_view) : pkt_view := mk_pkt_view (pv_size p) (pv_count p) true.

(** The bytes in flight: the sizes of the packets not acknowledged. *)
Definition outstanding (v : gmap Z pkt_view) : Z := map_sum unacked_size v.

(** A round trip measured on a clock that stays within 13 days. *)
Definition MAX_RTT : Z := 2 ^ 50.
Definition ack_ok (a : Ack) : Prop := - MAX_RTT < ack_RTT a < MAX_RTT.

Class ControllerLaws (C : Type) `{Controller C} := {
  ctl_wf : C → Prop;
  ctl_view : C → gmap Z pkt_view;
  (** The congestion window. *)
  ctl_cap : C → Z;

  ctl_available c : ctl_wf c →
    ctl_BytesAvailableInWindow c = Z.max 0 (ctl_cap c - outstanding (ctl_view c));
  ctl_cap_range c : ctl_wf c → is_u32 (ctl_cap c);

  (** A first transmission that fits the window is accepted and recorded.  (An
      empty packet does not fit when the bytes in flight exceed the window.) *)
  ctl_Initial c seq size : ctl_wf c → ctl_view c !! seq = None →
    0 ≤ size → outstanding (ctl_view c) + size ≤ ctl_cap c →
    ∃ c', ctl_OnTransmit seq Initial size c = (None, c') ∧ ctl_wf c' ∧
      ctl_view c' = <[seq := mk_pkt_view size 1 false]> (ctl_view c) ∧
      ctl_cap c' = ctl_cap c ∧ ctl_Timeout c' = ctl_Timeout c;

  (** A retransmission of a known packet is accepted and changes no size; the
      count of transmissions must not wrap. *)
  ctl_Retransmission c seq size p : ctl_wf c → ctl_view c !! seq = Some p →
    pv_count p < MaxUint32 →
    ∃ c', ctl_OnTransmit seq Retransmission size c = (None, c') ∧ ctl_wf c' ∧
      ctl_view c' = <[seq := pv_resent p]> (ctl_view c) ∧
      ctl_cap c' = ctl_cap c ∧ ctl_Timeout c' = ctl_Timeout c;

  (** An acknowledgement of a known packet releases its bytes. *)
  ctl_Ack c seq ack clock p : ctl_wf c → ack_ok ack → ctl_view c !! seq = Some p →
    ∃ c', ctl_OnAck seq ack clock c = (None, c') ∧ ctl_wf c' ∧
      ctl_view c' = <[seq := pv_ack p]> (ctl_view c);

  (** A loss that is retransmitted keeps the bytes of the packet in flight. *)
  ctl_Lost c seq p : ctl_wf c → ctl_view c !! seq = Some p →
    ∃ c', ctl_OnLostPacket seq true c = (None, c') ∧ ctl_wf c' ∧ ctl_view c' = ctl_view c;

  ctl_TimedOut c : ctl_wf c →
    ctl_wf (ctl_OnTimeout c) ∧ ctl_view (ctl_OnTimeout c) = ctl_view c;

  ctl_Timeout_range c : ctl_wf c → 0 ≤ ctl_Timeout c < 2 ^ 52;
}.
