(* ===== verification/Congestion.v ===== *)
(** * LEDBAT congestion control (congestion.go)

    [defaultController] with its operations, over the floats of [Float64] and
    the delay accumulator of [DelayHeap].  The methods that lock the mutex are
    atomic; the two that do not ([OnLostPacket], [OnTimeout]) are called by the
    same goroutine as the others.  [OnAck] is given the clock reading that
    [BaseDelay] makes.

    The theorems show the bounds on the congestion window and on the timeout, that
    the window follows the LEDBAT rule up to one byte of rounding, the accounting
    of the bytes in flight, the estimators computed in floats as integer
    arithmetic, and that the controller meets the contract [ControllerLaws] of the
    interface. *)

From Stdlib Require Import ZArith Lia.
From Stdlib Require Import SpecFloat.
From stdpp Require Import base list gmap fin_maps.
From S2P Require Import Prelude.
From S2P Require Import Utils.
From S2P Require Import Float64.
From S2P Require Import FloatError.
From S2P Require Import DelayHeap.
From S2P Require Import Controller.

Definition Microsecond : Z := 1000.
Definition Millisecond : Z := 1000000.
Definition Second : Z := 1000000000.

(** [d.Microseconds()] and [d.Milliseconds()] *)
Definition Microseconds (d : Z) : Z := Z.quot d 1000.
Definition Milliseconds (d : Z) : Z := Z.quot d 1000000.

Definition defaultTargetMicros : Z := 100000 * Microsecond.
Definition defaultInitialTimeout : Z := 4 * Second.
Definition defaultMinTimeout : Z := 500 * Millisecond.
Definition defaultMaxTimeout : Z := 60 * Second.
Definition defaultMaxPacketSizeBytes : Z := 1024.
Definition defaultDelayWindow : Z := 120 * Second.

(** 1.0 as a [float32] *)
Definition defaultGain : spec_float := S754_finite false 8388608 (-23).

Record packetRecord := mk_packetRecord {
  pr_SizeBytes : Z;
  pr_NumTransmissions : Z;
  pr_Acked : bool;
}.

Record ctrlConfig := mk_ctrlConfig {
  cf_TargetDelayMicros : Z;
  cf_InitialTimeout : Z;
  cf_MinTimeout : Z;
  cf_MaxTimeout : Z;
  cf_MaxPacketSizeBytes : Z;
  cf_MaxWindowSizeIncBytes : Z;
  cf_Gain : spec_float;
  cf_DelayWindow : Z;
  cf_WindowSize : Z;
}.

Definition defaultCtrlConfig : ctrlConfig := {|
  cf_TargetDelayMicros := u32 (Microseconds defaultTargetMicros);
  cf_InitialTimeout := defaultInitialTimeout;
  cf_MinTimeout := defaultMinTimeout;
  cf_MaxTimeout := defaultMaxTimeout;
  cf_MaxPacketSizeBytes := defaultMaxPacketSizeBytes;
  cf_MaxWindowSizeIncBytes := defaultMaxPacketSizeBytes;
  cf_Gain := defaultGain;
  cf_DelayWindow := defaultDelayWindow;
  cf_WindowSize := 0;
|}.

Record defaultController := mk_defaultController {
  cc_targetDelayMicros : Z;
  cc_timeout : Z;
  cc_minTimeout : Z;
  cc_maxTimeout : Z;
  cc_windowSizeBytes : Z;
  cc_maxWindowSizeBytes : Z;
  cc_minWindowSizeBytes : Z;
  cc_maxWindowSizeIncBytes : Z;
  cc_gain : spec_float;
  cc_rtt : Z;
  cc_rttVarianceMicros : Z;
  cc_transmissions : gmap Z packetRecord;
  cc_delayAcc : delayAccumulator;
}.

Definition newDefaultController (config : ctrlConfig) : defaultController := {|
  cc_targetDelayMicros := cf_TargetDelayMicros config;
  cc_timeout := cf_InitialTimeout config;
  cc_minTimeout := cf_MinTimeout config;
  cc_maxTimeout := cf_MaxTimeout config;
  cc_windowSizeBytes := 0;
  cc_maxWindowSizeBytes := u32 (2 * cf_MaxPacketSizeBytes config);
  cc_minWindowSizeBytes := u32 (2 * cf_MaxPacketSizeBytes config);
  cc_maxWindowSizeIncBytes := cf_MaxWindowSizeIncBytes config;
  cc_gain := cf_Gain config;
  cc_rtt := 0;
  cc_rttVarianceMicros := 0;
  cc_transmissions := ∅;
  cc_delayAcc := newDelayAccumulator (cf_DelayWindow config);
|}.

(** Field updates. *)
Definition with_window (w : Z) (c : defaultController) : defaultController :=
  mk_defaultController (cc_targetDelayMicros c) (cc_timeout c) (cc_minTimeout c) (cc_maxTimeout c)
    w (cc_maxWindowSizeBytes c) (cc_minWindowSizeBytes c) (cc_maxWindowSizeIncBytes c) (cc_gain c)
    (cc_rtt c) (cc_rttVarianceMicros c) (cc_transmissions c) (cc_delayAcc c).
Definition with_maxWindow (w : Z) (c : defaultController) : defaultController :=
  mk_defaultController (cc_targetDelayMicros c) (cc_timeout c) (cc_minTimeout c) (cc_maxTimeout c)
    (cc_windowSizeBytes c) w (cc_minWindowSizeBytes c) (cc_maxWindowSizeIncBytes c) (cc_gain c)
    (cc_rtt c) (cc_rttVarianceMicros c) (cc_transmissions c) (cc_delayAcc c).
Definition with_timeout (t : Z) (c : defaultController) : defaultController :=
  mk_defaultController (cc_targetDelayMicros c) t (cc_minTimeout c) (cc_maxTimeout c)
    (cc_windowSizeBytes c) (cc_maxWindowSizeBytes c) (cc_minWindowSizeBytes c)
    (cc_maxWindowSizeIncBytes c) (cc_gain c) (cc_rtt c) (cc_rttVarianceMicros c)
    (cc_transmissions c) (cc_delayAcc c).
Definition with_rtt (rtt var : Z) (c : defaultController) : defaultController :=
  mk_defaultController (cc_targetDelayMicros c) (cc_timeout c) (cc_minTimeout c) (cc_maxTimeout c)
    (cc_windowSizeBytes c) (cc_maxWindowSizeBytes c) (cc_minWindowSizeBytes c)
    (cc_maxWindowSizeIncBytes c) (cc_gain c) rtt var (cc_transmissions c) (cc_delayAcc c).
Definition with_transmission (seq : Z) (r : packetRecord) (c : defaultController)
  : defaultController :=
  mk_defaultController (cc_targetDelayMicros c) (cc_timeout c) (cc_minTimeout c) (cc_maxTimeout c)
    (cc_windowSizeBytes c) (cc_maxWindowSizeBytes c) (cc_minWindowSizeBytes c)
    (cc_maxWindowSizeIncBytes c) (cc_gain c) (cc_rtt c) (cc_rttVarianceMicros c)
    (<[seq := r]> (cc_transmissions c)) (cc_delayAcc c).
Definition with_delayAcc (da : delayAccumulator) (c : defaultController) : defaultController :=
  mk_defaultController (cc_targetDelayMicros c) (cc_timeout c) (cc_minTimeout c) (cc_maxTimeout c)
    (cc_windowSizeBytes c) (cc_maxWindowSizeBytes c) (cc_minWindowSizeBytes c)
    (cc_maxWindowSizeIncBytes c) (cc_gain c) (cc_rtt c) (cc_rttVarianceMicros c)
    (cc_transmissions c) da.

(** ** Operations *)

Definition cc_Timeout (c : defaultController) : Z := cc_timeout c.

Definition cc_BytesAvailableInWindow (c : defaultController) : Z :=
  if cc_windowSizeBytes c <? cc_maxWindowSizeBytes c
  then u32 (cc_maxWindowSizeBytes c - cc_windowSizeBytes c)
  else 0.

(** The check of the window, for a packet sent once.  The record stays in the
    map when the window is too small. *)
Definition charge_window (r : packetRecord) (c : defaultController)
  : option error * defaultController :=
  if pr_NumTransmissions r =? 1 then
    if cc_maxWindowSizeBytes c <? u32 (cc_windowSizeBytes c + pr_SizeBytes r)
    then (Some ErrInsufficientWindowSize, c)
    else (None, with_window (u32 (cc_windowSizeBytes c + pr_SizeBytes r)) c)
  else (None, c).

Definition cc_OnTransmit (seqNum : Z) (transmission : Transmit) (dataLen : Z) (c : defaultController)
  : option error * defaultController :=
  match transmission with
  | Initial =>
      match cc_transmissions c !! seqNum with
      | Some _ => (Some ErrDuplicateTransmission, c)
      | None =>
          let packetInst := mk_packetRecord dataLen 1 false in
          charge_window packetInst (with_transmission seqNum packetInst c)
      end
  | Retransmission =>
      match cc_transmissions c !! seqNum with
      | None => (Some ErrUnknownSeqNum, c)
      | Some r =>
          let packetInst := mk_packetRecord (pr_SizeBytes r) (u32 (pr_NumTransmissions r + 1)) (pr_Acked r) in
          charge_window packetInst (with_transmission seqNum packetInst c)
      end
  end.

Section controller.
Context `{FloatConv}.

Definition computeMaxWindowSizeAdjustment
    (targetDelayMicros baseDelayMicros packetDelayMicros windowSizeBytes packetSizeBytes
     maxWindowSizeIncBytes : Z) (gain : spec_float) : Z :=
  let delayMicros := i64 (packetDelayMicros - baseDelayMicros) in
  let offTargetMicros := i64 (targetDelayMicros - delayMicros) in
  let delayFactor := f64_div (f64_of_Z offTargetMicros) (f64_of_Z targetDelayMicros) in
  let windowFactor := f64_div (f64_of_Z packetSizeBytes) (f64_of_Z windowSizeBytes) in
  let scaledGain :=
    f64_mul (f64_mul (f64_mul (f64_of_f32 gain) (f64_of_Z maxWindowSizeIncBytes)) delayFactor)
            windowFactor in
  f64_to_int64 scaledGain.

Definition computeRTTAdjustment (rttMicros packetRTTMicros : Z) : Z :=
  f64_to_int64 (f64_div (f64_sub (f64_of_Z packetRTTMicros) (f64_of_Z rttMicros)) (f64_of_Z 8)).

Definition computeRTTVarianceAdjustment (rttMicros rttVarianceMicros packetRTTMicros : Z) : Z :=
  let absDeltaMicros := math_Abs (f64_of_Z (i64 (rttMicros - packetRTTMicros))) in
  f64_to_int64 (f64_div (f64_sub absDeltaMicros (f64_of_Z rttVarianceMicros)) (f64_of_Z 4)).

Definition applyMaxWindowSizeAdjustment (adjustment : Z) (c : defaultController)
  : defaultController :=
  let adj := i64 (cc_maxWindowSizeBytes c + adjustment) in
  let adj := if adj <? cc_minWindowSizeBytes c then cc_minWindowSizeBytes c else adj in
  with_maxWindow
    (f64_to_uint32 (math_Min (f64_of_Z adj)
       (f64_add (f64_of_Z (cc_maxWindowSizeBytes c)) (f64_of_Z (cc_maxWindowSizeIncBytes c))))) c.

Definition applyTimeoutAdjustment (c : defaultController) : defaultController :=
  let t := f64_to_int64 (math_Max
             (f64_of_Z (i64 (cc_rtt c + i64 (cc_rttVarianceMicros c * 4))))
             (f64_of_Z (cc_minTimeout c))) in
  with_timeout (f64_to_int64 (math_Min (f64_of_Z t) (f64_of_Z (cc_maxTimeout c)))) c.

(** The estimators' update, for a packet that was sent once. *)
Definition update_rtt (ackRTT : Z) (c : defaultController) : defaultController :=
  let rttVarAdjustment :=
    computeRTTVarianceAdjustment (Microseconds (cc_rtt c)) (cc_rttVarianceMicros c)
      (Microseconds ackRTT) in
  let var := maxInt64 0 (i64 (cc_rttVarianceMicros c + rttVarAdjustment)) in
  let rttAdjustment := computeRTTAdjustment (Microseconds (cc_rtt c)) (Microseconds ackRTT) in
  let rtt := maxInt64 (i64 (Milliseconds (cc_rtt c) + rttAdjustment)) 0 in
  applyTimeoutAdjustment (with_rtt rtt var c).

Definition cc_OnAck (seqNum : Z) (ack : Ack) (now : Z) (c : defaultController)
  : option error * defaultController :=
  match cc_transmissions c !! seqNum with
  | None => (Some ErrUnknownSeqNum, c)
  | Some r =>
      if pr_Acked r then (None, c)
      else
        let packetInst := mk_packetRecord (pr_SizeBytes r) (pr_NumTransmissions r) true in
        let c := with_transmission seqNum packetInst c in
        let da := da_Push (cc_delayAcc c) (ack_Delay ack) (ack_ReceivedAt ack) in
        let '(da, base) := BaseDelay da now in
        let c := with_delayAcc da c in
        let baseDelayMicros := u32 (Microseconds base) in
        let packetDelayMicros := u32 (Microseconds (ack_Delay ack)) in
        let adjustment :=
          computeMaxWindowSizeAdjustment (cc_targetDelayMicros c) baseDelayMicros
            packetDelayMicros (cc_windowSizeBytes c) (pr_SizeBytes packetInst)
            (cc_maxWindowSizeIncBytes c) (cc_gain c) in
        let c := applyMaxWindowSizeAdjustment adjustment c in
        let c := with_window (u32 (cc_windowSizeBytes c - pr_SizeBytes packetInst)) c in
        (None, if pr_NumTransmissions packetInst =? 1 then update_rtt (ack_RTT ack) c else c)
  end.

Definition cc_OnLostPacket (seqNum : Z) (retransmitting : bool) (c : defaultController)
  : option error * defaultController :=
  match cc_transmissions c !! seqNum with
  | None => (Some ErrUnknownSeqNum, c)
  | Some r =>
      let c := with_maxWindow
        (f64_to_uint32 (math_Max (f64_of_Z (cc_maxWindowSizeBytes c `div` 2))
                                 (f64_of_Z (cc_minWindowSizeBytes c)))) c in
      (None, if retransmitting then c
             else with_window (u32 (cc_windowSizeBytes c - pr_SizeBytes r)) c)
  end.

Definition cc_OnTimeout (c : defaultController) : defaultController :=
  let c := with_maxWindow (cc_minWindowSizeBytes c) c in
  with_timeout
    (f64_to_int64 (math_Min (f64_of_Z (i64 (cc_timeout c * 2))) (f64_of_Z (cc_maxTimeout c)))) c.
End controller.

(** The [Controller] interface. *)
#[global] Instance defaultController_Controller `{FloatConv} : Controller defaultController := {
  ctl_OnTransmit := cc_OnTransmit;
  ctl_OnAck := cc_OnAck;
  ctl_OnLostPacket := cc_OnLostPacket;
  ctl_OnTimeout := cc_OnTimeout;
  ctl_Timeout := cc_Timeout;
  ctl_BytesAvailableInWindow := cc_BytesAvailableInWindow;
}.

(** ** Float computations as integer arithmetic *)

Section exact.
Context `{FloatConv}.

Lemma u32_small z : is_u32 z → small z.
Proof. unfold is_u32, small. lia. Qed.

Lemma f64_to_int64_div_pow2 z k :
  small z → 0 ≤ k ≤ 52 → f64_to_int64 (f64_div (f_int z) (f_pow2 k)) = z `quot` 2 ^ k.
Proof.
  intros Hz Hk. unfold f64_to_int64. rewrite f_int_div_pow2_trunc by done.
  assert (0 < 2 ^ k) by (apply Z.pow_pos_nonneg; lia).
  assert (Hq : - 2 ^ 53 ≤ z `quot` 2 ^ k ≤ 2 ^ 53).
  { unfold small in Hz. Z.to_euclidean_division_equations. nia. }
  repeat case_bool; simpl; lia.
Qed.

Lemma computeRTTAdjustment_eq rtt p :
  - 2 ^ 52 < rtt < 2 ^ 52 → - 2 ^ 52 < p < 2 ^ 52 → computeRTTAdjustment rtt p = (p - rtt) `quot` 8.
Proof.
  intros Hr Hp. unfold computeRTTAdjustment. change (f64_of_Z 8) with (f_pow2 3).
  rewrite !f64_of_Z_small, f64_sub_exact by (unfold small; lia).
  by rewrite (f64_to_int64_div_pow2 _ 3) by (unfold small; lia).
Qed.

Lemma math_Abs_int z : math_Abs (f_int z) = f_int (Z.abs z).
Proof. by destruct z. Qed.

Lemma computeRTTVarianceAdjustment_eq rtt var p :
  - 2 ^ 50 < rtt < 2 ^ 50 → 0 ≤ var < 2 ^ 52 → - 2 ^ 50 < p < 2 ^ 50 →
  computeRTTVarianceAdjustment rtt var p = (Z.abs (rtt - p) - var) `quot` 4.
Proof.
  intros Hr Hv Hp. unfold computeRTTVarianceAdjustment. change (f64_of_Z 4) with (f_pow2 2).
  rewrite i64_id by (unfold is_i64; lia).
  rewrite !f64_of_Z_small, math_Abs_int, f64_sub_exact by (unfold small; lia).
  by rewrite (f64_to_int64_div_pow2 _ 2) by (unfold small; lia).
Qed.

(** The clamping of the congestion window. *)
Lemma applyMaxWindowSizeAdjustment_eq adj c :
  is_u32 (cc_maxWindowSizeBytes c) → is_u32 (cc_minWindowSizeBytes c) →
  is_u32 (cc_maxWindowSizeIncBytes c) →
  cc_maxWindowSizeBytes c + cc_maxWindowSizeIncBytes c < 2 ^ 32 →
  applyMaxWindowSizeAdjustment adj c =
  with_maxWindow
    (Z.min (Z.max (i64 (cc_maxWindowSizeBytes c + adj)) (cc_minWindowSizeBytes c))
           (cc_maxWindowSizeBytes c + cc_maxWindowSizeIncBytes c)) c.
Proof.
  intros Hm Hn Hi Hsum. unfold applyMaxWindowSizeAdjustment. f_equal.
  set (a := i64 _). assert (Ha : is_i64 a) by (subst a; auto with go).
  assert (E : (if a <? cc_minWindowSizeBytes c then cc_minWindowSizeBytes c else a)
              = Z.max a (cc_minWindowSizeBytes c)) by (case_bool; lia).
  rewrite E. unfold is_u32, is_i64 in *.
  rewrite !(f64_of_Z_small (cc_maxWindowSizeBytes c)), !(f64_of_Z_small (cc_maxWindowSizeIncBytes c)),
    f64_add_exact by (unfold small; lia).
  rewrite <- f64_of_Z_small, math_Min_Z by (unfold small, is_i64; lia).
  apply f64_to_uint32_exact. unfold is_u32. lia.
Qed.

Lemma applyTimeoutAdjustment_eq c :
  0 ≤ cc_rtt c < 2 ^ 50 → 0 ≤ cc_rttVarianceMicros c < 2 ^ 50 →
  0 ≤ cc_minTimeout c < 2 ^ 52 → 0 ≤ cc_maxTimeout c < 2 ^ 52 →
  applyTimeoutAdjustment c =
  with_timeout (Z.min (Z.max (cc_rtt c + cc_rttVarianceMicros c * 4) (cc_minTimeout c))
                      (cc_maxTimeout c)) c.
Proof.
  intros Hr Hv Hn Hx. unfold applyTimeoutAdjustment. f_equal.
  rewrite (i64_id (cc_rttVarianceMicros c * 4)) by (unfold is_i64; lia).
  rewrite i64_id by (unfold is_i64; lia).
  rewrite math_Max_Z, f64_to_int64_small by (unfold small, is_i64; lia).
  rewrite math_Min_Z by (unfold small, is_i64; lia). apply f64_to_int64_small. unfold small. lia.
Qed.
(** The bytes that LEDBAT adds to the window for a packet of [size] bytes, in
    exact arithmetic: the increment, scaled by the share of the target delay that
    is left (negative above the target) and the share of the window that the
    packet had. *)
Definition ledbat_adjustment (inc target delay size window : Z) : Z :=
  (inc * (target - delay) * size) `quot` (target * window).

(** The [float64] computation gives this value up to one byte, with its sign. *)
Lemma computeMaxWindowSizeAdjustment_near target base delay window size inc :
  0 < target < 2 ^ 32 → is_u32 base → is_u32 delay → 0 < window < 2 ^ 32 → 0 ≤ size ≤ window → 0 ≤ inc < 2 ^ 16 →
  let adj := computeMaxWindowSizeAdjustment target base delay window size inc defaultGain in
  Z.abs (adj - ledbat_adjustment inc target (delay - base) size window) ≤ 1 ∧
  (delay - base ≤ target → 0 ≤ adj) ∧ (target ≤ delay - base → adj ≤ 0) ∧ - 2 ^ 50 ≤ adj ≤ 2 ^ 50.
Proof.
  intros Ht Hb Hd Hw Hs Hi adj. unfold is_u32 in *. unfold ledbat_adjustment.
  destruct (scaled_trunc inc (target - (delay - base)) target size window) as (z & E & Hz & Hp & Hn & Hr); [lia..|].
  assert (adj = z) as ->; [|split_and!; [done|intros; apply Hp; lia|intros; apply Hn; lia|lia|lia]].
  unfold adj, computeMaxWindowSizeAdjustment.
  rewrite (i64_id (delay - base)), i64_id, !f64_of_Z_small by (unfold is_i64, small; lia).
  change (f64_of_f32 defaultGain) with (f_int 1). fold (scaled inc (target - (delay - base)) target size window).
  unfold f64_to_int64. rewrite E. repeat case_bool; simpl; done || lia.
Qed.
End exact.

(** ** Invariant *)

Definition record_view (r : packetRecord) : pkt_view :=
  mk_pkt_view (pr_SizeBytes r) (pr_NumTransmissions r) (pr_Acked r).

Definition cc_view (c : defaultController) : gmap Z pkt_view := record_view <$> cc_transmissions c.

Record cc_inv (c : defaultController) : Prop := {
  ci_maxW : is_u32 (cc_maxWindowSizeBytes c);
  ci_minW : is_u32 (cc_minWindowSizeBytes c);
  ci_inc : is_u32 (cc_maxWindowSizeIncBytes c);
  (** the window is the bytes in flight *)
  ci_window : cc_windowSizeBytes c = outstanding (cc_view c);
  ci_window_u32 : is_u32 (cc_windowSizeBytes c);
  ci_sizes : map_Forall (λ _ r, 0 ≤ pr_SizeBytes r ∧ 1 ≤ pr_NumTransmissions r) (cc_transmissions c);
  ci_limits : 0 ≤ cc_minTimeout c ≤ cc_maxTimeout c ∧ cc_maxTimeout c < 2 ^ 52;
  ci_timeout : cc_minTimeout c ≤ cc_timeout c ≤ cc_maxTimeout c;
  ci_rtt : 0 ≤ cc_rtt c < 2 ^ 50;
  ci_var : 0 ≤ cc_rttVarianceMicros c < 2 ^ 50;
}.

(** A configuration the controller can run with. *)
Definition config_ok (cf : ctrlConfig) : Prop :=
  is_u32 (cf_MaxWindowSizeIncBytes cf) ∧ 0 ≤ cf_MinTimeout cf ∧ cf_MaxTimeout cf < 2 ^ 52 ∧
  cf_MinTimeout cf ≤ cf_InitialTimeout cf ≤ cf_MaxTimeout cf.

Lemma newDefaultController_inv cf : config_ok cf → cc_inv (newDefaultController cf).
Proof.
  intros (Hi & Hn & Hx & Ht). split; simpl; auto with go; try lia.
  - go_lia.
  - apply map_Forall_empty.
Qed.

Section invariant.
Context `{FloatConv}.
Implicit Types c : defaultController.

Lemma cc_view_lookup c seq :
  cc_view c !! seq = record_view <$> cc_transmissions c !! seq.
Proof. apply lookup_fmap. Qed.

Lemma cc_view_with seq r c :
  cc_view (with_transmission seq r c) = <[seq := record_view r]> (cc_view c).
Proof. unfold cc_view. simpl. apply fmap_insert. Qed.

Lemma ci_sizes_insert c seq r :
  cc_inv c → 0 ≤ pr_SizeBytes r → 1 ≤ pr_NumTransmissions r →
  map_Forall (λ _ r, 0 ≤ pr_SizeBytes r ∧ 1 ≤ pr_NumTransmissions r)
    (<[seq := r]> (cc_transmissions c)).
Proof. intros Hc ??. apply map_Forall_insert_2; [done|apply Hc]. Qed.

Lemma unacked_size_le c seq r :
  cc_inv c → cc_transmissions c !! seq = Some r →
  unacked_size (record_view r) ≤ outstanding (cc_view c).
Proof.
  intros Hc Hr. apply (map_sum_le _ _ seq).
  - intros k v Hv. rewrite cc_view_lookup in Hv. apply fmap_Some in Hv as (r' & Hr' & ->).
    apply (ci_sizes c Hc) in Hr' as [? _]. unfold unacked_size, record_view. simpl.
    destruct (pr_Acked r'); lia.
  - by rewrite cc_view_lookup, Hr.
Qed.

Lemma Available_eq c :
  cc_inv c → cc_BytesAvailableInWindow c = Z.max 0 (cc_maxWindowSizeBytes c - outstanding (cc_view c)).
Proof.
  intros Hc. unfold cc_BytesAvailableInWindow. rewrite <- ci_window by done.
  pose proof (ci_maxW c Hc). pose proof (ci_window_u32 c Hc). case_bool; [|lia].
  rewrite u32_id; [lia|]. unfold is_u32 in *. lia.
Qed.

Lemma OnTransmit_Initial_spec seq size c :
  cc_inv c → cc_transmissions c !! seq = None → 0 ≤ size →
  outstanding (cc_view c) + size ≤ cc_maxWindowSizeBytes c →
  ∃ c', cc_OnTransmit seq Initial size c = (None, c') ∧ cc_inv c' ∧
    cc_view c' = <[seq := mk_pkt_view size 1 false]> (cc_view c) ∧
    cc_maxWindowSizeBytes c' = cc_maxWindowSizeBytes c ∧ cc_timeout c' = cc_timeout c.
Proof.
  intros Hc Hn Hs0 Hs. rewrite <- ci_window in Hs by done.
  pose proof (ci_maxW c Hc). pose proof (ci_window_u32 c Hc). unfold is_u32 in *.
  unfold cc_OnTransmit, charge_window. rewrite Hn. simpl. rewrite u32_id by (unfold is_u32; lia).
  case_bool; [lia|]. eexists. split; [done|].
  assert (Hv : cc_view c !! seq = None) by (by rewrite cc_view_lookup, Hn).
  split_and!; [|apply cc_view_with|done|done].
  split; simpl; try apply Hc.
  - rewrite (ci_window c Hc). unfold outstanding, cc_view. simpl. rewrite fmap_insert.
    rewrite map_sum_insert by done. unfold unacked_size, cc_view. simpl. lia.
  - unfold is_u32. lia.
  - by apply ci_sizes_insert.
Qed.

Lemma OnTransmit_Retransmission_spec seq size r c :
  cc_inv c → cc_transmissions c !! seq = Some r → pr_NumTransmissions r < MaxUint32 →
  ∃ c', cc_OnTransmit seq Retransmission size c = (None, c') ∧ cc_inv c' ∧
    cc_view c' = <[seq := pv_resent (record_view r)]> (cc_view c) ∧
    cc_maxWindowSizeBytes c' = cc_maxWindowSizeBytes c ∧ cc_timeout c' = cc_timeout c.
Proof.
  intros Hc Hr Hn. pose proof (ci_sizes c Hc _ _ Hr) as [Hs1 Hs2]. unfold MaxUint32 in *.
  unfold cc_OnTransmit, charge_window. rewrite Hr. simpl. rewrite u32_id by (unfold is_u32; lia).
  case_bool; [lia|]. eexists. split; [done|].
  split_and!; [|apply cc_view_with|done|done].
  split; simpl; try apply Hc.
  - rewrite (ci_window c Hc). unfold outstanding. rewrite cc_view_with.
    rewrite (map_sum_update _ _ _ (record_view r)) by (by rewrite cc_view_lookup, Hr).
    unfold unacked_size. simpl. lia.
  - apply ci_sizes_insert; simpl; done || lia.
Qed.

(** The estimators stay in range. *)
Lemma update_rtt_eq rtt c :
  cc_inv c → - MAX_RTT < rtt < MAX_RTT →
  let r := Microseconds (cc_rtt c) in
  let p := Microseconds rtt in
  let var' := Z.max 0 (cc_rttVarianceMicros c + (Z.abs (r - p) - cc_rttVarianceMicros c) `quot` 4) in
  let rtt' := Z.max (Milliseconds (cc_rtt c) + (p - r) `quot` 8) 0 in
  0 ≤ rtt' < 2 ^ 50 ∧ 0 ≤ var' < 2 ^ 50 ∧
  update_rtt rtt c =
  with_timeout (Z.min (Z.max (rtt' + var' * 4) (cc_minTimeout c)) (cc_maxTimeout c))
    (with_rtt rtt' var' c).
Proof.
  intros Hc Hrtt r p var' rtt'. pose proof (ci_rtt c Hc). pose proof (ci_var c Hc).
  unfold MAX_RTT in *.
  assert (Hr : 0 ≤ r < 2 ^ 41) by (subst r; unfold Microseconds; Z.to_euclidean_division_equations; lia).
  assert (Hp : - 2 ^ 41 < p < 2 ^ 41) by (subst p; unfold Microseconds; Z.to_euclidean_division_equations; lia).
  assert (Hm : 0 ≤ Milliseconds (cc_rtt c) < 2 ^ 41)
    by (unfold Milliseconds; Z.to_euclidean_division_equations; lia).
  assert (Hv' : 0 ≤ var' < 2 ^ 50) by (subst var'; Z.to_euclidean_division_equations; lia).
  assert (Hr' : 0 ≤ rtt' < 2 ^ 50) by (subst rtt'; Z.to_euclidean_division_equations; lia).
  split_and!; try lia. unfold update_rtt. fold r p.
  rewrite computeRTTVarianceAdjustment_eq, computeRTTAdjustment_eq by lia.
  rewrite !maxInt64_max. rewrite !i64_id by (unfold is_i64; Z.to_euclidean_division_equations; lia).
  fold var' rtt'. pose proof (ci_limits c Hc). rewrite applyTimeoutAdjustment_eq by (simpl; lia). done.
Qed.

(** Lemmas on the parts of [OnAck]. *)
Lemma with_rtt_inv c rtt var t :
  cc_inv c → 0 ≤ rtt < 2 ^ 50 → 0 ≤ var < 2 ^ 50 → cc_minTimeout c ≤ t ≤ cc_maxTimeout c →
  cc_inv (with_timeout t (with_rtt rtt var c)).
Proof. intros Hc ???. split; simpl; try apply Hc; done. Qed.

Lemma with_maxWindow_inv c w : cc_inv c → is_u32 w → cc_inv (with_maxWindow w c).
Proof. intros Hc ?. split; simpl; try apply Hc; done. Qed.

Lemma update_rtt_inv c rtt :
  cc_inv c → - MAX_RTT < rtt < MAX_RTT →
  cc_inv (update_rtt rtt c) ∧ cc_view (update_rtt rtt c) = cc_view c ∧
  cc_maxWindowSizeBytes (update_rtt rtt c) = cc_maxWindowSizeBytes c.
Proof.
  intros Hc Hrtt. destruct (update_rtt_eq rtt c Hc Hrtt) as (Hr & Hv & ->).
  split_and!; [|done|done]. apply with_rtt_inv; try done. pose proof (ci_limits c Hc). lia.
Qed.

(** The controller after a packet is marked acknowledged and its bytes
    released, whatever the new congestion window. *)
Definition released (seq : Z) (r : packetRecord) (da : delayAccumulator) (w : Z) c
  : defaultController :=
  with_window (u32 (cc_windowSizeBytes c - pr_SizeBytes r))
    (with_maxWindow w (with_delayAcc da (with_transmission seq
      (mk_packetRecord (pr_SizeBytes r) (pr_NumTransmissions r) true) c))).

Lemma release_inv c seq r da w :
  cc_inv c → cc_transmissions c !! seq = Some r → pr_Acked r = false → is_u32 w →
  cc_inv (released seq r da w c) ∧
  cc_view (released seq r da w c) = <[seq := pv_ack (record_view r)]> (cc_view c).
Proof.
  intros Hc Hr Ha Hw. set (c' := released seq r da w c). pose proof (ci_sizes c Hc _ _ Hr) as [Hs1 Hs2].
  assert (Hle := unacked_size_le c seq r Hc Hr). unfold unacked_size in Hle. simpl in Hle.
  rewrite Ha in Hle. pose proof (ci_window c Hc) as Hwin. pose proof (ci_window_u32 c Hc).
  assert (Hu : u32 (cc_windowSizeBytes c - pr_SizeBytes r) = cc_windowSizeBytes c - pr_SizeBytes r).
  { apply u32_id. unfold is_u32 in *. lia. }
  assert (Hview : cc_view c' = <[seq := pv_ack (record_view r)]> (cc_view c)).
  { unfold c', released, cc_view. simpl. by rewrite fmap_insert. }
  split; [|done]. unfold c', released in *. rewrite Hu in *. split; try (apply Hc).
  - done.
  - rewrite Hview. unfold outstanding. rewrite (map_sum_update _ _ _ (record_view r)).
    + cbn [cc_windowSizeBytes with_window]. rewrite Hwin. unfold unacked_size at 2 3. simpl.
      rewrite Ha. unfold outstanding. lia.
    + by rewrite cc_view_lookup, Hr.
  - simpl. unfold is_u32 in *. lia.
  - simpl. by apply ci_sizes_insert.
Qed.

Lemma applyMax_shape adj c : ∃ w, is_u32 w ∧ applyMaxWindowSizeAdjustment adj c = with_maxWindow w c.
Proof. eexists. split; [apply f64_to_uint32_range|done]. Qed.

Lemma OnAck_shape seq ack now r c :
  cc_transmissions c !! seq = Some r → pr_Acked r = false →
  ∃ da w, is_u32 w ∧
    cc_OnAck seq ack now c =
    (None, if pr_NumTransmissions r =? 1
           then update_rtt (ack_RTT ack) (released seq r da w c)
           else released seq r da w c).
Proof.
  intros Hr Ea. unfold cc_OnAck. rewrite Hr, Ea. destruct (BaseDelay _ _) as [da base].
  cbn [pr_SizeBytes pr_NumTransmissions].
  set (adj := computeMaxWindowSizeAdjustment _ _ _ _ _ _ _).
  destruct (applyMax_shape adj (with_delayAcc da (with_transmission seq
    (mk_packetRecord (pr_SizeBytes r) (pr_NumTransmissions r) true) c))) as (w & Hw & ->).
  by exists da, w.
Qed.

Lemma OnAck_spec seq ack now r c :
  cc_inv c → ack_ok ack → cc_transmissions c !! seq = Some r →
  ∃ c', cc_OnAck seq ack now c = (None, c') ∧ cc_inv c' ∧
    cc_view c' = <[seq := pv_ack (record_view r)]> (cc_view c).
Proof.
  intros Hc Hack Hr. destruct (pr_Acked r) eqn:Ea.
  { exists c. unfold cc_OnAck. rewrite Hr, Ea. split_and!; [done|done|]. symmetry. apply insert_id.
    rewrite cc_view_lookup, Hr. simpl. unfold pv_ack, record_view. by rewrite Ea. }
  destruct (OnAck_shape seq ack now r c Hr Ea) as (da & w & Hw & ->).
  destruct (release_inv c seq r da w Hc Hr Ea Hw) as [Hi Hv]. eexists. split; [done|].
  case_bool; [|by split]. destruct (update_rtt_inv _ (ack_RTT ack) Hi Hack) as (? & Hv' & _).
  split; [done|]. by rewrite Hv'.
Qed.

Lemma OnLostPacket_max c :
  cc_inv c →
  f64_to_uint32 (math_Max (f64_of_Z (cc_maxWindowSizeBytes c `div` 2))
                          (f64_of_Z (cc_minWindowSizeBytes c)))
  = Z.max (cc_maxWindowSizeBytes c `div` 2) (cc_minWindowSizeBytes c).
Proof.
  intros Hc. pose proof (ci_maxW c Hc). pose proof (ci_minW c Hc). unfold is_u32 in *.
  assert (0 ≤ cc_maxWindowSizeBytes c `div` 2 < 2 ^ 32) by (Z.to_euclidean_division_equations; lia).
  rewrite math_Max_Z by (unfold small, is_i64; lia). apply f64_to_uint32_exact. unfold is_u32. lia.
Qed.

Lemma OnTimeout_eq c :
  cc_inv c →
  cc_OnTimeout c = with_timeout (Z.min (cc_timeout c * 2) (cc_maxTimeout c))
                     (with_maxWindow (cc_minWindowSizeBytes c) c).
Proof.
  intros Hc. pose proof (ci_limits c Hc). pose proof (ci_timeout c Hc). unfold cc_OnTimeout. simpl. f_equal.
  rewrite i64_id by (unfold is_i64; lia). rewrite math_Min_Z by (unfold small, is_i64; lia).
  apply f64_to_int64_small. unfold small. lia.
Qed.

Lemma OnTimeout_inv c :
  cc_inv c → cc_inv (cc_OnTimeout c) ∧ cc_view (cc_OnTimeout c) = cc_view c.
Proof.
  intros Hc. rewrite OnTimeout_eq by done. split; [|done].
  pose proof (ci_limits c Hc). pose proof (ci_timeout c Hc).
  split; simpl; try apply Hc; lia.
Qed.

Lemma OnLostPacket_spec seq r c :
  cc_inv c → cc_transmissions c !! seq = Some r →
  cc_OnLostPacket seq true c =
    (None, with_maxWindow (Z.max (cc_maxWindowSizeBytes c `div` 2) (cc_minWindowSizeBytes c)) c).
Proof. intros Hc Hr. unfold cc_OnLostPacket. by rewrite Hr, OnLostPacket_max. Qed.

Lemma half_max_u32 c :
  cc_inv c → is_u32 (Z.max (cc_maxWindowSizeBytes c `div` 2) (cc_minWindowSizeBytes c)).
Proof.
  intros Hc. rewrite <- OnLostPacket_max by done. apply f64_to_uint32_range.
Qed.

Lemma cc_view_Some c seq p :
  cc_view c !! seq = Some p → ∃ r, cc_transmissions c !! seq = Some r ∧ p = record_view r.
Proof. rewrite cc_view_lookup. intros (r & ? & ->)%fmap_Some. eauto. Qed.

(** [defaultController] meets the contract of the interface. *)
#[global] Instance defaultController_laws : ControllerLaws defaultController.
Proof.
  refine (Build_ControllerLaws defaultController _ cc_inv cc_view cc_maxWindowSizeBytes
            _ _ _ _ _ _ _ _).
  - apply Available_eq.
  - apply ci_maxW.
  - intros c seq size Hc Hv H0 Hs. apply OnTransmit_Initial_spec; try done.
    rewrite cc_view_lookup in Hv. by apply fmap_None in Hv.
  - intros c seq size p Hc (r & Hr & ->)%cc_view_Some Hn. by apply OnTransmit_Retransmission_spec.
  - intros c seq ack clock p Hc Hack (r & Hr & ->)%cc_view_Some. by apply OnAck_spec.
  - intros c seq p Hc (r & Hr & ->)%cc_view_Some. eexists. split; [by eapply OnLostPacket_spec|].
    split; [|done]. apply with_maxWindow_inv; [done|by apply half_max_u32].
  - apply OnTimeout_inv.
  - intros c Hc. pose proof (ci_limits c Hc). pose proof (ci_timeout c Hc). simpl. unfold cc_Timeout. lia.
Defined.
End invariant.

(** ** Sequences of calls *)

Inductive cc_op :=
  | COnTransmit (seqNum : Z) (t : Transmit) (dataLen : Z)
  | COnAck (seqNum : Z) (ack : Ack) (now : Z)
  | COnLostPacket (seqNum : Z) (retransmitting : bool)
  | COnTimeout.

Section runs.
Context `{FloatConv}.
Implicit Types c : defaultController.

Definition cc_step (op : cc_op) c : option error * defaultController :=
  match op with
  | COnTransmit seq t n => cc_OnTransmit seq t n c
  | COnAck seq ack now => cc_OnAck seq ack now c
  | COnLostPacket seq retransmitting => cc_OnLostPacket seq retransmitting c
  | COnTimeout => (None, cc_OnTimeout c)
  end.

Fixpoint cc_run (ops : list cc_op) c : defaultController :=
  match ops with
  | [] => c
  | op :: ops => cc_run ops (snd (cc_step op c))
  end.

(** What the sending side guarantees about a call: a new packet fits the
    window, a packet is not sent 2^32 times, a round trip is below 13 days, and a
    lost packet is sent again. *)
Definition op_ok (op : cc_op) c : Prop :=
  match op with
  | COnTransmit seq Initial n =>
      0 ≤ n ∧ cc_windowSizeBytes c + n ≤ cc_maxWindowSizeBytes c
  | COnTransmit seq Retransmission n =>
      ∀ r, cc_transmissions c !! seq = Some r → pr_NumTransmissions r < MaxUint32
  | COnAck _ ack _ => ack_ok ack
  | COnLostPacket _ retransmitting => retransmitting = true
  | COnTimeout => True
  end.

Fixpoint run_ok (ops : list cc_op) c : Prop :=
  match ops with
  | [] => True
  | op :: ops => op_ok op c ∧ run_ok ops (snd (cc_step op c))
  end.

Lemma cc_step_inv op c : cc_inv c → op_ok op c → cc_inv (snd (cc_step op c)).
Proof.
  intros Hc. destruct op as [seq [] n|seq ack now|seq b|]; cbn [cc_step op_ok]; intros Hop.
  - destruct (cc_transmissions c !! seq) eqn:E; [unfold cc_OnTransmit; by rewrite E|].
    destruct (OnTransmit_Initial_spec seq n c Hc E) as (c' & -> & ? & _); [lia| |done].
    rewrite <- ci_window by done. lia.
  - destruct (cc_transmissions c !! seq) eqn:E; [|unfold cc_OnTransmit; by rewrite E].
    by destruct (OnTransmit_Retransmission_spec seq n _ c Hc E (Hop _ eq_refl)) as (c' & -> & ? & _).
  - destruct (cc_transmissions c !! seq) eqn:E; [|unfold cc_OnAck; by rewrite E].
    by destruct (OnAck_spec seq ack now _ c Hc Hop E) as (c' & -> & ? & _).
  - subst b. destruct (cc_transmissions c !! seq) eqn:E; [|unfold cc_OnLostPacket; by rewrite E].
    rewrite (OnLostPacket_spec _ _ _ Hc E). apply with_maxWindow_inv; [done|by apply half_max_u32].
  - by apply OnTimeout_inv.
Qed.

Lemma cc_run_inv ops c : cc_inv c → run_ok ops c → cc_inv (cc_run ops c).
Proof.
  revert c. induction ops as [|op ops IH]; intros c Hc Hok; [done|]. destruct Hok as [Hop Hok].
  apply IH; [|done]. by apply cc_step_inv.
Qed.

(** The delay above the base delay that an acknowledgement measures. *)
Definition queuing_delay (ack : Ack) (now : Z) c : Z :=
  u32 (Microseconds (ack_Delay ack))
  - u32 (Microseconds (BaseDelay (da_Push (cc_delayAcc c) (ack_Delay ack) (ack_ReceivedAt ack)) now).2).

(** The congestion window after the first acknowledgement of a packet. *)
Lemma OnAck_window seq ack now r c :
  cc_inv c → cc_maxWindowSizeBytes c + cc_maxWindowSizeIncBytes c < 2 ^ 32 →
  cc_transmissions c !! seq = Some r → pr_Acked r = false →
  ∃ adj, cc_maxWindowSizeBytes (snd (cc_OnAck seq ack now c))
      = Z.min (Z.max (i64 (cc_maxWindowSizeBytes c + adj)) (cc_minWindowSizeBytes c))
              (cc_maxWindowSizeBytes c + cc_maxWindowSizeIncBytes c) ∧
    adj = computeMaxWindowSizeAdjustment (cc_targetDelayMicros c)
            (u32 (Microseconds (BaseDelay (da_Push (cc_delayAcc c) (ack_Delay ack) (ack_ReceivedAt ack)) now).2))
            (u32 (Microseconds (ack_Delay ack))) (cc_windowSizeBytes c) (pr_SizeBytes r)
            (cc_maxWindowSizeIncBytes c) (cc_gain c).
Proof.
  intros Hc Hsum Hr Ea. unfold cc_OnAck. rewrite Hr, Ea. cbn [cc_delayAcc with_transmission].
  destruct (BaseDelay _ _) as [da base]. cbn [pr_SizeBytes pr_NumTransmissions snd].
  rewrite applyMaxWindowSizeAdjustment_eq by (simpl; apply Hc || done). eexists. split; [|done]. by case_bool.
Qed.

(** The parameters of the default configuration, up to the size of a packet. *)
Definition default_gain c : Prop :=
  0 < cc_targetDelayMicros c < 2 ^ 32 ∧ cc_gain c = defaultGain ∧ cc_maxWindowSizeIncBytes c < 2 ^ 16.

Lemma OnAck_ledbat seq ack now r c :
  cc_inv c → default_gain c → cc_maxWindowSizeBytes c + cc_maxWindowSizeIncBytes c < 2 ^ 32 →
  cc_transmissions c !! seq = Some r → pr_Acked r = false → 0 < cc_windowSizeBytes c →
  ∃ adj, cc_maxWindowSizeBytes (snd (cc_OnAck seq ack now c))
      = Z.min (Z.max (cc_maxWindowSizeBytes c + adj) (cc_minWindowSizeBytes c))
              (cc_maxWindowSizeBytes c + cc_maxWindowSizeIncBytes c) ∧
    Z.abs (adj - ledbat_adjustment (cc_maxWindowSizeIncBytes c) (cc_targetDelayMicros c) (queuing_delay ack now c)
                   (pr_SizeBytes r) (cc_windowSizeBytes c)) ≤ 1 ∧
    (queuing_delay ack now c ≤ cc_targetDelayMicros c → 0 ≤ adj) ∧
    (cc_targetDelayMicros c ≤ queuing_delay ack now c → adj ≤ 0).
Proof.
  intros Hc (Ht & Hg & Hi) Hsum Hr Ea Hw. destruct (OnAck_window seq ack now r c Hc Hsum Hr Ea) as (adj & Ew & Eadj).
  rewrite Hg in Eadj. pose proof (ci_inc c Hc). pose proof (ci_maxW c Hc). pose proof (ci_window_u32 c Hc).
  pose proof (unacked_size_le c seq r Hc Hr) as Hle. pose proof (ci_sizes c Hc _ _ Hr) as [Hs _].
  unfold unacked_size, is_u32 in *. simpl in Hle. rewrite Ea, <- (ci_window c Hc) in Hle.
  destruct (computeMaxWindowSizeAdjustment_near (cc_targetDelayMicros c)
    (u32 (Microseconds (BaseDelay (da_Push (cc_delayAcc c) (ack_Delay ack) (ack_ReceivedAt ack)) now).2))
    (u32 (Microseconds (ack_Delay ack))) (cc_windowSizeBytes c) (pr_SizeBytes r) (cc_maxWindowSizeIncBytes c))
    as (Ha & Hp & Hn & Hrange); try apply u32_range; try lia.
  rewrite <- Eadj in *. exists adj. rewrite i64_id in Ew by (unfold is_i64; lia). done.
Qed.

(** The bounds of the window for one call. *)
Definition window_between (c c' : defaultController) : Prop :=
  cc_minWindowSizeBytes c ≤ cc_maxWindowSizeBytes c'
    ≤ cc_maxWindowSizeBytes c + cc_maxWindowSizeIncBytes c.

Lemma OnTransmit_maxWindow seq t n c :
  cc_maxWindowSizeBytes (snd (cc_OnTransmit seq t n c)) = cc_maxWindowSizeBytes c.
Proof.
  unfold cc_OnTransmit, charge_window. destruct t, (cc_transmissions c !! seq); simpl; try done.
  - by case_bool.
  - by repeat case_bool.
Qed.

Lemma OnLostPacket_maxWindow seq b c :
  cc_inv c →
  cc_maxWindowSizeBytes (snd (cc_OnLostPacket seq b c))
  = match cc_transmissions c !! seq with
    | Some _ => Z.max (cc_maxWindowSizeBytes c `div` 2) (cc_minWindowSizeBytes c)
    | None => cc_maxWindowSizeBytes c
    end.
Proof.
  intros Hc. unfold cc_OnLostPacket. destruct (cc_transmissions c !! seq); [|done]. rewrite OnLostPacket_max by done. by destruct b.
Qed.

(** What one call does to the congestion window. *)
Definition window_rule (op : cc_op) c (w' : Z) : Prop :=
  let w := cc_maxWindowSizeBytes c in
  match op with
  | COnTransmit _ _ _ => w' = w
  | COnTimeout => w' = cc_minWindowSizeBytes c
  | COnLostPacket seq _ =>
      w' = match cc_transmissions c !! seq with
           | Some _ => Z.max (w `div` 2) (cc_minWindowSizeBytes c)
           | None => w
           end
  | COnAck seq ack now =>
      match cc_transmissions c !! seq with
      | Some r =>
          if pr_Acked r then w' = w
          else default_gain c → 0 < cc_windowSizeBytes c →
            (∃ adj, w' = Z.min (Z.max (w + adj) (cc_minWindowSizeBytes c)) (w + cc_maxWindowSizeIncBytes c) ∧
              Z.abs (adj - ledbat_adjustment (cc_maxWindowSizeIncBytes c) (cc_targetDelayMicros c)
                             (queuing_delay ack now c) (pr_SizeBytes r) (cc_windowSizeBytes c)) ≤ 1) ∧
            (queuing_delay ack now c ≤ cc_targetDelayMicros c → w ≤ w') ∧
            (cc_targetDelayMicros c ≤ queuing_delay ack now c → w' ≤ w)
      | None => w' = w
      end
  end.
End runs.

(** C15.  The congestion window.  In one call, whatever the measured delays, the
    maximum window never falls below the configured minimum of two packets and
    never grows by more than the configured increment, as long as that sum fits 32
    bits.  A timeout resets it to the minimum, a loss halves it down to the
    minimum, and a transmission, an acknowledgement of an unknown packet or a second
    one leaves it.  The first acknowledgement of a packet, with the default gain
    and bytes in flight, follows LEDBAT: the window changes by the increment times
    [(target - delay) / target] times the packet's share of the bytes in flight,
    within one byte of the exact value although it is computed in [float64], and
    clamped; so it does not shrink while the queuing delay is at most the target,
    and does not grow once it is at least the target. *)
Theorem congestion_window_bounds `{FloatConv} (c : defaultController) (op : cc_op) :
  cc_inv c →
  cc_minWindowSizeBytes c ≤ cc_maxWindowSizeBytes c →
  cc_maxWindowSizeBytes c + cc_maxWindowSizeIncBytes c < 2 ^ 32 →
  window_between c (snd (cc_step op c)) ∧ window_rule op c (cc_maxWindowSizeBytes (snd (cc_step op c))).
Proof.
  intros Hc Hle Hsum. pose proof (ci_inc c Hc). pose proof (ci_maxW c Hc).
  unfold window_between, window_rule, is_u32 in *.
  destruct op as [seq t n|seq ack now|seq b|]; cbn [cc_step].
  - rewrite OnTransmit_maxWindow. lia.
  - destruct (cc_transmissions c !! seq) as [r|] eqn:Hr; [|unfold cc_OnAck; rewrite Hr; simpl; lia].
    destruct (pr_Acked r) eqn:Ea; [unfold cc_OnAck; rewrite Hr, Ea; simpl; lia|]. split.
    + destruct (OnAck_window seq ack now r c Hc Hsum Hr Ea) as (adj & -> & _). lia.
    + intros Hg Hw. destruct (OnAck_ledbat seq ack now r c Hc Hg Hsum Hr Ea Hw) as (adj & -> & Ha & Hp & Hn).
      split; [by exists adj|]. split; intros Hd; [apply Hp in Hd|apply Hn in Hd]; lia.
  - rewrite OnLostPacket_maxWindow by done. destruct (cc_transmissions c !! seq); [|lia].
    split; [|done]. Z.to_euclidean_division_equations; lia.
  - simpl. lia.
Qed.

(** C17.  The round-trip estimators and the retransmission timeout.  When a
    packet that was sent once is acknowledged for the first time, the new
    variance and round trip are the exponential averages that the [float64]
    code denotes, computed exactly as integer divisions towards zero, and the
    timeout is [rtt + 4 * variance] clamped to the configured limits.  A packet
    that was retransmitted leaves all three unchanged (Karn's rule). *)
Theorem retransmission_timeout_estimator `{FloatConv}
    (c : defaultController) (seq : Z) (ack : Ack) (now : Z) (p : packetRecord) :
  cc_inv c → ack_ok ack → cc_transmissions c !! seq = Some p → pr_Acked p = false →
  let c' := snd (cc_OnAck seq ack now c) in
  let r := Microseconds (cc_rtt c) in
  let m := Microseconds (ack_RTT ack) in
  if pr_NumTransmissions p =? 1 then
    cc_rttVarianceMicros c'
      = Z.max 0 (cc_rttVarianceMicros c + (Z.abs (r - m) - cc_rttVarianceMicros c) `quot` 4) ∧
    cc_rtt c' = Z.max (Milliseconds (cc_rtt c) + (m - r) `quot` 8) 0 ∧
    cc_timeout c' = Z.min (Z.max (cc_rtt c' + 4 * cc_rttVarianceMicros c') (cc_minTimeout c))
                          (cc_maxTimeout c)
  else
    cc_rttVarianceMicros c' = cc_rttVarianceMicros c ∧ cc_rtt c' = cc_rtt c ∧
    cc_timeout c' = cc_timeout c.
Proof.
  intros Hc Hack Hr Ha c' r m. destruct (OnAck_shape seq ack now p c Hr Ha) as (da & w & Hw & E).
  destruct (release_inv c seq p da w Hc Hr Ha Hw) as [Hi _]. unfold c'. rewrite E. cbn [snd].
  destruct (pr_NumTransmissions p =? 1); [|done].
  destruct (update_rtt_eq (ack_RTT ack) _ Hi Hack) as (_ & _ & ->).
  cbn -[Z.quot Z.mul]. split_and!; [done|done|]. f_equal. f_equal. lia.
Qed.

(** The bytes of the packets sent and not yet acknowledged. *)
Definition inflight_bytes (c : defaultController) : Z :=
  map_sum (λ r, if pr_Acked r then 0 else pr_SizeBytes r) (cc_transmissions c).

Lemma outstanding_inflight c : outstanding (cc_view c) = inflight_bytes c.
Proof. unfold outstanding, cc_view, inflight_bytes, map_sum. rewrite map_fold_fmap. done. Qed.

(** A new packet that does not fit is refused, and yet recorded. *)
Lemma OnTransmit_refused seq n c :
  cc_inv c → cc_transmissions c !! seq = None → 0 ≤ n → cc_maxWindowSizeBytes c < cc_windowSizeBytes c + n < 2 ^ 32 →
  ∃ c', cc_OnTransmit seq Initial n c = (Some ErrInsufficientWindowSize, c') ∧
    cc_windowSizeBytes c' = cc_windowSizeBytes c ∧ inflight_bytes c' = cc_windowSizeBytes c' + n.
Proof.
  intros Hc Hn H0 Hbig. pose proof (ci_window_u32 c Hc). unfold is_u32 in *. unfold cc_OnTransmit, charge_window. rewrite Hn. simpl.
  rewrite u32_id by (unfold is_u32; lia). case_bool; [|lia]. eexists. split_and!; [done..|].
  unfold inflight_bytes. simpl. rewrite map_sum_insert by done. simpl. fold (inflight_bytes c).
  rewrite <- outstanding_inflight, <- (ci_window c Hc). lia.
Qed.

(** A packet given up as lost is released, and stays unacknowledged. *)
Lemma OnLostPacket_given_up `{FloatConv} seq r c :
  cc_inv c → cc_transmissions c !! seq = Some r → pr_Acked r = false →
  ∃ c', cc_OnLostPacket seq false c = (None, c') ∧ cc_windowSizeBytes c' = cc_windowSizeBytes c - pr_SizeBytes r ∧
    inflight_bytes c' = cc_windowSizeBytes c' + pr_SizeBytes r.
Proof.
  intros Hc Hr Ea. pose proof (unacked_size_le c seq r Hc Hr) as Hle. pose proof (ci_sizes c Hc _ _ Hr) as [Hs _].
  pose proof (ci_window_u32 c Hc). unfold unacked_size, is_u32 in *. simpl in Hle. rewrite Ea, <- (ci_window c Hc) in Hle.
  unfold cc_OnLostPacket. rewrite Hr. eexists. split; [done|]. simpl. rewrite u32_id by (unfold is_u32; lia).
  split; [done|]. unfold inflight_bytes. simpl. fold (inflight_bytes c). rewrite <- outstanding_inflight, <- (ci_window c Hc). lia.
Qed.

(** C16.  Accounting of the bytes in flight.  Along any sequence of calls from a
    new controller in which every new packet fits the window and every packet
    reported lost is to be sent again, [windowSizeBytes] is exactly the sum of the
    sizes of the packets sent and not yet acknowledged (the unsigned subtraction in
    [OnAck] never wraps, a duplicate acknowledgement releases nothing, a
    retransmission charges nothing), and the window offered to the sender is what
    the congestion window leaves.  Both conditions are needed: a new packet that
    does not fit is refused with [ErrInsufficientWindowSize] but stays in the
    records, so that the window misses its bytes; and a packet reported lost
    that is not to be sent again is released although it stays unacknowledged. *)
Theorem inflight_accounting `{FloatConv} (cf : ctrlConfig) (ops : list cc_op) :
  config_ok cf → run_ok ops (newDefaultController cf) →
  let c := cc_run ops (newDefaultController cf) in
  (cc_windowSizeBytes c = inflight_bytes c ∧
   cc_BytesAvailableInWindow c = Z.max 0 (cc_maxWindowSizeBytes c - inflight_bytes c) ∧
   cc_minTimeout c ≤ cc_Timeout c ≤ cc_maxTimeout c) ∧
  (∀ seq n, cc_transmissions c !! seq = None → 0 ≤ n →
     cc_maxWindowSizeBytes c < cc_windowSizeBytes c + n < 2 ^ 32 →
     ∃ c', cc_OnTransmit seq Initial n c = (Some ErrInsufficientWindowSize, c') ∧
       cc_windowSizeBytes c' = cc_windowSizeBytes c ∧ inflight_bytes c' = cc_windowSizeBytes c' + n) ∧
  (∀ seq r, cc_transmissions c !! seq = Some r → pr_Acked r = false →
     ∃ c', cc_OnLostPacket seq false c = (None, c') ∧
       cc_windowSizeBytes c' = cc_windowSizeBytes c - pr_SizeBytes r ∧
       inflight_bytes c' = cc_windowSizeBytes c' + pr_SizeBytes r).
Proof.
  intros Hcf Hok c. assert (Hc : cc_inv c) by (apply cc_run_inv; [by apply newDefaultController_inv|done]).
  split; [|split].
  - rewrite <- outstanding_inflight, <- (ci_window c Hc). split_and!; [done|by rewrite Available_eq, (ci_window c Hc)|apply Hc..].
  - intros seq n. by apply OnTransmit_refused.
  - intros seq r. by apply OnLostPacket_given_up.
Qed.

(** ** Witnesses *)

Definition demo_controller : defaultController :=
  cc_run [COnTransmit 1 Initial 900; COnTransmit 2 Initial 900; COnTransmit 2 Retransmission 900]
    (newDefaultController defaultCtrlConfig).

Definition demo_ack : Ack := mk_Ack (30 * Millisecond) (80 * Millisecond) Second.

Lemma default_config_ok : config_ok defaultCtrlConfig.
Proof. unfold config_ok. vm_compute. repeat split; discriminate. Qed.

Lemma demo_ack_ok : ack_ok demo_ack.
Proof. unfold ack_ok. vm_compute. done. Qed.

Lemma demo_run_ok :
  run_ok [COnTransmit 1 Initial 900; COnTransmit 2 Initial 900; COnTransmit 2 Retransmission 900]
    (newDefaultController defaultCtrlConfig).
Proof.
  split; [split; vm_compute; discriminate|]. split; [split; vm_compute; discriminate|].
  split; [|exact I]. intros r Hr. vm_compute in Hr. injection Hr as <-. reflexivity.
Qed.

Lemma demo_controller_inv : cc_inv demo_controller.
Proof. apply cc_run_inv; [apply newDefaultController_inv, default_config_ok|apply demo_run_ok]. Qed.

(** A late acknowledgement: 250 milliseconds above the base delay of the first. *)
Definition demo_late_ack : Ack := mk_Ack (280 * Millisecond) (300 * Millisecond) (2 * Second).
Definition demo_slowed : defaultController :=
  cc_run [COnAck 1 demo_ack Second; COnTransmit 3 Initial 900] demo_controller.

Lemma demo_slowed_inv : cc_inv demo_slowed.
Proof.
  apply cc_run_inv; [apply demo_controller_inv|]. split; [apply demo_ack_ok|]. split; [|exact I].
  split; vm_compute; discriminate.
Qed.

Lemma congestion_window_bounds_witness :
  window_between demo_controller (snd (cc_step (COnAck 1 demo_ack Second) demo_controller)) ∧
  cc_maxWindowSizeBytes (snd (cc_step COnTimeout demo_controller)) = 2048 ∧
  cc_maxWindowSizeBytes demo_controller
    ≤ cc_maxWindowSizeBytes (snd (cc_step (COnAck 1 demo_ack Second) demo_controller)) ∧
  cc_maxWindowSizeBytes (snd (cc_step (COnAck 2 demo_late_ack (2 * Second)) demo_slowed))
    ≤ cc_maxWindowSizeBytes demo_slowed.
Proof.
  split_and!.
  - apply (congestion_window_bounds demo_controller (COnAck 1 demo_ack Second));
      [apply demo_controller_inv|vm_compute; discriminate|vm_compute; reflexivity].
  - apply (congestion_window_bounds demo_controller COnTimeout);
      [apply demo_controller_inv|vm_compute; discriminate|vm_compute; reflexivity].
  - destruct (congestion_window_bounds demo_controller (COnAck 1 demo_ack Second)) as [_ Hr];
      [apply demo_controller_inv|vm_compute; discriminate|vm_compute; reflexivity|].
    assert (E : cc_transmissions demo_controller !! 1 = Some (mk_packetRecord 900 1 false)) by (vm_compute; reflexivity).
    unfold window_rule in Hr. rewrite E in Hr. cbn [pr_Acked] in Hr.
    apply Hr; [repeat split; vm_compute; reflexivity|vm_compute; reflexivity|vm_compute; discriminate].
  - destruct (congestion_window_bounds demo_slowed (COnAck 2 demo_late_ack (2 * Second))) as [_ Hr];
      [apply demo_slowed_inv|vm_compute; discriminate|vm_compute; reflexivity|].
    assert (E : cc_transmissions demo_slowed !! 2 = Some (mk_packetRecord 900 2 false)) by (vm_compute; reflexivity).
    unfold window_rule in Hr. rewrite E in Hr. cbn [pr_Acked] in Hr.
    apply Hr; [repeat split; vm_compute; reflexivity|vm_compute; reflexivity|vm_compute; discriminate].
Defined.

Lemma retransmission_timeout_estimator_witness :
  cc_rttVarianceMicros (snd (cc_OnAck 1 demo_ack Second demo_controller)) = 20000 ∧
  cc_rtt (snd (cc_OnAck 1 demo_ack Second demo_controller)) = 10000 ∧
  cc_rtt (snd (cc_OnAck 2 demo_ack Second demo_controller)) = 0.
Proof.
  pose proof (retransmission_timeout_estimator demo_controller 1 demo_ack Second
    (mk_packetRecord 900 1 false) demo_controller_inv demo_ack_ok eq_refl eq_refl) as (H1 & H2 & _).
  pose proof (retransmission_timeout_estimator demo_controller 2 demo_ack Second
    (mk_packetRecord 900 2 false) demo_controller_inv demo_ack_ok eq_refl eq_refl) as (_ & H3 & _).
  split_and!; [rewrite H1|rewrite H2|rewrite H3]; vm_compute; reflexivity.
Defined.

Lemma inflight_accounting_witness :
  cc_windowSizeBytes demo_controller = 1800 ∧ cc_BytesAvailableInWindow demo_controller = 248 ∧
  fst (cc_OnTransmit 3 Initial 900 demo_controller) = Some ErrInsufficientWindowSize ∧
  fst (cc_OnLostPacket 2 false demo_controller) = None.
Proof.
  pose proof (inflight_accounting defaultCtrlConfig
    [COnTransmit 1 Initial 900; COnTransmit 2 Initial 900; COnTransmit 2 Retransmission 900]
    default_config_ok demo_run_ok) as ((H1 & H2 & _) & H3 & H4).
  fold demo_controller in H1, H2, H3, H4. split; [rewrite H1|split; [rewrite H2|split]].
  - vm_compute. reflexivity.
  - vm_compute. reflexivity.
  - destruct (H3 3 900) as (c' & E & _); [vm_compute; reflexivity|lia|vm_compute; split; reflexivity|].
    rewrite E. reflexivity.
  - destruct (H4 2 (mk_packetRecord 900 2 false)) as (c' & E & _); [vm_compute; reflexivity|reflexivity|].
    rewrite E. reflexivity.
Defined.
