(* ===== verification/SentPackets.v ===== *)
(** * The packets sent on a connection (sent_packet.go)

    [sentPackets] numbers the packets of a connection, keeps them for
    retransmission, processes acknowledgements (cumulative and selective) and
    detects losses; it drives a congestion controller through the interface
    [Controller].  Methods are stateful ([method]): what they changed before an
    error stays changed.

    The invariant covers a connection that sends at most 65533 packets: the
    list of packets is never trimmed, so beyond that the 16-bit sequence
    numbers no longer identify a packet (theorem [sequence_number_exhaustion]). *)

From Stdlib Require Import ZArith Lia.
From stdpp Require Import base list gmap fin_maps sets sorting.
From S2P Require Import Prelude.
From S2P Require Import Seq.
From S2P Require Import SelectiveAck.
From S2P Require Import Packet.
From S2P Require Import BTree.
From S2P Require Import Controller.
From S2P Require Import Float64.
From S2P Require Import Congestion.

Definition LossThreshold : Z := 3.

Record LostPacket := mk_LostPacket { lp_SeqNum : Z; lp_PacketType : PacketType; lp_Data : list Z }.

Record sentPacket := mk_sentPacket {
  p_seqNum : Z;
  p_packetType : PacketType;
  p_data : list Z;
  p_transmission : Z;
  p_retransmission : Z;
  p_acks : list Z;
}.

Definition p_rtt (s : sentPacket) (now : Z) : Z :=
  let lastTransmission :=
    if p_retransmission s =? p_transmission s then p_transmission s else p_retransmission s in
  now - lastTransmission.

(** [append(l[:i], l[i+1:]...)] at the first occurrence; nil when there is none. *)
Fixpoint Remove_at (seq : Z) (before after : list Z) : list Z :=
  match after with
  | [] => []
  | x :: after => if x =? seq then before ++ after else Remove_at seq (before ++ [x]) after
  end.
Definition Remove (seq : Z) (l : list Z) : list Z := Remove_at seq [] l.

Definition p_acked (p : sentPacket) : bool := negb (len (p_acks p) =? 0).

Section sent_packets.
Context `{BTreeImpl} {C : Type} `{Controller C}.

Record sentPackets := mk_sentPackets {
  sp_packets : list sentPacket;
  sp_initSeqNum : Z;
  sp_lostPackets : btree unit;
  sp_congestionCtrl : C;
}.

Definition newSentPackets (initSeqNum : Z) (congestionCtrl : C) : sentPackets :=
  mk_sentPackets [] initSeqNum bt_New congestionCtrl.

Definition with_packets (ps : list sentPacket) (s : sentPackets) : sentPackets :=
  mk_sentPackets ps (sp_initSeqNum s) (sp_lostPackets s) (sp_congestionCtrl s).
Definition with_lost (l : btree unit) (s : sentPackets) : sentPackets :=
  mk_sentPackets (sp_packets s) (sp_initSeqNum s) l (sp_congestionCtrl s).
Definition with_ctl (c : C) (s : sentPackets) : sentPackets :=
  mk_sentPackets (sp_packets s) (sp_initSeqNum s) (sp_lostPackets s) c.

Definition sp_OnTimeout (s : sentPackets) : sentPackets :=
  with_ctl (ctl_OnTimeout (sp_congestionCtrl s)) s.

Definition sp_NextSeqNum (s : sentPackets) : Z :=
  sp_initSeqNum s ⊕ u16 (len (sp_packets s)) ⊕ 1.

(** The last packet of the acknowledged prefix. *)
Fixpoint last_ack (num : Z) (none : bool) (ps : list sentPacket) : Z * bool :=
  match ps with
  | p :: ps => if p_acked p then last_ack (p_seqNum p) false ps else (num, none)
  | [] => (num, none)
  end.

Definition sp_LastAckNum (s : sentPackets) : Z * bool :=
  if len (sp_packets s) =? 0 then (0, true) else last_ack 0 true (sp_packets s).

Definition sp_AckNum (s : sentPackets) : Z :=
  let '(num, isNone) := sp_LastAckNum s in if isNone then 0 else num.

Definition sp_SeqNumRange (s : sentPackets) : circularRangeInclusive :=
  newCircularRangeInclusive (sp_initSeqNum s) (sp_NextSeqNum s ⊖ 1).

Definition sp_Timeout (s : sentPackets) : Z := ctl_Timeout (sp_congestionCtrl s).
Definition sp_Window (s : sentPackets) : Z := ctl_BytesAvailableInWindow (sp_congestionCtrl s).

Definition sp_SeqNumIndex (s : sentPackets) (seqNum : Z) : Z :=
  if sp_initSeqNum s <? seqNum then seqNum ⊖ sp_initSeqNum s ⊖ 1
  else MaxUint16 ⊖ sp_initSeqNum s ⊕ seqNum.

Definition sp_FirstUnackedSeqNum (s : sentPackets) : fallible Z :=
  if len (sp_packets s) =? 0 then fail ErrNoneAckNum
  else
    let '(lastAckNum, isNone) := sp_LastAckNum s in
    if isNone then ok (sp_initSeqNum s ⊕ 1)
    else
      last ← index (sp_packets s) (len (sp_packets s) - 1);
      if p_seqNum last =? lastAckNum then fail ErrNoneAckNum else ok (lastAckNum ⊕ 1).

Definition sp_HasUnackedPackets (s : sentPackets) : outcome bool :=
  r ← sp_FirstUnackedSeqNum s;
  mret (match r with inl _ => false | inr _ => true end).

Definition sp_HasLostPackets (s : sentPackets) : bool := negb (bt_Len (sp_lostPackets s) =? 0).

Fixpoint lost_list (s : sentPackets) (keys : list Z) : outcome (list LostPacket) :=
  match keys with
  | [] => mret []
  | seqNum :: keys =>
      p ← index (sp_packets s) (sp_SeqNumIndex s seqNum);
      rest ← lost_list s keys;
      mret (mk_LostPacket (p_seqNum p) (p_packetType p) (p_data p) :: rest)
  end.

Definition sp_LostPackets (s : sentPackets) : outcome (list LostPacket) :=
  lost_list s (bt_Ascend (sp_lostPackets s)).*1.

Definition set_retransmission (now : Z) (p : sentPacket) : sentPacket :=
  mk_sentPacket (p_seqNum p) (p_packetType p) (p_data p) (p_transmission p) now (p_acks p).

Definition sp_OnTransmit (seqNum : Z) (packetType : PacketType) (data : list Z) (dataLen now : Z)
    (s : sentPackets) : outcome sentPackets :=
  let i := sp_SeqNumIndex s seqNum in
  let isRetransmission := i <? len (sp_packets s) in
  if len (sp_packets s) <? i then Panic PanicOutOfOrderTransmit
  else if negb isRetransmission && (sp_Window s <? dataLen) then Panic PanicExceedsSendWindow
  else
    let s :=
      if i <? len (sp_packets s)
      then with_packets (alter (set_retransmission now) (Z.to_nat i) (sp_packets s)) s
      else with_packets (sp_packets s ++ [mk_sentPacket seqNum packetType data now now []]) s in
    let transmit := if isRetransmission then Retransmission else Initial in
    let '(err, ctl) := ctl_OnTransmit seqNum transmit dataLen (sp_congestionCtrl s) in
    match err with
    | Some _ => Panic PanicController
    | None => mret (with_ctl ctl s)
    end.

Definition add_ack (now : Z) (p : sentPacket) : sentPacket :=
  mk_sentPacket (p_seqNum p) (p_packetType p) (p_data p) (p_transmission p) (p_retransmission p)
    (p_acks p ++ [now]).

(** [clk] is the clock that the controller reads. *)
Definition sp_Ack (seqNum delay now clk : Z) : method sentPackets unit := λ s,
  let i := sp_SeqNumIndex s seqNum in
  p ← index (sp_packets s) i;
  let ack := mk_Ack delay (p_rtt p now) now in
  let '(err, ctl) := ctl_OnAck (p_seqNum p) ack clk (sp_congestionCtrl s) in
  let s := with_ctl ctl s in
  match err with
  | Some e => Ret (inl e, s)
  | None =>
      Ret (inr tt,
        if len (p_acks p) =? 0
        then with_lost (bt_Delete (p_seqNum p) (sp_lostPackets s))
               (with_packets (alter (add_ack now) (Z.to_nat i) (sp_packets s)) s)
        else s)
  end.

(** The loop over the bits of a selective acknowledgement. *)
Fixpoint sack_bits (r : circularRangeInclusive) (sackNum delay now clk : Z) (bits : list bool)
  : method sentPackets unit :=
  match bits with
  | [] => done_ tt
  | ack :: bits =>
      if negb (Contains r sackNum) then done_ tt
      else
        (if ack : bool then sp_Ack sackNum delay now clk else done_ tt) ;!
        sack_bits r (sackNum ⊕ 1) delay now clk bits
  end.

Definition sp_OnSelectiveAck (ackNum : Z) (selectiveAck : SelectiveAck) (delay now clk : Z)
  : method sentPackets unit :=
  sp_Ack ackNum delay now clk ;!
  s ←! get_;
  sack_bits (sp_SeqNumRange s) (ackNum ⊕ 2) delay now clk (Acked selectiveAck).

(** The reverse loop: an unacknowledged packet is lost when at least three later
    ones were acknowledged. *)
Fixpoint detect_rev (acked : Z) (rev_packets : list sentPacket) : list Z :=
  match rev_packets with
  | [] => []
  | p :: ps =>
      (if (len (p_acks p) =? 0) && (LossThreshold <=? acked) then [p_seqNum p] else []) ++
      detect_rev (if 0 <? len (p_acks p) then acked + 1 else acked) ps
  end.

Definition sp_DetectLostPackets (firstUnacked : Z) (s : sentPackets) : outcome (list Z) :=
  packets ← slice_from (sp_packets s) (sp_SeqNumIndex s firstUnacked);
  mret (detect_rev 0 (reverse packets)).

Definition sp_AckPriorUnacked (seqNum firstUnacked delay now clk : Z) : method sentPackets unit :=
  s ←! get_;
  let start := sp_SeqNumIndex s firstUnacked in
  let end_ := sp_SeqNumIndex s seqNum in
  if end_ <=? start then done_ tt
  else
    packets ←! lift_ (slice (sp_packets s) start end_);
    each_ (λ p, sp_Ack (p_seqNum p) delay now clk) packets.

Definition sp_OnLost (seqNum : Z) (retransmitting : bool) : method sentPackets unit := λ s,
  if negb (Contains (sp_SeqNumRange s) seqNum) then Ret (inl ErrCannotFindLostPacket, s)
  else
    let '(err, ctl) := ctl_OnLostPacket seqNum retransmitting (sp_congestionCtrl s) in
    Ret (match err with Some _ => inl ErrSentPacketMarkLost | None => inr tt end, with_ctl ctl s).

(** The body of the loop over newly lost packets; the error is dropped. *)
Definition mark_lost (seqNum : Z) : method sentPackets unit :=
  modify_ (λ s, with_lost (bt_ReplaceOrInsert seqNum tt (sp_lostPackets s)) s) ;!
  _ ←! try_ (sp_OnLost seqNum true);
  done_ tt.

Definition sp_OnAckNum (ackNum : Z) (selectiveAck : option SelectiveAck) (delay now clk : Z)
  : method sentPackets unit :=
  match selectiveAck with
  | Some sack => sp_OnSelectiveAck ackNum sack delay now clk
  | None => sp_Ack ackNum delay now clk
  end ;!
  firstUnacked ←! (λ s, r ← sp_FirstUnackedSeqNum s; Ret (r, s));
  sp_AckPriorUnacked ackNum firstUnacked delay now clk ;!
  s ←! get_;
  losts ←! lift_ (sp_DetectLostPackets firstUnacked s);
  each_ mark_lost losts.

(** The sequence numbers of the set bits. *)
Fixpoint selected_acks (num : Z) (bits : list bool) : list Z :=
  match bits with
  | [] => []
  | b :: bits => (if b : bool then [num] else []) ++ selected_acks (num ⊕ 1) bits
  end.

Definition sp_onAck (ackNum : Z) (selectiveAck : option SelectiveAck) (delay now clk : Z)
  : method sentPackets (circularRangeInclusive * list Z) :=
  s ←! get_;
  let seqRange := sp_SeqNumRange s in
  seqRange ←!
    (if negb (Contains seqRange ackNum) then
       if negb (len (sp_packets s) =? 0) && (cr_end seqRange =? cr_start seqRange) then
         let seqRange := newCircularRangeInclusive (cr_start seqRange) (cr_end seqRange ⊖ 1) in
         if negb (Contains seqRange ackNum) then error_ ErrInvalidAckNum else done_ seqRange
       else error_ ErrInvalidAckNum
     else done_ seqRange);
  (if negb (ackNum =? cr_start seqRange) then sp_OnAckNum ackNum selectiveAck delay now clk
   else done_ tt) ;!
  done_ (newCircularRangeInclusive (cr_start seqRange) ackNum,
         match selectiveAck with
         | Some sack => selected_acks (ackNum ⊕ 2) (Acked sack)
         | None => []
         end).
End sent_packets.
Arguments sentPackets {_} C.

(** ** Invariant *)

Section invariant.
Context `{BTreeLaws} {C : Type} `{ControllerLaws C}.
(** The clock readings of the connection lie within 13 days after [T0]. *)
Context (T0 : Z).
Implicit Types s : sentPackets C.

Definition time_ok (t : Z) : Prop := T0 ≤ t < T0 + MAX_RTT.

(** The sequence number of the packet at an index. *)
Definition seq_at s (i : nat) : Z := sp_initSeqNum s ⊕ (1 + Z.of_nat i).

Definition packet_times (p : sentPacket) : Prop :=
  time_ok (p_transmission p) ∧ time_ok (p_retransmission p).

Definition MAX_PACKETS : Z := 65533.

Record sp_inv s : Prop := {
  si_init : is_u16 (sp_initSeqNum s);
  si_len : len (sp_packets s) ≤ MAX_PACKETS;
  si_seq i p : sp_packets s !! i = Some p → p_seqNum p = seq_at s i;
  si_times : Forall packet_times (sp_packets s);
  si_ctl : ctl_wf (sp_congestionCtrl s);
  (** the controller knows exactly the packets of the list, and agrees on which
      were acknowledged *)
  si_view i p : sp_packets s !! i = Some p →
    ∃ v, ctl_view (sp_congestionCtrl s) !! seq_at s i = Some v ∧ pv_acked v = p_acked p;
  si_known k v : ctl_view (sp_congestionCtrl s) !! k = Some v →
    ∃ i, (i < length (sp_packets s))%nat ∧ k = seq_at s i;
  (** a lost packet is in the list and not acknowledged *)
  si_lost k u : bt_Get k (sp_lostPackets s) = Some u →
    ∃ i p, sp_packets s !! i = Some p ∧ k = seq_at s i ∧ p_acked p = false;
}.

(** ** Sequence numbers and indices *)

Lemma seq_at_u16 s i : is_u16 (seq_at s i).
Proof. apply u16_range. Qed.

Lemma SeqNumIndex_eq s seq :
  is_u16 (sp_initSeqNum s) → is_u16 seq → sp_SeqNumIndex s seq = seq ⊖ sp_initSeqNum s ⊖ 1.
Proof. intros. unfold sp_SeqNumIndex. case_bool; go_lia. Qed.

Lemma SeqNumIndex_seq_at s i :
  is_u16 (sp_initSeqNum s) → Z.of_nat i < 65536 → sp_SeqNumIndex s (seq_at s i) = Z.of_nat i.
Proof.
  intros Hi Hn. rewrite SeqNumIndex_eq by (done || apply seq_at_u16). unfold seq_at. go_lia.
Qed.

Lemma seq_at_inj s i j :
  is_u16 (sp_initSeqNum s) → Z.of_nat i < 65536 → Z.of_nat j < 65536 → seq_at s i = seq_at s j → i = j.
Proof.
  intros Hs Hi Hj E. apply Nat2Z.inj. rewrite <- !(SeqNumIndex_seq_at s) by done. by rewrite E.
Qed.

Lemma NextSeqNum_eq s : sp_NextSeqNum s = seq_at s (length (sp_packets s)).
Proof. unfold sp_NextSeqNum, seq_at, len. go_lia. Qed.

Lemma seq_at_succ s i : seq_at s i ⊕ 1 = seq_at s (S i).
Proof. unfold seq_at. go_lia. Qed.

Lemma seq_at_of_offset s k :
  is_u16 k → is_u16 (sp_initSeqNum s) → k ≠ sp_initSeqNum s →
  k = seq_at s (Z.to_nat (k ⊖ sp_initSeqNum s - 1)).
Proof. intros. unfold seq_at. assert (1 ≤ k ⊖ sp_initSeqNum s) by go_lia. rewrite Z2Nat.id by lia. go_lia. Qed.

Lemma SeqNumRange_wf s : is_u16 (sp_initSeqNum s) → range_wf (sp_SeqNumRange s).
Proof. intros. split; [done|apply u16_range]. Qed.

Lemma SeqNumRange_dist s :
  is_u16 (sp_initSeqNum s) → len (sp_packets s) ≤ 65535 →
  cr_dist (sp_SeqNumRange s) = len (sp_packets s).
Proof.
  intros Hi Hl. unfold cr_dist, sp_SeqNumRange. simpl. rewrite NextSeqNum_eq. unfold seq_at, len in *. go_lia.
Qed.

(** The range of sent sequence numbers contains the initial one and those of
    the packets. *)
Lemma SeqNumRange_Contains s k :
  sp_inv s → is_u16 k →
  Contains (sp_SeqNumRange s) k = bool_decide (k ⊖ sp_initSeqNum s ≤ len (sp_packets s)).
Proof.
  intros Hs Hk. pose proof (si_len s Hs). unfold MAX_PACKETS in *.
  apply eq_true_iff_eq. rewrite Contains_offset, bool_decide_eq_true by (done || apply SeqNumRange_wf, Hs).
  rewrite SeqNumRange_dist; [done|apply Hs|lia].
Qed.

Lemma Contains_seq_at s i :
  sp_inv s → Z.of_nat i < 65535 →
  Contains (sp_SeqNumRange s) (seq_at s i) = bool_decide (i < length (sp_packets s))%nat.
Proof.
  intros Hs Hi. rewrite SeqNumRange_Contains by (done || apply seq_at_u16).
  pose proof (si_init s Hs). apply bool_decide_ext. unfold seq_at, len. go_lia.
Qed.

Lemma newSentPackets_inv init c :
  is_u16 init → ctl_wf c → ctl_view c = ∅ → sp_inv (newSentPackets init c).
Proof.
  intros Hi Hc Hv. split; simpl; try done.
  - intros k v Hk. rewrite Hv, lookup_empty in Hk. done.
  - intros k u Hk. by rewrite bt_Get_New in Hk.
Qed.

Lemma lookup_index s i p :
  sp_inv s → sp_packets s !! i = Some p → index (sp_packets s) (sp_SeqNumIndex s (seq_at s i)) = Ret p.
Proof.
  intros Hs Hp. pose proof (lookup_lt_Some _ _ _ Hp). pose proof (si_len s Hs). unfold MAX_PACKETS, len in *.
  rewrite SeqNumIndex_seq_at; [by apply index_Ret|apply Hs|lia].
Qed.

(** ** Marking packets as acknowledged *)

(** A packet without its acknowledgements. *)
Definition strip (p : sentPacket) : sentPacket :=
  mk_sentPacket (p_seqNum p) (p_packetType p) (p_data p) (p_transmission p) (p_retransmission p) [].

Definition sent_info (v : pkt_view) : Z * Z := (pv_size v, pv_count v).

(** [s'] is [s] with the packets selected by [f] acknowledged, and so no longer
    lost. *)
Record acked_by (f : nat → bool) s s' : Prop := {
  ab_init : sp_initSeqNum s' = sp_initSeqNum s;
  ab_strip : strip <$> sp_packets s' = strip <$> sp_packets s;
  ab_acked i : p_acked <$> sp_packets s' !! i = (λ p, p_acked p || f i) <$> sp_packets s !! i;
  ab_lost i : (i < length (sp_packets s))%nat →
    bt_Get (seq_at s i) (sp_lostPackets s')
    = if f i then None else bt_Get (seq_at s i) (sp_lostPackets s);
  ab_info k : sent_info <$> ctl_view (sp_congestionCtrl s') !! k
              = sent_info <$> ctl_view (sp_congestionCtrl s) !! k;
}.

Lemma ab_length f s s' : acked_by f s s' → length (sp_packets s') = length (sp_packets s).
Proof. intros Hab. rewrite <- (length_fmap strip), (ab_strip f s s' Hab). apply length_fmap. Qed.

Lemma ab_seq_at f s s' i : acked_by f s s' → seq_at s' i = seq_at s i.
Proof. intros Hab. unfold seq_at. by rewrite (ab_init f s s' Hab). Qed.

Lemma acked_by_refl s : acked_by (λ _, false) s s.
Proof. split; try done. intros i. destruct (sp_packets s !! i); simpl; [by rewrite orb_false_r|done]. Qed.

Lemma acked_by_trans f g h s s' s'' :
  acked_by f s s' → acked_by g s' s'' →
  (∀ i, (i < length (sp_packets s))%nat → h i = f i || g i) → acked_by h s s''.
Proof.
  intros Hf Hg Hh. split.
  - by rewrite (ab_init _ _ _ Hg), (ab_init _ _ _ Hf).
  - by rewrite (ab_strip _ _ _ Hg), (ab_strip _ _ _ Hf).
  - intros i. rewrite (ab_acked _ _ _ Hg). pose proof (ab_acked _ _ _ Hf i) as E.
    destruct (sp_packets s !! i) eqn:Ei, (sp_packets s' !! i); try done. simpl in *. simplify_eq.
    rewrite Hh by (by eapply lookup_lt_Some). f_equal. rewrite orb_assoc. congruence.
  - intros i Hi. rewrite <- (ab_seq_at _ _ _ i Hf). rewrite (ab_lost _ _ _ Hg) by (by rewrite (ab_length _ _ _ Hf)).
    rewrite (ab_seq_at _ _ _ i Hf), (ab_lost _ _ _ Hf), Hh by done. by destruct (f i), (g i).
  - intros k. by rewrite (ab_info _ _ _ Hg), (ab_info _ _ _ Hf).
Qed.

Lemma p_rtt_ok p now delay : packet_times p → time_ok now → ack_ok (mk_Ack delay (p_rtt p now) now).
Proof. unfold packet_times, time_ok, ack_ok, p_rtt. simpl. intros [??] ?. case_bool; lia. Qed.

Lemma add_ack_acked now p : p_acked (add_ack now p) = true.
Proof. unfold p_acked, add_ack. simpl. rewrite len_app, len_cons. pose proof (len_nonneg (p_acks p)).
  unfold len at 2. simpl. by case_bool; [lia|]. Qed.

(** The state after the acknowledgement of packet [i]. *)
Definition ack_state (i : nat) (now : Z) (c : C) s : sentPackets C :=
  mk_sentPackets (alter (add_ack now) i (sp_packets s)) (sp_initSeqNum s)
    (bt_Delete (seq_at s i) (sp_lostPackets s)) c.

(** The part of the state that [Ack] changes besides the controller. *)
Lemma ack_packets_acked i now s j :
  p_acked <$> alter (add_ack now) i (sp_packets s) !! j
  = (λ p, p_acked p || bool_decide (j = i)) <$> sp_packets s !! j.
Proof.
  destruct (decide (j = i)) as [->|Hne].
  - rewrite list_lookup_alter_eq, bool_decide_true by done. destruct (sp_packets s !! i); [|done]. simpl.
    by rewrite add_ack_acked, orb_true_r.
  - rewrite list_lookup_alter_ne, bool_decide_false by done. destruct (sp_packets s !! j); [|done]. simpl.
    by rewrite orb_false_r.
Qed.

Lemma strip_alter now i (ps : list sentPacket) : strip <$> alter (add_ack now) i ps = strip <$> ps.
Proof.
  apply list_eq. intros j. rewrite !list_lookup_fmap.
  destruct (decide (j = i)) as [->|Hne]; [rewrite list_lookup_alter_eq|by rewrite list_lookup_alter_ne].
  by destruct (ps !! i).
Qed.

(** A state whose controller acknowledged packet [i] keeps the invariant. *)
Lemma acked_state_inv f s s' :
  sp_inv s → acked_by f s s' → ctl_wf (sp_congestionCtrl s') →
  (∀ i p, sp_packets s' !! i = Some p →
     ∃ v, ctl_view (sp_congestionCtrl s') !! seq_at s' i = Some v ∧ pv_acked v = p_acked p) →
  (∀ k u, bt_Get k (sp_lostPackets s') = Some u → bt_Get k (sp_lostPackets s) = Some u) →
  sp_inv s'.
Proof.
  intros Hs Hab Hwf Hview Hlost.
  assert (Hst : ∀ i p', sp_packets s' !! i = Some p' →
    ∃ p, sp_packets s !! i = Some p ∧ strip p' = strip p ∧ p_acked p' = p_acked p || f i).
  { intros i p' Hp'. pose proof (ab_acked _ _ _ Hab i) as E. rewrite Hp' in E.
    destruct (sp_packets s !! i) as [p|] eqn:Hp; [|done]. exists p. simpl in E. simplify_eq.
    split_and!; try done. pose proof (f_equal (.!! i) (ab_strip _ _ _ Hab)) as E2. cbv beta in E2.
    rewrite !list_lookup_fmap, Hp, Hp' in E2. exact (inj Some _ _ E2). }
  split.
  - rewrite (ab_init _ _ _ Hab). apply Hs.
  - unfold len. rewrite (ab_length _ _ _ Hab). apply Hs.
  - intros i p' Hp'. destruct (Hst i p' Hp') as (p & Hp & E & _). rewrite (ab_seq_at _ _ _ _ Hab).
    rewrite <- (si_seq s Hs i p Hp). by injection E.
  - apply Forall_lookup. intros i p' Hp'. destruct (Hst i p' Hp') as (p & Hp & E & _).
    pose proof (Forall_lookup_1 _ _ _ _ (si_times s Hs) Hp) as Ht. injection E as _ _ _ E1 E2.
    unfold packet_times in *. congruence.
  - done.
  - done.
  - intros k v Hk. pose proof (ab_info _ _ _ Hab k) as E. rewrite Hk in E.
    destruct (ctl_view (sp_congestionCtrl s) !! k) eqn:E'; [|done]. apply (si_known s Hs) in E' as (i & Hi & ->).
    exists i. by rewrite (ab_length _ _ _ Hab), (ab_seq_at _ _ _ _ Hab).
  - intros k u Hk. pose proof (Hlost k u Hk) as Hk0. apply (si_lost s Hs) in Hk0 as (i & p & Hp & -> & Ha).
    pose proof (lookup_lt_Some _ _ _ Hp) as Hi. rewrite (ab_lost _ _ _ Hab i Hi) in Hk.
    destruct (f i) eqn:Ef; [done|]. pose proof (ab_acked _ _ _ Hab i) as E. rewrite Hp in E. simpl in E.
    rewrite Ha, Ef in E. destruct (sp_packets s' !! i) as [p'|] eqn:Hp'; [|done]. simpl in E. simplify_eq.
    exists i, p'. split_and!; [done|by rewrite (ab_seq_at _ _ _ _ Hab)|done].
Qed.

Lemma seq_at_lt s i : sp_inv s → (i < length (sp_packets s))%nat → Z.of_nat i < 65536.
Proof. intros Hs Hi. pose proof (si_len s Hs). unfold MAX_PACKETS, len in *. lia. Qed.

Lemma seq_at_eq s i j :
  sp_inv s → (i < length (sp_packets s))%nat → (j < length (sp_packets s))%nat →
  seq_at s i = seq_at s j → i = j.
Proof. intros Hs Hi Hj. apply seq_at_inj; [apply Hs|by eapply seq_at_lt..]. Qed.

Lemma acked_not_lost s i p :
  sp_inv s → sp_packets s !! i = Some p → p_acked p = true →
  bt_Get (seq_at s i) (sp_lostPackets s) = None.
Proof.
  intros Hs Hp Ha. destruct (bt_Get _ _) as [u|] eqn:E; [|done].
  apply (si_lost s Hs) in E as (j & q & Hq & Eq & Hqa).
  assert (i = j) as <- by (eapply seq_at_eq; [done|by eapply lookup_lt_Some..|done]). congruence.
Qed.

(** The controller after the acknowledgement of packet [i], seen from a state
    whose packets carry it. *)
Lemma ack_view_ok s s' i v c' :
  sp_inv s → (i < length (sp_packets s))%nat →
  ctl_view (sp_congestionCtrl s) !! seq_at s i = Some v →
  ctl_view c' = <[seq_at s i := pv_ack v]> (ctl_view (sp_congestionCtrl s)) →
  acked_by (λ j, bool_decide (j = i)) s s' → sp_congestionCtrl s' = c' →
  ∀ j p, sp_packets s' !! j = Some p →
    ∃ w, ctl_view c' !! seq_at s' j = Some w ∧ pv_acked w = p_acked p.
Proof.
  intros Hs Hi Hv Hc' Hab _ j p Hp. pose proof (ab_acked _ _ _ Hab j) as E. rewrite Hp in E.
  destruct (sp_packets s !! j) as [q|] eqn:Hq; [|done]. simpl in E. injection E as E. rewrite E.
  rewrite (ab_seq_at _ _ _ j Hab), Hc'. destruct (decide (j = i)) as [->|Hne].
  - rewrite lookup_insert_eq, bool_decide_true, orb_true_r by done. by eexists.
  - rewrite lookup_insert_ne, bool_decide_false, orb_false_r; [by apply (si_view s Hs)|done|].
    intros Eq. apply Hne. symmetry. eapply seq_at_eq; [done|done|by eapply lookup_lt_Some|done].
Qed.

Lemma ack_info_same s (i : nat) v c' k :
  ctl_view (sp_congestionCtrl s) !! seq_at s i = Some v →
  ctl_view c' = <[seq_at s i := pv_ack v]> (ctl_view (sp_congestionCtrl s)) →
  sent_info <$> ctl_view c' !! k = sent_info <$> ctl_view (sp_congestionCtrl s) !! k.
Proof.
  intros Hv ->. destruct (decide (k = seq_at s i)) as [->|Hne].
  - by rewrite lookup_insert_eq, Hv.
  - by rewrite lookup_insert_ne.
Qed.

Lemma sp_Ack_spec s i delay now clk :
  sp_inv s → time_ok now → (i < length (sp_packets s))%nat →
  ∃ s', sp_Ack (seq_at s i) delay now clk s = Ret (inr tt, s') ∧ sp_inv s' ∧
        acked_by (λ j, bool_decide (j = i)) s s'.
Proof.
  intros Hs Hnow Hi. destruct (lookup_lt_is_Some_2 _ _ Hi) as [p Hp].
  destruct (si_view s Hs i p Hp) as (v & Hv & Hva).
  destruct (ctl_Ack (sp_congestionCtrl s) (seq_at s i) (mk_Ack delay (p_rtt p now) now) clk v)
    as (c' & Hc & Hwf & Hcv); [apply Hs|by apply p_rtt_ok; [eapply Forall_lookup_1; [apply Hs|]|]|done|].
  unfold sp_Ack. rewrite (lookup_index s i p Hs Hp). simpl. rewrite (si_seq s Hs i p Hp), Hc.
  rewrite SeqNumIndex_seq_at, Nat2Z.id by (apply Hs || by eapply seq_at_lt).
  destruct (len (p_acks p) =? 0) eqn:Ea.
  - assert (Hab : acked_by (λ j, bool_decide (j = i)) s (ack_state i now c' s)).
    { split; simpl; [done|apply strip_alter|apply ack_packets_acked| |intros; by eapply ack_info_same].
      intros j Hj. rewrite bt_Get_Delete. case_decide as E.
      - rewrite bool_decide_true; [done|]. by eapply seq_at_eq.
      - rewrite bool_decide_false; [done|congruence]. }
    exists (ack_state i now c' s). split_and!; [done| |done].
    apply (acked_state_inv _ s _ Hs Hab Hwf).
    + eapply ack_view_ok; done.
    + intros k u. simpl. rewrite bt_Get_Delete. by case_decide.
  - assert (Hpa : p_acked p = true) by (unfold p_acked; by rewrite Ea).
    assert (Hab : acked_by (λ j, bool_decide (j = i)) s (with_ctl c' s)).
    { split; simpl; [done|done| | |intros; by eapply ack_info_same].
      - intros j. destruct (decide (j = i)) as [->|Hne].
        + rewrite Hp. simpl. by rewrite Hpa.
        + rewrite bool_decide_false by done. destruct (sp_packets s !! j); simpl; [by rewrite orb_false_r|done].
      - intros j Hj. case_bool_decide as E; [|done]. subst j. by eapply acked_not_lost. }
    exists (with_ctl c' s). split_and!; [done| |done].
    apply (acked_state_inv _ s _ Hs Hab Hwf); [eapply ack_view_ok; done|done].
Qed.

(** ** Loops over acknowledgements *)

(** The bits of a selective acknowledgement that starts at index [i0]. *)
Definition sack_hit (i0 : nat) (bits : list bool) (j : nat) : bool :=
  bool_decide (i0 ≤ j)%nat && default false (bits !! (j - i0)%nat).

Lemma sack_hit_cons i0 b bits j :
  sack_hit i0 (b :: bits) j = (bool_decide (j = i0) && b) || sack_hit (S i0) bits j.
Proof.
  unfold sack_hit. destruct (decide (j = i0)) as [->|Hne].
  - rewrite !bool_decide_true, Nat.sub_diag by lia. simpl.
    rewrite bool_decide_false by lia. by rewrite orb_false_r.
  - rewrite (bool_decide_false (j = i0)) by done. simpl.
    destruct (decide (i0 ≤ j)%nat).
    + rewrite !bool_decide_true by lia. by replace (j - i0)%nat with (S (j - S i0)) by lia.
    + by rewrite !bool_decide_false by lia.
Qed.

Lemma sack_bits_spec r bits s i0 delay now clk :
  sp_inv s → time_ok now → r = sp_SeqNumRange s → (i0 ≤ S (length (sp_packets s)))%nat →
  ∃ s', sack_bits r (seq_at s i0) delay now clk bits s = Ret (inr tt, s') ∧ sp_inv s' ∧
        acked_by (sack_hit i0 bits) s s'.
Proof.
  intros Hs Hnow. revert s i0 Hs. induction bits as [|b bits IH]; intros s i0 Hs Hr Hi0; simpl.
  { exists s. split_and!; [done|done|]. eapply acked_by_trans; [apply acked_by_refl..|].
    intros i _. unfold sack_hit. rewrite lookup_nil. by destruct (bool_decide _). }
  pose proof (si_len s Hs) as Hl. unfold MAX_PACKETS, len in Hl.
  assert (Hc : Contains r (seq_at s i0) = bool_decide (i0 < length (sp_packets s))%nat)
    by (rewrite Hr; apply Contains_seq_at; [done|lia]).
  rewrite Hc. case_bool_decide as Hi; simpl.
  2: { exists s. split_and!; [done|done|]. eapply acked_by_trans; [apply acked_by_refl..|].
       intros i Hlt. unfold sack_hit. by rewrite bool_decide_false by lia. }
  assert (Hstep : ∃ s1, (if b then sp_Ack (seq_at s i0) delay now clk else done_ tt) s = Ret (inr tt, s1) ∧
    sp_inv s1 ∧ acked_by (λ j, bool_decide (j = i0) && b) s s1).
  { destruct b; [|exists s; split_and!; [done|done|]; eapply acked_by_trans; [apply acked_by_refl..|]; intros; by rewrite andb_false_r].
    destruct (sp_Ack_spec s i0 delay now clk Hs Hnow Hi) as (s1 & E & Hs1 & Hab). exists s1. split_and!; try done.
    eapply acked_by_trans; [apply acked_by_refl|apply Hab|]. intros. by rewrite andb_true_r. }
  destruct Hstep as (s1 & E1 & Hs1 & Hab1). rewrite (bind_Ret _ _ _ _ _ E1).
  rewrite seq_at_succ, <- (ab_seq_at _ _ _ (S i0) Hab1).
  assert (Hr1 : r = sp_SeqNumRange s1).
  { rewrite Hr. unfold sp_SeqNumRange. rewrite !NextSeqNum_eq, (ab_length _ _ _ Hab1), (ab_seq_at _ _ _ _ Hab1).
    by rewrite (ab_init _ _ _ Hab1). }
  destruct (IH s1 (S i0) Hs1 Hr1) as (s' & E & Hs' & Hab).
  { rewrite (ab_length _ _ _ Hab1). lia. }
  exists s'. split_and!; [done|done|].
  eapply acked_by_trans; [apply Hab1|apply Hab|]. intros. apply sack_hit_cons.
Qed.

(** ** The first unacknowledged packet *)

Fixpoint acked_prefix (ps : list sentPacket) : nat :=
  match ps with
  | p :: ps => if p_acked p then S (acked_prefix ps) else 0%nat
  | [] => 0%nat
  end.

Lemma acked_prefix_le ps : (acked_prefix ps ≤ length ps)%nat.
Proof. induction ps as [|p ps IH]; simpl; [lia|]. destruct (p_acked p); lia. Qed.

Lemma acked_prefix_lt ps i p :
  (i < acked_prefix ps)%nat → ps !! i = Some p → p_acked p = true.
Proof.
  revert i. induction ps as [|q ps IH]; intros i Hi Hp; [done|]. simpl in Hi.
  destruct (p_acked q) eqn:Eq; [|lia]. destruct i as [|i]; simplify_eq/=; [done|]. apply (IH i); [lia|done].
Qed.

Lemma acked_prefix_stop ps p : ps !! acked_prefix ps = Some p → p_acked p = false.
Proof.
  induction ps as [|q ps IH]; [done|]. simpl. destruct (p_acked q) eqn:Eq; simpl; [done|].
  by intros [= <-].
Qed.

Lemma last_ack_spec num none ps :
  last_ack num none ps =
  match acked_prefix ps with
  | O => (num, none)
  | S n => (default 0 (p_seqNum <$> ps !! n), false)
  end.
Proof.
  revert num none. induction ps as [|p ps IH]; intros num none; [done|]. simpl.
  destruct (p_acked p); [|done]. rewrite IH. by destruct (acked_prefix ps).
Qed.

(** [LastAckNum]: the last packet of the acknowledged prefix. *)
Lemma LastAckNum_spec s :
  sp_inv s →
  sp_LastAckNum s =
  match acked_prefix (sp_packets s) with O => (0, true) | S n => (seq_at s n, false) end.
Proof.
  intros Hs. unfold sp_LastAckNum. rewrite last_ack_spec.
  destruct (Z.eqb_spec (len (sp_packets s)) 0) as [E|E]; [by rewrite (len_zero _ E)|].
  destruct (acked_prefix _) as [|n] eqn:En; [done|]. pose proof (acked_prefix_le (sp_packets s)).
  destruct (lookup_lt_is_Some_2 (sp_packets s) n) as [p Hp]; [lia|]. rewrite Hp. simpl.
  by rewrite (si_seq s Hs n p Hp).
Qed.

Lemma FirstUnackedSeqNum_spec s :
  sp_inv s →
  sp_FirstUnackedSeqNum s =
  if decide (acked_prefix (sp_packets s) = length (sp_packets s)) then fail ErrNoneAckNum
  else ok (seq_at s (acked_prefix (sp_packets s))).
Proof.
  intros Hs. unfold sp_FirstUnackedSeqNum. rewrite LastAckNum_spec by done.
  destruct (Z.eqb_spec (len (sp_packets s)) 0) as [E|E]; [by rewrite (len_zero _ E)|].
  pose proof (acked_prefix_le (sp_packets s)) as Hle. unfold len in E.
  destruct (acked_prefix _) as [|n] eqn:En.
  { rewrite decide_False by lia. unfold seq_at. done. }
  destruct (lookup_lt_is_Some_2 (sp_packets s) (length (sp_packets s) - 1)) as [q Hq]; [lia|].
  replace (len (sp_packets s) - 1) with (Z.of_nat (length (sp_packets s) - 1)) by (unfold len; lia).
  rewrite (index_Ret _ _ _ Hq). simpl. rewrite (si_seq s Hs _ _ Hq).
  case_decide as Hd; case_bool; try done.
  - destruct n0. f_equal. lia.
  - assert ((length (sp_packets s) - 1)%nat = n) by (eapply seq_at_eq; [done|lia..|done]). lia.
  - by rewrite seq_at_succ.
Qed.

Lemma HasUnackedPackets_spec s :
  sp_inv s →
  sp_HasUnackedPackets s
  = Ret (negb (bool_decide (acked_prefix (sp_packets s) = length (sp_packets s)))).
Proof.
  intros Hs. unfold sp_HasUnackedPackets. rewrite FirstUnackedSeqNum_spec by done.
  by case_decide as E; [rewrite bool_decide_true|rewrite bool_decide_false].
Qed.

(** ** Acknowledging a run of packets *)

Definition between (n m j : nat) : bool := bool_decide (n ≤ j < m)%nat.

Lemma each_Ack_spec ps s n delay now clk :
  sp_inv s → time_ok now → (n + length ps ≤ length (sp_packets s))%nat →
  (∀ j p, ps !! j = Some p → p_seqNum p = seq_at s (n + j)) →
  ∃ s', each_ (λ p, sp_Ack (p_seqNum p) delay now clk) ps s = Ret (inr tt, s') ∧ sp_inv s' ∧
        acked_by (between n (n + length ps)) s s'.
Proof.
  intros Hs Hnow. revert s n Hs. induction ps as [|p ps IH]; intros s n Hs Hn Hps; simpl in *.
  { exists s. split_and!; [done|done|]. eapply acked_by_trans; [apply acked_by_refl..|].
    intros. unfold between. by rewrite bool_decide_false by lia. }
  rewrite (Hps 0%nat p eq_refl). replace (n + 0)%nat with n by lia.
  destruct (sp_Ack_spec s n delay now clk Hs Hnow) as (s1 & E1 & Hs1 & Hab1); [lia|].
  rewrite (bind_Ret _ _ _ _ _ E1).
  destruct (IH s1 (S n) Hs1) as (s' & E & Hs' & Hab).
  - rewrite (ab_length _ _ _ Hab1). lia.
  - intros j q Hq. rewrite (ab_seq_at _ _ _ _ Hab1). rewrite (Hps (S j) q Hq). f_equal. lia.
  - exists s'. split_and!; [done|done|]. eapply acked_by_trans; [apply Hab1|apply Hab|].
    intros j _. unfold between. repeat case_bool_decide; simpl; done || lia.
Qed.

Lemma AckPriorUnacked_spec s i n delay now clk :
  sp_inv s → time_ok now → (i < length (sp_packets s))%nat → (n < length (sp_packets s))%nat →
  ∃ s', sp_AckPriorUnacked (seq_at s i) (seq_at s n) delay now clk s = Ret (inr tt, s') ∧
        sp_inv s' ∧ acked_by (between n i) s s'.
Proof.
  intros Hs Hnow Hi Hn. unfold sp_AckPriorUnacked. erewrite bind_Ret by done.
  rewrite !SeqNumIndex_seq_at by (apply Hs || by eapply seq_at_lt).
  destruct (Z.leb_spec (Z.of_nat i) (Z.of_nat n)) as [Hle|Hgt].
  { exists s. split_and!; [done|done|]. eapply acked_by_trans; [apply acked_by_refl..|].
    intros. unfold between. by rewrite bool_decide_false by lia. }
  unfold lift_. erewrite bind_Ret; [|rewrite slice_Ret by (unfold len; lia); done].
  rewrite Nat2Z.id. replace (Z.to_nat (Z.of_nat i - Z.of_nat n)) with (i - n)%nat by lia.
  set (ps := take (i - n) (drop n (sp_packets s))).
  assert (Hl : length ps = (i - n)%nat) by (unfold ps; rewrite length_take, length_drop; lia).
  destruct (each_Ack_spec ps s n delay now clk) as (s' & E & Hs' & Hab); [done|done|lia| |].
  { intros j p Hp. unfold ps in Hp. apply lookup_take_Some in Hp as [Hp _]. rewrite lookup_drop in Hp.
    by apply (si_seq s Hs). }
  exists s'. split_and!; [done|done|]. by replace (n + length ps)%nat with i in Hab by lia.
Qed.

(** ** Loss detection *)

(** How many packets were acknowledged. *)
Definition acked_count (ps : list sentPacket) : Z := len (filter (λ p, p_acked p = true) ps).

Lemma acked_count_app ps qs : acked_count (ps ++ qs) = acked_count ps + acked_count qs.
Proof. unfold acked_count. by rewrite filter_app, len_app. Qed.

Lemma p_acked_len p : (len (p_acks p) =? 0) = negb (p_acked p) ∧ (0 <? len (p_acks p)) = p_acked p.
Proof.
  unfold p_acked. pose proof (len_nonneg (p_acks p)). rewrite negb_involutive.
  split; [done|]. repeat case_bool; simpl; done || lia.
Qed.

(** The reverse scan finds the unacknowledged packets that at least
    [LossThreshold] acknowledged ones follow. *)
Lemma detect_rev_spec a ps k :
  k ∈ detect_rev a (reverse ps) ↔
  ∃ j p, ps !! j = Some p ∧ p_acked p = false ∧ k = p_seqNum p ∧
         LossThreshold ≤ a + acked_count (drop (S j) ps).
Proof.
  revert a. induction ps as [|x ps IH] using rev_ind; intros a.
  { split; [by intros ?%not_elem_of_nil|]. intros (j & p & Hp & _). done. }
  rewrite reverse_snoc. cbn [detect_rev]. destruct (p_acked_len x) as [-> ->].
  rewrite elem_of_app, IH. split.
  - intros [Hx|(j & p & Hp & Ha & -> & Hc)].
    + destruct (p_acked x) eqn:Ex; simpl in Hx; [by apply not_elem_of_nil in Hx|].
      destruct (Z.leb_spec LossThreshold a); [|by apply not_elem_of_nil in Hx].
      apply list_elem_of_singleton in Hx as ->. exists (length ps), x.
      rewrite lookup_app_r, Nat.sub_diag by lia. split_and!; try done.
      rewrite drop_ge by (rewrite length_app; simpl; lia). change (acked_count []) with 0. lia.
    + exists j, p. pose proof (lookup_lt_Some _ _ _ Hp). rewrite lookup_app_l by done.
      split_and!; try done. rewrite drop_app_le, acked_count_app by lia.
      change (acked_count [x]) with (len (filter (λ p, p_acked p = true) [x])).
      rewrite filter_cons. destruct (p_acked x); simpl; [rewrite len_cons|]; change (len []) with 0 in *;
        unfold len; simpl; lia.
  - intros (j & p & Hp & Ha & -> & Hc). destruct (decide (j = length ps)) as [->|Hj].
    + rewrite lookup_app_r, Nat.sub_diag in Hp by lia. injection Hp as ->. left. rewrite Ha. simpl.
      rewrite drop_ge in Hc by (rewrite length_app; simpl; lia). change (acked_count []) with 0 in Hc.
      case_bool; [by left|lia].
    + assert (Hjl : (j < length ps)%nat).
      { apply lookup_lt_Some in Hp. rewrite length_app in Hp. simpl in Hp. lia. }
      right. exists j, p. rewrite lookup_app_l in Hp by done. split_and!; try done.
      rewrite drop_app_le, acked_count_app in Hc by lia.
      change (acked_count [x]) with (len (filter (λ p, p_acked p = true) [x])) in Hc.
      rewrite filter_cons in Hc. destruct (p_acked x); simpl in Hc; unfold len in *; simpl in *; lia.
Qed.

(** A packet that the scan of the whole list reports. *)
Definition detected s (j : nat) : Prop :=
  ∃ p, sp_packets s !! j = Some p ∧ p_acked p = false ∧
       LossThreshold ≤ acked_count (drop (S j) (sp_packets s)).

Lemma DetectLostPackets_spec s n :
  sp_inv s → (n ≤ length (sp_packets s))%nat →
  (∀ j p, sp_packets s !! j = Some p → p_acked p = false → (n ≤ j)%nat) →
  ∃ l, sp_DetectLostPackets (seq_at s n) s = Ret l ∧
       ∀ k, k ∈ l ↔ ∃ j, detected s j ∧ k = seq_at s j.
Proof.
  intros Hs Hn Hun. unfold sp_DetectLostPackets. pose proof (si_len s Hs). unfold MAX_PACKETS, len in *.
  rewrite SeqNumIndex_seq_at by (apply Hs || lia).
  rewrite slice_from_Ret, Nat2Z.id by (unfold len; lia). simpl. eexists. split; [done|].
  intros k. rewrite detect_rev_spec. split.
  - intros (j & p & Hp & Ha & -> & Hc). rewrite lookup_drop in Hp. exists (n + j)%nat.
    split; [|by apply (si_seq s Hs)]. exists p. split_and!; try done. rewrite drop_drop in Hc.
    by replace (S (n + j)) with (n + S j)%nat by lia.
  - intros (j & (p & Hp & Ha & Hc) & ->). pose proof (Hun j p Hp Ha). exists (j - n)%nat, p.
    rewrite lookup_drop, drop_drop. replace (n + (j - n))%nat with j by lia.
    replace (n + S (j - n))%nat with (S j) by lia. split_and!; try done. by rewrite (si_seq s Hs j p Hp).
Qed.

(** ** Recording losses *)

(** [s'] is [s] with the packets of [l] added to the lost ones. *)
Record lost_by (l : list Z) s s' : Prop := {
  lb_init : sp_initSeqNum s' = sp_initSeqNum s;
  lb_packets : sp_packets s' = sp_packets s;
  lb_lost k : is_Some (bt_Get k (sp_lostPackets s')) ↔ k ∈ l ∨ is_Some (bt_Get k (sp_lostPackets s));
  lb_view : ctl_view (sp_congestionCtrl s') = ctl_view (sp_congestionCtrl s);
}.

Lemma mark_lost_spec s i p :
  sp_inv s → sp_packets s !! i = Some p → p_acked p = false →
  ∃ s', mark_lost (seq_at s i) s = Ret (inr tt, s') ∧ sp_inv s' ∧ lost_by [seq_at s i] s s'.
Proof.
  intros Hs Hp Ha. pose proof (lookup_lt_Some _ _ _ Hp) as Hi.
  set (s1 := with_lost (bt_ReplaceOrInsert (seq_at s i) tt (sp_lostPackets s)) s).
  assert (Hcont : Contains (sp_SeqNumRange s1) (seq_at s i) = true).
  { change (sp_SeqNumRange s1) with (sp_SeqNumRange s). pose proof (si_len s Hs).
    unfold MAX_PACKETS, len in *. rewrite Contains_seq_at by (done || lia). by apply bool_decide_true. }
  destruct (si_view s Hs i p Hp) as (v & Hv & _).
  destruct (ctl_Lost (sp_congestionCtrl s) (seq_at s i) v) as (c' & Hc & Hwf & Hcv); [apply Hs|done|].
  assert (Hon : sp_OnLost (seq_at s i) true s1 = Ret (inr tt, with_ctl c' s1)).
  { unfold sp_OnLost. rewrite Hcont. simpl. by rewrite Hc. }
  exists (with_ctl c' s1). split.
  { unfold mark_lost. rewrite (bind_Ret _ _ _ tt s1) by done. unfold bind_, try_. by rewrite Hon. }
  assert (Hlb : lost_by [seq_at s i] s (with_ctl c' s1)).
  { split; simpl; try done. intros k. rewrite bt_Get_Insert, list_elem_of_singleton.
    case_decide; [|naive_solver]. split; [by left|by eexists]. }
  split; [|done]. split; simpl; try apply Hs; rewrite ?Hcv; try done.
  - intros j q Hq. by apply (si_view s Hs).
  - intros k w Hk. by eapply (si_known s Hs).
  - intros k u. rewrite bt_Get_Insert. case_decide as E; [|apply (si_lost s Hs)].
    intros _. subst k. by exists i, p.
Qed.

Lemma each_mark_lost_spec l s :
  sp_inv s →
  (∀ k, k ∈ l → ∃ i p, sp_packets s !! i = Some p ∧ p_acked p = false ∧ k = seq_at s i) →
  ∃ s', each_ mark_lost l s = Ret (inr tt, s') ∧ sp_inv s' ∧ lost_by l s s'.
Proof.
  revert s. induction l as [|k l IH]; intros s Hs Hl.
  { exists s. split_and!; [done|done|]. split; try done. intros k. rewrite elem_of_nil. naive_solver. }
  destruct (Hl k) as (i & p & Hp & Ha & ->); [by left|]. cbn [each_].
  destruct (mark_lost_spec s i p Hs Hp Ha) as (s1 & E1 & Hs1 & Hlb1). rewrite (bind_Ret _ _ _ _ _ E1).
  destruct (IH s1 Hs1) as (s' & E & Hs' & Hlb).
  { intros k Hk. destruct (Hl k) as (j & q & Hq & Hqa & ->); [by right|]. exists j, q.
    rewrite (lb_packets _ _ _ Hlb1). split_and!; try done. unfold seq_at. by rewrite (lb_init _ _ _ Hlb1). }
  exists s'. split_and!; [done|done|]. split.
  - by rewrite (lb_init _ _ _ Hlb), (lb_init _ _ _ Hlb1).
  - by rewrite (lb_packets _ _ _ Hlb), (lb_packets _ _ _ Hlb1).
  - intros k. rewrite (lb_lost _ _ _ Hlb), (lb_lost _ _ _ Hlb1). set_solver.
  - by rewrite (lb_view _ _ _ Hlb), (lb_view _ _ _ Hlb1).
Qed.

(** ** Processing an acknowledgement *)

Lemma acked_by_weaken f g s s' :
  sp_inv s' → acked_by f s s' → (∀ j, f j = true → g j = true) →
  (∀ j p, sp_packets s' !! j = Some p → g j = true → p_acked p = true) → acked_by g s s'.
Proof.
  intros Hs' Hab Hfg Hg. split; try apply Hab.
  - intros i. pose proof (ab_acked _ _ _ Hab i) as E. rewrite E.
    destruct (sp_packets s !! i) as [p|]; [|done]. destruct (sp_packets s' !! i) as [p'|] eqn:Hp'; [|done].
    simpl in *. injection E as E. f_equal. specialize (Hfg i). specialize (Hg i p' Hp').
    rewrite E in Hg. destruct (g i), (f i), (p_acked p); simpl in *; naive_solver.
  - intros i Hi. rewrite (ab_lost _ _ _ Hab) by done. specialize (Hfg i).
    destruct (g i) eqn:Eg; destruct (f i) eqn:Ef; try done; [|naive_solver].
    destruct (lookup_lt_is_Some_2 (sp_packets s') i) as [p Hp]; [by rewrite (ab_length _ _ _ Hab)|].
    pose proof (ab_lost _ _ _ Hab i Hi) as E. rewrite Ef in E. rewrite <- E.
    rewrite <- (ab_seq_at _ _ _ i Hab). by eapply acked_not_lost; [|done|eapply Hg].
Qed.

Definition sack_of (sack : option SelectiveAck) : list bool :=
  match sack with Some sk => Acked sk | None => [] end.

(** The packets an acknowledgement names itself: its number and the bits. *)
Definition named (i : nat) (sack : option SelectiveAck) (j : nat) : bool :=
  bool_decide (j = i) || sack_hit (i + 2) (sack_of sack) j.

(** The packets it covers: all up to its number too. *)
Definition covered (i : nat) (sack : option SelectiveAck) (j : nat) : bool :=
  bool_decide (j ≤ i)%nat || sack_hit (i + 2) (sack_of sack) j.

Lemma ack_named_spec s i sack delay now clk :
  sp_inv s → time_ok now → (i < length (sp_packets s))%nat →
  ∃ s1, match sack with
        | Some sk => sp_OnSelectiveAck (seq_at s i) sk delay now clk
        | None => sp_Ack (seq_at s i) delay now clk
        end s = Ret (inr tt, s1) ∧ sp_inv s1 ∧ acked_by (named i sack) s s1.
Proof.
  intros Hs Hnow Hi. destruct (sp_Ack_spec s i delay now clk Hs Hnow Hi) as (s0 & E0 & Hs0 & Hab0).
  destruct sack as [sk|].
  - unfold sp_OnSelectiveAck. rewrite (bind_Ret _ _ _ _ _ E0). erewrite bind_Ret by done.
    assert (Eq : seq_at s i ⊕ 2 = seq_at s0 (i + 2)).
    { rewrite (ab_seq_at _ _ _ _ Hab0). unfold seq_at. go_lia. }
    rewrite Eq. destruct (sack_bits_spec (sp_SeqNumRange s0) (Acked sk) s0 (i + 2) delay now clk)
      as (s1 & E1 & Hs1 & Hab1); [done|done|done|rewrite (ab_length _ _ _ Hab0); lia|].
    exists s1. split_and!; [done|done|]. eapply acked_by_trans; [apply Hab0|apply Hab1|]. done.
  - exists s0. split_and!; [done|done|]. eapply acked_by_trans; [apply acked_by_refl|apply Hab0|].
    intros j _. unfold named, sack_hit. cbn [sack_of]. rewrite lookup_nil. cbn [default].
    by rewrite andb_false_r, orb_false_r.
Qed.

(** All packets are acknowledged once those of [f] are. *)
Definition all_acked_with (f : nat → bool) s : Prop :=
  ∀ j p, sp_packets s !! j = Some p → p_acked p || f j = true.

Lemma all_acked_prefix f s s1 :
  acked_by f s s1 →
  acked_prefix (sp_packets s1) = length (sp_packets s1) ↔ all_acked_with f s.
Proof.
  intros Hab. split.
  - intros E j p Hp. pose proof (ab_acked _ _ _ Hab j) as Ej. rewrite Hp in Ej.
    destruct (sp_packets s1 !! j) as [p1|] eqn:Hp1; [|done]. simpl in Ej. injection Ej as <-.
    eapply acked_prefix_lt; [|done]. rewrite E. by eapply lookup_lt_Some.
  - intros Hall. pose proof (acked_prefix_le (sp_packets s1)) as Hle.
    destruct (decide (acked_prefix (sp_packets s1) = length (sp_packets s1))) as [|Hne]; [done|].
    destruct (lookup_lt_is_Some_2 (sp_packets s1) (acked_prefix (sp_packets s1))) as [p1 Hp1]; [lia|].
    pose proof (acked_prefix_stop _ _ Hp1) as Ha. pose proof (ab_acked _ _ _ Hab (acked_prefix (sp_packets s1))) as Ej.
    rewrite Hp1 in Ej. destruct (sp_packets s !! acked_prefix (sp_packets s1)) as [p|] eqn:Hp; [|done].
    simpl in Ej. injection Ej as Ej. rewrite (Hall _ _ Hp) in Ej. congruence.
Qed.

Lemma OnAckNum_spec s i sack delay now clk :
  sp_inv s → time_ok now → (i < length (sp_packets s))%nat →
  ∃ s2 r s3, sp_OnAckNum (seq_at s i) sack delay now clk s = Ret (r, s3) ∧
    sp_inv s2 ∧ sp_inv s3 ∧ acked_by (covered i sack) s s2 ∧
    ((all_acked_with (named i sack) s ∧ r = inl ErrNoneAckNum ∧ s3 = s2) ∨
     (¬ all_acked_with (named i sack) s ∧ r = inr tt ∧
      ∃ l, lost_by l s2 s3 ∧ ∀ k, k ∈ l ↔ ∃ j, detected s2 j ∧ k = seq_at s2 j)).
Proof.
  intros Hs Hnow Hi. destruct (ack_named_spec s i sack delay now clk Hs Hnow Hi) as (s1 & E1 & Hs1 & Hab1).
  unfold sp_OnAckNum. rewrite (bind_Ret _ _ _ _ _ E1).
  pose proof (all_acked_prefix _ _ _ Hab1) as Hall. pose proof (FirstUnackedSeqNum_spec s1 Hs1) as Hfu.
  pose proof (acked_prefix_le (sp_packets s1)) as Hle. pose proof (ab_length _ _ _ Hab1) as Hlen.
  assert (Hcov : ∀ j, named i sack j = true → covered i sack j = true).
  { intros j. unfold named, covered. repeat case_bool_decide; simpl; done || lia. }
  set (n := acked_prefix (sp_packets s1)) in *. case_decide as Hn.
  { exists s1, (inl ErrNoneAckNum), s1. split.
    { erewrite bind_error; [done|]. rewrite Hfu. done. }
    split_and!; [done|done| |left; split_and!; [by apply Hall|done|done]].
    eapply acked_by_weaken; [done|done|done|]. intros j p Hp _.
    eapply acked_prefix_lt; [|done]. fold n. rewrite Hn. by eapply lookup_lt_Some. }
  erewrite bind_Ret; [|rewrite Hfu; done].
  destruct (AckPriorUnacked_spec s1 i n delay now clk) as (s2 & E2 & Hs2 & Hab2); [done|done|lia|lia|].
  rewrite (ab_seq_at _ _ _ i Hab1) in E2. rewrite (bind_Ret _ _ _ _ _ E2). erewrite bind_Ret by done.
  assert (Hpre : ∀ j p, sp_packets s2 !! j = Some p → (j < n)%nat → p_acked p = true).
  { intros j p Hp Hj. pose proof (ab_acked _ _ _ Hab2 j) as E. rewrite Hp in E.
    destruct (sp_packets s1 !! j) as [p1|] eqn:Hp1; [|done]. simpl in E. injection E as ->.
    by rewrite (acked_prefix_lt _ _ _ Hj Hp1). }
  destruct (DetectLostPackets_spec s2 n Hs2) as (l & El & Hl).
  { rewrite (ab_length _ _ _ Hab2). lia. }
  { intros j p Hp Ha. destruct (Nat.le_gt_cases n j) as [|Hlt]; [done|]. by rewrite (Hpre j p Hp Hlt) in Ha. }
  rewrite (ab_seq_at _ _ _ n Hab2) in El. unfold lift_. erewrite bind_Ret by (rewrite El; done).
  destruct (each_mark_lost_spec l s2 Hs2) as (s3 & E3 & Hs3 & Hlb).
  { intros k (j & (p & Hp & Ha & _) & ->)%Hl. by exists j, p. }
  exists s2, (inr tt), s3. split_and!; [done|done|done| |right; split_and!; [by rewrite <- Hall|done|by exists l]].
  eapply (acked_by_weaken (λ j, named i sack j || between n i j)); [done|by eapply acked_by_trans| |].
  - intros j [Hj|Hj]%orb_true_iff; [by apply Hcov|]. unfold covered, between in *.
    apply bool_decide_eq_true in Hj. by rewrite bool_decide_true by lia.
  - intros j p Hp Hj. destruct (Nat.lt_ge_cases j n) as [|Hge]; [by eapply Hpre|].
    pose proof (ab_acked _ _ _ (acked_by_trans _ _ _ _ _ _ Hab1 Hab2 (λ _ _, eq_refl)) j) as E.
    rewrite Hp in E. destruct (sp_packets s !! j) as [p0|]; [|done]. simpl in E. injection E as ->.
    unfold covered, named, between in *. repeat case_bool_decide; simpl in *; try lia;
      rewrite ?Hj, ?orb_true_r; done.
Qed.

(** The lost packets after an acknowledgement that covers [f]. *)
Definition lost_after s s' (j : nat) : Prop :=
  ∃ p', sp_packets s' !! j = Some p' ∧ p_acked p' = false ∧
    (is_Some (bt_Get (seq_at s j) (sp_lostPackets s)) ∨
     LossThreshold ≤ acked_count (drop (S j) (sp_packets s'))).

Lemma lost_after_acked f s s2 j :
  sp_inv s2 → acked_by f s s2 → (∀ i p, sp_packets s2 !! i = Some p → p_acked p = true) →
  (j < length (sp_packets s))%nat →
  is_Some (bt_Get (seq_at s j) (sp_lostPackets s2)) ↔ lost_after s s2 j.
Proof.
  intros Hs2 Hab Hall Hj. destruct (lookup_lt_is_Some_2 (sp_packets s2) j) as [p Hp]; [by rewrite (ab_length _ _ _ Hab)|].
  rewrite <- (ab_seq_at _ _ _ j Hab), (acked_not_lost s2 j p Hs2 Hp) by (by eapply Hall). split.
  - by intros [? ?].
  - intros (p' & Hp' & Ha & _). by rewrite (Hall j p' Hp') in Ha.
Qed.

Lemma lost_after_detected f l s s2 s3 j :
  sp_inv s → sp_inv s2 → acked_by f s s2 → lost_by l s2 s3 →
  (∀ k, k ∈ l ↔ ∃ j, detected s2 j ∧ k = seq_at s2 j) →
  (j < length (sp_packets s))%nat →
  is_Some (bt_Get (seq_at s j) (sp_lostPackets s3)) ↔ lost_after s s3 j.
Proof.
  intros Hs Hs2 Hab Hlb Hl Hj. rewrite (lb_lost _ _ _ Hlb), Hl. unfold lost_after, detected.
  rewrite (lb_packets _ _ _ Hlb). rewrite (ab_lost _ _ _ Hab j Hj).
  destruct (lookup_lt_is_Some_2 (sp_packets s) j Hj) as [p Hp].
  pose proof (ab_acked _ _ _ Hab j) as E. rewrite Hp in E.
  destruct (sp_packets s2 !! j) as [p2|] eqn:Hp2; [|done]. simpl in E. injection E as E. split.
  - intros [(i & (q & Hq & Ha & Hc) & Eq)|Hlost].
    + rewrite <- (ab_seq_at _ _ _ j Hab) in Eq.
      assert (j = i) as <- by (eapply (seq_at_eq s2); [done|by eapply lookup_lt_Some..|done]).
      exists q. split_and!; try done; [congruence|by right].
    + exists p2. split; [done|]. destruct (f j) eqn:Ef; [by destruct Hlost|]. split; [|by left].
      destruct Hlost as [u Hu]. apply (si_lost s Hs) in Hu as (i & q & Hq & Eq & Ha).
      assert (j = i) as <- by (eapply (seq_at_eq s); [done|by eapply lookup_lt_Some..|done]).
      rewrite E. by simplify_eq; rewrite Ha.
  - intros (q & Hq & Ha & [Hlost|Hc]).
    + right. injection Hq as ->. rewrite Ha in E. symmetry in E. apply orb_false_iff in E as [_ ->]. done.
    + left. exists j. split; [by exists p2; injection Hq as ->|]. by rewrite (ab_seq_at _ _ _ j Hab).
Qed.

(** ** Transmission *)

(** A new packet that fits the congestion window is appended. *)
Lemma OnTransmit_new s t data n now :
  sp_inv s → time_ok now → len (sp_packets s) < MAX_PACKETS → 0 ≤ n →
  outstanding (ctl_view (sp_congestionCtrl s)) + n ≤ ctl_cap (sp_congestionCtrl s) →
  ∃ c', let s' := mk_sentPackets
                    (sp_packets s ++ [mk_sentPacket (sp_NextSeqNum s) t data now now []])
                    (sp_initSeqNum s) (sp_lostPackets s) c' in
    sp_OnTransmit (sp_NextSeqNum s) t data n now s = Ret s' ∧ sp_inv s' ∧
    ctl_view c' = <[sp_NextSeqNum s := mk_pkt_view n 1 false]> (ctl_view (sp_congestionCtrl s)) ∧
    ctl_cap c' = ctl_cap (sp_congestionCtrl s) ∧ ctl_Timeout c' = ctl_Timeout (sp_congestionCtrl s).
Proof.
  intros Hs Hnow Hlen Hn Hfit. unfold MAX_PACKETS in Hlen. set (m := length (sp_packets s)).
  assert (Hm : Z.of_nat m < 65533) by (unfold m, len in *; lia).
  assert (Hnone : ctl_view (sp_congestionCtrl s) !! seq_at s m = None).
  { destruct (ctl_view _ !! _) eqn:E; [|done]. apply (si_known s Hs) in E as (i & Hi & E).
    apply seq_at_inj in E; [lia|apply Hs|lia|lia]. }
  destruct (ctl_Initial (sp_congestionCtrl s) (seq_at s m) n) as (c' & Hc & Hwf & Hv & Hcap & Hto);
    [apply Hs|done|done|done|].
  exists c'. cbv zeta. rewrite NextSeqNum_eq. fold m.
  assert (Hw : (sp_Window s <? n) = false).
  { unfold sp_Window. rewrite ctl_available by apply Hs. apply Z.ltb_ge. lia. }
  split_and!; [| |done..].
  - unfold sp_OnTransmit. rewrite SeqNumIndex_seq_at by (apply Hs || lia).
    change (len (sp_packets s)) with (Z.of_nat m). rewrite Z.ltb_irrefl, Hw. simpl. by rewrite Hc.
  - assert (Hsplit : ∀ i p, (sp_packets s ++ [mk_sentPacket (seq_at s m) t data now now []]) !! i = Some p →
      sp_packets s !! i = Some p ∨ (i = m ∧ p = mk_sentPacket (seq_at s m) t data now now [])).
    { intros i p [Hp|[Hge Hp]]%lookup_app_Some; [by left|right]. fold m in Hge.
      destruct (i - length (sp_packets s))%nat eqn:E; [|done]. simpl in Hp. fold m in E. split; [lia|congruence]. }
    split; simpl; try done.
    + apply Hs.
    + rewrite len_app. unfold MAX_PACKETS, len in *. simpl. lia.
    + intros i p [Hp|[-> ->]]%Hsplit; [by apply (si_seq s Hs)|done].
    + apply Forall_app. split; [apply Hs|]. apply Forall_singleton. by split.
    + intros i p Hip. rewrite Hv. apply Hsplit in Hip as [Hp|[-> ->]].
      * pose proof (lookup_lt_Some _ _ _ Hp). rewrite lookup_insert_ne; [by apply (si_view s Hs)|].
        intros E. apply (seq_at_inj s) in E; [lia|apply Hs|lia|lia].
      * change (seq_at _ m) with (seq_at s m). rewrite lookup_insert_eq. by eexists.
    + intros k v. rewrite Hv, length_app. simpl. fold m. intros [[<- _]|[_ Hk]]%lookup_insert_Some.
      * exists m. split; [lia|done].
      * apply (si_known s Hs) in Hk as (i & Hi & ->). exists i. split; [lia|done].
    + intros k u Hk. apply (si_lost s Hs) in Hk as (i & p & Hp & -> & Ha). exists i, p.
      split_and!; [|done|done]. rewrite lookup_app_l; [done|by eapply lookup_lt_Some].
Qed.

(** A packet of the list is sent again. *)
Lemma OnTransmit_again s i p v t data n now :
  sp_inv s → time_ok now → sp_packets s !! i = Some p →
  ctl_view (sp_congestionCtrl s) !! seq_at s i = Some v → pv_count v < MaxUint32 →
  ∃ c', let s' := mk_sentPackets (alter (set_retransmission now) i (sp_packets s))
                    (sp_initSeqNum s) (sp_lostPackets s) c' in
    sp_OnTransmit (seq_at s i) t data n now s = Ret s' ∧ sp_inv s' ∧
    ctl_view c' = <[seq_at s i := pv_resent v]> (ctl_view (sp_congestionCtrl s)) ∧
    ctl_cap c' = ctl_cap (sp_congestionCtrl s) ∧ ctl_Timeout c' = ctl_Timeout (sp_congestionCtrl s).
Proof.
  intros Hs Hnow Hp Hv Hcount. pose proof (lookup_lt_Some _ _ _ Hp) as Hi.
  destruct (ctl_Retransmission (sp_congestionCtrl s) (seq_at s i) n v) as (c' & Hc & Hwf & Hcv & Hcap & Hto);
    [apply Hs|done|done|].
  exists c'. cbv zeta. split_and!; [| |done..].
  - unfold sp_OnTransmit. rewrite SeqNumIndex_seq_at by (apply Hs || by eapply seq_at_lt).
    assert (Hlt : (Z.of_nat i <? len (sp_packets s)) = true) by (apply Z.ltb_lt; unfold len; lia).
    assert (Hge : (len (sp_packets s) <? Z.of_nat i) = false) by (apply Z.ltb_ge; unfold len; lia).
    rewrite Hge, Hlt. simpl. by rewrite Nat2Z.id, Hc.
  - assert (Hal : ∀ j q, alter (set_retransmission now) i (sp_packets s) !! j = Some q →
      ∃ q0, sp_packets s !! j = Some q0 ∧ p_seqNum q = p_seqNum q0 ∧ p_acked q = p_acked q0 ∧
            (packet_times q0 → packet_times q)).
    { intros j q. destruct (decide (j = i)) as [->|Hne].
      - rewrite list_lookup_alter_eq, Hp. intros [= <-]. exists p. split_and!; try done. by intros [? _].
      - rewrite list_lookup_alter_ne by done. intros Hq. by exists q. }
    split; simpl; try done.
    + apply Hs.
    + unfold len. rewrite length_alter. apply Hs.
    + intros j q (q0 & Hq0 & -> & _)%Hal. by apply (si_seq s Hs).
    + apply Forall_lookup. intros j q (q0 & Hq0 & _ & _ & Ht)%Hal. apply Ht.
      eapply Forall_lookup_1; [apply Hs|done].
    + intros j q (q0 & Hq0 & _ & -> & _)%Hal. destruct (si_view s Hs j q0 Hq0) as (w & Hw & Ha).
      rewrite Hcv. change (seq_at _ j) with (seq_at s j). destruct (decide (seq_at s i = seq_at s j)) as [E|E].
      * rewrite <- E, lookup_insert_eq. eexists. split; [done|]. rewrite <- E in Hw. by simplify_eq.
      * rewrite lookup_insert_ne by done. by exists w.
    + intros k w. rewrite Hcv, length_alter. intros [[<- _]|[_ Hk]]%lookup_insert_Some; [by exists i|].
      by apply (si_known s Hs) in Hk.
    + intros k u Hk. apply (si_lost s Hs) in Hk as (j & q & Hq & -> & Ha).
      destruct (decide (j = i)) as [->|Hne].
      * exists i, (set_retransmission now p). rewrite list_lookup_alter_eq, Hp. by simplify_eq.
      * exists j, q. by rewrite list_lookup_alter_ne.
Qed.
End invariant.
Arguments sp_inv {_ _ _ _} T0 s.

(** What [onAck] does, in the terms of the relations above. *)
Lemma onAck_cases `{BTreeLaws} {C : Type} `{ControllerLaws C} T0 (s : sentPackets C) ackNum sack delay now clk :
  sp_inv T0 s → time_ok T0 now → is_u16 ackNum →
  let d := ackNum ⊖ sp_initSeqNum s in
  let i := Z.to_nat (d - 1) in
  let result := (newCircularRangeInclusive (sp_initSeqNum s) ackNum,
                 match sack with
                 | Some sk => selected_acks (ackNum ⊕ 2) (Acked sk)
                 | None => []
                 end) in
  (len (sp_packets s) < d ∧ sp_onAck ackNum sack delay now clk s = Ret (inl ErrInvalidAckNum, s)) ∨
  (d = 0 ∧ sp_onAck ackNum sack delay now clk s = Ret (inr result, s)) ∨
  (1 ≤ d ≤ len (sp_packets s) ∧
   ∃ r s2 s3, sp_onAck ackNum sack delay now clk s = Ret (r, s3) ∧
     sp_inv T0 s2 ∧ sp_inv T0 s3 ∧ acked_by (covered i sack) s s2 ∧
     ((all_acked_with (named i sack) s ∧ r = inl ErrNoneAckNum ∧ s3 = s2) ∨
      (¬ all_acked_with (named i sack) s ∧ r = inr result ∧
       ∃ l, lost_by l s2 s3 ∧ ∀ k, k ∈ l ↔ ∃ j, detected s2 j ∧ k = seq_at s2 j))).
Proof.
  intros Hs Hnow Hu d i result. unfold sp_onAck. erewrite bind_Ret by done. cbv zeta.
  rewrite (SeqNumRange_Contains T0) by done. fold d. pose proof (si_len T0 s Hs) as Hlen.
  pose proof (si_init T0 s Hs) as Hi. unfold MAX_PACKETS in Hlen.
  assert (Hne : cr_end (sp_SeqNumRange s) = cr_start (sp_SeqNumRange s) → len (sp_packets s) = 0).
  { intros E. rewrite <- (SeqNumRange_dist s) by (done || lia). unfold cr_dist. rewrite E. go_lia. }
  destruct (Z.lt_ge_cases (len (sp_packets s)) d) as [Hgt|Hle].
  { left. split; [done|]. rewrite bool_decide_false by lia. simpl negb. cbv iota.
    destruct (Z.eqb_spec (len (sp_packets s)) 0) as [E|E]; [done|]. simpl.
    destruct (Z.eqb_spec (sp_NextSeqNum s ⊖ 1) (sp_initSeqNum s)); [|done]. destruct E. by apply Hne. }
  right. rewrite bool_decide_true by lia. simpl negb. cbv iota. erewrite bind_Ret by done.
  change (cr_start (sp_SeqNumRange s)) with (sp_initSeqNum s).
  destruct (Z.eq_dec d 0) as [E0|E0]; [left|right].
  { split; [done|]. assert (ackNum = sp_initSeqNum s) as -> by (unfold d in E0; go_lia). by rewrite Z.eqb_refl. }
  assert (Hneq : ackNum ≠ sp_initSeqNum s) by (unfold d in E0; intros ->; go_lia).
  assert (Hd : 1 ≤ d) by (unfold d in *; go_lia). split; [lia|].
  destruct (Z.eqb_spec ackNum (sp_initSeqNum s)); [done|]. simpl negb. cbv iota.
  pose proof (seq_at_of_offset s ackNum Hu Hi Hneq) as Eack. fold d in Eack. fold i in Eack.
  destruct (OnAckNum_spec T0 s i sack delay now clk Hs Hnow) as (s2 & r & s3 & E & Hs2 & Hs3 & Hab & Hr).
  { unfold i, len in *. lia. }
  rewrite <- Eack in E. destruct Hr as [(Hall & -> & ->)|(Hnall & -> & l & Hlb & Hl)].
  - exists (inl ErrNoneAckNum), s2, s2. rewrite (bind_error _ _ _ _ _ E). split_and!; try done. by left.
  - exists (inr result), s2, s3. rewrite (bind_Ret _ _ _ _ _ E). split_and!; try done. right. by eauto.
Qed.

(** C7.  Acknowledgement processing.  For any acknowledgement number and any
    selective acknowledgement, [onAck] returns without panicking: a number
    outside the range of sent packets is refused and changes nothing, the
    initial number changes nothing, and any other number acknowledges exactly
    the packets up to it and those of the set bits.  A packet is recorded as
    lost afterwards iff it is unacknowledged and either was lost before or is
    followed by at least three acknowledged packets.  The call reports
    [ErrNoneAckNum] exactly when the packets the acknowledgement names complete
    the list; the acknowledgement has then been applied all the same. *)
Theorem onAck_spec `{BTreeLaws} {C : Type} `{ControllerLaws C} (T0 : Z) (s : sentPackets C)
    (ackNum : Z) (sack : option SelectiveAck) (delay now clk : Z) :
  sp_inv T0 s → time_ok T0 now → is_u16 ackNum →
  let d := ackNum ⊖ sp_initSeqNum s in
  let result := (newCircularRangeInclusive (sp_initSeqNum s) ackNum,
                 match sack with
                 | Some sk => selected_acks (ackNum ⊕ 2) (Acked sk)
                 | None => []
                 end) in
  if len (sp_packets s) <? d then
    sp_onAck ackNum sack delay now clk s = Ret (inl ErrInvalidAckNum, s)
  else if d =? 0 then
    sp_onAck ackNum sack delay now clk s = Ret (inr result, s)
  else
    let i := Z.to_nat (d - 1) in
    ∃ r s', sp_onAck ackNum sack delay now clk s = Ret (r, s') ∧ sp_inv T0 s' ∧
      sp_initSeqNum s' = sp_initSeqNum s ∧
      strip <$> sp_packets s' = strip <$> sp_packets s ∧
      (∀ j, p_acked <$> sp_packets s' !! j
            = (λ p, p_acked p || covered i sack j) <$> sp_packets s !! j) ∧
      (∀ j, (j < length (sp_packets s))%nat →
            is_Some (bt_Get (seq_at s j) (sp_lostPackets s')) ↔ lost_after s s' j) ∧
      ((all_acked_with (named i sack) s ∧ r = inl ErrNoneAckNum) ∨
       (¬ all_acked_with (named i sack) s ∧ r = inr result)).
Proof.
  intros Hs Hnow Hu d result.
  destruct (onAck_cases T0 s ackNum sack delay now clk Hs Hnow Hu)
    as [[Hd E]|[[Hd E]|(Hd & r & s2 & s3 & E & Hs2 & Hs3 & Hab & Hr)]]; fold d in Hd; rewrite E.
  - by destruct (Z.ltb_spec (len (sp_packets s)) d); [|lia].
  - pose proof (len_nonneg (sp_packets s)). destruct (Z.ltb_spec (len (sp_packets s)) d); [lia|].
    by destruct (Z.eqb_spec d 0).
  - destruct (Z.ltb_spec (len (sp_packets s)) d); [lia|]. destruct (Z.eqb_spec d 0); [lia|].
    exists r, s3. destruct Hr as [(Hall & -> & ->)|(Hnall & -> & l & Hlb & Hl)].
    + split_and!; [done|done|apply Hab..| |by left]. intros j Hj. eapply lost_after_acked; [done|done| |done].
      intros k p Hp. pose proof (ab_acked _ _ _ Hab k) as Ek. rewrite Hp in Ek.
      destruct (sp_packets s !! k) as [q|] eqn:Hq; [|done]. simpl in Ek. injection Ek as ->.
      specialize (Hall k q Hq). unfold named, covered in *. repeat case_bool_decide; simpl in *; (lia || done).
    + rewrite (lb_init _ _ _ Hlb), (lb_packets _ _ _ Hlb).
      split_and!; [done|done|apply Hab..| |by right]. intros j Hj.
      by apply (lost_after_detected T0 _ l s s2 s3 j Hs Hs2 Hab Hlb Hl).
Qed.


(** ** Transmission *)

Section transmission.
Context `{BTreeLaws} {C : Type} `{ControllerLaws C}.
Implicit Types s : sentPackets C.

Lemma OnTransmit_new_inv T0 s t data n now s' :
  sp_OnTransmit (sp_NextSeqNum s) t data n now s = Ret s' →
  sp_inv T0 s → time_ok T0 now → len (sp_packets s) < MAX_PACKETS → 0 ≤ n →
  outstanding (ctl_view (sp_congestionCtrl s)) + n ≤ ctl_cap (sp_congestionCtrl s) →
  sp_inv T0 s'.
Proof.
  intros E Hs Hnow Hl Hn Hfit.
  destruct (OnTransmit_new T0 s t data n now Hs Hnow Hl Hn Hfit) as (c' & E' & Hs' & _). cbv zeta in *.
  congruence.
Qed.

Lemma OnTimeout_keeps T0 s : sp_inv T0 s → sp_inv T0 (sp_OnTimeout s).
Proof.
  intros Hs. destruct (ctl_TimedOut (sp_congestionCtrl s) (si_ctl T0 s Hs)) as [Hwf Hv].
  split; simpl; try apply Hs; rewrite ?Hv; try done.
  - intros i p. apply (si_view T0 s Hs).
  - intros k v. apply (si_known T0 s Hs).
Qed.

Lemma lost_list_spec T0 s keys :
  sp_inv T0 s → (∀ k, k ∈ keys → ∃ i, (i < length (sp_packets s))%nat ∧ k = seq_at s i) →
  ∃ l, lost_list s keys = Ret l ∧ lp_SeqNum <$> l = keys ∧
    Forall (λ e, ∃ i p, sp_packets s !! i = Some p ∧
      e = mk_LostPacket (seq_at s i) (p_packetType p) (p_data p)) l.
Proof.
  intros Hs. induction keys as [|k keys IH]; intros Hk; simpl; [by exists []|].
  destruct (Hk k) as (i & Hi & ->); [by left|]. destruct (lookup_lt_is_Some_2 _ _ Hi) as [p Hp].
  rewrite (lookup_index T0 s i p Hs Hp). simpl.
  destruct IH as (l & -> & Hf & Hl); [intros k' Hk'; apply Hk; by right|]. simpl.
  eexists. split; [done|]. rewrite (si_seq T0 s Hs i p Hp). split; [by rewrite fmap_cons, Hf|].
  constructor; [by exists i, p|done].
Qed.

(** The packets that [LostPackets] returns. *)
Lemma LostPackets_spec T0 s :
  sp_inv T0 s →
  ∃ l, sp_LostPackets s = Ret l ∧ lp_SeqNum <$> l = (bt_Ascend (sp_lostPackets s)).*1 ∧
    NoDup (lp_SeqNum <$> l) ∧
    Forall (λ e, ∃ i p, sp_packets s !! i = Some p ∧
      e = mk_LostPacket (seq_at s i) (p_packetType p) (p_data p)) l.
Proof.
  intros Hs. destruct (lost_list_spec T0 s (bt_Ascend (sp_lostPackets s)).*1 Hs) as (l & E & Hf & Hl).
  { intros k ((k' & u) & -> & Hin)%list_elem_of_fmap. apply bt_Ascend_Get, (si_lost T0 s Hs) in Hin as (i & p & Hp & -> & _).
    exists i. split; [by eapply lookup_lt_Some|done]. }
  exists l. split_and!; [done|done| |done]. rewrite Hf. apply bt_Ascend_NoDup.
Qed.
End transmission.

(** Transmission.  A packet with the next sequence number that fits the
    congestion window is accepted without panic: it is appended, numbered
    [initSeqNum + 1 + index] modulo 2^16, its bytes are charged to the window
    and the sequence number advances by one.  Sending a packet of the list
    again only updates its retransmission time. *)
Theorem OnTransmit_spec `{BTreeLaws} {C : Type} `{ControllerLaws C} (T0 : Z) (s : sentPackets C)
    (t : PacketType) (data : list Z) (n now : Z) :
  sp_inv T0 s → time_ok T0 now →
  (len (sp_packets s) < MAX_PACKETS → 0 ≤ n →
   outstanding (ctl_view (sp_congestionCtrl s)) + n ≤ ctl_cap (sp_congestionCtrl s) →
   ∃ s', sp_OnTransmit (sp_NextSeqNum s) t data n now s = Ret s' ∧ sp_inv T0 s' ∧
     sp_packets s' = sp_packets s ++
       [mk_sentPacket (sp_initSeqNum s ⊕ (1 + len (sp_packets s))) t data now now []] ∧
     sp_NextSeqNum s' = sp_NextSeqNum s ⊕ 1 ∧
     outstanding (ctl_view (sp_congestionCtrl s'))
     = outstanding (ctl_view (sp_congestionCtrl s)) + n) ∧
  (∀ i p v, sp_packets s !! i = Some p →
     ctl_view (sp_congestionCtrl s) !! p_seqNum p = Some v → pv_count v < MaxUint32 →
     ∃ s', sp_OnTransmit (p_seqNum p) t data n now s = Ret s' ∧ sp_inv T0 s' ∧
       sp_packets s' = alter (set_retransmission now) i (sp_packets s) ∧
       sp_NextSeqNum s' = sp_NextSeqNum s).
Proof.
  intros Hs Hnow. split.
  - intros Hl Hn Hfit.
    destruct (OnTransmit_new T0 s t data n now Hs Hnow Hl Hn Hfit) as (c' & E & Hs' & Hv & _).
    eexists. split_and!; [apply E|apply Hs'|..]; simpl.
    + do 3 f_equal. rewrite NextSeqNum_eq. done.
    + rewrite !NextSeqNum_eq. simpl. rewrite length_app, seq_at_succ. unfold seq_at. simpl. do 3 f_equal. lia.
    + rewrite Hv. unfold outstanding. rewrite map_sum_insert; [unfold unacked_size; simpl; lia|].
      destruct (ctl_view _ !! _) eqn:Ek; [|done]. apply (si_known T0 s Hs) in Ek as (i & Hi & Ek).
      rewrite NextSeqNum_eq in Ek. unfold MAX_PACKETS, len in Hl.
      apply (seq_at_inj s) in Ek; [lia|apply Hs|lia|lia].
  - intros i p v Hp Hv Hc. rewrite (si_seq T0 s Hs i p Hp) in *.
    destruct (OnTransmit_again T0 s i p v t data n now Hs Hnow Hp Hv Hc) as (c' & E & Hs' & _).
    eexists. split_and!; [apply E|apply Hs'|done|]. rewrite !NextSeqNum_eq. simpl.
    by rewrite length_alter.
Qed.

(** C34.  Exhaustion of the sequence numbers.  The list of sent packets is never
    trimmed.  Once it holds 2^16 packets, the "next" sequence number is the one
    of the first packet, and transmitting new data with it is taken for a
    retransmission: when the call returns, no packet was added and the new
    payload was not kept anywhere, so it cannot be retransmitted. *)
Theorem sequence_number_exhaustion `{BTreeImpl} {C : Type} `{Controller C} (s s' : sentPackets C)
    (t : PacketType) (data : list Z) (n now : Z) :
  is_u16 (sp_initSeqNum s) → len (sp_packets s) = 65536 →
  sp_OnTransmit (sp_NextSeqNum s) t data n now s = Ret s' →
  p_data <$> sp_packets s' = p_data <$> sp_packets s ∧
  length (sp_packets s') = length (sp_packets s) ∧
  sp_NextSeqNum s' = sp_NextSeqNum s ∧ sp_NextSeqNum s = sp_initSeqNum s ⊕ 1.
Proof.
  intros Hi Hl E. assert (Hnext : sp_NextSeqNum s = seq_at s 0).
  { rewrite NextSeqNum_eq. unfold seq_at, len in *. go_lia. }
  rewrite Hnext in E. unfold sp_OnTransmit in E. rewrite SeqNumIndex_seq_at in E by (done || lia).
  rewrite Hl in E. simpl in E. destruct (ctl_OnTransmit _ _ _ _) as [[]]; [done|].
  injection E as <-. simpl.
  split_and!; [|apply length_alter| |done].
  - destruct (sp_packets s); done.
  - rewrite !NextSeqNum_eq. unfold seq_at. cbn [sp_packets sp_initSeqNum with_ctl with_packets].
    by rewrite length_alter.
Qed.

(** The controller refuses a new empty packet when the window is exceeded. *)
Lemma empty_packet_refused `{BTreeLaws} `{FloatConv} (T0 : Z) (s : sentPackets defaultController)
    (t : PacketType) (now : Z) :
  sp_inv T0 s → len (sp_packets s) < MAX_PACKETS →
  cc_maxWindowSizeBytes (sp_congestionCtrl s) < outstanding (ctl_view (sp_congestionCtrl s)) →
  sp_OnTransmit (sp_NextSeqNum s) t [] 0 now s = Panic PanicController.
Proof.
  intros Hs Hl Hcap. rewrite NextSeqNum_eq. set (m := length (sp_packets s)).
  assert (Hm : Z.of_nat m < 65533) by (unfold m, len, MAX_PACKETS in *; lia).
  assert (Hc : cc_inv (sp_congestionCtrl s)) by apply (si_ctl T0 s Hs).
  assert (Hnone : cc_transmissions (sp_congestionCtrl s) !! seq_at s m = None).
  { destruct (cc_transmissions _ !! _) as [r|] eqn:E; [|done]. exfalso.
    assert (Hk : ctl_view (sp_congestionCtrl s) !! seq_at s m = Some (record_view r)).
    { simpl. by rewrite cc_view_lookup, E. }
    apply (si_known T0 s Hs) in Hk as (i & Hi & Ek).
    apply (seq_at_inj s) in Ek; [lia|apply Hs|lia|lia]. }
  unfold sp_OnTransmit. rewrite SeqNumIndex_seq_at by (apply Hs || lia).
  change (len (sp_packets s)) with (Z.of_nat m). rewrite Z.ltb_irrefl.
  assert (Hw : (sp_Window s <? 0) = false).
  { unfold sp_Window. rewrite ctl_available by apply Hs. apply Z.ltb_ge. lia. }
  rewrite Hw. cbn [negb andb ctl_OnTransmit defaultController_Controller with_packets sp_congestionCtrl].
  unfold cc_OnTransmit, charge_window. rewrite Hnone. simpl.
  pose proof (ci_window _ Hc) as Hwin. simpl in Hcap. rewrite Z.add_0_r, u32_id by apply Hc.
  case_bool; [done|lia].
Qed.

(** C33.  An empty packet when the window has shrunk.  The check in [OnTransmit]
    compares the length of the packet with the available window, so it lets an
    empty packet (a FIN) through when nothing is available; but the controller
    refuses any new packet while the bytes in flight exceed the congestion
    window, and [OnTransmit] turns its error into a panic. *)
Theorem empty_packet_panics `{BTreeLaws} `{FloatConv} (T0 : Z) (s : sentPackets defaultController)
    (t : PacketType) (now : Z) :
  sp_inv T0 s → len (sp_packets s) < MAX_PACKETS →
  cc_maxWindowSizeBytes (sp_congestionCtrl s) < outstanding (ctl_view (sp_congestionCtrl s)) →
  sp_OnTransmit (sp_NextSeqNum s) t [] 0 now s = Panic PanicController.
Proof. apply empty_packet_refused. Qed.

(** ** Witnesses *)

Definition force {A} (d : A) (m : outcome A) : A := match m with Ret a => a | _ => d end.

Definition is_Ret {A} (m : outcome A) : bool := match m with Ret _ => true | _ => false end.

Lemma force_Ret {A} (d : A) m : is_Ret m = true → m = Ret (force d m).
Proof. by destruct m. Qed.

Definition demo_sp0 : sentPackets defaultController :=
  newSentPackets 65534 (newDefaultController defaultCtrlConfig).
Definition demo_send (n now : Z) (s : sentPackets defaultController) : sentPackets defaultController :=
  force s (sp_OnTransmit (sp_NextSeqNum s) st_data [7] n now s).
Definition demo_sp2 : sentPackets defaultController := demo_send 900 20 (demo_send 900 10 demo_sp0).
(** the first packet acknowledged *)
Definition demo_sp2a : sentPackets defaultController :=
  (force (inl ErrReset, demo_sp2) (sp_onAck 65535 None 1000 30 30 demo_sp2)).2.
Definition demo_sp4 : sentPackets defaultController := demo_send 700 50 (demo_send 900 40 demo_sp2a).

Lemma demo_send_inv s n now :
  sp_OnTransmit (sp_NextSeqNum s) st_data [7] n now s = Ret (demo_send n now s) →
  sp_inv 0 s → time_ok 0 now → len (sp_packets s) < MAX_PACKETS → 0 ≤ n →
  outstanding (ctl_view (sp_congestionCtrl s)) + n ≤ ctl_cap (sp_congestionCtrl s) →
  sp_inv 0 (demo_send n now s).
Proof. apply OnTransmit_new_inv. Qed.

Lemma demo_sp0_inv : sp_inv 0 demo_sp0.
Proof.
  apply newSentPackets_inv; [unfold is_u16; lia| |done]. apply newDefaultController_inv, default_config_ok.
Qed.

Ltac demo_step :=
  apply demo_send_inv; [vm_compute; reflexivity| |unfold time_ok; vm_compute; split; congruence
    |vm_compute; reflexivity|lia|vm_compute; congruence].

Lemma demo_sp2_inv : sp_inv 0 demo_sp2.
Proof. unfold demo_sp2. demo_step. demo_step. apply demo_sp0_inv. Qed.

Lemma OnTransmit_spec_witness :
  ∃ s', sp_OnTransmit (sp_NextSeqNum demo_sp0) st_data [7] 900 10 demo_sp0 = Ret s' ∧
        sp_NextSeqNum s' = 0.
Proof.
  destruct (OnTransmit_spec 0 demo_sp0 st_data [7] 900 10 demo_sp0_inv) as [Hnew _].
  - unfold time_ok; vm_compute; split; congruence.
  - destruct Hnew as (s' & E & _ & _ & Hn & _); [vm_compute; reflexivity|lia|vm_compute; congruence|].
    exists s'. split; [exact E|]. rewrite Hn. vm_compute. reflexivity.
Defined.

Lemma onAck_spec_witness :
  ∃ s', sp_onAck 65535 None 1000 30 30 demo_sp2
        = Ret (inr (newCircularRangeInclusive 65534 65535, []), s') ∧
        p_acked <$> sp_packets s' !! 0%nat = Some true ∧ p_acked <$> sp_packets s' !! 1%nat = Some false.
Proof.
  pose proof (onAck_spec 0 demo_sp2 65535 None 1000 30 30 demo_sp2_inv
    ltac:(unfold time_ok; vm_compute; split; congruence) ltac:(unfold is_u16; lia)) as Hspec.
  cbv zeta in Hspec.
  assert (E1 : (len (sp_packets demo_sp2) <? 65535 ⊖ sp_initSeqNum demo_sp2) = false)
    by (vm_compute; reflexivity).
  assert (E2 : (65535 ⊖ sp_initSeqNum demo_sp2 =? 0) = false) by (vm_compute; reflexivity).
  assert (E3 : Z.to_nat (65535 ⊖ sp_initSeqNum demo_sp2 - 1) = 0%nat) by (vm_compute; reflexivity).
  assert (P0 : sp_packets demo_sp2 = [mk_sentPacket 65535 st_data [7] 10 10 [];
    mk_sentPacket 0 st_data [7] 20 20 []]) by (vm_compute; reflexivity).
  rewrite E1, E2, E3 in Hspec. destruct Hspec as (r & s' & E & _ & _ & _ & Hacked & _ & Hr).
  exists s'. split_and!; [|rewrite Hacked, P0; reflexivity..].
  destruct Hr as [[Hall _]|[_ ->]]; [|exact E].
  unfold all_acked_with in Hall. rewrite P0 in Hall. specialize (Hall 1%nat _ eq_refl). discriminate Hall.
Defined.

Lemma demo_sp2a_inv : sp_inv 0 demo_sp2a.
Proof.
  destruct (OnAckNum_spec 0 demo_sp2 0 None 1000 30 30 demo_sp2_inv) as (s2 & r & s3 & E & _ & Hs3 & _);
    [unfold time_ok; vm_compute; split; congruence|vm_compute; lia|].
  assert (Es : demo_sp2a = (force (inl ErrReset, demo_sp2)
    (sp_OnAckNum (seq_at demo_sp2 0) None 1000 30 30 demo_sp2)).2)
    by (vm_compute; reflexivity).
  rewrite Es, E. exact Hs3.
Qed.

Lemma demo_sp4_inv : sp_inv 0 demo_sp4.
Proof. unfold demo_sp4. demo_step. demo_step. apply demo_sp2a_inv. Qed.

Lemma empty_packet_panics_witness :
  sp_OnTransmit (sp_NextSeqNum (sp_OnTimeout demo_sp4)) st_fin [] 0 60 (sp_OnTimeout demo_sp4)
  = Panic PanicController.
Proof.
  apply (empty_packet_panics 0).
  - apply OnTimeout_keeps, demo_sp4_inv.
  - vm_compute. reflexivity.
  - vm_compute. reflexivity.
Defined.

(** 2^16 packets sent and acknowledged. *)
Definition demo_full : sentPackets defaultController :=
  mk_sentPackets (replicate (Z.to_nat 65536) (mk_sentPacket 11 st_data [1] 0 0 [0])) 10 ∅
    (with_transmission 11 (mk_packetRecord 1 1 true) (newDefaultController defaultCtrlConfig)).

Lemma sequence_number_exhaustion_witness :
  ∃ s', sp_OnTransmit (sp_NextSeqNum demo_full) st_data [2] 1 5 demo_full = Ret s' ∧
        length (sp_packets s') = length (sp_packets demo_full) ∧ sp_NextSeqNum s' = 11.
Proof.
  assert (E : sp_OnTransmit (sp_NextSeqNum demo_full) st_data [2] 1 5 demo_full
    = Ret (force demo_full (sp_OnTransmit (sp_NextSeqNum demo_full) st_data [2] 1 5 demo_full)))
    by (apply force_Ret; vm_compute; reflexivity).
  eexists. split; [exact E|].
  destruct (sequence_number_exhaustion demo_full _ st_data [2] 1 5
    ltac:(vm_compute; split; congruence) ltac:(vm_compute; reflexivity) E) as (_ & Hl & Hn & Hn').
  split; [exact Hl|]. rewrite Hn, Hn'. reflexivity.
Defined.
