(* ===== verification/Conn.v ===== *)
(** * The connection (conn.go, event.go)

    The state of a connection and its handlers.  A handler is a [method] on
    [connection]; what it sends on channels (packets and the shutdown notice to
    the socket, results to readers and writers, the outcome of the connection
    attempt) is appended to the trace [c_out].  Sends never block in the model.
    A handler reads the clock once ([env]); the expiry goroutine of the timing
    wheel is the input [InTick].

    [loop_step] is one turn of [eventLoop]: one case of its [select] followed by
    the code after it. *)

From Stdlib Require Import ZArith Lia.
From stdpp Require Import base list gmap fin_maps.
From S2P Require Import Prelude.
From S2P Require Import Seq.
From S2P Require Import SelectiveAck.
From S2P Require Import Packet.
From S2P Require Import SendBuffer.
From S2P Require Import BTree.
From S2P Require Import RecvBuffer.
From S2P Require Import TimeWheel.
From S2P Require Import Utils.
From S2P Require Import Cid.
From S2P Require Import Float64.
From S2P Require Import Controller.
From S2P Require Import Congestion.
From S2P Require Import SentPackets.

Inductive EndpointType := Initiator | Acceptor.
Inductive ConnStateType := ConnConnecting | ConnConnected | ConnClosed.

#[global] Instance EndpointType_eq_dec : EqDecision EndpointType.
Proof. solve_decision. Defined.
#[global] Instance ConnStateType_eq_dec : EqDecision ConnStateType.
Proof. solve_decision. Defined.

Definition DefaultMaxIdleTimeout : Z := 60 * Second.
Definition DefaultWindowSize : Z := 1024 * 1024.
Definition DefaultBufferSize : Z := 1024 * 1024.

Record Endpoint := mk_Endpoint {
  ep_Type : EndpointType;
  ep_SynNum : Z;
  ep_SynAck : Z;
  ep_Attempts : Z;
}.

Record ClosingRecord := mk_Closing { LocalFin : option Z; RemoteFin : option Z }.

Record ConnectionConfig := mk_ConnectionConfig {
  MaxPacketSize : Z;
  MaxConnAttempts : Z;
  MaxIdleTimeout : Z;
  InitialTimeout : Z;
  MinTimeout : Z;
  MaxTimeout : Z;
  TargetDelay : Z;
  WindowSize : Z;
  BufferSize : Z;
}.

Definition NewConnectionConfig : ConnectionConfig := {|
  MaxPacketSize := defaultMaxPacketSizeBytes;
  MaxConnAttempts := 6;
  MaxIdleTimeout := DefaultMaxIdleTimeout;
  InitialTimeout := defaultInitialTimeout;
  MinTimeout := defaultMinTimeout;
  MaxTimeout := defaultMaxTimeout;
  TargetDelay := defaultTargetMicros;
  WindowSize := DefaultWindowSize;
  BufferSize := DefaultBufferSize;
|}.

Definition fromConnConfig (config : ConnectionConfig) : ctrlConfig :=
  let d := defaultCtrlConfig in
  {| cf_TargetDelayMicros := u32 (Microseconds (TargetDelay config));
     cf_InitialTimeout := InitialTimeout config;
     cf_MinTimeout := MinTimeout config;
     cf_MaxTimeout := MaxTimeout config;
     cf_MaxPacketSizeBytes := MaxPacketSize config;
     cf_MaxWindowSizeIncBytes := cf_MaxWindowSizeIncBytes d;
     cf_Gain := cf_Gain d;
     cf_DelayWindow := cf_DelayWindow d;
     cf_WindowSize := WindowSize config |}.

(** A write request; [qw_resultCh] names the channel its result goes to. *)
Record queuedWrite := mk_queuedWrite { qw_data : list Z; qw_written : Z; qw_resultCh : Z }.

Record readOrWriteResult := mk_result { rw_Err : option error; rw_Len : Z; rw_Data : list Z }.

(** What the connection sends on its channels. *)
Inductive conn_event :=
  | EvOutgoing (p : packet)
  | EvShutdown
  | EvRead (r : readOrWriteResult)
  | EvWrite (resultCh : Z) (r : readOrWriteResult)
  | EvConnected (err : option error)
  | EvConnectedClose.

(** The readings of the clock (nanoseconds since the epoch) and of the random
    generator during a handler. *)
Record env := mk_env { e_now : Z; e_rand : Z }.
Definition UnixMicro (t : Z) : Z := Z.quot t 1000.

Section connection.
Context `{BTreeImpl} `{FloatConv}.

(** [cs_connectedCh] is the channel's state: [Some true] when it is open. *)
Record ConnState := mk_ConnState {
  cs_stateType : ConnStateType;
  cs_connectedCh : option bool;
  cs_RecvBuf : option receiveBuffer;
  cs_SendBuf : option sendBuffer;
  cs_SentPackets : option (sentPackets defaultController);
  cs_closing : option ClosingRecord;
  cs_Err : option error;
}.

Definition NewConnState (connected : option bool) : ConnState :=
  mk_ConnState ConnConnecting connected None None None None None.

(** [c_readable] and [c_writable] count the tokens in the channels of capacity
    three; [c_unackTimeoutCh] holds the expired packets; [c_streamShutdown] is
    the flag of the stream that the loop polls. *)
Record connection := mk_connection {
  c_state : ConnState;
  c_cid : ConnectionId;
  c_config : ConnectionConfig;
  c_endpoint : Endpoint;
  c_peerTsDiff : Z;
  c_peerRecvWindow : Z;
  c_unacked : timeWheel Z packet;
  c_unackTimeoutCh : list packet;
  c_readable : Z;
  c_pendingWrites : list queuedWrite;
  c_writable : Z;
  c_latestTimeout : option Z;
  c_synState : option packet;
  c_streamShutdown : bool;
  c_out : list conn_event;
}.

Definition newConnection (e : env) (cid : ConnectionId) (config : ConnectionConfig)
    (syn : option packet) (connected : option bool) : outcome connection :=
  let '(endpoint, peerTsDiff, peerRecvWindow) :=
    match syn with
    | Some syn =>
        (mk_Endpoint Acceptor (h_SeqNum (Header syn)) (e_rand e) 0,
         i64 (i64 (UnixMicro (e_now e) - h_Timestamp (Header syn)) * Microsecond),
         h_WndSize (Header syn))
    | None => (mk_Endpoint Initiator (e_rand e) 0 0, 0, MaxUint32)
    end in
  tw ← newTimeWheel (Z.quot (InitialTimeout config) 4) 8;
  mret (mk_connection (NewConnState connected) cid config endpoint peerTsDiff peerRecvWindow
          tw [] 0 [] 0 None None false []).

(** ** Access to the fields *)

Definition with_state (f : ConnState → ConnState) (c : connection) : connection :=
  mk_connection (f (c_state c)) (c_cid c) (c_config c) (c_endpoint c) (c_peerTsDiff c)
    (c_peerRecvWindow c) (c_unacked c) (c_unackTimeoutCh c) (c_readable c) (c_pendingWrites c)
    (c_writable c) (c_latestTimeout c) (c_synState c) (c_streamShutdown c) (c_out c).
Definition with_endpoint (ep : Endpoint) (c : connection) : connection :=
  mk_connection (c_state c) (c_cid c) (c_config c) ep (c_peerTsDiff c)
    (c_peerRecvWindow c) (c_unacked c) (c_unackTimeoutCh c) (c_readable c) (c_pendingWrites c)
    (c_writable c) (c_latestTimeout c) (c_synState c) (c_streamShutdown c) (c_out c).
Definition with_peer (tsDiff window : Z) (c : connection) : connection :=
  mk_connection (c_state c) (c_cid c) (c_config c) (c_endpoint c) tsDiff
    window (c_unacked c) (c_unackTimeoutCh c) (c_readable c) (c_pendingWrites c)
    (c_writable c) (c_latestTimeout c) (c_synState c) (c_streamShutdown c) (c_out c).
Definition with_unacked (tw : timeWheel Z packet) (c : connection) : connection :=
  mk_connection (c_state c) (c_cid c) (c_config c) (c_endpoint c) (c_peerTsDiff c)
    (c_peerRecvWindow c) tw (c_unackTimeoutCh c) (c_readable c) (c_pendingWrites c)
    (c_writable c) (c_latestTimeout c) (c_synState c) (c_streamShutdown c) (c_out c).
Definition with_timeouts (q : list packet) (c : connection) : connection :=
  mk_connection (c_state c) (c_cid c) (c_config c) (c_endpoint c) (c_peerTsDiff c)
    (c_peerRecvWindow c) (c_unacked c) q (c_readable c) (c_pendingWrites c)
    (c_writable c) (c_latestTimeout c) (c_synState c) (c_streamShutdown c) (c_out c).
Definition with_tokens (r w : Z) (c : connection) : connection :=
  mk_connection (c_state c) (c_cid c) (c_config c) (c_endpoint c) (c_peerTsDiff c)
    (c_peerRecvWindow c) (c_unacked c) (c_unackTimeoutCh c) r (c_pendingWrites c)
    w (c_latestTimeout c) (c_synState c) (c_streamShutdown c) (c_out c).
Definition with_pendingWrites (ws : list queuedWrite) (c : connection) : connection :=
  mk_connection (c_state c) (c_cid c) (c_config c) (c_endpoint c) (c_peerTsDiff c)
    (c_peerRecvWindow c) (c_unacked c) (c_unackTimeoutCh c) (c_readable c) ws
    (c_writable c) (c_latestTimeout c) (c_synState c) (c_streamShutdown c) (c_out c).
Definition with_latestTimeout (t : option Z) (c : connection) : connection :=
  mk_connection (c_state c) (c_cid c) (c_config c) (c_endpoint c) (c_peerTsDiff c)
    (c_peerRecvWindow c) (c_unacked c) (c_unackTimeoutCh c) (c_readable c) (c_pendingWrites c)
    (c_writable c) t (c_synState c) (c_streamShutdown c) (c_out c).
Definition with_synState (p : option packet) (c : connection) : connection :=
  mk_connection (c_state c) (c_cid c) (c_config c) (c_endpoint c) (c_peerTsDiff c)
    (c_peerRecvWindow c) (c_unacked c) (c_unackTimeoutCh c) (c_readable c) (c_pendingWrites c)
    (c_writable c) (c_latestTimeout c) p (c_streamShutdown c) (c_out c).
Definition with_shutdown (b : bool) (c : connection) : connection :=
  mk_connection (c_state c) (c_cid c) (c_config c) (c_endpoint c) (c_peerTsDiff c)
    (c_peerRecvWindow c) (c_unacked c) (c_unackTimeoutCh c) (c_readable c) (c_pendingWrites c)
    (c_writable c) (c_latestTimeout c) (c_synState c) b (c_out c).
Definition with_out (o : list conn_event) (c : connection) : connection :=
  mk_connection (c_state c) (c_cid c) (c_config c) (c_endpoint c) (c_peerTsDiff c)
    (c_peerRecvWindow c) (c_unacked c) (c_unackTimeoutCh c) (c_readable c) (c_pendingWrites c)
    (c_writable c) (c_latestTimeout c) (c_synState c) (c_streamShutdown c) o.

(** Updates of the fields of [ConnState]. *)
Definition st_type (t : ConnStateType) (s : ConnState) : ConnState :=
  mk_ConnState t (cs_connectedCh s) (cs_RecvBuf s) (cs_SendBuf s) (cs_SentPackets s) (cs_closing s) (cs_Err s).
Definition st_close (err : option error) (s : ConnState) : ConnState :=
  mk_ConnState ConnClosed (cs_connectedCh s) (cs_RecvBuf s) (cs_SendBuf s) (cs_SentPackets s) (cs_closing s) err.
Definition st_connectedCh (ch : option bool) (s : ConnState) : ConnState :=
  mk_ConnState (cs_stateType s) ch (cs_RecvBuf s) (cs_SendBuf s) (cs_SentPackets s) (cs_closing s) (cs_Err s).
Definition st_recv (rb : receiveBuffer) (s : ConnState) : ConnState :=
  mk_ConnState (cs_stateType s) (cs_connectedCh s) (Some rb) (cs_SendBuf s) (cs_SentPackets s) (cs_closing s) (cs_Err s).
Definition st_send (sb : sendBuffer) (s : ConnState) : ConnState :=
  mk_ConnState (cs_stateType s) (cs_connectedCh s) (cs_RecvBuf s) (Some sb) (cs_SentPackets s) (cs_closing s) (cs_Err s).
Definition st_sent (sp : sentPackets defaultController) (s : ConnState) : ConnState :=
  mk_ConnState (cs_stateType s) (cs_connectedCh s) (cs_RecvBuf s) (cs_SendBuf s) (Some sp) (cs_closing s) (cs_Err s).
Definition st_closing (cl : ClosingRecord) (s : ConnState) : ConnState :=
  mk_ConnState (cs_stateType s) (cs_connectedCh s) (cs_RecvBuf s) (cs_SendBuf s) (cs_SentPackets s) (Some cl) (cs_Err s).
Definition st_connect (rb : receiveBuffer) (sb : sendBuffer) (sp : sentPackets defaultController)
    (s : ConnState) : ConnState :=
  mk_ConnState ConnConnected (cs_connectedCh s) (Some rb) (Some sb) (Some sp) (cs_closing s) (cs_Err s).

Abbreviation M := (method connection).

Definition set_state (f : ConnState → ConnState) : M unit := modify_ (with_state f).
Definition emit (ev : conn_event) : M unit := modify_ (λ c, with_out (c_out c ++ [ev]) c).

(** A method call on a nil pointer. *)
Definition deref {A} (f : ConnState → option A) : M A := λ c,
  match f (c_state c) with Some a => Ret (inr a, c) | None => Panic NilDereference end.
Definition recvBuf : M receiveBuffer := deref cs_RecvBuf.
Definition sendBuf : M sendBuffer := deref cs_SendBuf.
Definition sent : M (sentPackets defaultController) := deref cs_SentPackets.

Definition stateType : M ConnStateType := c ←! get_; done_ (cs_stateType (c_state c)).
Definition closing : M (option ClosingRecord) := c ←! get_; done_ (cs_closing (c_state c)).

(** [select { case c.readable <- struct{}{}: default: }], on capacity three. *)
Definition notify_readable : M unit :=
  modify_ (λ c, with_tokens (Z.min 3 (c_readable c + 1)) (c_writable c) c).
Definition notify_writable : M unit :=
  modify_ (λ c, with_tokens (c_readable c) (Z.min 3 (c_writable c + 1)) c).

(** [c.state.connectedCh <- err], and [close(c.state.connectedCh)]. *)
Definition send_connected (err : option error) : M unit :=
  c ←! get_;
  match cs_connectedCh (c_state c) with
  | Some true => emit (EvConnected err)
  | _ => panic_ PanicInvalidState
  end.
Definition close_connected : M unit :=
  c ←! get_;
  match cs_connectedCh (c_state c) with
  | Some true => set_state (st_connectedCh (Some false)) ;! emit EvConnectedClose
  | _ => panic_ PanicCloseOfClosedChannel
  end.

(** ** Packets *)

Definition synPacket (e : env) (seqNum : Z) : M packet :=
  c ←! get_;
  done_ (Build (NewPacketBuilder st_syn (cid_Recv (c_cid c)) (u32 (UnixMicro (e_now e)))
                  (WindowSize (c_config c)) seqNum)).

Definition statePacket (e : env) : M (option packet) :=
  c ←! get_;
  let now := UnixMicro (e_now e) in
  let tsDiffMicros := u32 (Microseconds (c_peerTsDiff c)) in
  match cs_stateType (c_state c) with
  | ConnConnecting =>
      match ep_Type (c_endpoint c) with
      | Initiator => done_ None
      | Acceptor =>
          let syn := ep_SynNum (c_endpoint c) in
          let synAck := ep_SynAck (c_endpoint c) in
          done_ (Some (Build (WithAckNum syn (WithTsDiffMicros tsDiffMicros
            (NewPacketBuilder st_state (cid_Send (c_cid c)) (u32 now) (WindowSize (c_config c)) synAck)))))
      end
  | ConnConnected =>
      sp ←! sent;
      rb ←! recvBuf;
      let seqNum := sp_NextSeqNum sp in
      let ackNum := rb_AckNum rb in
      let recvWindow := u32 (rb_Available rb) in
      let selectiveAck := rb_SelectiveAck rb in
      done_ (Some (Build (WithSelectiveAck selectiveAck (WithAckNum ackNum (WithTsDiffMicros tsDiffMicros
        (NewPacketBuilder st_state (cid_Send (c_cid c)) (u32 now) recvWindow seqNum))))))
  | ConnClosed => done_ None
  end.

Definition transmit (p : packet) (now : Z) : M unit :=
  let '(payload, length) :=
    if 0 <? len (Body p) then (Body p, u32 (len (Body p))) else ([], 0) in
  sp ←! sent;
  sp ←! lift_ (sp_OnTransmit (h_SeqNum (Header p)) (h_PacketType (Header p)) payload length now sp);
  set_state (st_sent sp) ;!
  c ←! get_;
  tw ←! lift_ (tw_put (h_SeqNum (Header p)) p (sp_Timeout sp) (c_unacked c));
  modify_ (with_unacked tw) ;!
  emit (EvOutgoing p).

(** ** Closing *)

Definition reset (err : error) : M unit :=
  c ←! get_;
  match cs_stateType (c_state c), cs_closing (c_state c) with
  | ConnConnected, Some (mk_Closing (Some _) _) => set_state (st_type ConnClosed)
  | _, _ => set_state (st_close (Some err))
  end.

(** The FIN packet that [shutdown] composes. *)
Definition fin_packet (e : env) : M packet :=
  rb ←! recvBuf;
  sp ←! sent;
  c ←! get_;
  let recvWindow := u32 (rb_Available rb) in
  let seqNum := sp_NextSeqNum sp in
  let ackNum := rb_AckNum rb in
  let selectiveAck := rb_SelectiveAck rb in
  done_ (Build (WithSelectiveAck selectiveAck (WithAckNum ackNum
    (NewPacketBuilder st_fin (cid_Send (c_cid c)) (NowMicro (UnixMicro (e_now e))) recvWindow seqNum)))).

(** [len(c.pendingWrites) == 0 && c.state.SendBuf.IsEmpty()] *)
Definition nothing_to_send : M bool :=
  c ←! get_;
  if len (c_pendingWrites c) =? 0 then sb ←! sendBuf; done_ (sb_IsEmpty sb) else done_ false.

Definition shutdown (e : env) : M unit :=
  t ←! stateType;
  match t with
  | ConnConnecting => set_state (st_type ConnClosed)
  | ConnClosed => done_ tt
  | ConnConnected =>
      cl ←! closing;
      match cl with
      | Some (mk_Closing localFin remoteFin) =>
          match localFin with
          | Some _ => done_ tt
          | None =>
              idle ←! nothing_to_send;
              if idle : bool then
                fin ←! fin_packet e;
                set_state (st_closing (mk_Closing (Some (h_SeqNum (Header fin))) remoteFin)) ;!
                transmit fin (e_now e)
              else done_ tt
          end
      | None =>
          idle ←! nothing_to_send;
          localFin ←!
            (if idle : bool then
               fin ←! fin_packet e;
               transmit fin (e_now e) ;!
               done_ (Some (h_SeqNum (Header fin)))
             else done_ None);
          set_state (st_closing (mk_Closing localFin None))
      end
  end.

Definition eof : M bool :=
  c ←! get_;
  match cs_stateType (c_state c) with
  | ConnConnecting => done_ false
  | ConnConnected =>
      match cs_closing (c_state c) with
      | Some (mk_Closing _ (Some remoteFin)) => rb ←! recvBuf; done_ (rb_AckNum rb =? remoteFin)
      | _ => done_ false
      end
  | ConnClosed => done_ true
  end.

(** ** Reads *)

(** The loop of [processReads]; every turn but the last hands out bytes. *)
Fixpoint read_loop (fuel : nat) : M unit :=
  match fuel with
  | O => λ _, NoFuel
  | S fuel =>
      rb ←! recvBuf;
      if rb_IsEmpty rb then done_ tt
      else
        c ←! get_;
        '(n, buf, rb') ←! lift_ (rb_Read (replicate (Z.to_nat (MaxPacketSize (c_config c))) 0) rb);
        set_state (st_recv rb') ;!
        if n =? 0 then done_ tt
        else emit (EvRead (mk_result None n buf)) ;! read_loop fuel
  end.

Definition processReads : M unit :=
  c ←! get_;
  match cs_stateType (c_state c) with
  | ConnConnecting => done_ tt
  | ConnConnected =>
      (match cs_RecvBuf (c_state c) with
       | Some rb => read_loop (S (Z.to_nat (rb_offset rb)))
       | None => done_ tt
       end) ;!
      b ←! eof;
      if b : bool then emit (EvRead (mk_result (Some ErrEOF) 0 [])) else done_ tt
  | ConnClosed => emit (EvRead (mk_result (cs_Err (c_state c)) 0 []))
  end.

(** ** Writes *)

(** The payloads that the window allows, taken from the send buffer. *)
Fixpoint compose (fuel : nat) (windowSize maxPacketSize : Z) (sb : sendBuffer)
    : outcome (list (list Z) * sendBuffer) :=
  match fuel with
  | O => NoFuel
  | S fuel =>
      if 0 <? windowSize then
        let maxDataSize := minUint32 windowSize (u16 (maxPacketSize - 64)) in
        '(n, data, sb) ← sb_Read (replicate (Z.to_nat maxDataSize) 0) sb;
        if n =? 0 then mret ([], sb)
        else
          payload ← slice data 0 n;
          '(rest, sb) ← compose fuel (u32 (windowSize - n)) maxPacketSize sb;
          mret (payload :: rest, sb)
      else mret ([], sb)
  end.

(** Moving the pending writes to the send buffer; a turn completes a write or
    fills the buffer. *)
Fixpoint fill (fuel : nat) : M unit :=
  match fuel with
  | O => λ _, NoFuel
  | S fuel =>
      c ←! get_;
      match c_pendingWrites c with
      | [] => done_ tt
      | writeReq :: rest =>
          sb ←! sendBuf;
          let bufSpace := sb_Available sb in
          if bufSpace <=? 0 then done_ tt
          else
            (if len (qw_data writeReq) <=? bufSpace then
               '(_, sb) ←! lift_ (sb_Write (qw_data writeReq) sb);
               set_state (st_send sb) ;!
               emit (EvWrite (qw_resultCh writeReq)
                       (mk_result None (len (qw_data writeReq) + qw_written writeReq) [])) ;!
               modify_ (with_pendingWrites rest)
             else
               nextWrite ←! lift_ (slice (qw_data writeReq) 0 bufSpace);
               remainingData ←! lift_ (slice_from (qw_data writeReq) bufSpace);
               '(_, sb) ←! lift_ (sb_Write nextWrite sb);
               set_state (st_send sb) ;!
               modify_ (with_pendingWrites
                 (mk_queuedWrite remainingData (qw_written writeReq + bufSpace) (qw_resultCh writeReq) :: rest))) ;!
            notify_writable ;!
            fill fuel
      end
  end.

Fixpoint transmit_all (e : env) (now : Z) (seqNum recvWindow ackNum : Z) (selectiveAck : option SelectiveAck)
    (payloads : list (list Z)) : M unit :=
  match payloads with
  | [] => done_ tt
  | payload :: payloads =>
      c ←! get_;
      transmit (Build (WithSelectiveAck selectiveAck (WithAckNum ackNum
        (WithTsDiffMicros (u32 (Microseconds (c_peerTsDiff c))) (WithPayload payload
          (NewPacketBuilder st_data (cid_Send (c_cid c)) (NowMicro (UnixMicro (e_now e)))
             recvWindow seqNum)))))) now ;!
      transmit_all e now (seqNum ⊕ 1) recvWindow ackNum selectiveAck payloads
  end.

Definition processWrites (e : env) (now : Z) : M unit :=
  t ←! stateType;
  match t with
  | ConnConnecting => done_ tt
  | ConnClosed =>
      c ←! get_;
      each_ (λ w, emit (EvWrite (qw_resultCh w) (mk_result (cs_Err (c_state c)) 0 []))) (c_pendingWrites c)
  | ConnConnected =>
      sp ←! sent;
      c ←! get_;
      let windowSize := minUint32 (sp_Window sp) (c_peerRecvWindow c) in
      sb ←! sendBuf;
      '(payloads, sb) ←!
        lift_ (compose (S (Z.to_nat (sb_used (sb_pending sb)))) windowSize (MaxPacketSize (c_config c)) sb);
      set_state (st_send sb) ;!
      fill (S (S (length (c_pendingWrites c)))) ;!
      sp ←! sent;
      rb ←! recvBuf;
      transmit_all e now (sp_NextSeqNum sp) (u32 (rb_Available rb)) (rb_AckNum rb) (rb_SelectiveAck rb)
        payloads
  end.

Definition push_write (w : queuedWrite) : M unit :=
  modify_ (λ c, with_pendingWrites (c_pendingWrites c ++ [w]) c).

Definition onWrite (e : env) (writeReq : queuedWrite) : M unit :=
  let writeReq := mk_queuedWrite (qw_data writeReq) 0 (qw_resultCh writeReq) in
  c ←! get_;
  match cs_stateType (c_state c) with
  | ConnConnecting => push_write writeReq
  | ConnConnected =>
      match cs_closing (c_state c) with
      | Some (mk_Closing localFin remoteFin) =>
          match localFin, remoteFin with
          | None, Some _ => push_write writeReq
          | _, _ => emit (EvWrite (qw_resultCh writeReq) (mk_result None 0 []))
          end
      | None => push_write writeReq
      end
  | ConnClosed => emit (EvWrite (qw_resultCh writeReq) (mk_result (cs_Err (c_state c)) 0 []))
  end ;!
  processWrites e (e_now e) ;!
  notify_writable.

(** ** Incoming packets *)

Definition processAck (ackNum : Z) (selectiveAck : option SelectiveAck) (delay now clk : Z) : M unit :=
  t ←! stateType;
  match t with
  | ConnConnected =>
      sp ←! sent;
      '(r, sp) ←! lift_ (sp_onAck ackNum selectiveAck delay now clk sp);
      set_state (st_sent sp) ;!
      match r with
      | inl err =>
          if bool_decide (err = ErrInvalidAckNum) then reset err ;! error_ err else error_ err
      | inr (fullAcked, selectedAcks) =>
          modify_ (λ c, with_unacked (tw_retain (Contains fullAcked) (c_unacked c)) c) ;!
          each_ (λ k, modify_ (λ c, with_unacked (tw_remove k (c_unacked c)) c)) selectedAcks
      end
  | _ => done_ tt
  end.

Definition onSyn (seqNum : Z) : M unit :=
  c ←! get_;
  let err :=
    match ep_Type (c_endpoint c) with
    | Acceptor => if negb (seqNum =? ep_SynNum (c_endpoint c)) then Some ErrInvalidSyn else None
    | Initiator => Some ErrSynFromAcceptor
    end in
  match err with
  | Some err =>
      if bool_decide (cs_stateType (c_state c) = ConnClosed) then done_ tt else reset err
  | None => done_ tt
  end.

Definition onState (seqNum ackNum : Z) : M unit :=
  c ←! get_;
  match cs_stateType (c_state c), ep_Type (c_endpoint c) with
  | ConnConnecting, Initiator =>
      if ackNum =? ep_SynNum (c_endpoint c) then
        let recvBuf := newReceiveBuffer (BufferSize (c_config c)) (seqNum ⊖ 1) in
        let sendBuf := newSendBuffer (BufferSize (c_config c)) in
        let congestionCtrl := newDefaultController (fromConnConfig (c_config c)) in
        let sentPacketsHolder := newSentPackets (ep_SynNum (c_endpoint c)) congestionCtrl in
        close_connected ;!
        set_state (st_connect recvBuf sendBuf sentPacketsHolder)
      else done_ tt
  | _, _ => done_ tt
  end.

(** [c.state.RecvBuf.Write(data, seqNum)] *)
Definition recv_write (data : list Z) (seqNum : Z) : M unit :=
  rb ←! recvBuf;
  '(err, rb) ←! lift_ (rb_Write data seqNum rb);
  set_state (st_recv rb) ;!
  match err with Some e => error_ e | None => done_ tt end.

Definition onData (seqNum : Z) (data : list Z) : M unit :=
  (if len data =? 0 then reset ErrEmptyDataPayload else done_ tt) ;!
  c ←! get_;
  match cs_stateType (c_state c) with
  | ConnConnecting =>
      match ep_Type (c_endpoint c) with
      | Acceptor => error_ ErrUnreachable
      | Initiator => done_ tt
      end
  | ConnConnected =>
      inRange ←!
        match cs_closing (c_state c) with
        | Some (mk_Closing _ (Some remoteFin)) =>
            rb ←! recvBuf;
            done_ (Contains (newCircularRangeInclusive (rb_InitSeqNum rb) remoteFin) seqNum)
        | _ => done_ true
        end;
      if negb inRange then set_state (st_close (Some ErrInvalidSeqNum))
      else
        rb ←! recvBuf;
        if len data <=? rb_Available rb then recv_write data seqNum else done_ tt
  | ConnClosed => done_ tt
  end.

Definition onFin (seqNum : Z) (data : list Z) : M unit :=
  c ←! get_;
  match cs_stateType (c_state c) with
  | ConnConnected =>
      match cs_closing (c_state c) with
      | Some (mk_Closing localFin (Some remoteFin)) =>
          if negb (seqNum =? remoteFin) then reset ErrInvalidFin else done_ tt
      | Some (mk_Closing localFin None) =>
          set_state (st_closing (mk_Closing localFin (Some seqNum))) ;!
          recv_write data seqNum
      | None =>
          recv_write data seqNum ;!
          set_state (st_closing (mk_Closing None (Some seqNum)))
      end
  | _ => done_ tt
  end.

Definition onReset : M unit :=
  t ←! stateType;
  if bool_decide (t = ConnClosed) then done_ tt else reset ErrReset.

Fixpoint retransmit_all (e : env) (now recvWindow tsDiffMicros : Z) (lost : list LostPacket) : M unit :=
  match lost with
  | [] => done_ tt
  | lostPacket :: lost =>
      c ←! get_;
      rb ←! recvBuf;
      transmit (Build (WithSelectiveAck (rb_SelectiveAck rb) (WithAckNum (rb_AckNum rb)
        (WithTsDiffMicros tsDiffMicros (WithPayload (lp_Data lostPacket)
          (NewPacketBuilder (lp_PacketType lostPacket) (cid_Send (c_cid c)) (u32 (UnixMicro (e_now e)))
             recvWindow (lp_SeqNum lostPacket))))))) now ;!
      retransmit_all e now recvWindow tsDiffMicros lost
  end.

Definition retransmitLostPackets (e : env) (now : Z) : M unit :=
  t ←! stateType;
  match t with
  | ConnConnected =>
      sp ←! sent;
      if negb (sp_HasLostPackets sp) then done_ tt
      else
        c ←! get_;
        rb ←! recvBuf;
        lost ←! lift_ (sp_LostPackets sp);
        retransmit_all e now (u32 (rb_Available rb)) (u32 (Microseconds (c_peerTsDiff c))) lost
  | _ => done_ tt
  end.

(** [c.peerTsDiff]: the "timestamp difference" of the header is taken from the
    clock, and the result is capped. *)
Definition capped_ts_diff (e : env) (config : ConnectionConfig) (timestampDiff : Z) : Z :=
  let peerTsDiff := i64 (Microsecond * i64 (UnixMicro (e_now e) - timestampDiff)) in
  if MaxIdleTimeout config <? peerTsDiff then Second else peerTsDiff.

(** The checks that close the connection at the end of [onPacket]. *)
Definition close_if_acked : M unit :=
  c ←! get_;
  match cs_stateType (c_state c), cs_closing (c_state c) with
  | ConnConnected, Some (mk_Closing (Some localFin) _) =>
      sp ←! sent;
      let '(lastAckNum, isNone) := sp_LastAckNum sp in
      if negb isNone && (lastAckNum =? localFin) then set_state (st_close None) else done_ tt
  | _, _ => done_ tt
  end.

Definition close_if_remote : M unit :=
  c ←! get_;
  match cs_stateType (c_state c), cs_closing (c_state c) with
  | ConnConnected, Some (mk_Closing _ (Some remoteFin)) =>
      sp ←! sent;
      unacked ←! lift_ (sp_HasUnackedPackets sp);
      if (unacked : bool) then done_ tt
      else
        rb ←! recvBuf;
        if rb_AckNum rb =? remoteFin then processReads ;! set_state (st_close None) else done_ tt
  | _, _ => done_ tt
  end.

Definition close_if_both : M unit :=
  c ←! get_;
  match cs_stateType (c_state c), cs_closing (c_state c) with
  | ConnConnected, Some (mk_Closing (Some _) (Some _)) => set_state (st_close None)
  | _, _ => done_ tt
  end.

(** The STATE or RESET packet sent in answer. *)
Definition reply (e : env) (p : packet) : M unit :=
  match h_PacketType (Header p) with
  | st_syn =>
      c ←! get_;
      match c_synState c with
      | Some _ => done_ tt
      | None =>
          sp ←! statePacket e;
          match sp with
          | Some statePkt => modify_ (with_synState (Some statePkt)) ;! emit (EvOutgoing statePkt)
          | None =>
              emit (EvOutgoing (Build (NewPacketBuilder st_reset (h_ConnectionId (Header p))
                      (u32 (UnixMicro (e_now e))) 100000 (e_rand e))))
          end
      end
  | st_data | st_fin =>
      sp ←! statePacket e;
      match sp with Some statePkt => emit (EvOutgoing statePkt) | None => done_ tt end
  | _ => done_ tt
  end.

Definition dispatch (p : packet) : M unit :=
  let h := Header p in
  match h_PacketType h with
  | st_syn => onSyn (h_SeqNum h)
  | st_state => onState (h_SeqNum h) (h_AckNum h)
  | st_data => onData (h_SeqNum h) (Body p)
  | st_fin => onFin (h_SeqNum h) (Body p)
  | st_reset => onReset
  end.

Definition onPacket (e : env) (p : packet) (now : Z) : M unit :=
  let h := Header p in
  modify_ (λ c, with_peer (capped_ts_diff e (c_config c) (h_TimestampDiff h)) (h_WndSize h) c) ;!
  _ ←! try_ (dispatch p);
  match h_PacketType h with
  | st_state | st_data | st_fin =>
      _ ←! try_ (processAck (h_AckNum h) (Eack p) (i64 (h_TimestampDiff h * Microsecond)) now (e_now e));
      done_ tt
  | _ => done_ tt
  end ;!
  retransmitLostPackets e now ;!
  reply e p ;!
  match h_PacketType h with st_state => notify_writable | _ => done_ tt end ;!
  (if (0 <? len (Body p)) || bool_decide (h_PacketType h = st_fin) then notify_readable else done_ tt) ;!
  close_if_acked ;!
  close_if_remote ;!
  close_if_both.

(** ** Timeouts *)

(** [time.Duration(math.Pow(1.5, float64(n)))], exact for [n] up to 33. *)
Definition backoff (n : Z) : Z := (3 ^ n) `div` (2 ^ n).

Definition onTimeout (e : env) (originPacket : packet) (now : Z) : M unit :=
  c ←! get_;
  match cs_stateType (c_state c) with
  | ConnConnecting =>
      match ep_Type (c_endpoint c) with
      | Acceptor => done_ tt
      | Initiator =>
          let ep := c_endpoint c in
          if MaxConnAttempts (c_config c) <=? ep_Attempts ep then
            (match cs_connectedCh (c_state c) with
             | Some _ => send_connected (Some ErrTimedOut)
             | None => done_ tt
             end) ;!
            set_state (st_close (Some ErrTimedOut))
          else
            let seq := ep_SynNum ep in
            let attempts := ep_Attempts ep + 1 in
            modify_ (with_endpoint (mk_Endpoint (ep_Type ep) (ep_SynNum ep) (ep_SynAck ep) attempts)) ;!
            let timeout := i64 (InitialTimeout (c_config c) * backoff attempts) in
            tw ←! lift_ (tw_put seq originPacket timeout (c_unacked c));
            modify_ (with_unacked tw) ;!
            syn ←! synPacket e seq;
            emit (EvOutgoing syn)
      end
  | ConnConnected =>
      if bool_decide (h_PacketType (Header originPacket) = st_syn) then done_ tt
      else
        sp ←! sent;
        let isTimeout :=
          match c_latestTimeout c with
          | Some latest => sp_Timeout sp <? e_now e - latest
          | None => true
          end in
        (if isTimeout : bool then
           set_state (st_sent (sp_OnTimeout sp)) ;!
           modify_ (with_latestTimeout (Some (e_now e)))
         else done_ tt) ;!
        rb ←! recvBuf;
        let h := Header originPacket in
        transmit (mkPacket
          (mkHeader (h_PacketType h) (h_Version h) (h_Extension h) (h_ConnectionId h)
             (UnixMicro (e_now e)) (u32 (Microseconds (c_peerTsDiff c))) (u32 (rb_Available rb))
             (h_SeqNum h) (rb_AckNum rb))
          (rb_SelectiveAck rb) (Body originPacket)) now
  | ConnClosed => done_ tt
  end.

(** ** The event loop *)

(** Before the loop: the SYN of an initiator, the STATE of an acceptor. *)
Definition start (e : env) : M unit :=
  c ←! get_;
  let ep := c_endpoint c in
  match ep_Type ep with
  | Initiator =>
      syn ←! synPacket e (ep_SynNum ep);
      emit (EvOutgoing syn) ;!
      tw ←! lift_ (tw_put (ep_SynNum ep) syn (InitialTimeout (c_config c)) (c_unacked c));
      modify_ (with_unacked tw) ;!
      modify_ (with_endpoint (mk_Endpoint (ep_Type ep) (ep_SynNum ep) (ep_SynAck ep) 1))
  | Acceptor =>
      p ←! statePacket e;
      modify_ (with_synState p) ;!
      match p with Some p => emit (EvOutgoing p) | None => panic_ NilDereference end ;!
      let recvBuf := newReceiveBuffer (BufferSize (c_config c)) (ep_SynNum ep) in
      let sendBuf := newSendBuffer (BufferSize (c_config c)) in
      let congestionCtrl := newDefaultController (fromConnConfig (c_config c)) in
      let sentPacketsHolder := newSentPackets (ep_SynAck ep ⊖ 1) congestionCtrl in
      match cs_connectedCh (c_state c) with
      | Some _ => send_connected None
      | None => panic_ PanicInvalidState
      end ;!
      set_state (st_connect recvBuf sendBuf sentPacketsHolder)
  end.

Inductive conn_input :=
  | InIncoming (p : packet)
  | InShutdown
  | InWrite (w : queuedWrite)
  | InReadable
  | InWritable
  | InTimeout
  | InIdle
  | InTick
  | InCtxDone.

(** One case of the [select] (and, for [InTick], the ticker of the wheel). *)
Definition handle (e : env) (input : conn_input) : M unit :=
  match input with
  | InIncoming p => onPacket e p (e_now e)
  | InShutdown => modify_ (with_shutdown true)
  | InWrite w => onWrite e w
  | InReadable =>
      c ←! get_;
      if 0 <? c_readable c then
        modify_ (with_tokens (c_readable c - 1) (c_writable c)) ;! processReads
      else done_ tt
  | InWritable =>
      c ←! get_;
      if 0 <? c_writable c then
        modify_ (with_tokens (c_readable c) (c_writable c - 1)) ;! processWrites e (e_now e)
      else done_ tt
  | InTimeout =>
      c ←! get_;
      match c_unackTimeoutCh c with
      | p :: q => modify_ (with_timeouts q) ;! onTimeout e p (e_now e)
      | [] => done_ tt
      end
  | InIdle =>
      t ←! stateType;
      if bool_decide (t = ConnClosed) then done_ tt else set_state (st_close (Some ErrTimedOut))
  | InTick =>
      c ←! get_;
      '(expired, tw) ←! lift_ (tw_tick (c_unacked c));
      modify_ (with_unacked tw) ;!
      modify_ (with_timeouts (c_unackTimeoutCh c ++ expired.*2))
  | InCtxDone => modify_ (with_shutdown true)
  end.

(** After the [select]: [true] when the loop returns. *)
Definition after_select (e : env) : M bool :=
  c ←! get_;
  (if c_streamShutdown c && negb (bool_decide (cs_stateType (c_state c) = ConnClosed))
   then shutdown e else done_ tt) ;!
  t ←! stateType;
  match t with
  | ConnClosed =>
      b ←! eof;
      (if negb b then processReads else done_ tt) ;!
      processWrites e (e_now e) ;!
      emit EvShutdown ;!
      done_ true
  | _ => done_ false
  end.

Definition loop_step (e : env) (input : conn_input) : M bool :=
  handle e input ;!
  match input with
  | InCtxDone => done_ true
  | InTick => done_ false
  | _ => after_select e
  end.
End connection.
Abbreviation M := (method connection).
