(* ===== verification/ConnStates.v ===== *)
(** * The connection's state machine

    What the handlers of [Conn] can change.  [frame] relates two connections
    that differ only in buffers, timers and output; [evolves] is the preorder of
    a connection's life: the state only moves from connecting to connected to
    closed, the FIN numbers are set at most once, the identity does not change
    and output is only appended.  Every handler, and so every run of the event
    loop, stays within [evolves]. *)

From Stdlib Require Import ZArith Lia.
From stdpp Require Import base list gmap fin_maps.
From S2P Require Import Prelude.
From S2P Require Import Seq.
From S2P Require Import SelectiveAck.
From S2P Require Import Packet.
From S2P Require Import SendBuffer.
From S2P Require Import BTree.
From S2P Require Import RecvBuffer.
From S2P Require Import TimeWheel.
From S2P Require Import Float64.
From S2P Require Import Controller.
From S2P Require Import Congestion.
From S2P Require Import SentPackets.
From S2P Require Import Cid.
From S2P Require Import Conn.

(** ** What a method ensures *)

Section ensures.
Context {S : Type}.

(** From [s], if the method returns (with or without an error), the states are
    related. *)
Definition ensures {A} (R : S → S → Prop) (m : method S A) (s : S) : Prop :=
  ∀ r s', m s = Ret (r, s') → R s s'.

Context (R : S → S → Prop) `{!PreOrder R}.

Lemma ensures_bind {A B} (m : method S A) (k : A → method S B) s :
  ensures R m s → (∀ a s', R s s' → m s = Ret (inr a, s') → ensures R (k a) s') →
  ensures R (bind_ m k) s.
Proof.
  intros Hm Hk r s' E. unfold bind_ in E. destruct (m s) as [[[e|a] s1]| |] eqn:E1; simpl in E; try done.
  - injection E as _ <-. by eapply Hm.
  - etrans; [by eapply Hm|]. eapply Hk; [by eapply Hm|done|done].
Qed.

Lemma ensures_get {B} (k : S → method S B) s : ensures R (k s) s → ensures R (bind_ get_ k) s.
Proof. intros Hk r s' E. by apply (Hk r). Qed.

(** A part that only reads the state. *)
Lemma ensures_read {A B} (m : method S A) (k : A → method S B) s a :
  m s = Ret (inr a, s) → ensures R (k a) s → ensures R (bind_ m k) s.
Proof. intros E Hk r s' Er. rewrite (bind_Ret _ _ _ _ _ E) in Er. by apply (Hk r). Qed.

Lemma ensures_done {A} (a : A) s : ensures R (done_ a) s.
Proof. intros r s' [= _ <-]. reflexivity. Qed.

Lemma ensures_error {A} (e : error) s : ensures R (error_ (A := A) e) s.
Proof. intros r s' [= _ <-]. reflexivity. Qed.

Lemma ensures_panic {A} (p : panic) s : ensures R (panic_ (A := A) p) s.
Proof. intros r s' E. discriminate E. Qed.

Lemma ensures_lift {A} (m : outcome A) s : ensures R (lift_ m) s.
Proof. intros r s' E. unfold lift_ in E. destruct m; simpl in E; try done. injection E as _ <-. reflexivity. Qed.

Lemma ensures_modify (f : S → S) s : R s (f s) → ensures R (modify_ f) s.
Proof. intros HR r s' [= _ <-]. done. Qed.

Lemma ensures_try {A} (m : method S A) s : ensures R m s → ensures R (try_ m) s.
Proof.
  intros Hm r s' E. unfold try_ in E. destruct (m s) as [[r1 s1]| |] eqn:E1; simpl in E; try done.
  injection E as _ <-. by eapply Hm.
Qed.

Lemma ensures_each {X} (body : X → method S unit) l s :
  (∀ x s', ensures R (body x) s') → ensures R (each_ body l) s.
Proof.
  intros Hb. revert s. induction l as [|x l IH]; intros s; simpl; [apply ensures_done|].
  apply ensures_bind; auto.
Qed.

Lemma ensures_nofuel {A} s : ensures R (λ _, NoFuel : outcome ((error + A) * S)) s.
Proof. intros r s' E. discriminate E. Qed.
End ensures.

Lemma ensures_weaken {S A} (R R' : S → S → Prop) (m : method S A) s :
  (∀ s', R s s' → R' s s') → ensures R m s → ensures R' m s.
Proof. intros HR Hm r s' E. by eapply HR, Hm. Qed.

Create HintDb conn.

(** Steps through a method, leaving the obligations of its parts. *)
Ltac ensures_step :=
  lazymatch goal with
  | |- ensures _ (bind_ get_ _) _ => refine (ensures_get _ _ _ _)
  | |- ensures _ (bind_ _ _) _ => refine (ensures_bind _ _ _ _ _ _); [|intros]
  | |- ensures _ (done_ _) _ => refine (ensures_done _ _ _)
  | |- ensures _ (error_ _) _ => refine (ensures_error _ _ _)
  | |- ensures _ (panic_ _) _ => refine (ensures_panic _ _ _)
  | |- ensures _ (lift_ _) _ => refine (ensures_lift _ _ _)
  | |- ensures _ (try_ _) _ => refine (ensures_try _ _ _ _)
  | |- ensures _ (each_ _ _) _ => refine (ensures_each _ _ _ _ _); intros
  | |- ensures _ (modify_ _) _ => refine (ensures_modify _ _ _ _)
  | |- ensures _ (set_state _) _ => refine (ensures_modify _ _ _ _)
  | |- ensures _ (λ _, NoFuel) _ => refine (ensures_nofuel _ _)
  | |- ensures _ (match ?x with _ => _ end) _ => destruct x eqn:?
  | |- ensures _ (let '(_, _) := ?x in _) _ => destruct x eqn:?
  end.

(** ** Frames *)

Section frames.
Context `{BTreeImpl} `{FloatConv}.
Implicit Types c : connection.

Definition c_type c : ConnStateType := cs_stateType (c_state c).
Definition local_fin c : option Z := cs_closing (c_state c) ≫= LocalFin.
Definition remote_fin c : option Z := cs_closing (c_state c) ≫= RemoteFin.

Record frame c c' : Prop := {
  fr_type : c_type c' = c_type c;
  fr_closing : cs_closing (c_state c') = cs_closing (c_state c);
  fr_err : cs_Err (c_state c') = cs_Err (c_state c);
  fr_ch : cs_connectedCh (c_state c') = cs_connectedCh (c_state c);
  fr_cid : c_cid c' = c_cid c;
  fr_config : c_config c' = c_config c;
  fr_endpoint : c_endpoint c' = c_endpoint c;
  fr_peer : c_peerRecvWindow c' = c_peerRecvWindow c ∧ c_peerTsDiff c' = c_peerTsDiff c;
  fr_shutdown : c_streamShutdown c' = c_streamShutdown c;
  fr_sent : is_Some (cs_SentPackets (c_state c)) → is_Some (cs_SentPackets (c_state c'));
  fr_out : ∃ evs, c_out c' = c_out c ++ evs;
}.

#[global] Instance frame_preorder : PreOrder frame.
Proof.
  split.
  - intros c. split; try done. exists []. by rewrite app_nil_r.
  - intros c1 c2 c3 [] []. destruct fr_out0 as [e1 E1], fr_out1 as [e2 E2].
    destruct fr_peer0, fr_peer1. split; try congruence; [split; congruence|by auto|].
    exists (e1 ++ e2). by rewrite E2, E1, app_assoc.
Qed.

Ltac frame_field := split; try done; by exists []; rewrite app_nil_r.

Lemma frame_recv rb c : frame c (with_state (st_recv rb) c).
Proof. frame_field. Qed.
Lemma frame_send sb c : frame c (with_state (st_send sb) c).
Proof. frame_field. Qed.
Lemma frame_sent sp c : frame c (with_state (st_sent sp) c).
Proof. frame_field. Qed.
Lemma frame_unacked tw c : frame c (with_unacked tw c).
Proof. frame_field. Qed.
Lemma frame_timeouts q c : frame c (with_timeouts q c).
Proof. frame_field. Qed.
Lemma frame_tokens r w c : frame c (with_tokens r w c).
Proof. frame_field. Qed.
Lemma frame_pending ws c : frame c (with_pendingWrites ws c).
Proof. frame_field. Qed.
Lemma frame_syn p c : frame c (with_synState p c).
Proof. frame_field. Qed.
Lemma frame_latest t c : frame c (with_latestTimeout t c).
Proof. frame_field. Qed.
Lemma frame_emit ev c : frame c (with_out (c_out c ++ [ev]) c).
Proof. split; try done. by exists [ev]. Qed.
#[local] Hint Resolve frame_recv frame_send frame_sent frame_unacked frame_timeouts frame_tokens
  frame_pending frame_syn frame_latest frame_emit : conn.

Lemma deref_frame {A} (f : ConnState → option A) c : ensures frame (deref f) c.
Proof. intros r c' E. unfold deref in E. destruct (f (c_state c)); [|done]. by injection E as _ <-. Qed.

Lemma emit_frame ev c : ensures frame (emit ev) c.
Proof. apply ensures_modify. auto with conn. Qed.
#[local] Hint Resolve deref_frame emit_frame : conn.

Ltac frames := repeat first
  [ progress (auto with conn)
  | progress (unfold recvBuf, sendBuf, sent, notify_readable, notify_writable, stateType, closing, push_write)
  | ensures_step ].

Lemma statePacket_frame e c : ensures frame (statePacket e) c.
Proof. unfold statePacket. frames. Qed.
Lemma fin_packet_frame e c : ensures frame (fin_packet e) c.
Proof. unfold fin_packet. frames. Qed.
Lemma synPacket_frame e n c : ensures frame (synPacket e n) c.
Proof. unfold synPacket. frames. Qed.
Lemma transmit_frame p now c : ensures frame (transmit p now) c.
Proof. unfold transmit. frames. Qed.
Lemma eof_frame c : ensures frame eof c.
Proof. unfold eof. frames. Qed.
Lemma nothing_to_send_frame c : ensures frame nothing_to_send c.
Proof. unfold nothing_to_send. frames. Qed.
Lemma recv_write_frame data n c : ensures frame (recv_write data n) c.
Proof. unfold recv_write. frames. Qed.
#[local] Hint Resolve statePacket_frame fin_packet_frame synPacket_frame transmit_frame eof_frame
  nothing_to_send_frame recv_write_frame : conn.

Lemma read_loop_frame fuel c : ensures frame (read_loop fuel) c.
Proof. revert c. induction fuel; intros c; simpl; frames. Qed.
#[local] Hint Resolve read_loop_frame : conn.
Lemma processReads_frame c : ensures frame processReads c.
Proof. unfold processReads. frames. Qed.
Lemma fill_frame fuel c : ensures frame (fill fuel) c.
Proof. revert c. induction fuel; intros c; simpl; frames. Qed.
Lemma transmit_all_frame e now n w a s l c : ensures frame (transmit_all e now n w a s l) c.
Proof. revert n c. induction l; intros n c; simpl; frames. Qed.
Lemma retransmit_all_frame e now w d l c : ensures frame (retransmit_all e now w d l) c.
Proof. revert c. induction l; intros c; simpl; frames. Qed.
#[local] Hint Resolve processReads_frame fill_frame transmit_all_frame retransmit_all_frame : conn.
Lemma processWrites_frame e now c : ensures frame (processWrites e now) c.
Proof. unfold processWrites. frames. Qed.
Lemma retransmitLostPackets_frame e now c : ensures frame (retransmitLostPackets e now) c.
Proof. unfold retransmitLostPackets. frames. Qed.
Lemma reply_frame e p c : ensures frame (reply e p) c.
Proof. unfold reply. frames. Qed.
#[local] Hint Resolve processWrites_frame retransmitLostPackets_frame reply_frame : conn.
Lemma onWrite_frame e w c : ensures frame (onWrite e w) c.
Proof. unfold onWrite. frames. Qed.

(** ** Evolution *)

(** The order of the states. *)
Definition state_rank (t : ConnStateType) : Z :=
  match t with ConnConnecting => 0 | ConnConnected => 1 | ConnClosed => 2 end.

Record evolves c c' : Prop := {
  ev_state : state_rank (c_type c) ≤ state_rank (c_type c');
  ev_local n : local_fin c = Some n → local_fin c' = Some n;
  ev_remote n : remote_fin c = Some n → remote_fin c' = Some n;
  ev_cid : c_cid c' = c_cid c;
  ev_config : c_config c' = c_config c;
  ev_endpoint : ep_Type (c_endpoint c') = ep_Type (c_endpoint c) ∧
                ep_SynNum (c_endpoint c') = ep_SynNum (c_endpoint c) ∧
                ep_SynAck (c_endpoint c') = ep_SynAck (c_endpoint c);
  ev_shutdown : c_streamShutdown c = true → c_streamShutdown c' = true;
  ev_sent : is_Some (cs_SentPackets (c_state c)) → is_Some (cs_SentPackets (c_state c'));
  ev_out : ∃ evs, c_out c' = c_out c ++ evs;
}.

#[global] Instance evolves_preorder : PreOrder evolves.
Proof.
  split.
  - intros c. split; try done. exists []. by rewrite app_nil_r.
  - intros c1 c2 c3 [] []. destruct ev_out0 as [e1 E1], ev_out1 as [e2 E2]. destruct_and!.
    split; try (congruence || lia || by auto); [split_and!; congruence|].
    exists (e1 ++ e2). by rewrite E2, E1, app_assoc.
Qed.

Lemma frame_evolves c c' : frame c c' → evolves c c'.
Proof.
  intros []. split; try congruence; unfold local_fin, remote_fin in *; rewrite ?fr_closing0, ?fr_type0, ?fr_endpoint0;
    done.
Qed.

Lemma ensures_frame {A} (m : method connection A) c : ensures frame m c → ensures evolves m c.
Proof. apply ensures_weaken. intros. by apply frame_evolves. Qed.

(** Closing, whatever the error. *)
Lemma evolves_close err c : evolves c (with_state (st_close err) c).
Proof. split; try done; [by destruct (c_type c)|exists []; by rewrite app_nil_r]. Qed.
Lemma evolves_closed_type c : evolves c (with_state (st_type ConnClosed) c).
Proof. split; try done; [by destruct (c_type c)|exists []; by rewrite app_nil_r]. Qed.

Lemma evolves_closing l r c :
  (∀ n, local_fin c = Some n → l = Some n) → (∀ n, remote_fin c = Some n → r = Some n) →
  evolves c (with_state (st_closing (mk_Closing l r)) c).
Proof. intros Hl Hr. split; try done. exists []. by rewrite app_nil_r. Qed.

Lemma evolves_connect rb sb sp c :
  c_type c = ConnConnecting → evolves c (with_state (st_connect rb sb sp) c).
Proof. intros E. split; try done; [by rewrite E|exists []; by rewrite app_nil_r]. Qed.

Lemma evolves_ch ch c : evolves c (with_state (st_connectedCh ch) c).
Proof. split; try done. exists []. by rewrite app_nil_r. Qed.
Lemma evolves_attempts t n c :
  ep_Type (c_endpoint c) = t →
  evolves c (with_endpoint (mk_Endpoint t (ep_SynNum (c_endpoint c)) (ep_SynAck (c_endpoint c)) n) c).
Proof. intros <-. split; try done. exists []. by rewrite app_nil_r. Qed.
Lemma evolves_shutdown c : evolves c (with_shutdown true c).
Proof. split; try done. exists []. by rewrite app_nil_r. Qed.
Lemma evolves_peer d w c : evolves c (with_peer d w c).
Proof. split; try done. exists []. by rewrite app_nil_r. Qed.
#[local] Hint Resolve evolves_peer evolves_close evolves_closed_type evolves_ch evolves_attempts evolves_shutdown : conn.
#[local] Hint Extern 2 (evolves _ _) => (apply frame_evolves; auto with conn; fail) : conn.
#[local] Hint Extern 2 (ensures evolves _ _) => (apply ensures_frame; auto with conn; fail) : conn.

Ltac evolve := repeat first
  [ progress (auto with conn)
  | progress (unfold recvBuf, sendBuf, sent, notify_readable, notify_writable, stateType, closing, push_write,
              close_connected, send_connected)
  | ensures_step ].

Lemma reset_evolves err c : ensures evolves (reset err) c.
Proof. unfold reset. evolve. Qed.
#[local] Hint Resolve reset_evolves : conn.

Lemma processAck_evolves a s d now clk c : ensures evolves (processAck a s d now clk) c.
Proof. unfold processAck. evolve. Qed.
Lemma onSyn_evolves n c : ensures evolves (onSyn n) c.
Proof. unfold onSyn. evolve. Qed.
Lemma onReset_evolves c : ensures evolves onReset c.
Proof. unfold onReset. evolve. Qed.
Lemma onData_evolves n d c : ensures evolves (onData n d) c.
Proof. unfold onData. evolve. Qed.
Lemma close_if_acked_evolves c : ensures evolves close_if_acked c.
Proof. unfold close_if_acked. evolve. Qed.
Lemma close_if_remote_evolves c : ensures evolves close_if_remote c.
Proof. unfold close_if_remote. evolve. Qed.
Lemma close_if_both_evolves c : ensures evolves close_if_both c.
Proof. unfold close_if_both. evolve. Qed.
Lemma onTimeout_evolves e p now c : ensures evolves (onTimeout e p now) c.
Proof. unfold onTimeout. evolve. Qed.

(** Setting a FIN number that the closing record does not have yet. *)
Lemma closing_frame_evolves c c' l r l' r' :
  frame c c' → cs_closing (c_state c) = Some (mk_Closing l r) →
  (∀ n, l = Some n → l' = Some n) → (∀ n, r = Some n → r' = Some n) →
  evolves c' (with_state (st_closing (mk_Closing l' r')) c').
Proof.
  intros Hf Hcl Hl Hr. apply evolves_closing; unfold local_fin, remote_fin;
    rewrite (fr_closing _ _ Hf), Hcl; done.
Qed.

Lemma closing_new_evolves c c' l r :
  frame c c' → cs_closing (c_state c) = None →
  evolves c' (with_state (st_closing (mk_Closing l r)) c').
Proof.
  intros Hf Hcl. apply evolves_closing; unfold local_fin, remote_fin; by rewrite (fr_closing _ _ Hf), Hcl.
Qed.

Lemma onFin_evolves n d c : ensures evolves (onFin n d) c.
Proof.
  unfold onFin. repeat ensures_step; auto with conn.
  - by eapply closing_frame_evolves; [reflexivity|done|..].
  - eapply closing_new_evolves; [|done]. by eapply recv_write_frame.
Qed.

Lemma close_connected_spec c r c' :
  close_connected c = Ret (r, c') →
  c' = with_out (c_out c ++ [EvConnectedClose]) (with_state (st_connectedCh (Some false)) c).
Proof.
  unfold close_connected, bind_. simpl. destruct (cs_connectedCh (c_state c)) as [[]|]; try done.
  simpl. by intros [= _ <-].
Qed.

Lemma close_connected_evolves c : ensures evolves close_connected c.
Proof. unfold close_connected. evolve. Qed.
#[local] Hint Resolve close_connected_evolves : conn.

Lemma onState_evolves n a c : ensures evolves (onState n a) c.
Proof.
  unfold onState. repeat ensures_step; auto with conn.
  apply evolves_connect. by match goal with E : close_connected _ = _ |- _ => rewrite (close_connected_spec _ _ _ E) end.
Qed.

(** The FIN of a connection that has no closing record, or one without it. *)
Lemma send_fin_frame e c :
  ensures frame (fin ←! fin_packet e; transmit fin (e_now e) ;! done_ (Some (h_SeqNum (Header fin)))) c.
Proof. frames. Qed.

Lemma shutdown_evolves e c : ensures evolves (shutdown e) c.
Proof.
  unfold shutdown. refine (ensures_read _ _ _ _ (c_type c) eq_refl _).
  destruct (c_type c); [evolve| |evolve].
  refine (ensures_read _ _ _ _ (cs_closing (c_state c)) eq_refl _).
  destruct (cs_closing (c_state c)) as [[[l|] r]|] eqn:Hcl; [evolve|..].
  - refine (ensures_bind _ _ _ _ _ _); [evolve|]. intros idle c1 _ E1.
    destruct idle; [|evolve]. refine (ensures_bind _ _ _ _ _ _); [evolve|]. intros fin c2 _ E2.
    refine (ensures_bind _ _ _ _ _ _); [|evolve]. apply ensures_modify.
    eapply closing_frame_evolves; [|done|done|done].
    etrans; [by eapply nothing_to_send_frame|by eapply fin_packet_frame].
  - refine (ensures_bind _ _ _ _ _ _); [evolve|]. intros idle c1 _ E1.
    refine (ensures_bind _ _ _ _ _ _); [destruct idle; [apply ensures_frame, send_fin_frame|evolve]|].
    intros l c2 _ E2. apply ensures_modify. eapply closing_new_evolves; [|done].
    etrans; [by eapply nothing_to_send_frame|].
    destruct idle; [by eapply send_fin_frame|by injection E2 as _ <-].
Qed.
#[local] Hint Resolve processAck_evolves onSyn_evolves onReset_evolves onData_evolves close_if_acked_evolves
  close_if_remote_evolves close_if_both_evolves onTimeout_evolves onFin_evolves onState_evolves
  shutdown_evolves onWrite_frame : conn.

Lemma onPacket_evolves e p now c : ensures evolves (onPacket e p now) c.
Proof. unfold onPacket, dispatch. evolve. Qed.
#[local] Hint Resolve onPacket_evolves : conn.

Lemma handle_evolves e i c : ensures evolves (handle e i) c.
Proof. unfold handle. evolve. Qed.
#[local] Hint Resolve handle_evolves : conn.

Lemma after_select_evolves e c : ensures evolves (after_select e) c.
Proof. unfold after_select. evolve. Qed.
#[local] Hint Resolve after_select_evolves : conn.

Lemma loop_step_evolves e i c : ensures evolves (loop_step e i) c.
Proof. unfold loop_step. evolve. Qed.

(** ** Runs of the event loop *)

(** Turns of the loop until it returns; the result is whether it did. *)
Fixpoint conn_run (steps : list (env * conn_input)) : M bool :=
  match steps with
  | [] => done_ false
  | (e, i) :: steps =>
      b ←! loop_step e i;
      if b : bool then done_ true else conn_run steps
  end.

Lemma conn_run_evolves steps c : ensures evolves (conn_run steps) c.
Proof.
  revert c. induction steps as [|[e i] steps IH]; intros c; simpl; [evolve|].
  refine (ensures_bind _ _ _ _ _ _); [apply loop_step_evolves|]. intros b c' _ _. destruct b; [evolve|apply IH].
Qed.

(** A closed connection ends the loop with the notice to the socket. *)
Lemma after_select_exit e c b c' :
  after_select e c = Ret (inr b, c') →
  (b = true ∧ c_type c' = ConnClosed ∧ ∃ evs, c_out c' = c_out c ++ evs ++ [EvShutdown]) ∨
  (b = false ∧ c_type c' ≠ ConnClosed).
Proof.
  unfold after_select. intros E. erewrite bind_Ret in E by done.
  match type of E with bind_ ?x _ _ = _ => set (m := x) in E end.
  assert (Hm : ensures evolves m c) by (unfold m; evolve).
  unfold bind_ at 1 in E. destruct (m c) as [[[err|[]] c1]| |] eqn:E1; simpl in E; try done.
  assert (Hev : evolves c c1) by (by eapply Hm).
  erewrite bind_Ret in E by done. fold (c_type c1) in E.
  destruct (c_type c1) eqn:Ht; [right|right|left]; try (injection E as <- <-; by rewrite Ht).
  assert (Heof : eof c1 = Ret (inr true, c1)).
  { unfold eof. erewrite bind_Ret by done. unfold c_type in Ht. by rewrite Ht. }
  rewrite (bind_Ret _ _ _ _ _ Heof) in E. simpl negb in E. cbv iota in E. erewrite bind_Ret in E by done.
  unfold bind_ at 1 in E. destruct (processWrites e (e_now e) c1) as [[[err|[]] c2]| |] eqn:E2; simpl in E; try done.
  assert (Hf : frame c1 c2) by (by eapply processWrites_frame).
  injection E as <- <-. split_and!; [done|change (c_type c2 = ConnClosed); by rewrite (fr_type _ _ Hf)|].
  destruct Hf, Hev. destruct fr_out0 as [o1 ->], ev_out0 as [o2 E3]. exists (o2 ++ o1). simpl.
  by rewrite E3, <- !app_assoc.
Qed.

(** A new connection has sent nothing. *)
Lemma newConnection_out e cid cfg syn ch c : newConnection e cid cfg syn ch = Ret c → c_out c = [].
Proof.
  unfold newConnection. intros E. destruct syn; destruct (newTimeWheel _ _); try done; by injection E as <-.
Qed.

(** [processWrites] outside of the connected state. *)
Lemma each_emit {X} (f : X → conn_event) l c :
  each_ (λ x, emit (f x)) l c = Ret (inr tt, with_out (c_out c ++ (f <$> l)) c).
Proof.
  revert c. induction l as [|x l IH]; intros c; cbn [each_]; [by destruct c; cbn; rewrite app_nil_r|].
  erewrite bind_Ret by done. rewrite IH. cbn. by rewrite <- app_assoc.
Qed.

Lemma processWrites_connecting e now c : c_type c = ConnConnecting → processWrites e now c = Ret (inr tt, c).
Proof. intros Ht. unfold processWrites. erewrite bind_Ret by done. unfold c_type in Ht. by rewrite Ht. Qed.

(** The answer to a write that waits on a closed connection. *)
Definition closed_answer c (w : queuedWrite) : conn_event :=
  EvWrite (qw_resultCh w) (mk_result (cs_Err (c_state c)) 0 []).

Lemma processWrites_closed e now c :
  c_type c = ConnClosed →
  processWrites e now c = Ret (inr tt, with_out (c_out c ++ (closed_answer c <$> c_pendingWrites c)) c).
Proof.
  intros Ht. unfold processWrites. erewrite bind_Ret by done. unfold c_type in Ht. rewrite Ht.
  erewrite bind_Ret by done. apply each_emit.
Qed.
End frames.

(** C10.  Life cycle.  Along any run of the event loop the connection only moves
    forward from connecting to connected to closed and never leaves the closed
    state; the sequence number of the FIN sent and that of the FIN received are
    fixed once set; the connection id, the configuration, the role and the SYN
    numbers never change; the stream's shutdown request is never withdrawn; and
    what was sent on the channels is never taken back. *)
Theorem connection_lifecycle `{BTreeImpl} `{FloatConv} (steps : list (env * conn_input))
    (c c' : connection) (r : error + bool) :
  conn_run steps c = Ret (r, c') →
  state_rank (c_type c) ≤ state_rank (c_type c') ∧
  (c_type c = ConnClosed → c_type c' = ConnClosed) ∧
  (∀ n, local_fin c = Some n → local_fin c' = Some n) ∧
  (∀ n, remote_fin c = Some n → remote_fin c' = Some n) ∧
  c_cid c' = c_cid c ∧ c_config c' = c_config c ∧
  (ep_Type (c_endpoint c') = ep_Type (c_endpoint c) ∧
   ep_SynNum (c_endpoint c') = ep_SynNum (c_endpoint c) ∧
   ep_SynAck (c_endpoint c') = ep_SynAck (c_endpoint c)) ∧
  (c_streamShutdown c = true → c_streamShutdown c' = true) ∧
  ∃ evs, c_out c' = c_out c ++ evs.
Proof.
  intros E. pose proof (conn_run_evolves steps c r c' E) as Hev. pose proof (ev_state _ _ Hev) as Hst.
  split; [exact Hst|]. split.
  { intros Hc. rewrite Hc in Hst. destruct (c_type c'); simpl in Hst; (lia || done). }
  destruct Hev. auto 10.
Qed.

(** What the last turn of the loop leaves. *)
Lemma loop_step_ends `{BTreeImpl} `{FloatConv} (e : env) (i : conn_input)
    (c c' : connection) (b : bool) :
  loop_step e i c = Ret (inr b, c') →
  match i with
  | InTick => b = false
  | InCtxDone => b = true ∧ c_out c' = c_out c
  | _ => (b = true ↔ c_type c' = ConnClosed) ∧
         (b = true → ∃ evs, c_out c' = c_out c ++ evs ++ [EvShutdown])
  end.
Proof.
  intros E. unfold loop_step in E. unfold bind_ at 1 in E.
  destruct (handle e i c) as [[[err|[]] c1]| |] eqn:E1; simpl in E; try done.
  assert (Hev : evolves c c1) by (by eapply handle_evolves).
  assert (Hexit : after_select e c1 = Ret (inr b, c') →
    (b = true ↔ c_type c' = ConnClosed) ∧ (b = true → ∃ evs, c_out c' = c_out c ++ evs ++ [EvShutdown])).
  { intros [(-> & Ht & evs & Ho)|(-> & Ht)]%after_select_exit; [|done].
    split; [done|]. intros _. destruct (ev_out _ _ Hev) as [o1 E3]. exists (o1 ++ evs).
    by rewrite Ho, E3, <- !app_assoc. }
  destruct i; try (by apply Hexit); injection E as <- <-; [done|].
  unfold handle in E1. by injection E1 as <-.
Qed.

(** The end of the loop.  A turn of the loop (other than the ticker and
    the cancelled context) ends the loop exactly when it leaves the connection
    closed, and then the last thing the connection sends is the shutdown notice
    by which the socket forgets it.  A cancelled context ends the loop without
    that notice. *)
Theorem loop_exit_notifies_socket `{BTreeImpl} `{FloatConv} (e : env) (i : conn_input)
    (c c' : connection) (b : bool) :
  loop_step e i c = Ret (inr b, c') →
  match i with
  | InTick => b = false
  | InCtxDone => b = true ∧ c_out c' = c_out c
  | _ => (b = true ↔ c_type c' = ConnClosed) ∧
         (b = true → ∃ evs, c_out c' = c_out c ++ evs ++ [EvShutdown])
  end.
Proof. apply loop_step_ends. Qed.


(** ** Witnesses *)

Definition demo_config : ConnectionConfig := {|
  MaxPacketSize := 128; MaxConnAttempts := 6; MaxIdleTimeout := DefaultMaxIdleTimeout;
  InitialTimeout := defaultInitialTimeout; MinTimeout := defaultMinTimeout;
  MaxTimeout := defaultMaxTimeout; TargetDelay := defaultTargetMicros;
  WindowSize := 256; BufferSize := 256 |}.

Definition demo_env (t : Z) : env := mk_env t 100.

Definition demo_wheel0 : timeWheel Z packet := mkWheel false Second (replicate 8 ∅) 0 8 (8 * Second).

(** An initiator that has not started. *)
Definition demo_new : connection :=
  mk_connection (NewConnState (Some true)) demo_cid demo_config
    (mk_Endpoint Initiator 100 0 0) 0 MaxUint32 demo_wheel0 [] 0 [] 0 None None false [].

Definition demo_synack : packet :=
  Build (WithAckNum 100 (NewPacketBuilder st_state 7 0 256 500)).

(** Connect, write four bytes, shut down, and receive a RESET. *)
Definition demo_steps : list (env * conn_input) :=
  [(demo_env 1, InIncoming demo_synack);
   (demo_env 2, InWrite (mk_queuedWrite [1; 2; 3; 4] 0 0));
   (demo_env 3, InWritable);
   (demo_env 4, InShutdown);
   (demo_env 5, InIncoming (Build (NewPacketBuilder st_reset 7 0 0 501)))].

(** What a run of the demonstration returns. *)
Definition outcome_of {A} (m : M A) (c : connection) : (error + A) * connection :=
  force (inl ErrReset, c) (m c).

Lemma outcome_of_Ret {A} (m : M A) c :
  is_Ret (m c) = true → m c = Ret ((outcome_of m c).1, (outcome_of m c).2).
Proof. intros Hr. rewrite <- surjective_pairing. by apply force_Ret. Qed.

Lemma connection_lifecycle_witness :
  let c' := (outcome_of (conn_run demo_steps) demo_new).2 in
  c_type c' = ConnClosed ∧ local_fin c' = Some 102 ∧ ep_SynNum (c_endpoint c') = 100.
Proof.
  pose proof (connection_lifecycle demo_steps demo_new _ _
    (outcome_of_Ret (conn_run demo_steps) demo_new ltac:(vm_compute; reflexivity)))
    as (_ & _ & _ & _ & _ & _ & (_ & Hs & _) & _).
  split; [vm_compute; reflexivity|]. split; [vm_compute; reflexivity|exact Hs].
Defined.

Lemma loop_exit_notifies_socket_witness :
  let c' := (outcome_of (loop_step (demo_env 1) InIdle) demo_new).2 in
  c_type c' = ConnClosed ∧ ∃ evs, c_out c' = evs ++ [EvShutdown].
Proof.
  assert (E : loop_step (demo_env 1) InIdle demo_new
    = Ret (inr true, (outcome_of (loop_step (demo_env 1) InIdle) demo_new).2)).
  { rewrite outcome_of_Ret by (vm_compute; reflexivity). do 2 f_equal. }
  pose proof (loop_exit_notifies_socket (demo_env 1) InIdle demo_new _ true E) as [Ht Ho].
  split; [apply Ht; reflexivity|]. destruct (Ho eq_refl) as [evs Hevs]. exists evs. exact Hevs.
Defined.
