(* ===== verification/Emissions.v ===== *)
(** * What the handlers send

    Every packet that a connection builds anew says in its extension byte whether
    it carries a selective ack; only the retransmission after a timeout reuses a
    header.  The notice to the socket is sent at the end of the loop and nowhere
    else. *)

From Stdlib Require Import ZArith Lia.
From stdpp Require Import base list gmap fin_maps.
From S2P Require Import Prelude.
From S2P Require Import SelectiveAck.
From S2P Require Import Packet.
From S2P Require Import BTree.
From S2P Require Import RecvBuffer.
From S2P Require Import TimeWheel.
From S2P Require Import Float64.
From S2P Require Import Congestion.
From S2P Require Import SentPackets.
From S2P Require Import Conn.
From S2P Require Import ConnStates.

(** The extension byte names a selective ack exactly if there is one. *)
Definition fresh_extension (p : packet) : Prop :=
  h_Extension (Header p) = match Eack p with Some _ => 1 | None => 0 end.

Lemma Build_fresh b : fresh_extension (Build b).
Proof. done. Qed.

Lemma fresh_consistent p : fresh_extension p → (∀ s, Eack p = Some s → sack_encodable s) → ext_consistent p.
Proof. unfold fresh_extension, ext_consistent. intros He Hs. destruct (Eack p); auto. Qed.

Section emissions.
Context `{BTreeImpl} `{FloatConv}.
Context (Q : packet → Prop) (HQ : ∀ b, Q (Build b)).
Implicit Types c : connection.

(** Events of a turn that does not end the loop, with packets in [Q]. *)
Definition calm (ev : conn_event) : Prop :=
  match ev with EvOutgoing p => Q p | EvShutdown => False | _ => True end.

Definition emits c c' : Prop := ∃ evs, c_out c' = c_out c ++ evs ∧ Forall calm evs.

#[global] Instance emits_preorder : PreOrder emits.
Proof.
  split; [intros c; exists []; by rewrite app_nil_r|]. intros c1 c2 c3 (o1 & E1 & F1) (o2 & E2 & F2).
  exists (o1 ++ o2). rewrite E2, E1, <- app_assoc. split; [done|]. by apply Forall_app.
Qed.

Lemma emits_same c c' : c_out c' = c_out c → emits c c'.
Proof. intros E. exists []. by rewrite app_nil_r. Qed.

Lemma emits_event ev c : calm ev → emits c (with_out (c_out c ++ [ev]) c).
Proof. intros Hev. exists [ev]. by split; [|constructor]. Qed.
#[local] Hint Extern 1 (emits _ _) => (apply emits_same; done) : conn.
#[local] Hint Extern 1 (emits _ (with_out (c_out _ ++ [_]) _)) => (apply emits_event; first [exact I | apply HQ | assumption]) : conn.

Lemma deref_emits {A} (f : ConnState → option A) c : ensures emits (deref f) c.
Proof. intros r c' E. unfold deref in E. destruct (f (c_state c)); [|done]. injection E as _ <-. reflexivity. Qed.
#[local] Hint Resolve deref_emits : conn.

Ltac emitting := repeat first
  [ progress (auto with conn)
  | progress (unfold recvBuf, sendBuf, sent, notify_readable, notify_writable, stateType, closing, push_write,
              close_connected, send_connected, emit)
  | ensures_step ].

Lemma statePacket_emits e c : ensures emits (statePacket e) c.
Proof. unfold statePacket. emitting. Qed.
Lemma fin_packet_emits e c : ensures emits (fin_packet e) c.
Proof. unfold fin_packet. emitting. Qed.
Lemma synPacket_emits e n c : ensures emits (synPacket e n) c.
Proof. unfold synPacket. emitting. Qed.
Lemma transmit_emits p now c : Q p → ensures emits (transmit p now) c.
Proof. intros Hp. unfold transmit. emitting. Qed.
Lemma eof_emits c : ensures emits eof c.
Proof. unfold eof. emitting. Qed.
Lemma nothing_to_send_emits c : ensures emits nothing_to_send c.
Proof. unfold nothing_to_send. emitting. Qed.
#[local] Hint Resolve statePacket_emits fin_packet_emits synPacket_emits eof_emits nothing_to_send_emits : conn.
#[local] Hint Extern 1 (ensures emits (transmit _ _) _) => (apply transmit_emits; first [apply HQ | assumption]) : conn.

(** The packets that the helpers return are built anew. *)
Lemma statePacket_built e c p c' : statePacket e c = Ret (inr (Some p), c') → Q p.
Proof.
  unfold statePacket. intros E. erewrite bind_Ret in E by done. cbv zeta in E.
  destruct (cs_stateType (c_state c)); [destruct (ep_Type _)| |]; try (injection E as <- _; apply HQ); try done.
  unfold bind_, sent, recvBuf, deref in E. destruct (cs_SentPackets (c_state c)) as [sp|]; [|done]. simpl in E.
  destruct (cs_RecvBuf (c_state c)) as [rb|]; [|done]. simpl in E. injection E as <- _. apply HQ.
Qed.

Lemma fin_packet_built e c p c' : fin_packet e c = Ret (inr p, c') → Q p.
Proof.
  unfold fin_packet, bind_, sent, recvBuf, deref. intros E. destruct (cs_RecvBuf (c_state c)) as [rb|]; [|done]. simpl in E.
  destruct (cs_SentPackets (c_state c)) as [sp|]; [|done]. simpl in E. injection E as <- _. apply HQ.
Qed.

Lemma synPacket_built e n c p c' : synPacket e n c = Ret (inr p, c') → Q p.
Proof. unfold synPacket. intros E. erewrite bind_Ret in E by done. injection E as <- _. apply HQ. Qed.

Ltac built_packet :=
  match goal with
  | E : statePacket _ _ = Ret (inr (Some ?p), _) |- Q ?p => exact (statePacket_built _ _ _ _ E)
  | E : fin_packet _ _ = Ret (inr ?p, _) |- Q ?p => exact (fin_packet_built _ _ _ _ E)
  | E : synPacket _ _ _ = Ret (inr ?p, _) |- Q ?p => exact (synPacket_built _ _ _ _ _ E)
  end.
#[local] Hint Extern 1 (emits _ (with_out (c_out _ ++ [_]) _)) => (apply emits_event; cbn [calm]; built_packet) : conn.
#[local] Hint Extern 1 (ensures emits (transmit _ _) _) => (apply transmit_emits; built_packet) : conn.

Lemma fill_emits fuel c : ensures emits (fill fuel) c.
Proof. revert c. induction fuel; intros c; simpl; emitting. Qed.
Lemma transmit_all_emits e now n w a s l c : ensures emits (transmit_all e now n w a s l) c.
Proof. revert n c. induction l; intros n c; simpl; emitting. Qed.
Lemma retransmit_all_emits e now w d l c : ensures emits (retransmit_all e now w d l) c.
Proof. revert c. induction l; intros c; simpl; emitting. Qed.
Lemma read_loop_emits fuel c : ensures emits (read_loop fuel) c.
Proof. revert c. induction fuel; intros c; simpl; emitting. Qed.
#[local] Hint Resolve fill_emits transmit_all_emits retransmit_all_emits read_loop_emits : conn.
Lemma processWrites_emits e now c : ensures emits (processWrites e now) c.
Proof. unfold processWrites. emitting. Qed.
Lemma processReads_emits c : ensures emits processReads c.
Proof. unfold processReads. emitting. Qed.
Lemma retransmitLostPackets_emits e now c : ensures emits (retransmitLostPackets e now) c.
Proof. unfold retransmitLostPackets. emitting. Qed.
Lemma reset_emits err c : ensures emits (reset err) c.
Proof. unfold reset. emitting. Qed.
#[local] Hint Resolve processWrites_emits processReads_emits retransmitLostPackets_emits reset_emits : conn.
Lemma reply_emits e p c : ensures emits (reply e p) c.
Proof. unfold reply. emitting. Qed.
Lemma recv_write_emits data n c : ensures emits (recv_write data n) c.
Proof. unfold recv_write. emitting. Qed.
#[local] Hint Resolve reply_emits recv_write_emits : conn.
Lemma onWrite_emits e w c : ensures emits (onWrite e w) c.
Proof. unfold onWrite. emitting. Qed.
Lemma onSyn_emits n c : ensures emits (onSyn n) c.
Proof. unfold onSyn. ensures_step. cbv zeta. destruct (ep_Type _); [emitting|]. destruct (negb _); emitting. Qed.
Lemma onState_emits n a c : ensures emits (onState n a) c.
Proof. unfold onState. emitting. Qed.
Lemma onData_emits n data c : ensures emits (onData n data) c.
Proof. unfold onData. emitting. Qed.
Lemma onFin_emits n data c : ensures emits (onFin n data) c.
Proof. unfold onFin. emitting. Qed.
Lemma onReset_emits c : ensures emits onReset c.
Proof. unfold onReset. emitting. Qed.
Lemma processAck_emits a s d now clk c : ensures emits (processAck a s d now clk) c.
Proof. unfold processAck. emitting. Qed.
Lemma close_if_acked_emits c : ensures emits close_if_acked c.
Proof. unfold close_if_acked. emitting. Qed.
Lemma close_if_remote_emits c : ensures emits close_if_remote c.
Proof. unfold close_if_remote. emitting. Qed.
Lemma close_if_both_emits c : ensures emits close_if_both c.
Proof. unfold close_if_both. emitting. Qed.
#[local] Hint Resolve onWrite_emits onSyn_emits onState_emits onData_emits onFin_emits onReset_emits processAck_emits
  close_if_acked_emits close_if_remote_emits close_if_both_emits : conn.
Lemma onPacket_emits e p now c : ensures emits (onPacket e p now) c.
Proof. unfold onPacket, dispatch. emitting. Qed.
Lemma shutdown_emits e c : ensures emits (shutdown e) c.
Proof. unfold shutdown. emitting. Qed.
Lemma start_emits e c : ensures emits (start e) c.
Proof. unfold start. emitting. Qed.
#[local] Hint Resolve onPacket_emits shutdown_emits : conn.

(** The retransmission after a timeout: any packet, unless [Q] allows all. *)
Lemma onTimeout_emits e p now c : (∀ q, Q q) → ensures emits (onTimeout e p now) c.
Proof. intros Hall. unfold onTimeout. emitting; apply transmit_emits, Hall. Qed.

Lemma handle_emits e i c : (i = InTimeout → ∀ q, Q q) → ensures emits (handle e i) c.
Proof.
  intros Hi. destruct i; unfold handle; try (emitting; done). pose proof (λ e p now c, onTimeout_emits e p now c (Hi eq_refl)) as Ht.
  emitting.
Qed.

(** The end of a turn; the notice to the socket comes last, and only when the
    loop returns. *)
Definition notice (i : conn_input) (b : bool) : list conn_event :=
  match i with InCtxDone => [] | _ => if b then [EvShutdown] else [] end.

Lemma after_select_emits e c b c' :
  after_select e c = Ret (inr b, c') →
  ∃ evs, c_out c' = c_out c ++ evs ++ (if b then [EvShutdown] else []) ∧ Forall calm evs.
Proof.
  unfold after_select. intros E. erewrite bind_Ret in E by done.
  match type of E with bind_ ?x _ _ = _ => set (m := x) in E end.
  assert (Hm : ensures emits m c) by (unfold m; emitting).
  unfold bind_ at 1 in E. destruct (m c) as [[[err|[]] c1]| |] eqn:E1; try done. apply Hm in E1 as H1.
  simpl in E. erewrite bind_Ret in E by done. destruct (cs_stateType (c_state c1)).
  1,2: injection E as <- <-; destruct H1 as (evs & -> & Hf); exists evs; by rewrite app_nil_r.
  unfold bind_ at 1 in E. destruct (eof c1) as [[[err|b1] c2]| |] eqn:E2; try done. simpl in E.
  unfold bind_ at 1 in E. destruct ((if negb b1 then processReads else done_ tt) c2) as [[[err|[]] c3]| |] eqn:E3; try done. simpl in E.
  unfold bind_ at 1 in E. destruct (processWrites e (e_now e) c3) as [[[err|[]] c4]| |] eqn:E4; try done. simpl in E.
  injection E as <- <-. assert (H4 : emits c c4).
  { rewrite H1, (eof_emits _ _ _ E2). etrans; [|by eapply processWrites_emits].
    destruct (negb b1) in E3; [by eapply processReads_emits|injection E3 as <-; reflexivity]. }
  destruct H4 as (evs & Ho & Hf). exists evs. split; [|done]. simpl. by rewrite Ho, <- app_assoc.
Qed.

Lemma loop_step_emits e i c b c' :
  (i = InTimeout → ∀ q, Q q) → loop_step e i c = Ret (inr b, c') →
  ∃ evs, c_out c' = c_out c ++ evs ++ notice i b ∧ Forall calm evs.
Proof.
  intros Hi. unfold loop_step. intros E. unfold bind_ at 1 in E.
  destruct (handle e i c) as [[[err|[]] c1]| |] eqn:E1; try done. simpl in E.
  destruct (handle_emits e i c Hi _ _ E1) as (o1 & Ho1 & Hf1).
  assert (Hafter : after_select e c1 = Ret (inr b, c') → i ≠ InCtxDone →
    ∃ evs, c_out c' = c_out c ++ evs ++ notice i b ∧ Forall calm evs).
  { intros (o2 & Ho2 & Hf2)%after_select_emits Hne. exists (o1 ++ o2). split; [|by apply Forall_app].
    rewrite Ho2, Ho1, <- !app_assoc. by destruct i. }
  destruct i; try (by apply Hafter); injection E as <- <-; exists o1; by rewrite app_nil_r.
Qed.

(** A run that has not returned has not told the socket. *)
Lemma conn_run_emits steps c c' :
  (∀ s, s ∈ steps → s.2 = InTimeout → ∀ q, Q q) → conn_run steps c = Ret (inr false, c') → emits c c'.
Proof.
  revert c. induction steps as [|[e i] steps IH]; intros c Hs E; cbn [conn_run] in E.
  { injection E as <-. reflexivity. }
  unfold bind_ at 1 in E. destruct (loop_step e i c) as [[[err|[]] c1]| |] eqn:E1; try done. simpl in E.
  destruct (loop_step_emits e i c false c1 (Hs (e, i) ltac:(left)) E1) as (evs & Ho & Hf).
  assert (H1 : emits c c1) by (exists evs; split; [|done]; rewrite Ho; destruct i; by rewrite app_nil_r).
  rewrite H1. apply IH; [|done]. intros s Hin. apply Hs. by right.
Qed.

(** Every packet of a run is in [Q]. *)
Lemma conn_run_packets steps c b c' p :
  (∀ s, s ∈ steps → s.2 = InTimeout → ∀ q, Q q) → conn_run steps c = Ret (inr b, c') →
  EvOutgoing p ∈ c_out c' → EvOutgoing p ∈ c_out c ∨ Q p.
Proof.
  revert c. induction steps as [|[e i] steps IH]; intros c Hs E Hin; cbn [conn_run] in E.
  { injection E as _ <-. by left. }
  unfold bind_ at 1 in E. destruct (loop_step e i c) as [[[err|b1] c1]| |] eqn:E1; try done. simpl in E.
  destruct (loop_step_emits e i c b1 c1 (Hs (e, i) ltac:(left)) E1) as (evs & Ho & Hf).
  assert (H1 : EvOutgoing p ∈ c_out c1 → EvOutgoing p ∈ c_out c ∨ Q p).
  { rewrite Ho, !elem_of_app. intros [?|[Hev|Hno]]; [by left| |].
    - right. rewrite Forall_forall in Hf. exact (Hf _ Hev).
    - destruct i, b1; simpl in Hno; by set_solver. }
  destruct b1; [injection E as _ <-; by apply H1|].
  destruct (IH c1) as [?|?]; [|done|done|by apply H1|by right]. intros s Hs'. apply Hs. by right.
Qed.
End emissions.
