(* ===== verification/ConnSafety.v ===== *)
(** * Safety of the connection

    [conn_inv] is the invariant of a connection between two turns of the event
    loop: the buffers, the sent packets, the controller and the timing wheel
    meet their own invariants, and every packet waiting in the wheel is a SYN or
    one of the packets sent.  The theorems show that handlers keep it and do not
    panic, whatever the peer sends; the only panic a turn of the loop can raise
    is the one of [SentPackets.empty_packet_panics].

    Bounds: fewer than 65533 packets sent on the connection ([has_room]), no
    packet sent 2^32 times, and a clock that stays within 13 days of [T0]. *)

From Stdlib Require Import ZArith Lia.
From stdpp Require Import base list gmap fin_maps sets.
From S2P Require Import Prelude.
From S2P Require Import Hoare.
From S2P Require Import Seq.
From S2P Require Import SelectiveAck.
From S2P Require Import Packet.
From S2P Require Import SendBuffer.
From S2P Require Import BTree.
From S2P Require Import RecvBuffer.
From S2P Require Import TimeWheel.
From S2P Require Import Utils.
From S2P Require Import Cid.
From S2P Require Import Float64.
From S2P Require Import Controller.
From S2P Require Import Congestion.
From S2P Require Import SentPackets.
From S2P Require Import Conn.
From S2P Require Import ConnStates.

(** ** Invariant *)

(** ** Packets *)

(** DATA packets, and only they, have a payload. *)
Definition body_ok (t : PacketType) (body : list Z) : Prop :=
  match t with st_data => body ≠ [] | _ => body = [] end.

(** A packet whose fields fit the wire format (its extension byte apart). *)
Record sendable (p : packet) : Prop := {
  sd_header : header_wf (Header p);
  sd_sack s : Eack p = Some s → sack_encodable s;
  sd_body : body_ok (h_PacketType (Header p)) (Body p);
}.

(** What the builder makes of fields that are in range. *)
Lemma built_sendable b :
  is_u16 (b_connID b) → is_u32 (b_tsDiffMicros b) → is_u32 (b_windowSize b) →
  is_u16 (b_seqNum b) → is_u16 (b_ackNum b) →
  (∀ s, b_selectiveAck b = Some s → sack_encodable s) →
  body_ok (b_packetType b) (b_payload b) → sendable (Build b).
Proof.
  intros Hc Hd Hw Hs Ha Hk Hb. assert (Hwf : packet_wf (Build b)).
  { apply Build_wf; try done. intros Ht. by rewrite Ht in Hb. }
  split; [apply Hwf|done|done].
Qed.

Lemma sendable_wf p : sendable p → ext_consistent p → packet_wf p.
Proof. intros [Hh Hs Hb] Hc. split_and!; [done|done|]. intros Ht. by rewrite Ht in Hb. Qed.

Lemma zero_u16 : is_u16 0.
Proof. by split. Qed.
Lemma zero_u32 : is_u32 0.
Proof. by split. Qed.
Ltac built :=
  apply built_sendable; simpl; try (apply u32_range || apply zero_u16 || apply zero_u32); try done.

Section safety.
Context `{BTreeLaws} `{FloatConv}.
(** [T0] is the start of the connection's clock; at most [N] packets were sent;
    [W] are the bytes of the writes that the connection has accepted. *)
Context (T0 N : Z) (W : list Z).
Hypothesis HN : 0 ≤ N.
Implicit Types c : connection.

(** A configuration that the code can run with. *)
Record cfg_ok (cf : ConnectionConfig) : Prop := {
  cfg_packet : 64 < MaxPacketSize cf < 65536;
  cfg_buffer : 0 ≤ BufferSize cf;
  cfg_initial : 4 ≤ InitialTimeout cf < 2 ^ 50;
  cfg_attempts : MaxConnAttempts cf ≤ 10;
  cfg_window : is_u32 (WindowSize cf);
  cfg_ctrl : config_ok (fromConnConfig cf);
}.

Definition counts_below (n : Z) (sp : sentPackets defaultController) : Prop :=
  ∀ k v, ctl_view (sp_congestionCtrl sp) !! k = Some v → pv_count v ≤ n.

(** A packet that may wait for a timeout. *)
Definition is_syn (p : packet) : Prop := h_PacketType (Header p) = st_syn.
Definition syn_ok (p : packet) : Prop := is_syn p ∧ sendable p.
Definition pkt_ok (sp : sentPackets defaultController) (p : packet) : Prop :=
  sendable p ∧
  (is_syn p ∨ ∃ i q, sp_packets sp !! i = Some q ∧ h_SeqNum (Header p) = seq_at sp i ∧
    Body p = p_data q ∧ h_PacketType (Header p) = p_packetType q).

(** An event that carries nothing of the stream, and one that is faithful to the
    list of sent packets. *)
Definition quiet (ev : conn_event) : Prop :=
  match ev with
  | EvOutgoing p => sendable p ∧ h_PacketType (Header p) ≠ st_data ∧ h_PacketType (Header p) ≠ st_fin
  | _ => True
  end.
Definition faithful (sp : sentPackets defaultController) (ev : conn_event) : Prop :=
  quiet ev ∨ ∃ p, ev = EvOutgoing p ∧ pkt_ok sp p.

(** [sp'] has the packets of [sp], and maybe more. *)
Record extends (sp sp' : sentPackets defaultController) : Prop := {
  ex_init : sp_initSeqNum sp' = sp_initSeqNum sp;
  ex_packets i q : sp_packets sp !! i = Some q →
    ∃ q', sp_packets sp' !! i = Some q' ∧ p_data q' = p_data q ∧ p_packetType q' = p_packetType q;
}.

(** The packets in order, and that every DATA packet has a payload. *)
Definition kinds (sp : sentPackets defaultController) : list (PacketType * list Z) :=
  (λ q, (p_packetType q, p_data q)) <$> sp_packets sp.
Definition full (sp : sentPackets defaultController) : Prop :=
  Forall (λ k, body_ok k.1 k.2) (kinds sp).

Definition wheel_ok (P : packet → Prop) (tw : timeWheel Z packet) : Prop :=
  tw_inv tw ∧ ∀ slot k p, slot ∈ tw_slots tw → slot !! k = Some p → P p.

(** The number before the first packet that an endpoint sends. *)
Definition first_seq (ep : Endpoint) : Z :=
  match ep_Type ep with Initiator => ep_SynNum ep | Acceptor => ep_SynAck ep ⊖ 1 end.

Definition cid_ok (cid : ConnectionId) : Prop := is_u16 (cid_Send cid) ∧ is_u16 (cid_Recv cid).

Record base_inv c : Prop := {
  bi_cfg : cfg_ok (c_config c);
  bi_window : is_u32 (c_peerRecvWindow c);
  bi_syn : is_u16 (ep_SynNum (c_endpoint c));
  bi_synack : is_u16 (ep_SynAck (c_endpoint c));
  bi_cid : cid_ok (c_cid c);
  bi_attempts : 0 ≤ ep_Attempts (c_endpoint c);
  bi_wheel : tw_inv (c_unacked c);
}.

Record connected (n : Z) c (rb : receiveBuffer) (sb : sendBuffer)
    (sp : sentPackets defaultController) : Prop := {
  cn_recv : cs_RecvBuf (c_state c) = Some rb;
  cn_send : cs_SendBuf (c_state c) = Some sb;
  cn_sent : cs_SentPackets (c_state c) = Some sp;
  cn_rb : rb_inv rb;
  cn_sb : sb_inv sb;
  cn_sp : sp_inv T0 sp;
  cn_counts : counts_below n sp;
  cn_wheel : wheel_ok (pkt_ok sp) (c_unacked c);
  cn_queue : Forall (pkt_ok sp) (c_unackTimeoutCh c);
  cn_out : Forall (faithful sp) (c_out c);
  cn_full : full sp;
  cn_init : sp_initSeqNum sp = first_seq (c_endpoint c);
}.

(** The bytes of the packets sent, and of the writes that wait for room. *)
Definition sent_bytes (sp : sentPackets defaultController) : list Z := concat (kinds sp).*2.
Definition waiting c : list Z := concat (qw_data <$> c_pendingWrites c).

(** A FIN is the last packet, and comes after all the bytes. *)
Definition fin_last (sp : sentPackets defaultController) : Prop :=
  ∀ i d, kinds sp !! i = Some (st_fin, d) → S i = length (kinds sp) ∧ sent_bytes sp = W.

(** The outgoing stream of a connected connection: what was sent, then the send
    buffer, then the waiting writes. *)
Record carries c (sb : sendBuffer) (sp : sentPackets defaultController) : Prop := {
  ca_stream : sent_bytes sp ++ sb_contents sb ++ waiting c = W;
  ca_fin : fin_last sp;
  ca_local i d : kinds sp !! i = Some (st_fin, d) → is_Some (local_fin c);
}.

(** What stays true of the packets sent when the connection is closed. *)
Record history c (sp : sentPackets defaultController) : Prop := {
  hi_out : Forall (faithful sp) (c_out c);
  hi_sent : sent_bytes sp `prefix_of` W;
  hi_fin : fin_last sp;
  hi_init : is_u16 (sp_initSeqNum sp);
  hi_first : sp_initSeqNum sp = first_seq (c_endpoint c);
  hi_len : len (kinds sp) ≤ N;
}.

(** The same, before the connection was established too. *)
Definition past c : Prop :=
  match cs_SentPackets (c_state c) with Some sp => history c sp | None => Forall quiet (c_out c) end.

Definition conn_inv (n : Z) c : Prop :=
  base_inv c ∧ past c ∧
  match c_type c with
  | ConnConnecting =>
      cs_connectedCh (c_state c) = Some true ∧ ep_Type (c_endpoint c) = Initiator ∧
      wheel_ok syn_ok (c_unacked c) ∧ Forall syn_ok (c_unackTimeoutCh c) ∧ Forall quiet (c_out c) ∧
      cs_SentPackets (c_state c) = None ∧ waiting c = W
  | ConnConnected => ∃ rb sb sp, connected n c rb sb sp ∧ len (sp_packets sp) ≤ N ∧ carries c sb sp
  | ConnClosed => True
  end.

(** A turn of the loop happens at a time [t] of the connection's clock. *)
Definition env_ok (e : env) : Prop := time_ok T0 (e_now e) ∧ is_u16 (e_rand e).

(** ** Wheels *)

Lemma wheel_ok_mono (P Q : packet → Prop) tw : (∀ p, P p → Q p) → wheel_ok P tw → wheel_ok Q tw.
Proof. intros HPQ [Hi Hw]. split; [done|]. intros. eapply HPQ, Hw; done. Qed.

Lemma wheel_ok_put P k p d tw :
  wheel_ok P tw → P p → 0 ≤ d → ∃ tw', tw_put k p d tw = Ret tw' ∧ wheel_ok P tw'.
Proof.
  intros [Hi Hw] Hp Hd. destruct (tw_put_spec k p d tw Hi Hd) as (slot & Hslot & E).
  eexists. split; [done|]. split; [by eapply tw_put_inv|]. simpl. intros slot' k' p' Hin Hk'.
  apply list_elem_of_lookup in Hin as [i Hi']. apply list_lookup_insert_Some in Hi' as [(_ & <- & _)|[_ Hi']].
  - apply lookup_insert_Some in Hk' as [[_ <-]|[_ Hk']]; [done|]. eapply Hw; [|done].
    by eapply list_elem_of_lookup_2.
  - eapply Hw; [|done]. by eapply list_elem_of_lookup_2.
Qed.

Lemma wheel_ok_retain P f tw : wheel_ok P tw → wheel_ok P (tw_retain f tw).
Proof.
  intros [Hi Hw]. split; [by apply tw_retain_inv|]. simpl. intros slot k p Hin Hk.
  apply list_elem_of_fmap in Hin as (slot0 & -> & Hin). apply map_lookup_filter_Some in Hk as [Hk _].
  by eapply Hw.
Qed.

Lemma remove_first_slots (k k' : Z) (slots : list (gmap Z packet)) slot (p : packet) :
  slot ∈ remove_first k slots → slot !! k' = Some p → ∃ slot0, slot0 ∈ slots ∧ slot0 !! k' = Some p.
Proof.
  induction slots as [|s l IH]; simpl; intros Hin Hk; [by apply not_elem_of_nil in Hin|].
  destruct (s !! k) eqn:Es; apply elem_of_cons in Hin as [->|Hin].
  - apply lookup_delete_Some in Hk as [_ Hk]. exists s. split; [left|done].
  - exists slot. split; [by right|done].
  - exists s. split; [left|done].
  - destruct (IH Hin Hk) as (s0 & ? & ?). exists s0. split; [by right|done].
Qed.

Lemma wheel_ok_remove P k tw : wheel_ok P tw → wheel_ok P (tw_remove k tw).
Proof.
  intros [Hi Hw]. split; [by apply tw_remove_inv|]. simpl. intros slot k' p Hin Hk.
  destruct (remove_first_slots _ _ _ _ _ Hin Hk) as (slot0 & ? & ?). by eapply Hw.
Qed.

Lemma wheel_ok_tick P tw :
  wheel_ok P tw → ∃ l tw', tw_tick tw = Ret (l, tw') ∧ wheel_ok P tw' ∧ Forall P l.*2.
Proof.
  intros [Hi Hw]. destruct (tw_tick_spec tw Hi) as (slot & tw' & Hslot & E & Hi' & Hs' & _).
  eexists _, tw'. split_and!; [done| |].
  - split; [done|]. rewrite Hs'. intros slot' k p Hin Hk. apply list_elem_of_lookup in Hin as [i Hl].
    apply list_lookup_insert_Some in Hl as [(_ & <- & _)|[_ Hl]]; [by rewrite lookup_empty in Hk|].
    eapply Hw; [|done]. by eapply list_elem_of_lookup_2.
  - apply Forall_forall. intros p Hp. apply list_elem_of_fmap in Hp as ((k & p') & -> & Hp).
    apply elem_of_map_to_list in Hp. eapply Hw; [|done]. by eapply list_elem_of_lookup_2.
Qed.

Lemma pkt_ok_grow sp sp' p : extends sp sp' → pkt_ok sp p → pkt_ok sp' p.
Proof.
  intros [Hi Hps] [Hs [Hp|(i & q & Hq & Es & Eb & Et)]]; split; [done|by left|done|right]. destruct (Hps i q Hq) as (q' & Hq' & Ed & Ety).
  exists i, q'. split_and!; [done| |congruence|congruence]. rewrite Es. unfold seq_at. by rewrite Hi.
Qed.

Lemma faithful_grow sp sp' ev : extends sp sp' → faithful sp ev → faithful sp' ev.
Proof. intros He [Hq|(p & -> & Hp)]; [by left|right]. exists p. split; [done|by eapply pkt_ok_grow]. Qed.

Lemma extends_packets sp sp' :
  sp_initSeqNum sp' = sp_initSeqNum sp → sp_packets sp' = sp_packets sp → extends sp sp'.
Proof. intros Hi Hp. split; [done|]. intros i q Hq. exists q. by rewrite Hp. Qed.

Lemma extends_app sp sp' l :
  sp_initSeqNum sp' = sp_initSeqNum sp → sp_packets sp' = sp_packets sp ++ l → extends sp sp'.
Proof. intros Hi Hp. split; [done|]. intros i q Hq. exists q. rewrite Hp. split; [by apply lookup_app_l_Some|done]. Qed.

Lemma extends_resent sp sp' now i :
  sp_initSeqNum sp' = sp_initSeqNum sp → sp_packets sp' = alter (set_retransmission now) i (sp_packets sp) →
  extends sp sp'.
Proof.
  intros Hi Hp. split; [done|]. intros j q Hq. rewrite Hp. destruct (decide (i = j)) as [<-|Hne].
  - rewrite list_lookup_alter_eq, Hq. by exists (set_retransmission now q).
  - rewrite list_lookup_alter_ne by done. by exists q.
Qed.

Lemma extends_acked f sp sp' : acked_by f sp sp' → extends sp sp'.
Proof.
  intros Hab. split; [apply Hab|]. intros i q Hq. pose proof (f_equal (lookup i) (ab_strip _ _ _ Hab)) as E.
  rewrite !list_lookup_fmap, Hq in E. destruct (sp_packets sp' !! i) as [q'|]; [|done]. exists q'.
  injection E as _ Et Ed _ _. done.
Qed.

Lemma extends_trans sp sp' sp'' : extends sp sp' → extends sp' sp'' → extends sp sp''.
Proof.
  intros [Ei1 Hp1] [Ei2 Hp2]. split; [congruence|]. intros i q Hq. destruct (Hp1 i q Hq) as (q' & Hq' & Ed & Et).
  destruct (Hp2 i q' Hq') as (q'' & Hq'' & Ed' & Et'). exists q''. split_and!; congruence.
Qed.

(** ** The outgoing stream *)

Lemma kinds_len sp : len (kinds sp) = len (sp_packets sp).
Proof. unfold len, kinds. by rewrite length_fmap. Qed.

Lemma kinds_data sp : (kinds sp).*2 = p_data <$> sp_packets sp.
Proof. unfold kinds. by rewrite <- list_fmap_compose. Qed.

Lemma sent_bytes_data sp : sent_bytes sp = concat (p_data <$> sp_packets sp).
Proof. unfold sent_bytes. by rewrite kinds_data. Qed.

Lemma full_same sp sp' : kinds sp' = kinds sp → full sp → full sp'.
Proof. unfold full. by intros ->. Qed.

(** The stream depends on the kinds of the packets only. *)
Lemma kinds_same_len sp sp' : kinds sp' = kinds sp → len (sp_packets sp') = len (sp_packets sp).
Proof. intros E. by rewrite <- !kinds_len, E. Qed.

Lemma carries_eq c c' sb sb' sp sp' :
  carries c sb sp → kinds sp' = kinds sp → sb_contents sb' = sb_contents sb → waiting c' = waiting c →
  local_fin c' = local_fin c → carries c' sb' sp'.
Proof.
  intros [Hs Hf Hl] Ek Eb Ew El. assert (Es : sent_bytes sp' = sent_bytes sp) by (unfold sent_bytes; by rewrite Ek).
  split; [by rewrite Es, Eb, Ew|intros i d; rewrite Ek, Es; by apply Hf|]. intros i d. rewrite Ek, El. apply Hl.
Qed.

Lemma kinds_resent sp sp' now i :
  sp_packets sp' = alter (set_retransmission now) i (sp_packets sp) → kinds sp' = kinds sp.
Proof.
  intros E. unfold kinds. rewrite E. apply list_eq. intros j. rewrite !list_lookup_fmap.
  destruct (decide (i = j)) as [<-|Hne]; [rewrite list_lookup_alter_eq|by rewrite list_lookup_alter_ne].
  by destruct (sp_packets sp !! i).
Qed.

Lemma kinds_acked f sp sp' : acked_by f sp sp' → kinds sp' = kinds sp.
Proof.
  intros Hab. unfold kinds. apply list_eq. intros j. rewrite !list_lookup_fmap.
  pose proof (f_equal (lookup j) (ab_strip _ _ _ Hab)) as E. rewrite !list_lookup_fmap in E.
  destruct (sp_packets sp !! j), (sp_packets sp' !! j); try done. simpl in *. injection E as _ Et Ed _ _. congruence.
Qed.

Lemma carries_new c size seq ctl :
  waiting c = W → carries c (newSendBuffer size) (newSentPackets seq ctl).
Proof. intros Hw. split; [done|by intros [|i] d Hk..]. Qed.

(** A FIN among the packets leaves nothing to send. *)
Lemma carries_fin c sb sp i d :
  carries c sb sp → kinds sp !! i = Some (st_fin, d) → sb_contents sb = [] ∧ waiting c = [].
Proof.
  intros [Hs Hf _] Hk. destruct (Hf i d Hk) as [_ E]. rewrite E in Hs.
  rewrite <- (app_nil_r W) in Hs at 2. apply app_inv_head, app_nil in Hs. done.
Qed.

(** New DATA packets take the front of what was left to send. *)
Lemma carries_data c c' sb sb' sp sp' ps :
  carries c sb sp → kinds sp' = kinds sp ++ (pair st_data <$> ps) → Forall (λ p, 0 < len p) ps →
  concat ps ++ sb_contents sb' ++ waiting c' = sb_contents sb ++ waiting c →
  local_fin c' = local_fin c → carries c' sb' sp'.
Proof.
  intros Hca Hk Hne Hs El.
  assert (Hnew : (pair st_data <$> ps).*2 = ps)
    by (rewrite <- list_fmap_compose; apply list_fmap_id).
  assert (Hfin : ∀ i d, kinds sp' !! i = Some (st_fin, d) → kinds sp !! i = Some (st_fin, d) ∧ ps = []).
  { intros i d Hi. rewrite Hk in Hi. apply lookup_app_Some in Hi as [Hi|[_ Hi]].
    - split; [done|]. destruct (carries_fin c sb sp i d Hca Hi) as [E1 E2]. rewrite E1, E2 in Hs.
      apply app_nil in Hs as [Hs _]. destruct ps as [|p ps]; [done|]. apply Forall_cons in Hne as [Hp _].
      apply app_nil in Hs as [-> _]. by cbv in Hp.
    - rewrite list_lookup_fmap in Hi. by destruct (ps !! _). }
  split.
  - rewrite <- (ca_stream _ _ _ Hca). unfold sent_bytes. rewrite Hk, fmap_app, concat_app, Hnew, <- app_assoc. by rewrite Hs.
  - intros i d Hi. destruct (Hfin i d Hi) as [Hi' Hps]. rewrite Hps, app_nil_r in Hk. unfold sent_bytes. rewrite Hk.
    by apply (ca_fin _ _ _ Hca i d).
  - intros i d Hi. rewrite El. eapply (ca_local _ _ _ Hca), Hfin, Hi.
Qed.

(** The FIN, when nothing is left to send. *)
Lemma carries_close c c' sb sp sp' :
  carries c sb sp → local_fin c = None → sb_contents sb = [] → waiting c = [] →
  kinds sp' = kinds sp ++ [(st_fin, [])] → waiting c' = waiting c → is_Some (local_fin c') → carries c' sb sp'.
Proof.
  intros Hca Hlf Hsb Hw Hk Ew Hlf'. pose proof (ca_stream _ _ _ Hca) as Hs. rewrite Hsb, Hw, !app_nil_r in Hs.
  assert (Es : sent_bytes sp' = W).
  { rewrite <- Hs. unfold sent_bytes. rewrite Hk, fmap_app, concat_app. simpl. by rewrite app_nil_r. }
  split; [by rewrite Es, Hsb, Ew, Hw, !app_nil_r| |done]. intros i d Hi. split; [|done]. rewrite Hk in Hi |- *.
  apply lookup_app_Some in Hi as [Hi|[Hge Hi]].
  - destruct (ca_local _ _ _ Hca i d Hi) as [f Hf]. congruence.
  - apply lookup_lt_Some in Hi. rewrite length_app in *. simpl in *. lia.
Qed.

Lemma connected_history n c rb sb sp :
  connected n c rb sb sp → carries c sb sp → len (sp_packets sp) ≤ N → past c.
Proof.
  intros Hc Hs Hl. unfold past. rewrite (cn_sent _ _ _ _ _ Hc). split.
  - apply Hc.
  - rewrite <- (ca_stream _ _ _ Hs). by exists (sb_contents sb ++ waiting c).
  - apply Hs.
  - apply (cn_sp _ _ _ _ _ Hc).
  - apply Hc.
  - by rewrite kinds_len.
Qed.

(** What the past depends on. *)
Lemma past_eq c c' :
  past c → cs_SentPackets (c_state c') = cs_SentPackets (c_state c) → c_out c' = c_out c →
  c_endpoint c' = c_endpoint c → past c'.
Proof.
  unfold past. intros Hp Es Eo Ee. rewrite Es, Eo. destruct (cs_SentPackets (c_state c)) as [sp|]; [|done].
  destruct Hp. split; rewrite ?Eo, ?Ee; done.
Qed.

Lemma past_emit c ev : past c → quiet ev → past (with_out (c_out c ++ [ev]) c).
Proof.
  unfold past. intros Hp Hq. cbn [c_state with_out]. destruct (cs_SentPackets (c_state c)) as [sp|].
  - destruct Hp. split; try done. apply Forall_app. split; [done|]. apply Forall_singleton. by left.
  - apply Forall_app. split; [done|by apply Forall_singleton].
Qed.

(** ** Updates of a connected connection *)

(** What [connected] depends on. *)
Lemma connected_eq n c c' rb sb sp :
  connected n c rb sb sp →
  cs_RecvBuf (c_state c') = cs_RecvBuf (c_state c) → cs_SendBuf (c_state c') = cs_SendBuf (c_state c) →
  cs_SentPackets (c_state c') = cs_SentPackets (c_state c) → c_unacked c' = c_unacked c →
  c_unackTimeoutCh c' = c_unackTimeoutCh c → c_out c' = c_out c → c_endpoint c' = c_endpoint c →
  connected n c' rb sb sp.
Proof. intros [] E1 E2 E3 E4 E5 E6 E7. split; rewrite ?E1, ?E2, ?E3, ?E4, ?E5, ?E6, ?E7; done. Qed.

Lemma connected_mono n m c rb sb sp : n ≤ m → connected n c rb sb sp → connected m c rb sb sp.
Proof.
  intros Hnm []. split; try done. intros k v Hk. etrans; [by eapply cn_counts0|done].
Qed.

Lemma connected_recv n c rb sb sp rb' :
  connected n c rb sb sp → rb_inv rb' → connected n (with_state (st_recv rb') c) rb' sb sp.
Proof. intros [] ?. by split. Qed.

Lemma connected_send n c rb sb sp sb' :
  connected n c rb sb sp → sb_inv sb' → connected n (with_state (st_send sb') c) rb sb' sp.
Proof. intros [] ?. by split. Qed.

Lemma connected_unacked n c rb sb sp tw :
  connected n c rb sb sp → wheel_ok (pkt_ok sp) tw → connected n (with_unacked tw c) rb sb sp.
Proof. intros [] ?. by split. Qed.

Lemma connected_sent n m c rb sb sp sp' :
  connected n c rb sb sp → sp_inv T0 sp' → counts_below m sp' → extends sp sp' → full sp' →
  connected m (with_state (st_sent sp') c) rb sb sp'.
Proof.
  intros [] Hsp Hc He Hfull. split; try done.
  - eapply wheel_ok_mono; [|done]. intros p. by apply pkt_ok_grow.
  - eapply Forall_impl; [done|]. intros p. by apply pkt_ok_grow.
  - eapply Forall_impl; [done|]. intros ev. by apply faithful_grow.
  - by rewrite (ex_init _ _ He).
Qed.

Lemma connected_faithful n c rb sb sp ev :
  connected n c rb sb sp → faithful sp ev → connected n (with_out (c_out c ++ [ev]) c) rb sb sp.
Proof. intros [] He. split; try done. apply Forall_app. split; [done|]. by apply Forall_singleton. Qed.

Lemma connected_emit n c rb sb sp ev :
  connected n c rb sb sp → quiet ev → connected n (with_out (c_out c ++ [ev]) c) rb sb sp.
Proof. intros Hc Hq. apply connected_faithful; [done|by left]. Qed.

Lemma total_recvBuf {B} n c rb sb sp (k : receiveBuffer → M B) Q :
  connected n c rb sb sp → total (k rb) c Q → total (bind_ recvBuf k) c Q.
Proof.
  intros Hc Hk. apply total_bind. exists rb, c. split; [|done]. unfold recvBuf, deref. by rewrite (cn_recv _ _ _ _ _ Hc).
Qed.
Lemma total_sendBuf {B} n c rb sb sp (k : sendBuffer → M B) Q :
  connected n c rb sb sp → total (k sb) c Q → total (bind_ sendBuf k) c Q.
Proof.
  intros Hc Hk. apply total_bind. exists sb, c. split; [|done]. unfold sendBuf, deref. by rewrite (cn_send _ _ _ _ _ Hc).
Qed.
Lemma total_sent {B} n c rb sb sp (k : sentPackets defaultController → M B) Q :
  connected n c rb sb sp → total (k sp) c Q → total (bind_ sent k) c Q.
Proof.
  intros Hc Hk. apply total_bind. exists sp, c. split; [|done]. unfold sent, deref. by rewrite (cn_sent _ _ _ _ _ Hc).
Qed.

(** ** Transmission *)

(** The connection after [transmit p], for the new records [sp'] and [tw]. *)
Definition transmitted (p : packet) (sp' : sentPackets defaultController) (tw : timeWheel Z packet) c : connection :=
  with_out (c_out c ++ [EvOutgoing p]) (with_unacked tw (with_state (st_sent sp') c)).

Definition payload_of (p : packet) : list Z * Z :=
  if 0 <? len (Body p) then (Body p, u32 (len (Body p))) else ([], 0).

Lemma payload_of_eq p : is_u32 (len (Body p)) → payload_of p = (Body p, len (Body p)).
Proof.
  intros Hu. unfold payload_of. pose proof (len_nonneg (Body p)).
  case_bool; [by rewrite u32_id|]. rewrite (len_zero (Body p)) by lia. done.
Qed.

Lemma transmit_total n m c rb sb sp sp' p now data l :
  connected n c rb sb sp → payload_of p = (data, l) →
  sp_OnTransmit (h_SeqNum (Header p)) (h_PacketType (Header p)) data l now sp = Ret sp' →
  sp_inv T0 sp' → counts_below m sp' → extends sp sp' → full sp' → pkt_ok sp' p →
  ∃ tw, transmit p now c = Ret (inr tt, transmitted p sp' tw c) ∧
        connected m (transmitted p sp' tw c) rb sb sp'.
Proof.
  intros Hc Hpay Hon Hsp Hcnt He Hfull Hp.
  pose proof (connected_sent n m c rb sb sp sp' Hc Hsp Hcnt He Hfull) as Hc1.
  assert (Hto : 0 ≤ sp_Timeout sp').
  { unfold sp_Timeout. apply ctl_Timeout_range. apply (si_ctl T0 sp' Hsp). }
  destruct (wheel_ok_put (pkt_ok sp') (h_SeqNum (Header p)) p (sp_Timeout sp') (c_unacked c)
    (cn_wheel _ _ _ _ _ Hc1) Hp Hto) as (tw & Htw & Hw).
  exists tw. split.
  - unfold transmit. fold (payload_of p). rewrite Hpay. erewrite bind_Ret; [|unfold sent, deref; by rewrite (cn_sent _ _ _ _ _ Hc)].
    erewrite bind_Ret; [|unfold lift_; by rewrite Hon]. erewrite bind_Ret by done. erewrite bind_Ret by done.
    erewrite bind_Ret; [|unfold lift_; cbn [c_unacked with_state]; by rewrite Htw]. done.
  - unfold transmitted. apply (connected_faithful m (with_unacked tw (with_state (st_sent sp') c)));
      [by apply connected_unacked|]. right. by exists p.
Qed.

Lemma transmit_new n c rb sb sp p now :
  connected n c rb sb sp → 1 ≤ n → time_ok T0 now → h_SeqNum (Header p) = sp_NextSeqNum sp →
  sendable p → len (sp_packets sp) < MAX_PACKETS →
  outstanding (ctl_view (sp_congestionCtrl sp)) + len (Body p) ≤ ctl_cap (sp_congestionCtrl sp) →
  ∃ sp' tw, transmit p now c = Ret (inr tt, transmitted p sp' tw c) ∧
    connected n (transmitted p sp' tw c) rb sb sp' ∧
    sp_packets sp' = sp_packets sp ++
      [mk_sentPacket (sp_NextSeqNum sp) (h_PacketType (Header p)) (Body p) now now []] ∧
    sp_initSeqNum sp' = sp_initSeqNum sp ∧
    outstanding (ctl_view (sp_congestionCtrl sp'))
    = outstanding (ctl_view (sp_congestionCtrl sp)) + len (Body p) ∧
    ctl_cap (sp_congestionCtrl sp') = ctl_cap (sp_congestionCtrl sp).
Proof.
  intros Hc Hn Hnow Hseq Hsd Hl Hfit. pose proof (cn_sp _ _ _ _ _ Hc) as Hsp.
  pose proof (len_nonneg (Body p)) as Hb. pose proof (ctl_cap_range _ (si_ctl T0 sp Hsp)) as Hcap.
  assert (Hout : 0 ≤ outstanding (ctl_view (sp_congestionCtrl sp))).
  { pose proof (si_ctl T0 sp Hsp : cc_inv (sp_congestionCtrl sp)) as Hcc. simpl.
    rewrite <- (ci_window _ Hcc). apply (ci_window_u32 _ Hcc). }
  assert (Hpay : payload_of p = (Body p, len (Body p))) by (apply payload_of_eq; unfold is_u32 in *; lia).
  destruct (OnTransmit_new T0 sp (h_PacketType (Header p)) (Body p) (len (Body p)) now Hsp Hnow Hl Hb Hfit)
    as (c' & Hon & Hsp' & Hv & Hcap' & Hto). rewrite <- Hseq in Hon at 1.
  assert (Hnone : ctl_view (sp_congestionCtrl sp) !! sp_NextSeqNum sp = None).
  { destruct (ctl_view _ !! _) eqn:Ek; [|done]. apply (si_known T0 sp Hsp) in Ek as (i & Hi & Ek).
    rewrite NextSeqNum_eq in Ek. unfold MAX_PACKETS, len in Hl. apply (seq_at_inj sp) in Ek; [lia|apply Hsp|lia|lia]. }
  destruct (transmit_total n n c rb sb sp _ p now _ _ Hc Hpay Hon Hsp') as (tw & E & Hc').
  - intros k v. cbn [sp_congestionCtrl]. rewrite Hv. intros [[_ <-]|[_ Hk]]%lookup_insert_Some; [done|].
    by apply (cn_counts _ _ _ _ _ Hc k).
  - by eapply extends_app.
  - unfold full, kinds. simpl. rewrite fmap_app. apply Forall_app. split; [apply Hc|]. apply Forall_singleton. apply Hsd.
  - split; [done|]. right. eexists (length (sp_packets sp)), _. simpl. rewrite lookup_app_r, Nat.sub_diag by done. split; [done|].
    rewrite Hseq, NextSeqNum_eq. done.
  - eexists _, tw. split_and!; [exact E|exact Hc'| |done| |done].
    + done.
    + cbn [sp_congestionCtrl]. rewrite Hv. unfold outstanding. rewrite map_sum_insert by done. unfold unacked_size. simpl. lia.
Qed.

Lemma transmit_again m c rb sb sp p now i q v :
  connected m c rb sb sp → sendable p → time_ok T0 now → sp_packets sp !! i = Some q →
  Body p = p_data q → h_PacketType (Header p) = p_packetType q → h_SeqNum (Header p) = seq_at sp i → ctl_view (sp_congestionCtrl sp) !! seq_at sp i = Some v →
  pv_count v < MaxUint32 → pv_count v + 1 ≤ m →
  ∃ sp' tw, transmit p now c = Ret (inr tt, transmitted p sp' tw c) ∧
    connected m (transmitted p sp' tw c) rb sb sp' ∧
    sp_packets sp' = alter (set_retransmission now) i (sp_packets sp) ∧
    sp_initSeqNum sp' = sp_initSeqNum sp ∧ sp_lostPackets sp' = sp_lostPackets sp ∧
    ctl_view (sp_congestionCtrl sp') = <[seq_at sp i := pv_resent v]> (ctl_view (sp_congestionCtrl sp)).
Proof.
  intros Hc Hsd Hnow Hq Hbody Hty Hseq Hv Hmax Hm. pose proof (cn_sp _ _ _ _ _ Hc) as Hsp.
  destruct (payload_of p) as [data l] eqn:Hpay.
  destruct (OnTransmit_again T0 sp i q v (h_PacketType (Header p)) data l now Hsp Hnow Hq Hv Hmax)
    as (c' & Hon & Hsp' & Hcv & _). rewrite <- Hseq in Hon.
  destruct (transmit_total m m c rb sb sp _ p now _ _ Hc Hpay Hon Hsp') as (tw & E & Hc').
  - intros k w. cbn [sp_congestionCtrl]. rewrite Hcv. intros [[_ <-]|[_ Hk]]%lookup_insert_Some; [done|].
    by apply (cn_counts _ _ _ _ _ Hc k).
  - by eapply extends_resent.
  - eapply full_same; [|apply Hc]. by eapply kinds_resent.
  - split; [done|]. right. exists i, (set_retransmission now q). simpl. by rewrite list_lookup_alter_eq, Hq.
  - eexists _, tw. split_and!; [exact E|exact Hc'|done..].
Qed.

Lemma total_ensures {A} (R : connection → connection → Prop) (m : M A) c Q :
  ensures R m c → total m c Q → total m c (λ a c', Q a c' ∧ R c c').
Proof. intros HR (a & c' & E & HQ). exists a, c'. split; [done|]. split; [done|by eapply HR]. Qed.

(** ** The invariant *)

(** The invariant outside the connected state. *)
Lemma base_frame c c' : base_inv c → frame c c' → tw_inv (c_unacked c') → base_inv c'.
Proof.
  intros Hb Hf Hw. destruct (fr_peer _ _ Hf) as [E _].
  split; rewrite ?(fr_config _ _ Hf), ?(fr_endpoint _ _ Hf), ?(fr_cid _ _ Hf), ?E; try apply Hb; done.
Qed.

Lemma conn_inv_mono n m c : n ≤ m → conn_inv n c → conn_inv m c.
Proof.
  intros Hnm (Hb & Hh & Hs). split; [done|]. split; [done|]. destruct (c_type c); try done.
  destruct Hs as (rb & sb & sp & Hc & Hl). exists rb, sb, sp. split; [by eapply connected_mono|done].
Qed.

Lemma conn_inv_connected n c rb sb sp :
  base_inv c → c_type c = ConnConnected → connected n c rb sb sp → len (sp_packets sp) ≤ N → carries c sb sp →
  conn_inv n c.
Proof.
  intros Hb Ht Hc Hl Hs. split; [done|]. split; [by eapply connected_history|]. rewrite Ht. exists rb, sb, sp. done.
Qed.

(** A connected connection, or any other state. *)
Lemma conn_inv_cases n c :
  conn_inv n c →
  base_inv c ∧ ((c_type c = ConnConnected ∧
    ∃ rb sb sp, connected n c rb sb sp ∧ len (sp_packets sp) ≤ N ∧ carries c sb sp) ∨ c_type c ≠ ConnConnected).
Proof. intros (Hb & _ & Hs). split; [done|]. destruct (c_type c) eqn:Ht; [by right|by left|by right]. Qed.

Lemma base_inv_state f c : base_inv c → base_inv (with_state f c).
Proof. by intros []. Qed.

(** Closing keeps the history. *)
Lemma conn_inv_closed n m c f :
  conn_inv n c → cs_SentPackets (f (c_state c)) = cs_SentPackets (c_state c) →
  cs_stateType (f (c_state c)) = ConnClosed → conn_inv m (with_state f c).
Proof.
  intros (Hb & Hh & _) Esp Ht. split; [by apply base_inv_state|]. split.
  - by eapply past_eq.
  - unfold c_type. cbn [c_state with_state]. by rewrite Ht.
Qed.

Lemma close_state n err c : conn_inv n c → total (set_state (st_close err)) c (λ _ c', conn_inv n c').
Proof. intros Hi. apply total_modify. by eapply conn_inv_closed. Qed.

Lemma reset_total err n m c :
  conn_inv n c → total (reset err) c (λ _ c', conn_inv m c' ∧ c_type c' = ConnClosed).
Proof.
  intros Hi. unfold reset. apply total_get.
  assert (Hcl : ∀ f, cs_SentPackets (f (c_state c)) = cs_SentPackets (c_state c) →
    cs_stateType (f (c_state c)) = ConnClosed →
    total (set_state f) c (λ _ c', conn_inv m c' ∧ c_type c' = ConnClosed)).
  { intros f Hsp Hf. apply total_modify. split; [by eapply conn_inv_closed|done]. }
  destruct (cs_stateType (c_state c)), (cs_closing (c_state c)) as [[[]]|]; by apply Hcl.
Qed.

(** The closing record may change, but a FIN number stays. *)
Lemma conn_inv_closing n cl c :
  conn_inv n c → (is_Some (local_fin c) → is_Some (LocalFin cl)) → conn_inv n (with_state (st_closing cl) c).
Proof.
  intros (Hb & Hh & Hs) Hcl. split; [by apply base_inv_state|]. split.
  { by eapply past_eq. }
  change (c_type (with_state _ c)) with (c_type c). destruct (c_type c); try done.
  destruct Hs as (rb & sb & sp & Hc & Hl & [C1 C2 C3]). exists rb, sb, sp.
  split_and!; [by eapply connected_eq|done|]. split; [done|done|]. intros i d Hk. apply Hcl. by eapply C3.
Qed.

Lemma inv_emit_closed n c ev :
  conn_inv n c → c_type c = ConnClosed → quiet ev → conn_inv n (with_out (c_out c ++ [ev]) c).
Proof.
  intros (Hb & Hh & Hs) Ht Hq. split; [by destruct Hb|]. split.
  - by apply past_emit.
  - change (c_type (with_out _ c)) with (c_type c). by rewrite Ht.
Qed.

(** A part that frames, seen from a connected connection. *)
Lemma total_connected {A} m (mth : M A) c (Q : A → connection → Prop) :
  base_inv c → c_type c = ConnConnected → ensures frame mth c → total mth c Q →
  (∀ a c', Q a c' → local_fin c' = local_fin c →
     ∃ rb sb sp, connected m c' rb sb sp ∧ len (sp_packets sp) ≤ N ∧ carries c' sb sp) →
  total mth c (λ _ c', conn_inv m c').
Proof.
  intros Hb Ht Hf Hm HQ. eapply total_weaken; [by eapply total_ensures|]. intros a c' [Hq Hfr].
  destruct (HQ a c' Hq) as (rb & sb & sp & Hc & Hl & Hs); [unfold local_fin; by rewrite (fr_closing _ _ Hfr)|].
  eapply conn_inv_connected; [|by rewrite (fr_type _ _ Hfr)|done|done|done].
  eapply base_frame; [done|done|]. apply (cn_wheel _ _ _ _ _ Hc).
Qed.

(** ** Reading *)

(** Results that hand out the bytes [data], none empty and none failed. *)
Definition handed_out (rs : list readOrWriteResult) (data : list Z) : Prop :=
  Forall (λ r, rw_Err r = None ∧ 0 < rw_Len r ≤ len (rw_Data r)) rs ∧
  concat ((λ r, take (Z.to_nat (rw_Len r)) (rw_Data r)) <$> rs) = data.

Lemma readable_empty rb : rb_offset rb ≤ 0 → readable rb = [].
Proof. intros Ho. unfold readable. by rewrite Z2Nat.nonpos. Qed.

Lemma read_loop_total fuel n c rb sb sp :
  connected n c rb sb sp → 0 < MaxPacketSize (c_config c) → rb_offset rb < Z.of_nat fuel →
  total (read_loop fuel) c (λ _ c', ∃ rb' rs, connected n c' rb' sb sp ∧ rb_AckNum rb' = rb_AckNum rb ∧
    c_out c' = c_out c ++ (EvRead <$> rs) ∧ handed_out rs (readable rb) ∧ readable rb' = [] ∧
    c_pendingWrites c' = c_pendingWrites c).
Proof.
  revert c rb. induction fuel as [|fuel IH]; intros c rb Hc Hmax Hf.
  { pose proof (cn_rb _ _ _ _ _ Hc) as Hrb. destruct Hrb. lia. }
  cbn [read_loop]. eapply total_recvBuf; [done|]. destruct (rb_IsEmpty rb) eqn:Hempty.
  { unfold rb_IsEmpty in Hempty. apply andb_true_iff in Hempty as [Hempty%Z.eqb_eq _]. apply total_done. exists rb, [].
    rewrite readable_empty, app_nil_r by lia. done. }
  apply total_get. apply total_bind. pose proof (cn_rb _ _ _ _ _ Hc) as Hrb.
  destruct (rb_Read_spec (replicate (Z.to_nat (MaxPacketSize (c_config c))) 0) rb Hrb)
    as (buf' & rb' & E & Hrb' & Hbl & Hread & _ & Hi & Hcs & Ho & _).
  assert (Hlen : len (replicate (Z.to_nat (MaxPacketSize (c_config c))) 0) = MaxPacketSize (c_config c)).
  { unfold len. rewrite length_replicate. lia. }
  assert (Hbuf : len buf' = MaxPacketSize (c_config c)) by (unfold len in *; lia).
  rewrite Hlen in *. set (k := Z.min (MaxPacketSize (c_config c)) (rb_offset rb)) in *.
  eapply total_lift; [exact E|]. apply total_bind, total_modify.
  pose proof (connected_recv n c rb sb sp rb' Hc Hrb') as Hc'.
  assert (Ha : rb_AckNum rb' = rb_AckNum rb) by (unfold rb_AckNum; congruence).
  assert (Hoff : 0 ≤ rb_offset rb) by apply Hrb.
  destruct (Z.eqb_spec k 0) as [Hk|Hk].
  { apply total_done. exists rb', []. rewrite !readable_empty, app_nil_r by lia. done. }
  apply total_bind, total_modify. eapply total_weaken.
  - apply (IH _ rb'); [by apply connected_emit|done|]. rewrite Ho. lia.
  - intros _ c' (rb2 & rs & Hc2 & Ha2 & Hout & [Hall Hcat] & Hr2 & Hpw). exists rb2, (mk_result None k buf' :: rs).
    split_and!; [done|congruence| | |done|done].
    + rewrite Hout. simpl. by rewrite <- app_assoc.
    + split; [constructor; [simpl; split; [done|lia]|done]|]. by rewrite Hread, <- Hcat.
Qed.

(** The remote FIN has been reached. *)
Definition at_eof c (rb : receiveBuffer) : bool :=
  match cs_closing (c_state c) with
  | Some (mk_Closing _ (Some remoteFin)) => rb_AckNum rb =? remoteFin
  | _ => false
  end.

Lemma eof_total n c rb sb sp Q :
  c_type c = ConnConnected → connected n c rb sb sp → Q (at_eof c rb) c → total eof c Q.
Proof.
  intros Ht Hc HQ. unfold eof. apply total_get. unfold c_type in Ht. rewrite Ht. unfold at_eof in HQ.
  destruct (cs_closing (c_state c)) as [[l [r|]]|]; try by apply total_done.
  eapply total_recvBuf; [done|]. by apply total_done.
Qed.

Lemma processReads_connected n c rb sb sp :
  connected n c rb sb sp → c_type c = ConnConnected → cfg_ok (c_config c) →
  total processReads c (λ _ c', ∃ rb' rs, connected n c' rb' sb sp ∧ rb_AckNum rb' = rb_AckNum rb ∧
    c_out c' = c_out c ++ (EvRead <$> rs ++ if at_eof c rb then [mk_result (Some ErrEOF) 0 []] else []) ∧
    handed_out rs (readable rb) ∧ readable rb' = [] ∧ c_pendingWrites c' = c_pendingWrites c).
Proof.
  intros Hc Ht Hcfg. unfold processReads. apply total_get. unfold c_type in Ht. rewrite Ht.
  apply total_bind. rewrite (cn_recv _ _ _ _ _ Hc). pose proof (cfg_packet _ Hcfg).
  eapply total_weaken; [eapply total_ensures; [apply read_loop_frame|eapply read_loop_total; [done|lia|lia]]|].
  intros _ c1 [(rb' & rs & Hc1 & Ha & Ho & Hh & Hr & Hpw) Hf]. apply total_bind.
  assert (Heof : at_eof c1 rb' = at_eof c rb) by (unfold at_eof; by rewrite (fr_closing _ _ Hf), Ha).
  eapply eof_total; [by rewrite (fr_type _ _ Hf)|done|]. rewrite Heof. destruct (at_eof c rb).
  - apply total_modify. exists rb', rs. split_and!; [by apply connected_emit|done| |done|done|done].
    simpl. by rewrite Ho, fmap_app, <- app_assoc.
  - apply total_done. exists rb', rs. by rewrite app_nil_r.
Qed.

Lemma processReads_total n c :
  conn_inv n c → total processReads c (λ _ c', conn_inv n c').
Proof.
  intros Hinv. pose proof Hinv as (Hb & Hh & Hs). pose proof (conn_inv_cases n c Hinv) as [_ [[Ht _]|Ht]].
  - rewrite Ht in Hs. destruct Hs as (rb & sb & sp & Hc & Hlen & Hca).
    eapply total_connected; [done|done|apply processReads_frame|by eapply processReads_connected; [|done|apply Hb]|].
    intros _ c' (rb' & rs & Hc' & _ & _ & _ & _ & Hpw) Hlf. exists rb', sb, sp. split_and!; [done|done|].
    eapply carries_eq; [exact Hca|done|done| |done]. unfold waiting. by rewrite Hpw.
  - unfold processReads. apply total_get. fold (c_type c). destruct (c_type c) eqn:Ht'; [by apply total_done|done|].
    apply total_modify. by apply inv_emit_closed.
Qed.

(** ** Composing payloads *)

(** How many payloads a window of [w] bytes gives, [m] bytes each, when the
    buffer holds [p] slices. *)
Definition payload_bound (p w m : Z) : Z := p + (w + m - 1) `div` m.

Lemma compose_total fuel w mps sb :
  sb_inv sb → is_u32 w → 64 < mps < 65536 → (length (sb_contents sb) < fuel)%nat →
  ∃ ps sb', compose fuel w mps sb = Ret (ps, sb') ∧ sb_inv sb' ∧ sb_size sb' = sb_size sb ∧
    sb_contents sb = concat ps ++ sb_contents sb' ∧ len (concat ps) ≤ w ∧
    Forall (λ p, 0 < len p ≤ mps - 64) ps ∧
    len ps ≤ payload_bound (len (sb_pending sb)) w (mps - 64).
Proof.
  revert w sb. induction fuel as [|fuel IH]; intros w sb Hsb Hw Hm Hf; [lia|]. cbn [compose].
  assert (Hbound : 0 ≤ payload_bound (len (sb_pending sb)) w (mps - 64)).
  { unfold payload_bound, is_u32 in *. pose proof (len_nonneg (sb_pending sb)).
    assert (0 ≤ (w + (mps - 64) - 1) `div` (mps - 64)) by (apply Z.div_pos; lia). lia. }
  destruct (Z.ltb_spec 0 w) as [Hpos|Hneg].
  2: { exists [], sb. split_and!; try done. unfold is_u32 in Hw. simpl. change (len []) with 0. lia. }
  set (m := mps - 64) in *. assert (Hu : u16 m = m) by (apply u16_id; unfold is_u16; lia). rewrite Hu.
  rewrite minUint32_min. set (k := Z.min w m).
  destruct (sb_Read_spec (replicate (Z.to_nat k) 0) sb Hsb)
    as (n & buf' & sb1 & E & Hsb1 & Hsz & Hn & Hbl & Hcont & _ & Hpl).
  assert (Hk : len (replicate (Z.to_nat k) 0) = k) by (unfold len; rewrite length_replicate; lia).
  rewrite Hk in Hn. pose proof (sb_Read_progress _ _ _ _ _ E) as Hprog. rewrite Hk in Hprog.
  rewrite E. cbn [mbind outcome_bind]. destruct (Z.eqb_spec n 0) as [->|Hn0].
  { exists [], sb1. split_and!; try done. simpl. change (len []) with 0. lia. }
  assert (Hbuf : len buf' = k) by (unfold len in *; rewrite length_replicate in *; lia).
  rewrite slice_prefix by lia. cbn [mbind outcome_bind]. set (p := take (Z.to_nat n) buf') in *.
  assert (Hp : len p = n) by (unfold p; rewrite len_take; lia).
  rewrite u32_id by (unfold is_u32 in *; lia).
  destruct (IH (w - n) sb1) as (ps & sb' & E' & Hsb' & Hsz' & Hcont' & Hle & Hall & Hcount).
  - done.
  - unfold is_u32 in *. lia.
  - done.
  - assert (length (sb_contents sb) = length p + length (sb_contents sb1))%nat
      by (rewrite Hcont, length_app; done). unfold len in Hp. lia.
  - rewrite E'. cbn [mbind outcome_bind]. exists (p :: ps), sb'.
    assert (Hfin : len (p :: ps) ≤ payload_bound (len (sb_pending sb)) w m).
    { rewrite len_cons. unfold payload_bound in *.
      destruct Hprog as [->|[[Hkn Hsame]|Hless]]; [done| |].
      - destruct (Z.le_gt_cases m w) as [Hmw|Hmw].
        + assert (Hnm : n = m) by lia. rewrite Hnm in Hcount.
          replace (w + m - 1) with (w - m + m - 1 + 1 * m) by lia. rewrite Z.div_add by lia. lia.
        + assert (Hnw : n = w) by lia. rewrite Hnw, Z.sub_diag in Hcount.
          assert (ps = []) as ->.
          { destruct ps as [|q ps]; [done|]. apply Forall_cons in Hall as [Hq _]. simpl in Hle. rewrite len_app in Hle.
            pose proof (len_nonneg (concat ps)). lia. }
          assert (1 ≤ (w + m - 1) `div` m) by (apply Z.div_le_lower_bound; lia).
          change (len []) with 0. pose proof (len_nonneg (sb_pending sb)). lia.
      - assert ((w - n + m - 1) `div` m ≤ (w + m - 1) `div` m) by (apply Z.div_le_mono; lia). lia. }
    split_and!; [done|done|congruence| | | |done].
    + simpl. by rewrite Hcont, Hcont', app_assoc.
    + simpl. rewrite len_app. lia.
    + constructor; [lia|done].
Qed.

Lemma compose_fuel sb :
  sb_inv sb → (length (sb_contents sb) < S (Z.to_nat (sb_used (sb_pending sb))))%nat.
Proof.
  intros Hsb. rewrite sb_used_concat. unfold sb_contents. rewrite length_drop. unfold len. lia.
Qed.

(** ** Filling the send buffer *)

(** The payloads of the DATA packets among the events. *)
Definition data_out (l : list conn_event) : list (list Z) :=
  omap (λ ev, match ev with
              | EvOutgoing p => if bool_decide (h_PacketType (Header p) = st_data) then Some (Body p) else None
              | _ => None
              end) l.

Lemma data_out_app l1 l2 : data_out (l1 ++ l2) = data_out l1 ++ data_out l2.
Proof. apply omap_app. Qed.

(** Each waiting write still adds up to the length its caller asked for, and a
    result reports that length. *)
Definition adds_up (tot : Z → Z) (w : queuedWrite) : Prop :=
  qw_written w + len (qw_data w) = tot (qw_resultCh w).
Definition answers (tot : Z → Z) (ev : conn_event) : Prop :=
  match ev with EvWrite ch res => rw_Err res = None ∧ rw_Len res = tot ch | _ => True end.
Definition writes_kept (ws ws' : list queuedWrite) (evs : list conn_event) : Prop :=
  ∀ tot, Forall (adds_up tot) ws → Forall (adds_up tot) ws' ∧ Forall (answers tot) evs.

Lemma fill_total fuel n c rb sb sp :
  connected n c rb sb sp →
  ((length (c_pendingWrites c) + 2 ≤ fuel)%nat ∨ (1 ≤ fuel)%nat ∧ sb_Available sb ≤ 0) →
  total (fill fuel) c (λ _ c', ∃ sb', connected n c' rb sb' sp ∧ sb_size sb' = sb_size sb ∧
    sb_contents sb' ++ waiting c' = sb_contents sb ++ waiting c ∧
    ∃ evs, c_out c' = c_out c ++ evs ∧ data_out evs = [] ∧
      writes_kept (c_pendingWrites c) (c_pendingWrites c') evs).
Proof.
  assert (Hnil : ∀ c1, ∃ evs, c_out c1 = c_out c1 ++ evs ∧ data_out evs = [] ∧
      writes_kept (c_pendingWrites c1) (c_pendingWrites c1) evs)
    by (intros c1; exists []; rewrite app_nil_r; split_and!; [done|done|]; intros tot Ht; by split).
  revert c sb. induction fuel as [|fuel IH]; intros c sb Hc Hf; [lia|]. cbn [fill]. apply total_get.
  destruct (c_pendingWrites c) as [|w rest] eqn:Hp; [apply total_done; exists sb; rewrite <- Hp; by auto|].
  eapply total_sendBuf; [done|]. pose proof (cn_sb _ _ _ _ _ Hc) as Hsb.
  destruct (Z.leb_spec (sb_Available sb) 0) as [Hfull|Hroom]; [apply total_done; exists sb; rewrite <- Hp; by auto|].
  destruct Hf as [Hf|[_ Hf]]; [|lia]. simpl in Hf.
  assert (Hw : waiting c = qw_data w ++ concat (qw_data <$> rest)) by (unfold waiting; by rewrite Hp).
  destruct (Z.leb_spec (len (qw_data w)) (sb_Available sb)) as [Hfit|Hbig].
  - destruct (sb_Write_spec (qw_data w) sb Hsb) as (sb' & E & Hsb' & Hsz & Hct).
    rewrite Z.min_l, take_ge in Hct by (unfold len in *; lia).
    apply total_bind, total_bind. eapply total_lift; [exact E|].
    apply total_bind, total_modify. apply total_bind, total_modify. apply total_modify.
    apply total_bind, total_modify. eapply total_weaken.
    + apply (IH _ sb'); [|left; simpl; lia].
      pose proof (connected_emit _ _ _ _ _ (EvWrite (qw_resultCh w)
        (mk_result None (len (qw_data w) + qw_written w) [])) (connected_send _ _ _ _ _ sb' Hc Hsb') I) as Hce.
      eapply connected_eq; [exact Hce|done..].
    + intros _ c' (sb2 & Hc2 & Hsz2 & Hct2 & evs & Ho & Hd & Hkept). exists sb2. split_and!; [done|congruence|..].
      * rewrite Hct2, Hct, Hw. unfold waiting. simpl. by rewrite app_assoc.
      * eexists. split; [rewrite Ho; simpl; by rewrite <- app_assoc|]. split; [done|].
        intros tot [Hw0 Hrest]%Forall_cons. destruct (Hkept tot Hrest) as [Hk1 Hk2]. split; [done|].
        constructor; [|done]. unfold adds_up in Hw0. simpl. split; [done|lia].
  - set (a := sb_Available sb) in *.
    set (d := take (Z.to_nat a) (qw_data w)).
    assert (Hd : len d = a) by (unfold d; rewrite len_take; lia).
    destruct (sb_Write_spec d sb Hsb) as (sb' & E & Hsb' & Hsz & Hct). fold a in E, Hct.
    rewrite Hd, Z.min_id, take_ge in Hct by (unfold len in *; lia).
    apply total_bind, total_bind. eapply total_lift; [apply slice_prefix; lia|].
    apply total_bind. eapply total_lift; [apply slice_from_Ret; lia|].
    apply total_bind. eapply total_lift; [exact E|]. apply total_bind, total_modify. apply total_modify.
    apply total_bind, total_modify. eapply total_weaken.
    + apply (IH _ sb'); [eapply connected_eq; [by apply (connected_send _ _ _ _ _ sb' Hc)|done..]|].
      right. split; [lia|]. rewrite sb_Available_contents, Hct, len_app, Hd, Hsz by done.
      pose proof (sb_Available_contents sb Hsb) as Ha. fold a in Ha. lia.
    + intros _ c' (sb2 & Hc2 & Hsz2 & Hct2 & evs & Ho & Hdo & Hkept). exists sb2. split_and!; [done|congruence|..].
      * rewrite Hct2, Hct, Hw. unfold waiting. simpl. rewrite <- !app_assoc. f_equal.
        unfold d. rewrite (app_assoc (take _ _)), take_drop. done.
      * exists evs. split_and!; [done|done|]. intros tot [Hw0 Hrest]%Forall_cons. apply Hkept.
        constructor; [|done]. unfold adds_up in *. simpl. rewrite len_drop. lia.
Qed.

(** ** Sending the payloads *)

Lemma transmit_all_total e now w a sk ps n c rb sb sp seqNum :
  connected n c rb sb sp → 1 ≤ n → time_ok T0 now → seqNum = sp_NextSeqNum sp →
  cid_ok (c_cid c) → is_u32 w → is_u16 a → (∀ s, sk = Some s → sack_encodable s) → Forall (λ p, 0 < len p) ps →
  len (sp_packets sp) + len ps ≤ MAX_PACKETS →
  (ps ≠ [] →
   outstanding (ctl_view (sp_congestionCtrl sp)) + len (concat ps) ≤ ctl_cap (sp_congestionCtrl sp)) →
  total (transmit_all e now seqNum w a sk ps) c (λ _ c', ∃ sp' evs, connected n c' rb sb sp' ∧
    c_out c' = c_out c ++ evs ∧ data_out evs = ps ∧
    len (sp_packets sp') = len (sp_packets sp) + len ps ∧
    kinds sp' = kinds sp ++ (pair st_data <$> ps) ∧
    (∀ tot, Forall (answers tot) evs) ∧ c_pendingWrites c' = c_pendingWrites c ∧
    ctl_cap (sp_congestionCtrl sp') = ctl_cap (sp_congestionCtrl sp)).
Proof.
  intros Hc Hn Hnow. revert c sp seqNum Hc.
  induction ps as [|p ps IH]; intros c sp seqNum Hc Hseq Hcid Hw Ha Hsk Hne Hl Hfit.
  { apply total_done. exists sp, []. rewrite !app_nil_r. split_and!; try done. change (len []) with 0. lia. }
  cbn [transmit_all]. apply total_get. apply total_bind. specialize (Hfit ltac:(done)). cbn [concat] in Hfit. rewrite len_app in Hfit. rewrite len_cons in Hl.
  pose proof (len_nonneg (concat ps)). pose proof (len_nonneg ps). set (pkt := Build _).
  apply Forall_cons in Hne as [Hp Hne]. assert (Hsd : sendable pkt).
  { unfold pkt. built; [apply Hcid|rewrite Hseq; apply u16_range|]. intros ->. by cbv in Hp. }
  destruct (transmit_new n c rb sb sp pkt now Hc Hn Hnow Hseq Hsd) as (sp1 & tw & E & Hc1 & Hps & Hi & Ho & Hcap);
    [lia|change (Body pkt) with p; lia|]. exists tt, (transmitted pkt sp1 tw c). split; [exact E|].
  change (Body pkt) with p in *. change (h_PacketType (Header pkt)) with st_data in *.
  assert (Hl1 : len (sp_packets sp1) = len (sp_packets sp) + 1).
  { rewrite Hps, len_app. done. }
  eapply total_weaken; [apply (IH _ sp1); try done|].
  - rewrite Hseq, !NextSeqNum_eq, Hps, length_app, seq_at_succ. unfold seq_at. simpl. rewrite Hi. do 3 f_equal. lia.
  - lia.
  - intros _. rewrite Ho, Hcap. lia.
  - intros _ c' (sp' & evs & Hc' & Hout & Hd & Hlen & Hdata & Hans & Hpend & Hcap').
    exists sp', (EvOutgoing pkt :: evs). split_and!; [done| | | | |by constructor|done|congruence].
    + rewrite Hout. simpl. by rewrite <- app_assoc.
    + simpl. by rewrite Hd.
    + rewrite Hlen, Hl1, len_cons. lia.
    + rewrite Hdata. unfold kinds. rewrite Hps, fmap_app. simpl. by rewrite <- app_assoc.
Qed.

(** There are sequence numbers left for what the window allows to send. *)
Definition room c (sb : sendBuffer) (sp : sentPackets defaultController) : Prop :=
  len (sp_packets sp)
  + payload_bound (len (sb_pending sb)) (Z.min (sp_Window sp) (c_peerRecvWindow c))
      (MaxPacketSize (c_config c) - 64) < MAX_PACKETS.

(** [processWrites] moves bytes, in order, from the waiting writes to the send
    buffer and from the send buffer to DATA packets that fit the windows. *)
Lemma processWrites_connected e now n c rb sb sp :
  connected n c rb sb sp → c_type c = ConnConnected → base_inv c → 1 ≤ n → time_ok T0 now → room c sb sp →
  total (processWrites e now) c (λ _ c', ∃ sb' sp' evs, connected n c' rb sb' sp' ∧
    c_out c' = c_out c ++ evs ∧
    concat (data_out evs) ++ sb_contents sb' ++ waiting c' = sb_contents sb ++ waiting c ∧
    Forall (λ p, 0 < len p ≤ MaxPacketSize (c_config c) - 64) (data_out evs) ∧
    len (concat (data_out evs)) ≤ Z.min (sp_Window sp) (c_peerRecvWindow c) ∧
    kinds sp' = kinds sp ++ (pair st_data <$> data_out evs) ∧
    len (sp_packets sp') < MAX_PACKETS ∧ writes_kept (c_pendingWrites c) (c_pendingWrites c') evs).
Proof.
  intros Hc Ht Hb Hn Hnow Hroom. unfold processWrites. apply total_bind.
  exists (c_type c), c. split; [done|]. rewrite Ht. eapply total_sent; [done|]. apply total_get.
  eapply total_sendBuf; [done|]. rewrite minUint32_min. pose proof (cn_sp _ _ _ _ _ Hc) as Hsp.
  pose proof (ctl_available _ (si_ctl T0 sp Hsp)) as Hav. pose proof (ctl_cap_range _ (si_ctl T0 sp Hsp)) as Hcap.
  fold (sp_Window sp) in Hav. pose proof (bi_window c Hb) as Hpw. unfold is_u32 in Hcap, Hpw.
  assert (Hout : 0 ≤ outstanding (ctl_view (sp_congestionCtrl sp))).
  { pose proof (si_ctl T0 sp Hsp : cc_inv (sp_congestionCtrl sp)) as Hcc. simpl.
    rewrite <- (ci_window _ Hcc). apply (ci_window_u32 _ Hcc). }
  set (w := Z.min (sp_Window sp) (c_peerRecvWindow c)) in *.
  destruct (compose_total (S (Z.to_nat (sb_used (sb_pending sb)))) w (MaxPacketSize (c_config c)) sb)
    as (ps & sb1 & E & Hsb1 & Hsz & Hct & Hle & Hall & Hcnt);
    [apply Hc|unfold is_u32; lia|apply Hb|apply compose_fuel, Hc|].
  apply total_bind. eapply total_lift; [exact E|]. cbv iota beta. apply total_bind, total_modify. apply total_bind.
  eapply total_weaken; [eapply total_ensures; [apply fill_frame|];
    apply (fill_total _ n _ rb sb1 sp); [by apply connected_send with sb; [|]|left; simpl; lia]|].
  intros _ c2 [(sb2 & Hc2 & Hsz2 & Hct2 & evs2 & Ho2 & Hd2 & Hkept) Hf2]. eapply total_sent; [done|]. eapply total_recvBuf; [done|].
  eapply total_weaken; [apply (transmit_all_total _ _ _ _ _ ps n c2 rb sb2 sp); auto|].
  - rewrite (fr_cid _ _ Hf2). apply Hb.
  - apply u32_range.
  - apply u16_range.
  - intros s. apply rb_SelectiveAck_encodable, Hc.
  - eapply Forall_impl; [exact Hall|]. intros p Hp. simpl in Hp. lia.
  - unfold room in Hroom. fold w in Hroom. lia.
  - intros Hps. assert (0 < len (concat ps)).
    { destruct ps as [|p ps]; [done|]. apply Forall_cons in Hall as [Hp _]. simpl. rewrite len_app.
      pose proof (len_nonneg (concat ps)). lia. }
    lia.
  - intros _ c' (sp' & evs & Hc' & Ho & Hd & Hlen & Hdata & Hans & Hpend & _). exists sb2, sp', (evs2 ++ evs).
    rewrite data_out_app, Hd2, Hd. simpl app. split_and!; try done.
    + by rewrite Ho, Ho2, <- app_assoc.
    + assert (Hwait : waiting c' = waiting c2) by (unfold waiting; by rewrite Hpend).
      rewrite Hwait, Hct2, Hct, <- app_assoc. done.
    + unfold room in Hroom. fold w in Hroom. lia.
    + rewrite Hpend. intros tot Hw0. destruct (Hkept tot Hw0) as [Hk1 Hk2]. split; [done|]. by apply Forall_app.
Qed.

(** ** Retransmission of lost packets *)

Lemma seq_at_same (sp sp' : sentPackets defaultController) i :
  sp_initSeqNum sp' = sp_initSeqNum sp → seq_at sp' i = seq_at sp i.
Proof. intros E. unfold seq_at. by rewrite E. Qed.

Lemma retransmit_all_total e now w d l n c rb sb sp :
  connected (n + 1) c rb sb sp → cid_ok (c_cid c) → is_u32 w → is_u32 d → time_ok T0 now → n < MaxUint32 → NoDup (lp_SeqNum <$> l) →
  (∀ x, x ∈ l → ∃ i q, sp_packets sp !! i = Some q ∧ lp_SeqNum x = seq_at sp i ∧
     lp_Data x = p_data q ∧ lp_PacketType x = p_packetType q) →
  (∀ x v, x ∈ l → ctl_view (sp_congestionCtrl sp) !! lp_SeqNum x = Some v → pv_count v ≤ n) →
  total (retransmit_all e now w d l) c (λ _ c', ∃ sp', connected (n + 1) c' rb sb sp' ∧ kinds sp' = kinds sp ∧
    c_pendingWrites c' = c_pendingWrites c).
Proof.
  intros Hc Hcid Hw Hd Hnow Hn. revert c sp Hc Hcid. induction l as [|x l IH]; intros c sp Hc Hcid Hnd Hin Hcnt.
  { apply total_done. by exists sp. }
  rewrite fmap_cons, NoDup_cons in Hnd. destruct Hnd as [Hx Hnd]. cbn [retransmit_all].
  apply total_get. eapply total_recvBuf; [done|]. apply total_bind. set (pkt := Build _).
  destruct (Hin x) as (i & q & Hq & Ex & Ed & Et); [by left|]. pose proof (cn_sp _ _ _ _ _ Hc) as Hsp.
  destruct (si_view T0 sp Hsp i q Hq) as (v & Hv & _).
  assert (Hvn : pv_count v ≤ n) by (apply (Hcnt x); [by left|by rewrite Ex]).
  assert (Hsd : sendable pkt).
  { unfold pkt. built.
    - apply Hcid.
    - rewrite Ex. apply u16_range.
    - apply u16_range.
    - intros s. apply rb_SelectiveAck_encodable, Hc.
    - rewrite Ed, Et. pose proof (cn_full _ _ _ _ _ Hc) as Hf. unfold full, kinds in Hf. rewrite Forall_fmap in Hf.
      exact (Forall_lookup_1 _ _ _ _ Hf Hq). }
  destruct (transmit_again (n + 1) c rb sb sp pkt now i q v Hc Hsd Hnow Hq Ed Et Ex Hv) as (sp' & tw & E & Hc' & Hps & Hii & _ & Hcv);
    [lia|lia|]. exists tt, (transmitted pkt sp' tw c). split; [exact E|].
  pose proof (kinds_resent sp sp' now i Hps) as Hk.
  eapply total_weaken; [apply (IH _ sp'); [done|done|done|..]|].
  - intros y Hy. destruct (Hin y) as (j & qy & Hj & Ey & Edy & Ety); [by right|].
    destruct (ex_packets _ _ (extends_resent sp sp' now i Hii Hps) j qy Hj) as (q' & Hq' & Ed' & Et').
    exists j, q'. rewrite (seq_at_same sp) by done. split_and!; congruence.
  - intros y u Hy. rewrite Hcv. rewrite lookup_insert_ne; [apply Hcnt; by right|].
    intros Eq. apply Hx. rewrite Ex, Eq. by apply list_elem_of_fmap_2.
  - intros _ c' (sp2 & Hc2 & Hl2 & Hpw). exists sp2. split_and!; [done|congruence|done].
Qed.

Lemma retransmitLostPackets_connected e now n c rb sb sp :
  connected n c rb sb sp → c_type c = ConnConnected → cid_ok (c_cid c) → time_ok T0 now → n < MaxUint32 →
  total (retransmitLostPackets e now) c (λ _ c', ∃ sp', connected (n + 1) c' rb sb sp' ∧ kinds sp' = kinds sp ∧
    c_pendingWrites c' = c_pendingWrites c).
Proof.
  intros Hc Ht Hcid Hnow Hn. unfold retransmitLostPackets. apply total_bind. exists (c_type c), c. split; [done|].
  assert (Hc1 : connected (n + 1) c rb sb sp) by (eapply connected_mono; [|done]; lia).
  rewrite Ht. eapply total_sent; [done|]. destruct (negb _); [apply total_done; by exists sp|].
  apply total_get. eapply total_recvBuf; [done|]. apply total_bind.
  destruct (LostPackets_spec T0 sp (cn_sp _ _ _ _ _ Hc)) as (l & E & _ & Hnd & Hl). eapply total_lift; [exact E|].
  eapply retransmit_all_total; [done|done|apply u32_range|apply u32_range|done|done|done|..].
  - intros x Hx. rewrite Forall_forall in Hl. destruct (Hl x Hx) as (i & p & Hp & ->).
    by exists i, p.
  - intros x v _. apply (cn_counts _ _ _ _ _ Hc).
Qed.

(** ** The handlers of incoming packets *)

Lemma conn_inv_remove n k c : conn_inv n c → conn_inv n (with_unacked (tw_remove k (c_unacked c)) c).
Proof.
  intros (Hb & Hh & Hs). split; [destruct Hb; split; try done; by apply tw_remove_inv|]. split.
  { by eapply past_eq. }
  change (c_type (with_unacked _ c)) with (c_type c). destruct (c_type c); [|..|done].
  - destruct_and! Hs. split_and!; try done. by apply wheel_ok_remove.
  - destruct Hs as (rb & sb & sp & Hc & Hl & Hca). exists rb, sb, sp. split_and!; [|done|by eapply carries_eq].
    apply connected_unacked; [done|]. apply wheel_ok_remove, Hc.
Qed.

Lemma processAck_returns a sk d now clk n c :
  conn_inv n c → is_u16 a → time_ok T0 now →
  returns_with (processAck a sk d now clk) c (conn_inv n).
Proof.
  intros Hinv Ha Hnow. destruct (conn_inv_cases n c Hinv) as [Hb [[Ht (rb & sb & sp & Hc & Hl & Hca)]|Ht]].
  2: { unfold processAck. apply returns_with_bind. exists (c_type c), c. split; [done|].
       destruct (c_type c); try done; apply returns_total, total_done; done. }
  unfold processAck. apply returns_with_bind. exists (c_type c), c. split; [done|]. rewrite Ht.
  apply returns_with_bind. exists sp, c. split; [unfold sent, deref; by rewrite (cn_sent _ _ _ _ _ Hc)|].
  pose proof (cn_sp _ _ _ _ _ Hc) as Hsp.
  assert (Hon : ∃ r sp', sp_onAck a sk d now clk sp = Ret (r, sp') ∧ connected n (with_state (st_sent sp') c) rb sb sp' ∧
    kinds sp' = kinds sp).
  { destruct (onAck_cases T0 sp a sk d now clk Hsp Hnow Ha)
      as [[_ E]|[[_ E]|(_ & r & s2 & s3 & E & Hs2 & Hs3 & Hab & Hr)]].
    1-2: eexists _, sp; split; [exact E|]; split; [|done]; eapply connected_sent; [done|done|apply Hc|by apply extends_packets|apply Hc].
    assert (Hlb : extends s2 s3 ∧ kinds s3 = kinds s2 ∧
      ctl_view (sp_congestionCtrl s3) = ctl_view (sp_congestionCtrl s2)).
    { destruct Hr as [(_ & _ & ->)|(_ & _ & l & Hlb & _)]; [split; [by apply extends_packets|done]|].
      split_and!; [apply extends_packets; apply Hlb| |apply Hlb]. unfold kinds. by rewrite (lb_packets _ _ _ Hlb). }
    destruct Hlb as (He & Hl3 & Hv). exists r, s3. split; [exact E|].
    split; [|by rewrite Hl3, (kinds_acked _ _ _ Hab)]. eapply connected_sent; [done|done|..].
    - intros k v Hk. rewrite Hv in Hk. pose proof (ab_info _ _ _ Hab k) as Ei. rewrite Hk in Ei.
      destruct (ctl_view (sp_congestionCtrl sp) !! k) as [w|] eqn:Ew; [|done]. simpl in Ei. injection Ei as _ Ei.
      rewrite Ei. by apply (cn_counts _ _ _ _ _ Hc k).
    - eapply extends_trans; [by eapply extends_acked|done].
    - eapply full_same; [|apply Hc]. by rewrite Hl3, (kinds_acked _ _ _ Hab). }
  destruct Hon as (r & sp' & E & Hc' & Hk). pose proof (kinds_same_len _ _ Hk) as Hl'.
  apply returns_with_bind. eapply total_lift; [exact E|].
  apply returns_with_bind, total_modify. set (c1 := with_state (st_sent sp') c) in *.
  assert (Hb1 : base_inv c1) by (by apply base_inv_state). assert (Ht1 : c_type c1 = ConnConnected) by done.
  assert (Hca1 : carries c1 sb sp') by (by eapply carries_eq).
  assert (Hi1 : conn_inv n c1) by (eapply conn_inv_connected; [done|done|done|lia|done]).
  destruct r as [err|[full sel]].
  - destruct (bool_decide _).
    + apply returns_with_bind. eapply total_weaken; [by apply (reset_total err n n)|]. intros _ c' [Hc2 _]. by apply returns_error.
    + by apply returns_error.
  - apply returns_total, total_bind, total_modify.
    pose proof (wheel_ok_retain _ (Contains full) _ (cn_wheel _ _ _ _ _ Hc')) as Hw.
    assert (Hinv1 : conn_inv n (with_unacked (tw_retain (Contains full) (c_unacked c1)) c1)).
    { eapply conn_inv_connected; [|done|by eapply connected_unacked|lia|by eapply carries_eq].
      destruct Hb1. split; try done. apply Hw. }
    apply total_each; [done|]. intros k c2 _ Hi2. apply total_modify. by apply conn_inv_remove.
Qed.

Lemma recv_write_returns data seq n c rb sb sp :
  base_inv c → c_type c = ConnConnected → connected n c rb sb sp →
  len (sp_packets sp) ≤ N → carries c sb sp → is_u16 seq →
  ∃ r c', recv_write data seq c = Ret (r, c') ∧ conn_inv n c' ∧ frame c c'.
Proof.
  intros Hb Ht Hc Hl Hca Hs.
  assert (Hw : ∃ err rb', rb_Write data seq rb = Ret (err, rb') ∧ rb_inv rb').
  { pose proof (cn_rb _ _ _ _ _ Hc) as Hrb.
    destruct (rb_Write_spec data seq rb Hrb Hs) as [[_ E]|[(_ & _ & E)|(_ & _ & ds & rb' & E & Hrb' & _)]]; eauto. }
  destruct Hw as (err & rb' & E & Hrb').
  assert (Hret : recv_write data seq c
    = Ret (match err with Some e => inl e | None => inr tt end, with_state (st_recv rb') c)).
  { unfold recv_write. erewrite bind_Ret; [|unfold recvBuf, deref; by rewrite (cn_recv _ _ _ _ _ Hc)].
    erewrite bind_Ret; [|unfold lift_; rewrite E; done]. cbv beta iota.
    erewrite bind_Ret by done. by destruct err. }
  eexists _, _. split; [exact Hret|]. split; [|by apply frame_recv].
  eapply conn_inv_connected; [by apply base_inv_state|done|by eapply connected_recv|done|by eapply carries_eq].
Qed.

Lemma onSyn_returns seq n c : conn_inv n c → returns_with (onSyn seq) c (conn_inv n).
Proof.
  intros Hinv. apply returns_total. unfold onSyn. apply total_get.
  assert (Hreset : ∀ err, total (if bool_decide (cs_stateType (c_state c) = ConnClosed) then done_ tt else reset err)
    c (λ _ c', conn_inv n c')).
  { intros err. destruct (bool_decide _); [by apply total_done|].
    eapply total_weaken; [by apply (reset_total _ n n)|]. by intros _ c' [? _]. }
  destruct (ep_Type _); [apply Hreset|]. destruct (negb _); [apply Hreset|by apply total_done].
Qed.

Lemma onReset_returns n c : conn_inv n c → returns_with onReset c (conn_inv n).
Proof.
  intros Hinv. apply returns_total. unfold onReset. apply total_bind. exists (c_type c), c. split; [done|].
  destruct (bool_decide _); [by apply total_done|].
  eapply total_weaken; [by apply (reset_total _ n n)|]. by intros _ c' [? _].
Qed.

Lemma onState_returns seq a n c :
  conn_inv n c → is_u16 seq → returns_with (onState seq a) c (conn_inv n).
Proof.
  intros Hinv Hseq. apply returns_total. unfold onState. apply total_get. pose proof Hinv as (Hb & Hh & Hs).
  destruct (cs_stateType (c_state c)) eqn:Ht; try (by apply total_done).
  unfold c_type in Hs. rewrite Ht in Hs. destruct Hs as (Hch & Het & Hw & Hq & Hout & Hnone & Hwait). rewrite Het.
  destruct (a =? _); [|by apply total_done]. apply total_bind.
  exists tt, (with_out (c_out c ++ [EvConnectedClose]) (with_state (st_connectedCh (Some false)) c)). split.
  { unfold close_connected. erewrite bind_Ret by done. by rewrite Hch. }
  apply total_modify. pose proof (bi_cfg c Hb) as Hcfg.
  assert (Hsp : sp_inv T0 (newSentPackets (ep_SynNum (c_endpoint c))
    (newDefaultController (fromConnConfig (c_config c))))).
  { apply newSentPackets_inv; [apply Hb| |done]. apply newDefaultController_inv, Hcfg. }
  eapply (conn_inv_connected n _ _ (newSendBuffer (BufferSize (c_config c))) (newSentPackets (ep_SynNum (c_endpoint c))
    (newDefaultController (fromConnConfig (c_config c)))));
    [by destruct Hb|done| |exact HN|by apply carries_new]. split; try done.
  - apply newReceiveBuffer_inv; [apply Hcfg|apply u16_range].
  - apply newSendBuffer_inv, Hcfg.
  - eapply wheel_ok_mono; [|exact Hw]. intros p [Hp Hsd]. split; [done|by left].
  - eapply Forall_impl; [exact Hq|]. intros p [Hp Hsd]. split; [done|by left].
  - simpl. apply Forall_app. split; [|by apply Forall_singleton; left]. eapply Forall_impl; [exact Hout|]. intros ev Hev. by left.
  - constructor.
  - simpl. unfold first_seq. by rewrite Het.
Qed.

Lemma onData_returns seq data n c :
  conn_inv n c → is_u16 seq → returns_with (onData seq data) c (conn_inv n).
Proof.
  intros Hinv Hseq. unfold onData. apply returns_with_bind.
  assert (Hempty : total (if len data =? 0 then reset ErrEmptyDataPayload else done_ tt) c (λ _ c', conn_inv n c')).
  { destruct (_ =? _); [|by apply total_done].
    eapply total_weaken; [by apply (reset_total _ n n)|]. by intros _ c' [? _]. }
  eapply total_weaken; [exact Hempty|]. clear Hempty Hinv c. cbv beta. intros _ c Hinv.
  apply returns_with_bind. exists c, c. split; [done|]. pose proof Hinv as (Hb & Hh & Hs). unfold c_type in Hs.
  destruct (cs_stateType (c_state c)) eqn:Ht.
  - destruct (ep_Type _); [by apply returns_total, total_done|by apply returns_error].
  - destruct Hs as (rb & sb & sp & Hc & Hl & Hca). apply returns_with_bind.
    assert (Hrange : ∃ b, match cs_closing (c_state c) with
      | Some (mk_Closing _ (Some remoteFin)) =>
          rb ←! recvBuf; done_ (Contains (newCircularRangeInclusive (rb_InitSeqNum rb) remoteFin) seq)
      | _ => done_ true end c = Ret (inr b, c)).
    { destruct (cs_closing (c_state c)) as [[l [r|]]|]; try by eexists.
      eexists. erewrite bind_Ret; [done|]. unfold recvBuf, deref. by rewrite (cn_recv _ _ _ _ _ Hc). }
    destruct Hrange as [b Eb]. exists b, c. split; [exact Eb|]. destruct b; simpl negb; cbv iota.
    + apply returns_with_bind. exists rb, c. split; [unfold recvBuf, deref; by rewrite (cn_recv _ _ _ _ _ Hc)|].
      destruct (_ <=? _); [|by apply returns_total, total_done].
      destruct (recv_write_returns data seq n c rb sb sp Hb Ht Hc Hl Hca Hseq) as (r & c' & E & Hi & _). by exists r, c'.
    + apply returns_total. by apply close_state.
  - by apply returns_total, total_done.
Qed.

Lemma onFin_returns seq data n c :
  conn_inv n c → is_u16 seq → returns_with (onFin seq data) c (conn_inv n).
Proof.
  intros Hinv Hseq. unfold onFin. apply returns_with_bind. exists c, c. split; [done|].
  pose proof Hinv as (Hb & Hh & Hs). unfold c_type in Hs.
  destruct (cs_stateType (c_state c)) eqn:Ht; try by apply returns_total, total_done.
  destruct Hs as (rb & sb & sp & Hc & Hl & Hca). destruct (cs_closing (c_state c)) as [[l [r|]]|] eqn:Hcl.
  - apply returns_total. destruct (negb _); [|by apply total_done].
    eapply total_weaken; [by apply (reset_total _ n n)|]. by intros _ c' [? _].
  - apply returns_with_bind, total_modify.
    destruct (recv_write_returns data seq n (with_state (st_closing (mk_Closing l (Some seq))) c) rb sb sp)
      as (r & c' & E & Hi & _); [by apply base_inv_state|done|by eapply connected_eq|done| |done|by exists r, c'].
    eapply carries_eq; [done|done|done|done|]. unfold local_fin. by rewrite Hcl.
  - destruct (recv_write_returns data seq n c rb sb sp Hb Ht Hc Hl Hca Hseq) as (r & c' & E & Hi & Hf).
    destruct r as [err|[]].
    + exists (inl err), c'. split; [by rewrite (bind_error _ _ _ _ _ E)|done].
    + apply returns_total. apply total_bind. exists tt, c'. split; [done|]. apply total_modify.
      apply conn_inv_closing; [done|]. unfold local_fin. rewrite (fr_closing _ _ Hf), Hcl. by intros [].
Qed.

Lemma dispatch_returns p n c :
  conn_inv n c → header_wf (Header p) → returns_with (dispatch p) c (conn_inv n).
Proof.
  intros Hinv Hh. pose proof (hw_seq _ Hh). unfold dispatch. destruct (h_PacketType (Header p)).
  - by apply onData_returns.
  - by apply onFin_returns.
  - by apply onState_returns.
  - by apply onReset_returns.
  - by apply onSyn_returns.
Qed.
End safety.
