(* ===== verification/ConnLoop.v ===== *)
(** * Safety of the event loop

    The handlers of ConnSafety put together: [onPacket], [onTimeout], the
    writes, the shutdown and a whole turn of the event loop keep [conn_inv], and
    the only panic a turn can raise is the refused FIN of [shutdown].  A new
    connection that has started meets the invariant. *)

From Stdlib Require Import ZArith Lia.
From stdpp Require Import base list gmap fin_maps sets.
From S2P Require Import Prelude.
From S2P Require Import Hoare.
From S2P Require Import Seq.
From S2P Require Import SelectiveAck.
From S2P Require Import Packet.
From S2P Require Import SendBuffer.
From S2P Require Import BTree.
From S2P Require Import RecvBuffer.
From S2P Require Import TimeWheel.
From S2P Require Import Utils.
From S2P Require Import Cid.
From S2P Require Import Float64.
From S2P Require Import Controller.
From S2P Require Import Congestion.
From S2P Require Import SentPackets.
From S2P Require Import Conn.
From S2P Require Import ConnStates.
From S2P Require Import ConnSafety.

Section loop.
Context `{BTreeLaws} `{FloatConv}.
Context (T0 N : Z) (W : list Z).
Hypothesis HN : 0 ≤ N.
Implicit Types c : connection.

Abbreviation inv := (conn_inv T0 N W).

(** ** The rest of [onPacket] *)

(** What the invariant depends on. *)
Lemma inv_eq n c c' :
  inv n c → c_state c' = c_state c → c_config c' = c_config c → is_u32 (c_peerRecvWindow c') →
  c_endpoint c' = c_endpoint c → c_cid c' = c_cid c → c_unacked c' = c_unacked c → c_unackTimeoutCh c' = c_unackTimeoutCh c →
  c_out c' = c_out c → c_pendingWrites c' = c_pendingWrites c → inv n c'.
Proof.
  intros (Hb & Hh & Hs) E1 E2 E3 E4 E9 E5 E6 E7 E8. destruct Hb. split; [split; congruence|].
  assert (Hw : waiting c' = waiting c) by (unfold waiting; by rewrite E8). split.
  { eapply past_eq; [exact Hh|by rewrite E1|done|done]. }
  unfold c_type in *. rewrite E1, ?E4, ?E5, ?E6, ?E7, ?Hw in *. destruct (cs_stateType (c_state c)); try done.
  destruct Hs as (rb & sb & sp & Hc & Hl & Hca). exists rb, sb, sp. split_and!; [|done|].
  - eapply connected_eq; [done|congruence..].
  - eapply carries_eq; [done|done|done|done|]. unfold local_fin. by rewrite E1.
Qed.

Lemma inv_window n c : inv n c → is_u32 (c_peerRecvWindow c).
Proof. intros [Hb _]. apply Hb. Qed.

Lemma inv_out n c ev : inv n c → quiet ev → inv n (with_out (c_out c ++ [ev]) c).
Proof.
  intros (Hb & Hh & Hs) Hq. split; [by destruct Hb|]. split.
  { by apply past_emit. }
  change (c_type (with_out _ c)) with (c_type c). destruct (c_type c); [| |done].
  - destruct_and! Hs. split_and!; try done. apply Forall_app. split; [done|by apply Forall_singleton].
  - destruct Hs as (rb & sb & sp & Hc & Hl & Hca). exists rb, sb, sp.
    split_and!; [by apply connected_emit|done|by eapply carries_eq].
Qed.
Lemma inv_tokens n c r w : inv n c → inv n (with_tokens r w c).
Proof. intros Hi. pose proof (inv_window n c Hi). by eapply inv_eq. Qed.
Lemma inv_syn n c p : inv n c → inv n (with_synState p c).
Proof. intros Hi. pose proof (inv_window n c Hi). by eapply inv_eq. Qed.
Lemma inv_shutdown n c b : inv n c → inv n (with_shutdown b c).
Proof. intros Hi. pose proof (inv_window n c Hi). by eapply inv_eq. Qed.
Lemma inv_latest n c t : inv n c → inv n (with_latestTimeout t c).
Proof. intros Hi. pose proof (inv_window n c Hi). by eapply inv_eq. Qed.
Lemma inv_peer n c d w : inv n c → is_u32 w → inv n (with_peer d w c).
Proof. intros Hi Hw. by eapply inv_eq. Qed.

Lemma emit_total n ev c : inv n c → quiet ev → total (emit ev) c (λ _ c', inv n c').
Proof. intros Hi Hq. apply total_modify. by apply inv_out. Qed.

(** A closing check: it closes the connection or leaves it as it is. *)
Lemma inv_close n err c : inv n c → total (set_state (st_close err)) c (λ _ c', inv n c').
Proof. apply close_state. Qed.
#[local] Hint Resolve inv_out inv_tokens inv_syn inv_shutdown inv_latest emit_total inv_close : core.

(** The STATE packet is no packet of the stream. *)
Definition no_stream (o : option packet) : Prop := ∀ p, o = Some p → quiet (EvOutgoing p).

Lemma statePacket_total e n c : inv n c → total (statePacket e) c (λ o c', c' = c ∧ no_stream o).
Proof.
  intros (Hb & Hh & Hs). unfold statePacket. apply total_get. unfold c_type in Hs.
  assert (Hns : ∀ p, h_PacketType (Header p) = st_state → sendable p → no_stream (Some p)).
  { intros p Hp Hsd q [= <-]. simpl. by rewrite Hp. }
  destruct (cs_stateType (c_state c)); [|..|by apply total_done].
  { destruct Hs as (_ & Hep & _). rewrite Hep. by apply total_done. }
  destruct Hs as (rb & sb & sp & Hc & _). eapply total_sent; [done|]. eapply total_recvBuf; [done|].
  apply total_done. split; [done|]. apply Hns; [done|]. built.
  - apply Hb.
  - apply u16_range.
  - apply u16_range.
  - intros s. apply rb_SelectiveAck_encodable, Hc.
Qed.

Lemma reply_total e p n c :
  inv n c → header_wf (Header p) → is_u16 (e_rand e) → total (reply e p) c (λ _ c', inv n c').
Proof.
  intros Hi Hh Hr. unfold reply.
  assert (Hst : ∀ k : option packet → M unit,
    (∀ o, no_stream o → total (k o) c (λ _ c', inv n c')) → total (bind_ (statePacket e) k) c (λ _ c', inv n c')).
  { intros k Hk. apply total_bind. eapply total_weaken; [by apply (statePacket_total e n)|]. intros o c' [-> Ho]. by apply Hk. }
  destruct (h_PacketType (Header p)); try by apply total_done.
  - apply Hst. intros [q|] Hq; [by apply emit_total; [|apply Hq]|by apply total_done].
  - apply Hst. intros [q|] Hq; [by apply emit_total; [|apply Hq]|by apply total_done].
  - apply total_get. destruct (c_synState c); [by apply total_done|]. apply Hst.
    intros [q|] Hq; [|apply emit_total; [done|]; split; [|done]; built; apply Hh]. apply total_bind, total_modify. apply emit_total; [by auto|by apply Hq].
Qed.

Lemma close_if_acked_total n c : inv n c → total close_if_acked c (λ _ c', inv n c').
Proof.
  intros Hi. pose proof Hi as (_ & _ & Hs). unfold close_if_acked. apply total_get. unfold c_type in Hs.
  destruct (cs_stateType (c_state c)); try by apply total_done.
  destruct Hs as (rb & sb & sp & Hc & _).
  destruct (cs_closing (c_state c)) as [[[l|] r]|]; try by apply total_done.
  eapply total_sent; [done|]. destruct (sp_LastAckNum sp) as [a none].
  destruct (_ && _); [by apply inv_close|by apply total_done].
Qed.

Lemma close_if_remote_total n c : inv n c → total close_if_remote c (λ _ c', inv n c').
Proof.
  intros Hi. pose proof Hi as (_ & _ & Hs). unfold close_if_remote. apply total_get. unfold c_type in Hs.
  destruct (cs_stateType (c_state c)); try by apply total_done.
  destruct Hs as (rb & sb & sp & Hc & _).
  destruct (cs_closing (c_state c)) as [[l [r|]]|]; try by apply total_done.
  eapply total_sent; [done|]. apply total_bind.
  eapply total_lift; [eapply HasUnackedPackets_spec, (cn_sp _ _ _ _ _ _ Hc)|].
  destruct (negb _); [by apply total_done|]. eapply total_recvBuf; [done|].
  destruct (_ =? _); [|by apply total_done]. 
  eapply total_seq; [by apply (processReads_total T0 N W n)|]. intros _ c' Hi'. by apply inv_close.
Qed.

Lemma close_if_both_total n c : inv n c → total close_if_both c (λ _ c', inv n c').
Proof.
  intros Hi. unfold close_if_both. apply total_get.
  destruct (cs_stateType (c_state c)); try by apply total_done.
  destruct (cs_closing (c_state c)) as [[[l|] [r|]]|]; (by apply total_done) || by apply inv_close.
Qed.

Lemma retransmit_total e now n c :
  inv n c → time_ok T0 now → n < MaxUint32 → total (retransmitLostPackets e now) c (λ _ c', inv (n + 1) c').
Proof.
  intros Hi Hnow Hn. destruct (conn_inv_cases T0 N W n c Hi) as [Hb [[Ht (rb & sb & sp & Hc & Hl & Hca)]|Ht]].
  - eapply total_connected; [done|done|apply retransmitLostPackets_frame|by eapply retransmitLostPackets_connected; [..|apply Hb| |]|].
    intros _ c' (sp' & Hc' & Hk & Hpw) Hlf. pose proof (kinds_same_len _ _ Hk). exists rb, sb, sp'.
    split_and!; [done|lia|]. eapply carries_eq; [done|done|done| |done]. unfold waiting. by rewrite Hpw.
  - unfold retransmitLostPackets. apply total_bind. exists (c_type c), c. split; [done|].
    eapply (conn_inv_mono T0 N W n (n + 1)) in Hi; [|lia]. destruct (c_type c); try done; by apply total_done.
Qed.

Lemma onPacket_total e p now n c :
  inv n c → header_wf (Header p) → is_u16 (e_rand e) → time_ok T0 now → n < MaxUint32 →
  total (onPacket e p now) c (λ _ c', inv (n + 1) c').
Proof.
  intros Hi Hh Hrand Hnow Hn. unfold onPacket. apply total_bind, total_modify.
  eapply total_seq.
  { apply total_try. apply (dispatch_returns T0 N W HN p n); [|done]. apply inv_peer; [done|apply Hh]. }
  clear Hi c. intros _ c Hi.
  assert (Hack : total (match h_PacketType (Header p) with
    | st_state | st_data | st_fin =>
        _ ←! try_ (processAck (h_AckNum (Header p)) (Eack p) (i64 (h_TimestampDiff (Header p) * Microsecond)) now (e_now e));
        done_ tt
    | _ => done_ tt end) c (λ _ c', inv n c')).
  { assert (Hp := λ sk d, processAck_returns T0 N W (h_AckNum (Header p)) sk d now (e_now e) n c Hi (hw_ack _ Hh) Hnow).
    destruct (h_PacketType (Header p)); try (by apply total_done);
      (eapply total_seq; [apply total_try, Hp|]; intros _ c' Hi'; by apply total_done). }
  eapply total_seq; [exact Hack|]. clear Hi Hack c. intros _ c Hi.
  eapply total_seq; [by apply (retransmit_total e now n)|]. clear Hi c. intros _ c Hi.
  eapply total_seq; [by apply (reply_total e p (n + 1))|]. clear Hi c. intros _ c Hi.
  assert (Htok : total (match h_PacketType (Header p) with st_state => notify_writable | _ => done_ tt end)
    c (λ _ c', inv (n + 1) c')).
  { destruct (h_PacketType (Header p)); try (by apply total_done). apply total_modify. by auto. }
  eapply total_seq; [exact Htok|]. clear Hi Htok c. intros _ c Hi.
  assert (Htok : total (if (0 <? len (Body p)) || bool_decide (h_PacketType (Header p) = st_fin)
    then notify_readable else done_ tt) c (λ _ c', inv (n + 1) c')).
  { destruct (_ || _); [apply total_modify; by auto|by apply total_done]. }
  eapply total_seq; [exact Htok|]. clear Hi Htok c. intros _ c Hi.
  eapply total_seq; [by apply (close_if_acked_total (n + 1))|]. clear Hi c. intros _ c Hi.
  eapply total_seq; [by apply (close_if_remote_total (n + 1))|]. clear Hi c. intros _ c Hi.
  by apply close_if_both_total.
Qed.

(** ** Timeouts *)

Lemma backoff_range n : 0 ≤ n ≤ 10 → 0 ≤ backoff n ≤ 57.
Proof.
  intros Hn. assert (Hall : Forall (λ k, 0 ≤ backoff k ≤ 57) (seqZ 0 11)) by (repeat constructor; done).
  rewrite Forall_forall in Hall. apply Hall, elem_of_seqZ. lia.
Qed.

(** What an expired packet may be. *)
Definition expired_ok (p : packet) c : Prop :=
  match c_type c with
  | ConnConnecting => syn_ok p
  | ConnConnected => ∀ sp, cs_SentPackets (c_state c) = Some sp → pkt_ok sp p
  | ConnClosed => True
  end.

Lemma retry_total e p n c :
  inv n c → c_type c = ConnConnecting → syn_ok p → ep_Attempts (c_endpoint c) < MaxConnAttempts (c_config c) →
  total (let ep := c_endpoint c in
    modify_ (with_endpoint (mk_Endpoint (ep_Type ep) (ep_SynNum ep) (ep_SynAck ep) (ep_Attempts ep + 1))) ;!
    tw ←! lift_ (tw_put (ep_SynNum ep) p (i64 (InitialTimeout (c_config c) * backoff (ep_Attempts ep + 1))) (c_unacked c));
    modify_ (with_unacked tw) ;!
    syn ←! synPacket e (ep_SynNum ep);
    emit (EvOutgoing syn)) c (λ _ c', inv n c').
Proof.
  intros (Hb & Hh & Hs) Ht Hp Ha. rewrite Ht in Hs. destruct Hs as (Hch & Hep & Hw & Hq & Hout & Hsp & Hwait). cbv zeta.
  apply total_bind, total_modify, total_bind. pose proof (bi_cfg c Hb) as Hcfg.
  pose proof (bi_attempts c Hb). pose proof (cfg_attempts _ Hcfg). pose proof (cfg_initial _ Hcfg).
  pose proof (backoff_range (ep_Attempts (c_endpoint c) + 1)) as Hback.
  assert (Hd : 0 ≤ i64 (InitialTimeout (c_config c) * backoff (ep_Attempts (c_endpoint c) + 1))).
  { rewrite i64_id; [nia|]. unfold is_i64. nia. }
  destruct (wheel_ok_put syn_ok (ep_SynNum (c_endpoint c)) p _ (c_unacked c) Hw Hp Hd) as (tw & E & Hw').
  eapply total_lift; [exact E|]. apply total_bind, total_modify, total_bind.
  exists (Build (NewPacketBuilder st_syn (cid_Recv (c_cid c)) (u32 (UnixMicro (e_now e)))
                  (WindowSize (c_config c)) (ep_SynNum (c_endpoint c)))). eexists. split; [done|].
  apply emit_total; [|split; [|done]; built; [apply Hb|apply Hcfg|apply Hb]]. split.
  - destruct Hb. split; simpl; try done; [lia|apply Hw'].
  - split; [unfold past; simpl; by rewrite Hsp|]. unfold c_type in *. simpl. by rewrite Ht.
Qed.

Lemma connected_timeout n c rb sb sp :
  connected T0 n c rb sb sp → connected T0 n (with_state (st_sent (sp_OnTimeout sp)) c) rb sb (sp_OnTimeout sp).
Proof.
  intros Hc. pose proof (cn_sp _ _ _ _ _ _ Hc) as Hsp. eapply connected_sent; [done|by apply OnTimeout_keeps| |by apply extends_packets|apply Hc].
  intros k v. destruct (ctl_TimedOut (sp_congestionCtrl sp) (si_ctl T0 sp Hsp)) as [_ Hv]. simpl in *.
  rewrite Hv. apply (cn_counts _ _ _ _ _ _ Hc).
Qed.

Lemma timeout_resend_total e p n c rb sb sp :
  base_inv c → c_type c = ConnConnected → connected T0 n c rb sb sp → len (sp_packets sp) ≤ N →
  carries W c sb sp → env_ok T0 e → n < MaxUint32 → ¬ is_syn p → pkt_ok sp p →
  ∀ q, sendable q → h_SeqNum (Header q) = h_SeqNum (Header p) → Body q = Body p →
  h_PacketType (Header q) = h_PacketType (Header p) →
  total (transmit q (e_now e)) c (λ _ c', inv (n + 1) c').
Proof.
  intros Hb Ht Hc Hl Hca [Hnow _] Hn Hsyn Hp q Hsd Hq Hbody Hty. destruct Hp as [_ [?|(i & x & Hx & Es & Ed & Et)]]; [done|].
  pose proof (cn_sp _ _ _ _ _ _ Hc) as Hsp.
  destruct (si_view T0 sp Hsp i x Hx) as (v & Hv & _). pose proof (cn_counts _ _ _ _ _ _ Hc _ _ Hv) as Hcount.
  assert (Hc1 : connected T0 (n + 1) c rb sb sp) by (eapply connected_mono; [|done]; lia).
  destruct (transmit_again T0 (n + 1) c rb sb sp q (e_now e) i x v) as (sp' & tw & E & Hc' & Hps & _);
    [done|done|done|done|congruence|congruence|congruence|done|lia|lia|].
  pose proof (kinds_resent _ _ _ _ Hps) as Hk. pose proof (kinds_same_len _ _ Hk).
  exists tt, (transmitted q sp' tw c). split; [exact E|].
  eapply conn_inv_connected; [|exact Ht|exact Hc'|lia|by eapply carries_eq].
  destruct Hb. split; try done. apply (cn_wheel _ _ _ _ _ _ Hc').
Qed.

(** The copy of an expired packet with fresh times and acknowledgements. *)
Lemma resent_sendable e p c rb :
  sendable p → rb_inv rb →
  sendable (mkPacket
    (mkHeader (h_PacketType (Header p)) (h_Version (Header p)) (h_Extension (Header p)) (h_ConnectionId (Header p))
       (UnixMicro (e_now e)) (u32 (Microseconds (c_peerTsDiff c))) (u32 (rb_Available rb))
       (h_SeqNum (Header p)) (rb_AckNum rb))
    (rb_SelectiveAck rb) (Body p)).
Proof.
  intros [[] Hs Hd] Hrb. split; [split; try done; apply u32_range || apply u16_range| |done].
  intros s. by apply rb_SelectiveAck_encodable.
Qed.

Lemma onTimeout_total e p n c :
  inv n c → expired_ok p c → env_ok T0 e → n < MaxUint32 →
  total (onTimeout e p (e_now e)) c (λ _ c', inv (n + 1) c').
Proof.
  intros Hi Hp He Hn. assert (Hi1 : inv (n + 1) c) by (eapply conn_inv_mono; [|done]; lia).
  pose proof Hi as (Hb & Hh & Hs). unfold onTimeout. apply total_get. unfold expired_ok, c_type in *.
  destruct (cs_stateType (c_state c)) eqn:Ht; [| |by apply total_done].
  - destruct Hs as (Hch & Hep & _). rewrite Hep.
    destruct (Z.leb_spec (MaxConnAttempts (c_config c)) (ep_Attempts (c_endpoint c))).
    + rewrite Hch. eapply total_seq; [|intros _ c' Hi'; by apply inv_close].
      unfold send_connected. apply total_get. rewrite Hch. by apply emit_total.
    + rewrite <- Hep. by apply retry_total.
  - destruct (bool_decide _) eqn:Hsyn; [by apply total_done|]. apply bool_decide_eq_false in Hsyn.
    destruct Hs as (rb & sb & sp & Hc & Hl & Hca). eapply total_sent; [done|]. apply total_bind.
    match goal with |- total (if ?b then _ else _) _ _ => destruct b end.
    + apply total_bind, total_modify, total_modify. pose proof (connected_timeout n c rb sb sp Hc) as Hc'.
      set (c1 := with_latestTimeout _ _). assert (Hc1 : connected T0 n c1 rb sb (sp_OnTimeout sp)) by (by eapply connected_eq).
      eapply total_recvBuf; [exact Hc1|].
      eapply (timeout_resend_total e p n c1); try done; [by destruct Hb|by eapply carries_eq| |].
      * apply (pkt_ok_grow sp); [by apply extends_packets|]. apply Hp, Hc.
      * eapply resent_sendable; [apply (Hp sp), Hc|apply Hc].
    + apply total_done. eapply total_recvBuf; [done|]. eapply (timeout_resend_total e p n c); try done; [apply Hp, Hc|].
      eapply resent_sendable; [apply (Hp sp), Hc|apply Hc].
Qed.

(** The ticker of the wheel. *)
Lemma tick_total e n c : inv n c → total (handle e InTick) c (λ _ c', inv n c').
Proof.
  intros (Hb & Hh & Hs). simpl. apply total_get.
  assert (Htick : ∀ P : packet → Prop, wheel_ok P (c_unacked c) → Forall P (c_unackTimeoutCh c) →
    (∀ tw l, wheel_ok P tw → Forall P (c_unackTimeoutCh c ++ l) → inv n (with_timeouts (c_unackTimeoutCh c ++ l) (with_unacked tw c))) →
    total ('(expired, tw) ←! lift_ (tw_tick (c_unacked c));
      modify_ (with_unacked tw) ;! modify_ (with_timeouts (c_unackTimeoutCh c ++ expired.*2))) c (λ _ c', inv n c')).
  { intros P Hw HF Hok. destruct (wheel_ok_tick P _ Hw) as (l & tw & E & Hw' & Hl). apply total_bind.
    eapply total_lift; [exact E|]. apply total_bind, total_modify, total_modify. apply Hok; [done|]. by apply Forall_app. }
  assert (Hb' : ∀ tw l, tw_inv tw → base_inv (with_timeouts l (with_unacked tw c))) by (intros; by destruct Hb).
  assert (Hh' : ∀ tw l, past N W (with_timeouts l (with_unacked tw c))) by (intros tw l; by eapply past_eq).
  destruct (c_type c) eqn:Ht.
  - pose proof Hs as (? & ? & Hw & Hq & ?). apply (Htick _ Hw Hq). intros tw l Hw' HF.
    split; [apply Hb', Hw'|]. split; [apply Hh'|]. unfold c_type in *. simpl. rewrite Ht. by destruct_and! Hs.
  - destruct Hs as (rb & sb & sp & Hc & Hl & Hca). apply (Htick _ (cn_wheel _ _ _ _ _ _ Hc) (cn_queue _ _ _ _ _ _ Hc)).
    intros tw l Hw' HF. eapply conn_inv_connected; [apply Hb', Hw'|done| |done|by eapply carries_eq]. destruct Hc. by split.
  - apply (Htick (λ _, True)).
    + split; [apply Hb|done].
    + by apply Forall_forall.
    + intros tw l Hw' HF. split; [apply Hb', Hw'|]. split; [apply Hh'|]. unfold c_type in *. simpl. by rewrite Ht.
Qed.

(** ** Writes *)

(** There are sequence numbers left for what the windows allow to send. *)
Definition has_room c : Prop :=
  ∀ sb sp, cs_SendBuf (c_state c) = Some sb → cs_SentPackets (c_state c) = Some sp → room c sb sp.

Lemma each_emit_total {X} (f : X → conn_event) l n c :
  inv n c → (∀ x, quiet (f x)) → total (each_ (λ x, emit (f x)) l) c (λ _ c', inv n c').
Proof. intros Hi Hq. apply total_each; [done|]. intros x c' _ Hi'. by apply emit_total. Qed.

Lemma processWrites_total e n c :
  inv n c → has_room c → 1 ≤ n → env_ok T0 e → MAX_PACKETS - 1 ≤ N →
  total (processWrites e (e_now e)) c (λ _ c', inv n c').
Proof.
  intros Hi Hroom Hn [Hnow _] HN'. destruct (conn_inv_cases T0 N W n c Hi) as [Hb [[Ht (rb & sb & sp & Hc & Hl & Hca)]|Ht]].
  - eapply total_connected; [done|done|apply processWrites_frame| |].
    + eapply processWrites_connected; [done|done|done|done|done|]. apply Hroom; apply Hc.
    + intros _ c' (sb' & sp' & evs & Hc' & _ & Hs & Hne & _ & Hk & Hlen & _) Hlf. exists rb, sb', sp'.
      split_and!; [done|lia|]. eapply carries_data; [done|exact Hk| |exact Hs|done].
      eapply Forall_impl; [exact Hne|]. intros ps Hps. simpl in Hps. lia.
  - unfold processWrites. apply total_bind. exists (c_type c), c. split; [done|].
    destruct (c_type c); [by apply total_done|done|]. apply total_get. by apply each_emit_total.
Qed.

(** ** Shutdown *)

(** [shutdown] has to send a FIN while more bytes are in flight than the
    congestion window allows. *)
Definition fin_refused c : Prop :=
  c_type c = ConnConnected ∧ local_fin c = None ∧ c_pendingWrites c = [] ∧
  (∃ sb, cs_SendBuf (c_state c) = Some sb ∧ sb_IsEmpty sb = true) ∧
  ∃ sp, cs_SentPackets (c_state c) = Some sp ∧
    cc_maxWindowSizeBytes (sp_congestionCtrl sp) < outstanding (ctl_view (sp_congestionCtrl sp)).

(** The FIN that [shutdown] would send. *)
Lemma fin_packet_total e n c rb sb sp :
  connected T0 n c rb sb sp →
  ∃ fin, fin_packet e c = Ret (inr fin, c) ∧ h_SeqNum (Header fin) = sp_NextSeqNum sp ∧
         Body fin = [] ∧ h_PacketType (Header fin) = st_fin ∧ (cid_ok (c_cid c) → sendable fin).
Proof.
  intros Hc. eexists. split; [|split; [|split; [|split]]].
  - unfold fin_packet. erewrite bind_Ret; [|unfold recvBuf, deref; by rewrite (cn_recv _ _ _ _ _ _ Hc)].
    erewrite bind_Ret; [|unfold sent, deref; by rewrite (cn_sent _ _ _ _ _ _ Hc)]. by erewrite bind_Ret.
  - done.
  - done.
  - done.
  - intros Hcid. built; [apply Hcid|apply u16_range|apply u16_range|]. intros s. apply rb_SelectiveAck_encodable, Hc.
Qed.

Lemma nothing_to_send_total n c rb sb sp :
  connected T0 n c rb sb sp →
  nothing_to_send c = Ret (inr (bool_decide (c_pendingWrites c = []) && sb_IsEmpty sb), c).
Proof.
  intros Hc. unfold nothing_to_send. erewrite bind_Ret by done. destruct (c_pendingWrites c) as [|w ws].
  - change (len [] =? 0) with true. cbv iota. erewrite bind_Ret; [done|]. unfold sendBuf, deref.
    by rewrite (cn_send _ _ _ _ _ _ Hc).
  - rewrite len_cons. pose proof (len_nonneg ws). case_bool; [lia|done].
Qed.

Lemma transmit_fin fin n c rb sb sp e :
  base_inv c → c_type c = ConnConnected → connected T0 n c rb sb sp → len (sp_packets sp) < MAX_PACKETS →
  1 ≤ n → env_ok T0 e → h_SeqNum (Header fin) = sp_NextSeqNum sp → Body fin = [] →
  h_PacketType (Header fin) = st_fin → sendable fin →
  total (transmit fin (e_now e)) c (λ _ c', base_inv c' ∧ c_type c' = ConnConnected ∧ c_state c' = st_sent (default sp (cs_SentPackets (c_state c'))) (c_state c) ∧
    c_pendingWrites c' = c_pendingWrites c ∧
    ∃ sp', connected T0 n c' rb sb sp' ∧ len (sp_packets sp') ≤ MAX_PACKETS ∧
           kinds sp' = kinds sp ++ [(st_fin, [])]) ∨
  (transmit fin (e_now e) c = Panic PanicController ∧
   cc_maxWindowSizeBytes (sp_congestionCtrl sp) < outstanding (ctl_view (sp_congestionCtrl sp))).
Proof.
  intros Hb Ht Hc Hl Hn [Hnow _] Hseq Hbody Hty Hsd. pose proof (cn_sp _ _ _ _ _ _ Hc) as Hsp.
  destruct (Z.le_gt_cases (outstanding (ctl_view (sp_congestionCtrl sp))) (ctl_cap (sp_congestionCtrl sp))) as [Hfit|Hbig].
  - left. destruct (transmit_new T0 n c rb sb sp fin (e_now e)) as (sp' & tw & E & Hc' & Hps & _);
      [done|done|done|done|done|done|rewrite Hbody, len_nil; lia|].
    exists tt, (transmitted fin sp' tw c). split; [exact E|]. split_and!; [|done|done|done|].
    + destruct Hb. split; try done. apply (cn_wheel _ _ _ _ _ _ Hc').
    + exists sp'. split; [done|]. split.
      * rewrite Hps, len_app. unfold len in *. simpl. lia.
      * unfold kinds. rewrite Hps, fmap_app. simpl. by rewrite Hbody, Hty.
  - right. split; [|exact Hbig]. unfold transmit. rewrite Hbody. simpl.
    erewrite bind_Ret; [|unfold sent, deref; by rewrite (cn_sent _ _ _ _ _ _ Hc)].
    unfold bind_ at 1, lift_. rewrite Hseq. rewrite (empty_packet_refused T0); done.
Qed.

(** The method returns and keeps the invariant, or [P] holds and the process
    dies of the refused FIN. *)
Definition safe {A} (n : Z) (P : Prop) (m : M A) c : Prop :=
  total m c (λ _ c', inv n c') ∨ (m c = Panic PanicController ∧ P).

Lemma safe_seq {A B} n n' P (m : M A) (k : A → M B) c :
  safe n P m c → (∀ a c', inv n c' → total (k a) c' (λ _ c', inv n' c')) → safe n' P (bind_ m k) c.
Proof.
  intros [Hm|[E HP]] Hk; [left|right].
  - by eapply total_seq.
  - split; [by apply bind_panic|done].
Qed.

(** The connection after the FIN. *)
Lemma inv_fin n c c1 rb sb sp sp' f r :
  carries W c sb sp → local_fin c = None → sb_contents sb = [] → waiting c = [] →
  base_inv c1 → c_type c1 = ConnConnected → connected T0 n c1 rb sb sp' → len (sp_packets sp') ≤ MAX_PACKETS →
  kinds sp' = kinds sp ++ [(st_fin, [])] → c_pendingWrites c1 = c_pendingWrites c →
  MAX_PACKETS ≤ N → inv n (with_state (st_closing (mk_Closing (Some f) r)) c1).
Proof.
  intros Hca Hlf Hsb Hw Hb1 Ht1 Hc1 Hl1 Hk Hpw HM.
  eapply conn_inv_connected; [by apply base_inv_state|done|by eapply connected_eq|lia|].
  eapply carries_close; [exact Hca|done|done|done|exact Hk| |by eexists]. unfold waiting. simpl. by rewrite Hpw.
Qed.

Lemma shutdown_safe e n c :
  inv n c → (c_type c = ConnConnected → ∀ sp, cs_SentPackets (c_state c) = Some sp → len (sp_packets sp) < MAX_PACKETS) →
  1 ≤ n → env_ok T0 e → MAX_PACKETS ≤ N → safe n (fin_refused c) (shutdown e) c.
Proof.
  intros Hi Hlen Hn He HM. destruct (conn_inv_cases T0 N W n c Hi) as [Hb [[Ht (rb & sb & sp & Hc & Hl & Hca)]|Ht]].
  2: { left. unfold shutdown. apply total_bind. exists (c_type c), c. split; [done|].
       destruct (c_type c); [|done|by apply total_done]. apply total_modify. by eapply conn_inv_closed. }
  specialize (Hlen Ht sp (cn_sent _ _ _ _ _ _ Hc)).
  destruct (fin_packet_total e n c rb sb sp Hc) as (fin & Efin & Hseq & Hbody & Hty & Hsd).
  specialize (Hsd (bi_cid c Hb)).
  pose proof (nothing_to_send_total n c rb sb sp Hc) as Eidle. set (idle := _ && _) in Eidle.
  assert (Hempty : idle = true → sb_contents sb = [] ∧ waiting c = []).
  { intros [Hp%bool_decide_eq_true He']%andb_true_iff. split; [by apply sb_IsEmpty_contents|].
    unfold waiting. by rewrite Hp. }
  assert (Hrefused : local_fin c = None → idle = true →
    cc_maxWindowSizeBytes (sp_congestionCtrl sp) < outstanding (ctl_view (sp_congestionCtrl sp)) → fin_refused c).
  { intros Hlf [Hp%bool_decide_eq_true He']%andb_true_iff Hbig. split_and!; [done|done|done|..].
    - exists sb. split; [apply Hc|done].
    - exists sp. split; [apply Hc|done]. }
  unfold safe, shutdown, total. erewrite bind_Ret by done. fold (c_type c). rewrite Ht. erewrite bind_Ret by done.
  destruct (cs_closing (c_state c)) as [[[l|] r]|] eqn:Hcl.
  - left. by exists tt, c.
  - assert (Hlf : local_fin c = None) by (unfold local_fin; by rewrite Hcl).
    rewrite (bind_Ret _ _ _ _ _ Eidle). destruct idle; [|left; by exists tt, c].
    rewrite (bind_Ret _ _ _ _ _ Efin). erewrite bind_Ret by done. set (c1 := with_state _ c).
    destruct (transmit_fin fin n c1 rb sb sp e) as [(a & c' & E & Hb' & Ht' & Est & Hpw & sp' & Hc' & Hl' & Hk)|[E Hbig]];
      try done; [by apply base_inv_state|by eapply connected_eq|..].
    + left. exists a, c'. split; [exact E|].
      pose proof (inv_fin n c c' rb sb sp sp' (h_SeqNum (Header fin)) r Hca Hlf (proj1 (Hempty eq_refl)) (proj2 (Hempty eq_refl))
        Hb' Ht' Hc' Hl' Hk Hpw HM) as Hi'.
      eapply inv_eq; [exact Hi'| |done|by apply (inv_window n _ Hi')|done..]. simpl. rewrite Est. done.
    + right. split; [exact E|]. by apply Hrefused.
  - assert (Hlf : local_fin c = None) by (unfold local_fin; by rewrite Hcl).
    rewrite (bind_Ret _ _ _ _ _ Eidle). destruct idle.
    2: { left. eexists tt, _. split; [done|]. apply conn_inv_closing; [done|]. rewrite Hlf. by intros []. }
    destruct (transmit_fin fin n c rb sb sp e) as [(a & c' & E & Hb' & Ht' & Est & Hpw & sp' & Hc' & Hl' & Hk)|[E Hbig]]; try done.
    + left. exists tt, (with_state (st_closing (mk_Closing (Some (h_SeqNum (Header fin))) None)) c').
      split; [erewrite bind_Ret; [|rewrite (bind_Ret _ _ _ _ _ Efin), (bind_Ret _ _ _ _ _ E); done]; done|].
      by apply (inv_fin n c c' rb sb sp sp'); try done; apply Hempty.
    + right. split; [|by apply Hrefused].
      apply bind_panic. rewrite (bind_Ret _ _ _ _ _ Efin). by apply bind_panic.
Qed.

Lemma after_select_safe e n c :
  inv n c → (c_type c = ConnConnected → ∀ sp, cs_SentPackets (c_state c) = Some sp → len (sp_packets sp) < MAX_PACKETS) →
  1 ≤ n → env_ok T0 e → MAX_PACKETS ≤ N →
  safe n (c_streamShutdown c = true ∧ fin_refused c) (after_select e) c.
Proof.
  intros Hi Hlen Hn He HM. unfold after_select.
  assert (Hk : ∀ c', inv n c' → total (t ←! stateType;
    match t with
    | ConnClosed =>
        b ←! eof; (if negb b then processReads else done_ tt) ;! processWrites e (e_now e) ;! emit EvShutdown ;! done_ true
    | _ => done_ false
    end) c' (λ _ c', inv n c')).
  { intros c' Hi'. apply total_bind. exists (c_type c'), c'. split; [done|].
    destruct (c_type c') eqn:Ht; [by apply total_done..|]. apply total_bind. exists true, c'. split.
    { unfold eof. erewrite bind_Ret by done. unfold c_type in Ht. by rewrite Ht. }
    simpl negb. cbv iota. apply total_bind, total_done. eapply (total_seq _ _ _ (inv n)).
    - unfold processWrites. apply total_bind. exists (c_type c'), c'. split; [done|]. rewrite Ht. apply total_get.
      by apply each_emit_total.
    - intros _ c2 Hi2. eapply total_seq; [by apply emit_total|]. intros _ c3 Hi3. by apply total_done. }
  unfold safe, total. erewrite bind_Ret by done. destruct (c_streamShutdown c) eqn:Hsh; simpl andb.
  - destruct (bool_decide _); simpl negb; cbv iota.
    + left. apply total_bind, total_done. by apply Hk.
    + eapply (safe_seq n n); [|by intros _; apply Hk]. eapply shutdown_safe in Hi as [Hi|[E Hf]]; [left; exact Hi|right; done|done..].
  - left. apply total_bind, total_done. by apply Hk.
Qed.

End loop.

(** ** A turn of the loop *)

Section turn.
Context `{BTreeLaws} `{FloatConv}.
Context (T0 N : Z).
Hypothesis HN : 0 ≤ N.
Implicit Types c : connection.

(** Packets come out of [DecodePacket], which gives well-formed headers. *)
Definition input_ok (i : conn_input) : Prop :=
  match i with InIncoming p => header_wf (Header p) | _ => True end.

(** Whether the connection takes a write, and the bytes that an input adds to
    the outgoing stream. *)
Definition accepts c : bool :=
  match c_type c with
  | ConnConnecting => true
  | ConnConnected =>
      match cs_closing (c_state c) with
      | None | Some (mk_Closing None (Some _)) => true
      | _ => false
      end
  | ConnClosed => false
  end.
Definition taken (i : conn_input) c : list Z :=
  match i with InWrite w => if accepts c then qw_data w else [] | _ => [] end.

Lemma accepts_local c : accepts c = true → c_type c = ConnConnected → local_fin c = None.
Proof.
  unfold accepts, local_fin. intros Ha Ht. rewrite Ht in Ha.
  by destruct (cs_closing (c_state c)) as [[[] []]|].
Qed.

Lemma inv_push W w n c :
  conn_inv T0 N W n c → accepts c = true →
  conn_inv T0 N (W ++ qw_data w) n (with_pendingWrites (c_pendingWrites c ++ [w]) c).
Proof.
  intros (Hb & Hh & Hs) Ha. set (c' := with_pendingWrites _ c).
  assert (Hw : waiting c' = waiting c ++ qw_data w).
  { unfold waiting. simpl. rewrite fmap_app, concat_app. simpl. by rewrite app_nil_r. }
  assert (Hb' : base_inv c') by (by destruct Hb).
  destruct (c_type c) eqn:Ht.
  - destruct Hs as (? & ? & ? & ? & ? & Hsp & Hwait). split; [done|].
    split; [unfold past; simpl; by rewrite Hsp|]. change (c_type c') with (c_type c). rewrite Ht.
    split_and!; try done. by rewrite Hw, Hwait.
  - destruct Hs as (rb & sb & sp & Hc & Hl & [Hst Hfin Hloc]).
    assert (Hno : ∀ i d, kinds sp !! i ≠ Some (st_fin, d)).
    { intros i d Hk. destruct (Hloc i d Hk) as [f Hf]. by rewrite (accepts_local c Ha Ht) in Hf. }
    eapply conn_inv_connected; [done|done|by eapply connected_eq|done|]. split.
    + by rewrite Hw, <- Hst, <- !app_assoc.
    + intros i d Hk. by apply Hno in Hk.
    + intros i d Hk. by apply Hno in Hk.
  - unfold accepts in Ha. by rewrite Ht in Ha.
Qed.

Lemma onWrite_total W e w n c :
  conn_inv T0 N W n c → has_room c → 1 ≤ n → env_ok T0 e → MAX_PACKETS - 1 ≤ N →
  total (onWrite e w) c (λ _ c', conn_inv T0 N (W ++ taken (InWrite w) c) n c').
Proof.
  intros Hi Hroom Hn He HN'. unfold onWrite. cbv zeta. apply total_get.
  eapply (total_seq _ _ _ (λ c', conn_inv T0 N (W ++ taken (InWrite w) c) n c' ∧ has_room c')).
  - assert (Hpush : accepts c = true → total (push_write (mk_queuedWrite (qw_data w) 0 (qw_resultCh w))) c
      (λ _ c', conn_inv T0 N (W ++ taken (InWrite w) c) n c' ∧ has_room c')).
    { intros Ha. apply total_modify. simpl. rewrite Ha. split; [|done].
      by apply (inv_push W (mk_queuedWrite (qw_data w) 0 (qw_resultCh w))). }
    assert (Hemit : accepts c = false → ∀ ch res, total (emit (EvWrite ch res)) c
      (λ _ c', conn_inv T0 N (W ++ taken (InWrite w) c) n c' ∧ has_room c')).
    { intros Ha ch res. apply total_modify. simpl. rewrite Ha, app_nil_r. split; [by apply inv_out|done]. }
    unfold accepts, c_type in Hpush, Hemit. destruct (cs_stateType (c_state c)); [by apply Hpush| |by apply Hemit].
    destruct (cs_closing (c_state c)) as [[[l|] [r|]]|]; (by apply Hpush) || by apply Hemit.
  - intros _ c1 [Hi1 Hr1]. eapply total_seq; [by apply processWrites_total|]. intros _ c2 Hi2. apply total_modify.
    by apply inv_tokens.
Qed.

(** The next expired packet. *)
Lemma inv_next_timeout W n c p q :
  conn_inv T0 N W n c → c_unackTimeoutCh c = p :: q →
  conn_inv T0 N W n (with_timeouts q c) ∧ expired_ok p (with_timeouts q c).
Proof.
  intros (Hb & Hh & Hs) Hq. unfold expired_ok. change (c_type (with_timeouts q c)) with (c_type c). split.
  - split; [by destruct Hb|]. split; [by eapply past_eq|].
    change (c_type (with_timeouts q c)) with (c_type c). destruct (c_type c); [..|done].
    + destruct Hs as (? & ? & ? & Hall & ? & ? & ?). rewrite Hq in Hall. by apply Forall_cons in Hall as [_ ?].
    + destruct Hs as (rb & sb & sp & Hc & Hl & Hca). exists rb, sb, sp. split_and!; [|done|by eapply carries_eq].
      destruct Hc. split; try done. rewrite Hq in cn_queue. by apply Forall_cons in cn_queue as [_ ?].
  - destruct (c_type c); [..|done].
    + destruct Hs as (? & ? & ? & Hall & ? & ? & ?). rewrite Hq in Hall. by apply Forall_cons in Hall as [? _].
    + destruct Hs as (rb & sb & sp & Hc & Hl). intros sp' Hsp'. pose proof (cn_sent _ _ _ _ _ _ Hc) as E.
      pose proof (cn_queue _ _ _ _ _ _ Hc) as Hall. rewrite Hq in Hall. apply Forall_cons in Hall as [Hp _].
      simpl in Hsp'. congruence.
Qed.

Lemma handle_total W e i n c :
  conn_inv T0 N W n c → has_room c → 1 ≤ n < MaxUint32 → env_ok T0 e → input_ok i → MAX_PACKETS - 1 ≤ N →
  total (handle e i) c (λ _ c', conn_inv T0 N (W ++ taken i c) (n + 1) c').
Proof.
  intros Hi Hroom Hn He Hin HM. assert (Hi1 : conn_inv T0 N W (n + 1) c) by (eapply conn_inv_mono; [|done]; lia).
  assert (Hup : ∀ W' (m : M unit), total m c (λ _ c', conn_inv T0 N W' n c') → total m c (λ _ c', conn_inv T0 N W' (n + 1) c')).
  { intros W' m Hm. eapply total_weaken; [exact Hm|]. intros ? c'. apply conn_inv_mono. lia. }
  destruct i; unfold handle; cbn [taken]; rewrite ?app_nil_r.
  - apply onPacket_total; [done|done|done|apply He|apply He|lia].
  - apply total_modify. by apply inv_shutdown.
  - apply Hup, onWrite_total; done || lia.
  - apply total_get. destruct (0 <? _); [|by apply total_done]. apply total_bind, total_modify.
    apply (processReads_total T0 N W). by apply inv_tokens.
  - apply total_get. destruct (0 <? _); [|by apply total_done]. apply Hup, total_bind, total_modify.
    apply processWrites_total; [by apply inv_tokens|done|lia|done|done].
  - apply total_get. destruct (c_unackTimeoutCh c) as [|p q] eqn:Hq; [by apply total_done|].
    apply total_bind, total_modify. destruct (inv_next_timeout W n c p q Hi Hq). apply onTimeout_total; done || lia.
  - apply total_bind. exists (c_type c), c. split; [done|]. destruct (bool_decide _); [by apply total_done|by apply inv_close].
  - apply Hup. by apply (tick_total T0 N W e n c).
  - apply total_modify. by apply inv_shutdown.
Qed.
End turn.

Section step.
Context `{BTreeLaws} `{FloatConv}.
Context (T0 : Z).
Implicit Types c : connection.

Lemma conn_inv_length N N' W n c : N ≤ N' → conn_inv T0 N W n c → conn_inv T0 N' W n c.
Proof.
  intros HN (Hb & Hh & Hs). split; [done|]. split.
  { unfold past in *. destruct (cs_SentPackets (c_state c)); [|done]. destruct Hh. split; try done. lia. }
  destruct (c_type c); try done. destruct Hs as (rb & sb & sp & Hc & Hl & Hca).
  exists rb, sb, sp. split_and!; [done|lia|done].
Qed.

Lemma room_length n c rb sb sp :
  base_inv c → connected T0 n c rb sb sp → room c sb sp → len (sp_packets sp) ≤ MAX_PACKETS - 1.
Proof.
  intros Hb Hc Hr. unfold room, payload_bound in Hr. pose proof (cn_sp _ _ _ _ _ _ Hc) as Hsp.
  pose proof (ctl_available _ (si_ctl T0 sp Hsp)) as Hav. fold (sp_Window sp) in Hav.
  pose proof (bi_window c Hb) as Hw. unfold is_u32 in Hw. pose proof (cfg_packet _ (bi_cfg c Hb)) as Hm.
  pose proof (len_nonneg (sb_pending sb)).
  assert (0 ≤ (Z.min (sp_Window sp) (c_peerRecvWindow c) + (MaxPacketSize (c_config c) - 64) - 1)
    `div` (MaxPacketSize (c_config c) - 64)) by (apply Z.div_pos; lia). lia.
Qed.

(** The invariant between two turns, of a connection that has accepted the bytes
    [W], and of one that has accepted some bytes. *)
Definition stream_inv (W : list Z) (n : Z) c : Prop := conn_inv T0 MAX_PACKETS W n c.
Definition loop_inv (n : Z) c : Prop := ∃ W, stream_inv W n c.

Lemma handle_stream e i W n c :
  stream_inv W n c → has_room c → 1 ≤ n < MaxUint32 → env_ok T0 e → input_ok i →
  ∃ c1, handle e i c = Ret (inr tt, c1) ∧ stream_inv (W ++ taken i c) (n + 1) c1 ∧
    (c_type c1 = ConnConnected → ∀ sp, cs_SentPackets (c_state c1) = Some sp → len (sp_packets sp) < MAX_PACKETS).
Proof.
  intros Hi Hr Hn He Hin. pose proof Hi as (Hb & Hh & Hs).
  assert (HM : 0 ≤ MAX_PACKETS - 1) by done.
  destruct (c_type c) eqn:Ht.
  - destruct (handle_total T0 (MAX_PACKETS - 1) HM W e i n c) as ([] & c1 & E & Hi1); try done; [|].
    { split; [done|]. split; [|by rewrite Ht]. destruct Hs as (_ & _ & _ & _ & Hq & Hsp & _). unfold past. by rewrite Hsp. }
    exists c1. split; [done|]. split; [eapply conn_inv_length; [|done]; lia|].
    intros _ sp Hsp. destruct Hi1 as (_ & Hh1 & _). unfold past in Hh1. rewrite Hsp in Hh1.
    pose proof (hi_len _ _ _ _ Hh1) as Hl. rewrite kinds_len in Hl. lia.
  - destruct Hs as (rb & sb & sp & Hc & _ & Hca).
    assert (Hl : len (sp_packets sp) ≤ MAX_PACKETS - 1) by (eapply room_length; [done|done|]; apply Hr; apply Hc).
    destruct (handle_total T0 (MAX_PACKETS - 1) HM W e i n c) as ([] & c1 & E & Hi1); try done; [|].
    { by eapply conn_inv_connected. }
    exists c1. split; [done|]. split; [eapply conn_inv_length; [|done]; lia|].
    intros _ sp1 Hsp. destruct Hi1 as (_ & Hh1 & _). unfold past in Hh1. rewrite Hsp in Hh1.
    pose proof (hi_len _ _ _ _ Hh1) as Hl1. rewrite kinds_len in Hl1. lia.
  - assert (HM' : 0 ≤ MAX_PACKETS) by done.
    destruct (handle_total T0 MAX_PACKETS HM' W e i n c) as ([] & c1 & E & Hi1); try done.
    exists c1. split_and!; [done|done|]. intros Ht1. exfalso.
    pose proof (ev_state _ _ (handle_evolves e i c _ _ E)) as Hst. rewrite Ht, Ht1 in Hst. done.
Qed.

Lemma stream_step_cases e i W n c :
  stream_inv W n c → has_room c → 1 ≤ n < MaxUint32 → env_ok T0 e → input_ok i →
  (∃ b c', loop_step e i c = Ret (inr b, c') ∧ stream_inv (W ++ taken i c) (n + 1) c') ∨
  (loop_step e i c = Panic PanicController ∧
   ∃ c1, handle e i c = Ret (inr tt, c1) ∧ c_streamShutdown c1 = true ∧ fin_refused c1).
Proof.
  intros Hi Hr Hn He Hin. destruct (handle_stream e i W n c Hi Hr Hn He Hin) as (c1 & E & Hi1 & Hlen).
  unfold loop_step. rewrite (bind_Ret _ _ _ _ _ E).
  assert (Hafter : (∃ b c', after_select e c1 = Ret (inr b, c') ∧ stream_inv (W ++ taken i c) (n + 1) c') ∨
    (after_select e c1 = Panic PanicController ∧
     ∃ c2, handle e i c = Ret (inr tt, c2) ∧ c_streamShutdown c2 = true ∧ fin_refused c2)).
  { destruct (after_select_safe T0 MAX_PACKETS (W ++ taken i c) e (n + 1) c1 Hi1 Hlen ltac:(lia) He ltac:(lia)) as [?|[Ep [? ?]]];
      [by left|right; split; [done|by exists c1]]. }
  destruct i; try exact Hafter; left; by eexists _, c1.
Qed.

Lemma loop_step_cases e i n c :
  loop_inv n c → has_room c → 1 ≤ n < MaxUint32 → env_ok T0 e → input_ok i →
  (∃ b c', loop_step e i c = Ret (inr b, c') ∧ loop_inv (n + 1) c') ∨
  (loop_step e i c = Panic PanicController ∧
   ∃ c1, handle e i c = Ret (inr tt, c1) ∧ c_streamShutdown c1 = true ∧ fin_refused c1).
Proof.
  intros [W Hi] Hr Hn He Hin. destruct (stream_step_cases e i W n c Hi Hr Hn He Hin) as [(b & c' & E & Hi')|Hp]; [left|by right].
  exists b, c'. split; [done|by eexists].
Qed.

Lemma loop_inv_mono n m c : n ≤ m → loop_inv n c → loop_inv m c.
Proof. intros Hnm [W Hi]. exists W. by eapply conn_inv_mono. Qed.

(** ** The start of a connection *)

Lemma newConnection_Ret e cid cfg syn :
  cfg_ok cfg →
  ∃ tw, tw_inv tw ∧ (∀ P, wheel_ok P tw) ∧
    newConnection e cid cfg syn (Some true)
    = Ret (mk_connection (NewConnState (Some true)) cid cfg
        (match syn with
         | Some syn => mk_Endpoint Acceptor (h_SeqNum (Header syn)) (e_rand e) 0
         | None => mk_Endpoint Initiator (e_rand e) 0 0
         end)
        (match syn with
         | Some syn => i64 (i64 (UnixMicro (e_now e) - h_Timestamp (Header syn)) * Microsecond)
         | None => 0
         end)
        (match syn with Some syn => h_WndSize (Header syn) | None => MaxUint32 end)
        tw [] 0 [] 0 None None false []).
Proof.
  intros Hcfg. pose proof (cfg_initial _ Hcfg) as Hi. set (d := Z.quot (InitialTimeout cfg) 4).
  assert (Hd : 1 ≤ d < 2 ^ 50) by (unfold d; Z.to_euclidean_division_equations; lia).
  set (tw := mkWheel false d (replicate 8 (∅ : gmap Z packet)) 0 8 (i64 (8 * d))). exists tw.
  assert (Htw : tw_inv tw).
  { destruct (newTimeWheel_inv (K := Z) (P := packet) d 8) as (tw' & E & Hinv & _); [lia|lia|unfold is_i64; lia|].
    unfold newTimeWheel in E. destruct (Z.leb_spec d 0); [lia|]. injection E as <-. done. }
  split; [done|]. split.
  - intros P. split; [done|]. intros slot k p Hin Hk. change (tw_slots tw) with (replicate 8 (∅ : gmap Z packet)) in Hin.
    apply elem_of_replicate in Hin as [-> _]. by rewrite lookup_empty in Hk.
  - unfold newConnection. destruct syn; unfold newTimeWheel; fold d; (destruct (Z.leb_spec d 0); [lia|done]).
Qed.

Lemma cfg_controller_inv cfg : cfg_ok cfg → cc_inv (newDefaultController (fromConnConfig cfg)).
Proof. intros Hcfg. apply newDefaultController_inv, Hcfg. Qed.

Lemma start_total e e' cid cfg syn :
  cfg_ok cfg → cid_ok cid → is_u16 (e_rand e) → (∀ p, syn = Some p → header_wf (Header p)) →
  ∃ c c', newConnection e cid cfg syn (Some true) = Ret c ∧ start e' c = Ret (inr tt, c') ∧ stream_inv [] 1 c'.
Proof.
  intros Hcfg Hcid Hrand Hsyn. destruct (newConnection_Ret e cid cfg syn Hcfg) as (tw & Htw & Hw & E).
  pose proof (cfg_initial _ Hcfg) as Hinit.
  destruct syn as [p|].
  - pose proof (Hsyn p eq_refl) as Hh. eexists _, _. split; [exact E|]. split.
    { unfold start. erewrite bind_Ret by done. cbn [c_endpoint ep_Type c_state cs_connectedCh NewConnState].
      erewrite bind_Ret by (unfold statePacket; reflexivity). cbv beta zeta.
      do 3 erewrite bind_Ret by reflexivity. reflexivity. }
    eapply conn_inv_connected; [|done|..].
    + split; simpl; [done|apply Hh|apply Hh|done|done|lia|done].
    + split; simpl; try done; [apply newReceiveBuffer_inv; [apply Hcfg|apply Hh]|apply newSendBuffer_inv, Hcfg|..].
      * apply newSentPackets_inv; [apply u16_range|by apply cfg_controller_inv|done].
      * constructor; [left; split; [|done]|constructor; [by left|constructor]].
        built; [apply Hcid|apply Hcfg|apply Hh].
      * constructor.
    + done.
    + by apply carries_new.
  - assert (Hsd : sendable (Build (NewPacketBuilder st_syn (cid_Recv cid) (u32 (UnixMicro (e_now e'))) (WindowSize cfg) (e_rand e))))
      by (built; [apply Hcid|apply Hcfg]).
    destruct (wheel_ok_put syn_ok (e_rand e) (Build (NewPacketBuilder st_syn (cid_Recv cid) (u32 (UnixMicro (e_now e')))
      (WindowSize cfg) (e_rand e))) (InitialTimeout cfg) tw (Hw syn_ok) (conj eq_refl Hsd) ltac:(lia)) as (tw' & Etw & Hw').
    eexists _, _. split; [exact E|]. split.
    + unfold start. erewrite bind_Ret by done. cbn [c_endpoint ep_Type]. erewrite bind_Ret by done.
      erewrite bind_Ret by done. erewrite bind_Ret; [|unfold lift_; cbn; by rewrite Etw]. by erewrite bind_Ret.
    + split; [split; simpl; try done; apply Hw'|].
      assert (Hq : Forall quiet [EvOutgoing (Build (NewPacketBuilder st_syn (cid_Recv cid) (u32 (UnixMicro (e_now e'))) (WindowSize cfg) (e_rand e)))])
        by (constructor; [by split; [|done]|constructor]).
      split; [exact Hq|]. by split_and!.
Qed.
End step.

(** ** Runs *)

Section runs.
Context `{BTreeLaws} `{FloatConv}.
Context (T0 : Z).
Implicit Types c : connection.

(** Every turn of the run starts with sequence numbers left, at a time of the
    clock and with a decoded packet. *)
Fixpoint turns_ok (steps : list (env * conn_input)) c : Prop :=
  match steps with
  | [] => True
  | (e, i) :: steps =>
      has_room c ∧ env_ok T0 e ∧ input_ok i ∧
      match loop_step e i c with Ret (inr false, c') => turns_ok steps c' | _ => True end
  end.

(** The bytes of the writes accepted along a run. *)
Fixpoint accepted (steps : list (env * conn_input)) c : list Z :=
  match steps with
  | [] => []
  | (e, i) :: steps =>
      taken i c ++ match loop_step e i c with Ret (inr false, c') => accepted steps c' | _ => [] end
  end.

(** The run dies of the FIN: after some turns, a turn whose handler returns ends in
    the [shutdown] of a stream that was shut down, has nothing left to send, has
    not sent its FIN, and has more bytes in flight than the congestion window; the
    controller refuses the FIN and [transmit] panics. *)
Definition dies_of_fin (steps : list (env * conn_input)) c : Prop :=
  ∃ before e i after c1 c2, steps = before ++ (e, i) :: after ∧
    conn_run before c = Ret (inr false, c1) ∧ handle e i c1 = Ret (inr tt, c2) ∧
    c_streamShutdown c2 = true ∧ fin_refused c2 ∧ loop_step e i c1 = Panic PanicController.

Lemma dies_of_fin_later e i steps c c' :
  loop_step e i c = Ret (inr false, c') → dies_of_fin steps c' → dies_of_fin ((e, i) :: steps) c.
Proof.
  intros E (before & e' & i' & after & c1 & c2 & -> & Er & Hrest). exists ((e, i) :: before), e', i', after, c1, c2.
  split; [done|]. split; [|done]. cbn [conn_run]. by rewrite (bind_Ret _ _ _ _ _ E).
Qed.

Lemma conn_run_stream steps W n c :
  stream_inv T0 W n c → 1 ≤ n → n + len steps < MaxUint32 → turns_ok steps c →
  (∃ b c', conn_run steps c = Ret (inr b, c') ∧ stream_inv T0 (W ++ accepted steps c) (n + len steps) c') ∨
  (conn_run steps c = Panic PanicController ∧ dies_of_fin steps c).
Proof.
  revert W n c. induction steps as [|[e i] steps IH]; intros W n c Hi Hn Hmax Hok.
  { left. exists false, c. rewrite len_nil, Z.add_0_r, app_nil_r. done. }
  rewrite len_cons in *. pose proof (len_nonneg steps). destruct Hok as (Hr & He & Hin & Hrest). cbn [conn_run accepted].
  destruct (stream_step_cases T0 e i W n c Hi Hr ltac:(lia) He Hin) as [(b & c' & E & Hi')|[E (c2 & Eh & Hsh & Hfin)]].
  - rewrite (bind_Ret _ _ _ _ _ E). rewrite E in Hrest |- *. destruct b.
    + left. exists true, c'. rewrite app_nil_r. split; [done|]. eapply conn_inv_mono; [|exact Hi']. lia.
    + replace (n + (len steps + 1)) with (n + 1 + len steps) by lia. rewrite app_assoc.
      destruct (IH (W ++ taken i c) (n + 1) c') as [?|[Ep Hd]]; [done|lia|lia|done|by left|].
      right. split; [done|]. by eapply dies_of_fin_later.
  - right. split; [by apply bind_panic|]. by exists [], e, i, steps, c, c2.
Qed.

Lemma conn_run_cases steps n c :
  loop_inv T0 n c → 1 ≤ n → n + len steps < MaxUint32 → turns_ok steps c →
  (∃ b c', conn_run steps c = Ret (inr b, c') ∧ loop_inv T0 (n + len steps) c') ∨
  (conn_run steps c = Panic PanicController ∧ dies_of_fin steps c).
Proof.
  intros [W Hi] Hn Hmax Hok. destruct (conn_run_stream steps W n c Hi Hn Hmax Hok) as [(b & c' & E & Hi')|E]; [left|by right].
  exists b, c'. split; [done|by eexists].
Qed.
End runs.

(** A turn of the event loop.  From a connection that meets the invariant,
    with sequence numbers left, a turn on any input (any decoded packet, any
    write, a timeout, the ticker, a shutdown request) returns and keeps the
    invariant.  The one exception: the stream was shut down, nothing is left to
    send, and more bytes are in flight than the congestion window has; then the
    FIN is refused and the process panics. *)
Theorem loop_step_safe `{BTreeLaws} `{FloatConv} (T0 n : Z) (e : env) (i : conn_input) (c : connection) :
  loop_inv T0 n c → has_room c → 1 ≤ n < MaxUint32 → env_ok T0 e → input_ok i →
  (∃ b c', loop_step e i c = Ret (inr b, c') ∧ loop_inv T0 (n + 1) c') ∨
  (loop_step e i c = Panic PanicController ∧
   ∃ c1, handle e i c = Ret (inr tt, c1) ∧ c_streamShutdown c1 = true ∧ fin_refused c1).
Proof. apply loop_step_cases. Qed.

(** C2.  A whole run.  A connection created with a usable configuration, by
    [Connect] or for a received SYN, starts and meets the invariant, and any
    run of its event loop then returns with the invariant, but for one case: after
    some turns the stream has been shut down, nothing is left to send, and more
    bytes are in flight than the congestion window has; then the FIN is refused
    and the process panics ([dies_of_fin]).  No index, nil pointer, closed
    channel, refused data or retransmission, clock or fuel fails it. *)
Theorem event_loop_safe `{BTreeLaws} `{FloatConv} (T0 : Z) (e e' : env) (cid : ConnectionId)
    (cfg : ConnectionConfig) (syn : option packet) :
  cfg_ok cfg → cid_ok cid → is_u16 (e_rand e) → (∀ p, syn = Some p → header_wf (Header p)) →
  ∃ c c', newConnection e cid cfg syn (Some true) = Ret c ∧ start e' c = Ret (inr tt, c') ∧
    loop_inv T0 1 c' ∧
    ∀ steps, turns_ok T0 steps c' → len steps < MaxUint32 - 1 →
      (∃ b c'', conn_run steps c' = Ret (inr b, c'') ∧ loop_inv T0 (1 + len steps) c'') ∨
      (conn_run steps c' = Panic PanicController ∧ dies_of_fin steps c').
Proof.
  intros Hcfg Hcid Hr Hsyn. destruct (start_total T0 e e' cid cfg syn Hcfg Hcid Hr Hsyn) as (c & c' & E & Es & Hi).
  assert (Hl : loop_inv T0 1 c') by (by exists []). exists c, c'. split_and!; [done..|].
  intros steps Hok Hlen. apply conn_run_cases; done || lia.
Qed.

(** C9.  Incoming packets.  Whatever well-formed packet arrives, in whatever
    state, [onPacket] returns without an error or a panic and the connection
    keeps its invariant, with the same bound on the packets sent. *)
Theorem onPacket_never_panics `{BTreeLaws} `{FloatConv} (T0 N n : Z) (W : list Z) (e : env) (p : packet)
    (now : Z) (c : connection) :
  0 ≤ N → conn_inv T0 N W n c → header_wf (Header p) → is_u16 (e_rand e) → time_ok T0 now → n < MaxUint32 →
  ∃ c', onPacket e p now c = Ret (inr tt, c') ∧ conn_inv T0 N W (n + 1) c'.
Proof.
  intros HN Hi Hh Hrand Hnow Hn. destruct (onPacket_total T0 N W HN e p now n c Hi Hh Hrand Hnow Hn) as ([] & c' & E & Hi').
  by exists c'.
Qed.

(** C4.  The outgoing stream.  [processWrites] of a connected connection returns;
    the bytes of the DATA packets it sends, then those left in the send buffer,
    then those of the writes that still wait are exactly the bytes that were in
    the send buffer and in the waiting writes, in order.  Every payload is
    non-empty and within the packet size, their sum within the congestion window
    and the window of the peer, and the packets are recorded as sent. *)
Theorem processWrites_conserves_stream `{BTreeLaws} `{FloatConv} (T0 n : Z) (e : env) (c : connection)
    (sb : sendBuffer) (sp : sentPackets defaultController) :
  loop_inv T0 n c → c_type c = ConnConnected → has_room c → 1 ≤ n → env_ok T0 e →
  cs_SendBuf (c_state c) = Some sb → cs_SentPackets (c_state c) = Some sp →
  ∃ c' sb' sp' evs,
    processWrites e (e_now e) c = Ret (inr tt, c') ∧
    cs_SendBuf (c_state c') = Some sb' ∧ cs_SentPackets (c_state c') = Some sp' ∧
    c_out c' = c_out c ++ evs ∧
    concat (data_out evs) ++ sb_contents sb' ++ waiting c' = sb_contents sb ++ waiting c ∧
    Forall (λ p, 0 < len p ≤ MaxPacketSize (c_config c) - 64) (data_out evs) ∧
    len (concat (data_out evs)) ≤ Z.min (sp_Window sp) (c_peerRecvWindow c) ∧
    p_data <$> sp_packets sp' = (p_data <$> sp_packets sp) ++ data_out evs.
Proof.
  intros [W (Hb & _ & Hs)] Ht Hr Hn [Hnow _] Esb Esp. rewrite Ht in Hs. destruct Hs as (rb & sb0 & sp0 & Hc & _).
  assert (sb0 = sb) as -> by (rewrite (cn_send _ _ _ _ _ _ Hc) in Esb; congruence).
  assert (sp0 = sp) as -> by (rewrite (cn_sent _ _ _ _ _ _ Hc) in Esp; congruence).
  destruct (processWrites_connected T0 e (e_now e) n c rb sb sp Hc Ht Hb Hn Hnow (Hr _ _ Esb Esp))
    as ([] & c' & E & sb' & sp' & evs & Hc' & Ho & Hst & Hp & Hw & Hk & _).
  exists c', sb', sp', evs. split; [done|]. split; [apply Hc'|]. split; [apply Hc'|]. split_and!; [done..|].
  rewrite <- !kinds_data, Hk, fmap_app. f_equal. rewrite <- list_fmap_compose. apply list_fmap_id.
Qed.

(** ** Witnesses *)

Lemma default_cfg_ok : cfg_ok NewConnectionConfig.
Proof. split; vm_compute; repeat split; congruence. Qed.

Lemma demo_cfg_ok : cfg_ok demo_config.
Proof. split; vm_compute; repeat split; congruence. Qed.

Lemma demo_new_stream n : stream_inv 0 [] n demo_new.
Proof.
  split; [|split; [constructor|]].
  - split; [apply demo_cfg_ok|vm_compute; repeat split; congruence..|]. split; vm_compute; repeat split; congruence.
  - assert (Hw : wheel_ok syn_ok demo_wheel0).
    { split; [split; vm_compute; repeat split; congruence|]. intros slot k p Hin Hk. simpl in Hin.
      repeat (apply elem_of_cons in Hin as [->|Hin]; [by rewrite lookup_empty in Hk|]). by apply not_elem_of_nil in Hin. }
    by split_and!.
Qed.

Lemma demo_new_inv n : loop_inv 0 n demo_new.
Proof. exists []. apply demo_new_stream. Qed.

Lemma demo_new_room : has_room demo_new.
Proof. intros sb sp E. discriminate E. Qed.

Lemma demo_env_ok t : 0 ≤ t < 100 → env_ok 0 (demo_env t).
Proof. intros Ht. split; [unfold time_ok, MAX_RTT; simpl; lia|unfold is_u16; simpl; lia]. Qed.

Lemma demo_synack_wf : header_wf (Header demo_synack).
Proof. split; vm_compute; split; congruence. Qed.

(** A turn of the demonstration. *)
Definition demo_turn (t : Z) (i : conn_input) (c : connection) : connection :=
  (outcome_of (loop_step (demo_env t) i) c).2.

Lemma demo_turn_inv t i n c :
  loop_inv 0 n c → has_room c → 1 ≤ n < 100 → 0 ≤ t < 100 → input_ok i →
  is_Ret (loop_step (demo_env t) i c) = true → loop_inv 0 (n + 1) (demo_turn t i c).
Proof.
  intros Hi Hr Hn Ht Hin HR. unfold demo_turn. pose proof (outcome_of_Ret _ _ HR) as E.
  destruct (loop_step_cases 0 (demo_env t) i n c) as [(b & c' & E' & Hi')|[E' _]];
    [done|done|unfold MaxUint32; lia|by apply demo_env_ok|done| |].
  - rewrite E' in E. injection E as _ <-. exact Hi'.
  - rewrite E' in E. discriminate E.
Qed.

(** A connection that has connected, and one with four bytes to send. *)
Definition demo_idle : connection := demo_turn 1 (InIncoming demo_synack) demo_new.
Definition demo_write : conn_input := InWrite (mk_queuedWrite [1; 2; 3; 4] 0 0).
Definition demo_connected : connection := demo_turn 2 demo_write demo_idle.

Lemma demo_idle_inv : loop_inv 0 2 demo_idle.
Proof.
  apply (demo_turn_inv 1 _ 1); [apply demo_new_inv|apply demo_new_room|done..|apply demo_synack_wf|vm_compute; reflexivity].
Qed.

(** The numbers that [room] depends on. *)
Lemma demo_room c p l w :
  option_map (λ s, len (sb_pending s)) (cs_SendBuf (c_state c)) = Some p →
  option_map (λ s, (len (sp_packets s), sp_Window s)) (cs_SentPackets (c_state c)) = Some (l, w) →
  l + payload_bound p (Z.min w (c_peerRecvWindow c)) (MaxPacketSize (c_config c) - 64) < MAX_PACKETS →
  has_room c.
Proof.
  intros Hb Hp Hlt sb sp Esb Esp. rewrite Esb in Hb. rewrite Esp in Hp. injection Hb as Hb.
  assert (len (sp_packets sp) = l ∧ sp_Window sp = w) as [Hl Hw] by (by injection Hp as Hl Hw).
  unfold room. by rewrite Hb, Hl, Hw.
Qed.

Lemma demo_idle_room : has_room demo_idle.
Proof. apply (demo_room _ 0 0 256); vm_compute; reflexivity. Qed.

Lemma demo_connected_inv : loop_inv 0 3 demo_connected.
Proof. apply (demo_turn_inv 2 _ 2); [apply demo_idle_inv|apply demo_idle_room|done..|vm_compute; reflexivity]. Qed.

Lemma demo_connected_room : has_room demo_connected.
Proof. apply (demo_room _ 1 0 256); vm_compute; reflexivity. Qed.

Lemma loop_step_safe_witness :
  ∃ b c', loop_step (demo_env 3) InWritable demo_connected = Ret (inr b, c') ∧ loop_inv 0 4 c' ∧
          data_out (c_out c') = [[1; 2; 3; 4]].
Proof.
  destruct (loop_step_safe 0 3 (demo_env 3) InWritable demo_connected) as [(b & c' & E & Hi)|[E _]].
  - apply demo_connected_inv.
  - apply demo_connected_room.
  - done.
  - by apply demo_env_ok.
  - done.
  - exists b, c'. split; [exact E|]. split; [exact Hi|].
    assert (c' = demo_turn 3 InWritable demo_connected) as ->; [|vm_compute; reflexivity].
    unfold demo_turn, outcome_of. by rewrite E.
  - assert (Hr : is_Ret (loop_step (demo_env 3) InWritable demo_connected) = true) by (vm_compute; reflexivity).
    rewrite E in Hr. discriminate Hr.
Defined.

(** An initiator before and after its start. *)
Definition demo_init : connection :=
  force demo_new (newConnection (demo_env 0) demo_cid demo_config None (Some true)).
Definition demo_started : connection := (outcome_of (start (demo_env 0)) demo_init).2.

Lemma demo_init_eq : newConnection (demo_env 0) demo_cid demo_config None (Some true) = Ret demo_init.
Proof. apply force_Ret. vm_compute. reflexivity. Qed.

Lemma demo_start_eq r c : start (demo_env 0) demo_init = Ret (r, c) → c = demo_started.
Proof. intros E. unfold demo_started, outcome_of. rewrite E. reflexivity. Qed.

(** Executable forms of the conditions on a run. *)
Definition has_roomb `{BTreeImpl} `{FloatConv} (c : connection) : bool :=
  match cs_SendBuf (c_state c), cs_SentPackets (c_state c) with
  | Some sb, Some sp =>
      len (sp_packets sp)
      + payload_bound (len (sb_pending sb)) (Z.min (sp_Window sp) (c_peerRecvWindow c))
          (MaxPacketSize (c_config c) - 64) <? MAX_PACKETS
  | _, _ => true
  end.
Definition within (lo z hi : Z) : bool := (lo <=? z) && (z <? hi).
Definition header_wfb (h : PacketHeaderV1) : bool :=
  within 0 (h_Version h) 16 && within 0 (h_Extension h) 256 && within 0 (h_ConnectionId h) 65536
  && within 0 (h_TimestampDiff h) 4294967296 && within 0 (h_WndSize h) 4294967296
  && within 0 (h_SeqNum h) 65536 && within 0 (h_AckNum h) 65536.
Fixpoint turns_okb `{BTreeImpl} `{FloatConv} (steps : list (env * conn_input)) (c : connection) : bool :=
  match steps with
  | [] => true
  | (e, i) :: steps =>
      has_roomb c && within 0 (e_now e) MAX_RTT && within 0 (e_rand e) 65536
      && match i with InIncoming p => header_wfb (Header p) | _ => true end
      && match loop_step e i c with Ret (inr false, c') => turns_okb steps c' | _ => true end
  end.

Lemma within_spec lo z hi : within lo z hi = true → lo ≤ z < hi.
Proof. unfold within. intros [H1%Z.leb_le H2%Z.ltb_lt]%andb_true_iff. done. Qed.

Lemma turns_okb_sound `{BTreeLaws} `{FloatConv} steps (c : connection) : turns_okb steps c = true → turns_ok 0 steps c.
Proof.
  revert c. induction steps as [|[e i] steps IH]; intros c; cbn [turns_okb turns_ok]; [done|].
  intros [[[[Hr Hn]%andb_true_iff Hrand]%andb_true_iff Hi]%andb_true_iff Hs]%andb_true_iff.
  apply within_spec in Hn, Hrand. split_and!.
  - intros sb sp E1 E2. unfold has_roomb in Hr. rewrite E1, E2 in Hr. by apply Z.ltb_lt in Hr.
  - split; [unfold time_ok; lia|done].
  - destruct i; try done. simpl in Hi |- *. unfold header_wfb in Hi. rewrite !andb_true_iff in Hi. destruct_and!.
    repeat match goal with Hw : within _ _ _ = true |- _ => apply within_spec in Hw end. by split.
  - destruct (loop_step e i c) as [[[|[]] c']| |]; auto.
Qed.

(** The STATE packet arrives, four bytes are written and sent, a tick, and the
    stream is shut down. *)
Definition demo_turns : list (env * conn_input) :=
  [(demo_env 1, InIncoming demo_synack); (demo_env 2, InWrite (mk_queuedWrite [1; 2; 3; 4] 0 0));
   (demo_env 3, InWritable); (demo_env 4, InTick); (demo_env 5, InShutdown)].

Lemma event_loop_safe_witness :
  ∃ c c', newConnection (demo_env 0) demo_cid demo_config None (Some true) = Ret c ∧ start (demo_env 0) c = Ret (inr tt, c') ∧
    ∃ b c'', conn_run demo_turns c' = Ret (inr b, c'') ∧ loop_inv 0 6 c'' ∧ local_fin c'' = Some 102.
Proof.
  destruct (event_loop_safe 0 (demo_env 0) (demo_env 0) demo_cid demo_config None) as (c & c' & E & Es & _ & Hr).
  - apply demo_cfg_ok.
  - split; vm_compute; split; congruence.
  - vm_compute. split; congruence.
  - discriminate.
  - assert (c = demo_init) as -> by (rewrite demo_init_eq in E; injection E; auto).
    assert (c' = demo_started) as -> by exact (demo_start_eq _ _ Es).
    exists demo_init, demo_started. split; [exact E|]. split; [exact Es|].
    destruct (Hr demo_turns) as [(b & c'' & Er & Hi)|[Ep _]].
    + apply turns_okb_sound. vm_compute. reflexivity.
    + vm_compute. reflexivity.
    + exists b, c''. split; [exact Er|]. split; [exact Hi|].
      assert (Hf : local_fin (outcome_of (conn_run demo_turns) demo_started).2 = Some 102) by (vm_compute; reflexivity).
      unfold outcome_of in Hf. rewrite Er in Hf. exact Hf.
    + assert (Hret : is_Ret (conn_run demo_turns demo_started) = true) by (vm_compute; reflexivity).
      rewrite Ep in Hret. discriminate Hret.
Defined.

Lemma onPacket_never_panics_witness :
  ∃ c', onPacket (demo_env 1) demo_synack 1 demo_new = Ret (inr tt, c') ∧ conn_inv 0 MAX_PACKETS [] 2 c'.
Proof.
  apply (onPacket_never_panics 0 MAX_PACKETS 1).
  - unfold MAX_PACKETS. lia.
  - apply demo_new_stream.
  - apply demo_synack_wf.
  - by split.
  - unfold time_ok, MAX_RTT. lia.
  - unfold MaxUint32. lia.
Defined.

Lemma processWrites_conserves_stream_witness :
  ∃ c' sb' evs, processWrites (demo_env 3) 3 demo_connected = Ret (inr tt, c') ∧
    c_out c' = c_out demo_connected ++ evs ∧
    concat (data_out evs) ++ sb_contents sb' ++ waiting c' = [1; 2; 3; 4].
Proof.
  assert (Hsb : is_Some (cs_SendBuf (c_state demo_connected))) by (vm_compute; by eexists).
  assert (Hsp : is_Some (cs_SentPackets (c_state demo_connected))) by (vm_compute; by eexists).
  destruct Hsb as [sb Esb], Hsp as [sp Esp].
  destruct (processWrites_conserves_stream 0 3 (demo_env 3) demo_connected sb sp)
    as (c' & sb' & sp' & evs & E & _ & _ & Ho & Hc & _).
  - apply demo_connected_inv.
  - vm_compute. reflexivity.
  - apply demo_connected_room.
  - lia.
  - apply demo_env_ok. lia.
  - exact Esb.
  - exact Esp.
  - exists c', sb', evs. split; [exact E|]. split; [exact Ho|]. rewrite Hc.
    assert (Hb : option_map sb_contents (cs_SendBuf (c_state demo_connected)) = Some [1; 2; 3; 4]) by (vm_compute; reflexivity).
    rewrite Esb in Hb. injection Hb as ->. vm_compute. reflexivity.
Defined.
