(* ===== verification/Handshake.v ===== *)
(** * The handshake and the timestamp difference

    Two connections, an initiator and the acceptor that its SYN creates, agree
    on both sequence numbers after the SYN and the STATE packet.  And the value
    that [onPacket] keeps as the peer's timestamp difference. *)

From Stdlib Require Import ZArith Lia.
From stdpp Require Import base list gmap fin_maps sets.
From S2P Require Import Prelude.
From S2P Require Import Hoare.
From S2P Require Import Seq.
From S2P Require Import SelectiveAck.
From S2P Require Import Packet.
From S2P Require Import SendBuffer.
From S2P Require Import BTree.
From S2P Require Import RecvBuffer.
From S2P Require Import TimeWheel.
From S2P Require Import Utils.
From S2P Require Import Cid.
From S2P Require Import Float64.
From S2P Require Import Controller.
From S2P Require Import Congestion.
From S2P Require Import SentPackets.
From S2P Require Import Conn.
From S2P Require Import ConnStates.
From S2P Require Import ConnSafety.
From S2P Require Import ConnLoop.

Section handshake.
Context `{BTreeLaws} `{FloatConv}.
Implicit Types c : connection.

Abbreviation fresh_sent seq cfg := (newSentPackets seq (newDefaultController (fromConnConfig cfg))).

(** The SYN that an initiator sends, and the STATE that answers it. *)
Definition syn_of (e : env) (cid : ConnectionId) (cfg : ConnectionConfig) (seq : Z) : packet :=
  Build (NewPacketBuilder st_syn (cid_Recv cid) (u32 (UnixMicro (e_now e))) (WindowSize cfg) seq).

Lemma initiator_started e cid cfg :
  cfg_ok cfg → is_u16 (e_rand e) →
  ∃ c c', newConnection e cid cfg None (Some true) = Ret c ∧ start e c = Ret (inr tt, c') ∧
    c_out c' = [EvOutgoing (syn_of e cid cfg (e_rand e))] ∧ c_type c' = ConnConnecting ∧
    c_endpoint c' = mk_Endpoint Initiator (e_rand e) 0 1 ∧ c_config c' = cfg ∧
    cs_connectedCh (c_state c') = Some true ∧ cs_closing (c_state c') = None ∧ c_synState c' = None ∧
    cs_Err (c_state c') = None.
Proof.
  intros Hcfg Hr. destruct (newConnection_Ret e cid cfg None Hcfg) as (tw & Htw & Hw & E).
  pose proof (cfg_initial _ Hcfg) as Hinit.
  destruct (wheel_ok_put is_syn (e_rand e) (syn_of e cid cfg (e_rand e)) (InitialTimeout cfg) tw (Hw is_syn) eq_refl
    ltac:(lia)) as (tw' & Etw & Hw'). unfold syn_of in Etw.
  eexists _, _. split; [exact E|]. split.
  - unfold start. erewrite bind_Ret by done. cbn [c_endpoint ep_Type]. erewrite bind_Ret by done.
    erewrite bind_Ret by done. erewrite bind_Ret; [|unfold lift_; cbn; by rewrite Etw]. by erewrite bind_Ret.
  - done.
Qed.

Lemma acceptor_started e e' cid cfg syn :
  cfg_ok cfg →
  ∃ c c' synAck, newConnection e cid cfg (Some syn) (Some true) = Ret c ∧ start e' c = Ret (inr tt, c') ∧
    c_out c' = [EvOutgoing synAck; EvConnected None] ∧ c_type c' = ConnConnected ∧
    h_PacketType (Header synAck) = st_state ∧ h_SeqNum (Header synAck) = e_rand e ∧
    h_AckNum (Header synAck) = h_SeqNum (Header syn) ∧ Eack synAck = None ∧ Body synAck = [] ∧
    cs_RecvBuf (c_state c') = Some (newReceiveBuffer (BufferSize cfg) (h_SeqNum (Header syn))) ∧
    cs_SentPackets (c_state c') = Some (fresh_sent (e_rand e ⊖ 1) cfg) ∧
    c_config c' = cfg ∧ cs_closing (c_state c') = None ∧ cs_Err (c_state c') = None ∧
    c_endpoint c' = mk_Endpoint Acceptor (h_SeqNum (Header syn)) (e_rand e) 0.
Proof.
  intros Hcfg. destruct (newConnection_Ret e cid cfg (Some syn) Hcfg) as (tw & Htw & Hw & E).
  eexists _, _, _. split; [exact E|]. split.
  { unfold start. erewrite bind_Ret by done. cbn [c_endpoint ep_Type c_state cs_connectedCh NewConnState].
    erewrite bind_Ret by (unfold statePacket; reflexivity). cbv beta zeta.
    do 3 erewrite bind_Ret by reflexivity. reflexivity. }
  done.
Qed.

(** An acknowledgement of the SYN says nothing of the packets sent. *)
Lemma onAck_fresh seq cfg delay now clk :
  cfg_ok cfg → is_u16 seq →
  sp_onAck seq None delay now clk (fresh_sent seq cfg)
  = Ret (inr (newCircularRangeInclusive seq seq, []), fresh_sent seq cfg).
Proof.
  intros Hcfg Hs.
  assert (Hsp : sp_inv now (fresh_sent seq cfg)) by (apply newSentPackets_inv; [done|by apply cfg_controller_inv|done]).
  destruct (onAck_cases now (fresh_sent seq cfg) seq None delay now clk Hsp) as [[Hlt _]|[[_ E]|[Hlt _]]];
    [unfold time_ok, MAX_RTT; lia|done| |exact E|]; simpl sp_initSeqNum in Hlt; simpl sp_packets in Hlt;
    unfold len in Hlt; simpl in Hlt; go_lia.
Qed.

(** The initiator, connected by the STATE packet. *)
Definition connect_with (seq : Z) c : connection :=
  let ep := c_endpoint c in
  with_state (st_connect (newReceiveBuffer (BufferSize (c_config c)) (seq ⊖ 1)) (newSendBuffer (BufferSize (c_config c)))
                (fresh_sent (ep_SynNum ep) (c_config c)))
    (with_out (c_out c ++ [EvConnectedClose]) (with_state (st_connectedCh (Some false)) c)).

Lemma onState_connects seq c :
  c_type c = ConnConnecting → ep_Type (c_endpoint c) = Initiator → cs_connectedCh (c_state c) = Some true →
  onState seq (ep_SynNum (c_endpoint c)) c = Ret (inr tt, connect_with seq c).
Proof.
  intros Ht Hep Hch. unfold onState. erewrite bind_Ret by done. unfold c_type in Ht. rewrite Ht, Hep, Z.eqb_refl.
  erewrite bind_Ret; [|unfold close_connected; erewrite bind_Ret by done; rewrite Hch; done]. done.
Qed.

Lemma processAck_fresh seq delay now clk c cfg :
  cfg_ok cfg → is_u16 seq → c_type c = ConnConnected → cs_SentPackets (c_state c) = Some (fresh_sent seq cfg) →
  processAck seq None delay now clk c
  = Ret (inr tt, with_unacked (tw_retain (Contains (newCircularRangeInclusive seq seq)) (c_unacked c))
                   (with_state (st_sent (fresh_sent seq cfg)) c)).
Proof.
  intros Hcfg Hs Ht Hsp. unfold processAck. erewrite bind_Ret by done. fold (c_type c). rewrite Ht.
  erewrite bind_Ret; [|unfold sent, deref; by rewrite Hsp].
  erewrite bind_Ret; [|unfold lift_; by rewrite onAck_fresh]. cbv beta iota. erewrite bind_Ret by done.
  by erewrite bind_Ret.
Qed.

Lemma retransmit_fresh seq e now c cfg :
  c_type c = ConnConnected → cs_SentPackets (c_state c) = Some (fresh_sent seq cfg) →
  retransmitLostPackets e now c = Ret (inr tt, c).
Proof.
  intros Ht Hsp. unfold retransmitLostPackets. erewrite bind_Ret by done. fold (c_type c). rewrite Ht.
  erewrite bind_Ret; [|unfold sent, deref; by rewrite Hsp]. unfold sp_HasLostPackets. simpl.
  by rewrite bt_Len_map, bt_map_New, map_size_empty.
Qed.

Lemma no_closing_checks c :
  cs_closing (c_state c) = None → (close_if_acked ;! close_if_remote ;! close_if_both) c = Ret (inr tt, c).
Proof.
  intros Hcl.
  assert (Ea : close_if_acked c = Ret (inr tt, c)).
  { unfold close_if_acked. erewrite bind_Ret by done. rewrite Hcl. by destruct (cs_stateType _). }
  assert (Er : close_if_remote c = Ret (inr tt, c)).
  { unfold close_if_remote. erewrite bind_Ret by done. rewrite Hcl. by destruct (cs_stateType _). }
  rewrite (bind_Ret _ _ _ _ _ Ea), (bind_Ret _ _ _ _ _ Er). unfold close_if_both. erewrite bind_Ret by done.
  rewrite Hcl. by destruct (cs_stateType _).
Qed.

Lemma initiator_connects e p now c :
  cfg_ok (c_config c) → is_u16 (ep_SynNum (c_endpoint c)) →
  c_type c = ConnConnecting → ep_Type (c_endpoint c) = Initiator → cs_connectedCh (c_state c) = Some true →
  cs_closing (c_state c) = None →
  h_PacketType (Header p) = st_state → h_AckNum (Header p) = ep_SynNum (c_endpoint c) → Eack p = None → Body p = [] →
  ∃ c', onPacket e p now c = Ret (inr tt, c') ∧ c_type c' = ConnConnected ∧
    c_out c' = c_out c ++ [EvConnectedClose] ∧
    cs_RecvBuf (c_state c') = Some (newReceiveBuffer (BufferSize (c_config c)) (h_SeqNum (Header p) ⊖ 1)) ∧
    cs_SentPackets (c_state c') = Some (fresh_sent (ep_SynNum (c_endpoint c)) (c_config c)) ∧
    c_config c' = c_config c ∧ cs_closing (c_state c') = None ∧ cs_Err (c_state c') = cs_Err (c_state c) ∧
    c_endpoint c' = c_endpoint c.
Proof.
  intros Hcfg Hs Ht Hep Hch Hcl Hty Hack Hek Hbody. eexists. split.
  { unfold onPacket. erewrite bind_Ret by done. set (c1 := with_peer _ _ c).
    erewrite bind_Ret; [|unfold try_, dispatch; rewrite Hty, Hack;
      change (ep_SynNum (c_endpoint c)) with (ep_SynNum (c_endpoint c1)); rewrite onState_connects by done; done].
    set (c2 := connect_with _ c1). rewrite Hty, Hack, Hek, Hbody.
    pose proof (processAck_fresh (ep_SynNum (c_endpoint c)) (i64 (h_TimestampDiff (Header p) * Microsecond)) now (e_now e) c2
      (c_config c) Hcfg Hs eq_refl eq_refl) as E.
    erewrite bind_Ret; [|erewrite bind_Ret; [|unfold try_; by rewrite E]; done].
    erewrite bind_Ret; [|by eapply retransmit_fresh].
    erewrite bind_Ret; [|unfold reply; by rewrite Hty]. cbv iota. erewrite bind_Ret by done.
    erewrite bind_Ret by done. by rewrite no_closing_checks. }
  split_and!; done.
Qed.
End handshake.

(** C6.  The handshake.  An initiator starts and sends a SYN; the acceptor made
    for it starts and answers with a STATE packet; the initiator handles that.
    Then both are connected, the initiator's caller is told so, and each side
    will send its first packet with the sequence number that the other side's
    receive buffer expects next. *)
Theorem handshake_agreement `{BTreeLaws} `{FloatConv} (e1 e2 e3 : env) (cid1 cid2 : ConnectionId)
    (cfg1 cfg2 : ConnectionConfig) :
  cfg_ok cfg1 → cfg_ok cfg2 → is_u16 (e_rand e1) → is_u16 (e_rand e2) →
  ∃ i0 i1 i2 a0 a1 syn synAck rbi spi rba spa,
    newConnection e1 cid1 cfg1 None (Some true) = Ret i0 ∧ start e1 i0 = Ret (inr tt, i1) ∧
    c_out i1 = [EvOutgoing syn] ∧
    newConnection e2 cid2 cfg2 (Some syn) (Some true) = Ret a0 ∧ start e2 a0 = Ret (inr tt, a1) ∧
    c_out a1 = [EvOutgoing synAck; EvConnected None] ∧
    onPacket e3 synAck (e_now e3) i1 = Ret (inr tt, i2) ∧
    c_type i2 = ConnConnected ∧ c_type a1 = ConnConnected ∧ c_out i2 = c_out i1 ++ [EvConnectedClose] ∧
    cs_RecvBuf (c_state i2) = Some rbi ∧ cs_SentPackets (c_state i2) = Some spi ∧
    cs_RecvBuf (c_state a1) = Some rba ∧ cs_SentPackets (c_state a1) = Some spa ∧
    sp_NextSeqNum spi = rb_AckNum rba ⊕ 1 ∧ sp_NextSeqNum spa = rb_AckNum rbi ⊕ 1.
Proof.
  intros Hc1 Hc2 Hr1 Hr2.
  destruct (initiator_started e1 cid1 cfg1 Hc1 Hr1) as (i0 & i1 & En1 & Es1 & Ho1 & Ht1 & Hep & Hcf & Hch & Hcl & _).
  destruct (acceptor_started e2 e2 cid2 cfg2 (syn_of e1 cid1 cfg1 (e_rand e1)) Hc2)
    as (a0 & a1 & sa & En2 & Es2 & Ho2 & Ht2 & Hty & Hseq & Hack & Hek & Hbody & Hrb & Hsp & _).
  destruct (initiator_connects e3 sa (e_now e3) i1) as (i2 & E & Ht & Ho & Hrb' & Hsp' & _);
    try done; try (rewrite ?Hep, ?Hcf; done).
  eexists i0, i1, i2, a0, a1, _, sa, _, _, _, _. split_and!; try eassumption.
  - rewrite Hep. unfold sp_NextSeqNum, rb_AckNum, len. simpl. go_lia.
  - rewrite Hseq. unfold sp_NextSeqNum, rb_AckNum, len. simpl. go_lia.
Qed.

(** The peer's timestamp difference.  The code subtracts the header's
    timestamp difference (a 32-bit number of microseconds) from the clock.  On
    any clock later than 2^32 microseconds plus the idle timeout after the
    epoch (January 1970), the result exceeds the idle timeout and is replaced by
    one second: every packet that is sent reports a delay of one second,
    whatever the real delay is. *)
Theorem peerTsDiff_constant (e : env) (config : ConnectionConfig) (timestampDiff : Z) :
  is_u32 timestampDiff →
  2 ^ 32 * 1000 + MaxIdleTimeout config + 1000 ≤ e_now e < 2 ^ 63 → 0 ≤ MaxIdleTimeout config →
  capped_ts_diff e config timestampDiff = Second ∧ u32 (Microseconds Second) = 1000000.
Proof.
  intros Hu Hnow Hm. split; [|reflexivity]. unfold capped_ts_diff, UnixMicro, Microsecond, Second in *.
  assert (Hq : 2 ^ 32 + Z.quot (MaxIdleTimeout config) 1000 + 1 ≤ Z.quot (e_now e) 1000 ≤ 2 ^ 63 / 1000)
    by (Z.to_euclidean_division_equations; lia).
  unfold is_u32 in Hu. rewrite (i64_id (_ - _)) by (unfold is_i64; Z.to_euclidean_division_equations; lia).
  rewrite i64_id by (unfold is_i64; Z.to_euclidean_division_equations; lia).
  case_bool; [done|]. Z.to_euclidean_division_equations; lia.
Qed.

(** ** Witnesses *)

Lemma handshake_agreement_witness :
  ∃ i1 a1 synAck i2, c_out a1 = [EvOutgoing synAck; EvConnected None] ∧
    onPacket (demo_env 3) synAck 3 i1 = Ret (inr tt, i2) ∧ c_type i2 = ConnConnected.
Proof.
  destruct (handshake_agreement (demo_env 1) (demo_env 2) (demo_env 3) demo_cid demo_cid_b
    demo_config NewConnectionConfig) as (i0 & i1 & i2 & a0 & a1 & syn & sa & ? & ? & ? & ? & _ & _ & _ & _ & _ & Ho & E & Ht & _).
  - apply demo_cfg_ok.
  - apply default_cfg_ok.
  - vm_compute. split; congruence.
  - vm_compute. split; congruence.
  - exists i1, a1, sa, i2. split; [exact Ho|]. split; [exact E|exact Ht].
Defined.

Lemma peerTsDiff_constant_witness :
  capped_ts_diff (mk_env (1700000000 * Second) 0) NewConnectionConfig 25000 = Second.
Proof.
  apply (peerTsDiff_constant (mk_env (1700000000 * Second) 0) NewConnectionConfig 25000).
  - vm_compute. split; congruence.
  - vm_compute. split; congruence.
  - vm_compute. congruence.
Defined.
