(* ===== verification/Socket.v ===== *)
(** * The socket (utp_socket.go, event.go)

    The socket routes datagrams to the connections filed under the keys of
    Cid.v, keeps the SYNs that nobody has accepted yet ([s_incoming]) and the
    accepts whose SYN has not arrived ([s_awaiting]), each with a timing wheel
    that expires its entries, and forwards the events of the connections to the
    network.

    A handler is a [method] on [UtpSocket].  The channels to the streams are in a
    store ([s_chans]), since two keys could name the same channel.  The maps are
    guarded by mutexes and each handler is modelled as one step; the expiry
    function of a wheel runs under the lock of the wheel, within its tick.  The
    goroutine that waits for the outcome of an accepted connection is
    [awaitConnected]; starting a stream is recorded in the trace. *)

From Stdlib Require Import ZArith Lia.
From stdpp Require Import base list gmap fin_maps strings.
From S2P Require Import Prelude.
From S2P Require Import Hoare.
From S2P Require Import Packet.
From S2P Require Import BTree.
From S2P Require Import TimeWheel.
From S2P Require Import SyncMap.
From S2P Require Import Utils.
From S2P Require Import Float64.
From S2P Require Import Congestion.
From S2P Require Import Cid.
From S2P Require Import Conn.

#[local] Open Scope Z_scope.

Definition AWAITING_CONNECTION_TIMEOUT : Z := Second * 20.

(** The capacity of the channel to a stream. *)
Definition STREAM_EVENTS : Z := 1000.

Inductive streamEvent := streamIncoming (p : packet) | streamShutdown.

(** Where a packet goes: a connection, or a peer without one. *)
Inductive target := TCid (cid : ConnectionId) | TPeer (peer : string).
Inductive socketEvent :=
  | outgoing (p : packet) (dst : target)
  | socketShutdown (dst : target).

Definition target_peer (t : target) : string :=
  match t with TCid cid => cid_Peer cid | TPeer peer => peer end.
Definition target_Hash (t : target) : string :=
  match t with TCid cid => cid_hash cid | TPeer peer => peer end.

Inductive socket_error :=
  | NoIncomingConn
  | StreamCreationFailed
  | CidUnavailable
  | ConnectionTimedOut
  | ConnectionFailed
  | ConnectionAborted
  | ErrConnected (e : error)
  | CtxDone.

(** A stream is named by its channel. *)
Record StreamResult := mk_StreamResult { sr_stream : option Z; sr_err : option socket_error }.

Record Accept := mk_Accept {
  acc_stream : Z;
  acc_config : ConnectionConfig;
  acc_cid : option ConnectionId;
  acc_hasCid : bool;
}.

Record IncomingPacket := mk_IncomingPacket { ip_pkt : packet; ip_cid : ConnectionId }.

(** What the socket does to the outside: datagrams, new streams and the results
    of accepts. *)
Inductive sock_event :=
  | SvDatagram (payload : list Z) (peer : string)
  | SvNewStream (ch : Z) (cid : ConnectionId) (config : ConnectionConfig) (syn : option packet)
                (accept : option Accept)
  | SvAccept (ch : Z) (r : StreamResult).

Record UtpSocket := mk_UtpSocket {
  s_conns : gmap string Z;
  s_chans : gmap Z (list streamEvent);
  s_next : Z;
  s_awaiting : syncMap string Accept;
  s_awaitingExp : timeWheel string Accept;
  s_incoming : syncMap string IncomingPacket;
  s_incomingExp : timeWheel string IncomingPacket;
  s_socketEvents : list socketEvent;
  s_cancelled : bool;
  s_out : list sock_event;
}.

Definition WithSocket : outcome UtpSocket :=
  aw ← newTimeWheel (2 * Second) 20;
  inc ← newTimeWheel (2 * Second) 20;
  mret (mk_UtpSocket ∅ ∅ 0 newSyncMap aw newSyncMap inc [] false []).

Definition with_conns (m : gmap string Z) (s : UtpSocket) : UtpSocket :=
  mk_UtpSocket m (s_chans s) (s_next s) (s_awaiting s) (s_awaitingExp s) (s_incoming s) (s_incomingExp s)
    (s_socketEvents s) (s_cancelled s) (s_out s).
Definition with_chans (m : gmap Z (list streamEvent)) (n : Z) (s : UtpSocket) : UtpSocket :=
  mk_UtpSocket (s_conns s) m n (s_awaiting s) (s_awaitingExp s) (s_incoming s) (s_incomingExp s)
    (s_socketEvents s) (s_cancelled s) (s_out s).
Definition with_awaiting (m : syncMap string Accept) (tw : timeWheel string Accept) (s : UtpSocket) : UtpSocket :=
  mk_UtpSocket (s_conns s) (s_chans s) (s_next s) m tw (s_incoming s) (s_incomingExp s)
    (s_socketEvents s) (s_cancelled s) (s_out s).
Definition with_incoming (m : syncMap string IncomingPacket) (tw : timeWheel string IncomingPacket)
    (s : UtpSocket) : UtpSocket :=
  mk_UtpSocket (s_conns s) (s_chans s) (s_next s) (s_awaiting s) (s_awaitingExp s) m tw
    (s_socketEvents s) (s_cancelled s) (s_out s).
Definition with_events (q : list socketEvent) (s : UtpSocket) : UtpSocket :=
  mk_UtpSocket (s_conns s) (s_chans s) (s_next s) (s_awaiting s) (s_awaitingExp s) (s_incoming s)
    (s_incomingExp s) q (s_cancelled s) (s_out s).
Definition with_cancelled (s : UtpSocket) : UtpSocket :=
  mk_UtpSocket (s_conns s) (s_chans s) (s_next s) (s_awaiting s) (s_awaitingExp s) (s_incoming s)
    (s_incomingExp s) (s_socketEvents s) true (s_out s).
Definition with_sout (o : list sock_event) (s : UtpSocket) : UtpSocket :=
  mk_UtpSocket (s_conns s) (s_chans s) (s_next s) (s_awaiting s) (s_awaitingExp s) (s_incoming s)
    (s_incomingExp s) (s_socketEvents s) (s_cancelled s) o.

Abbreviation SM := (method UtpSocket).

Definition sock_emit (ev : sock_event) : SM unit := modify_ (λ s, with_sout (s_out s ++ [ev]) s).
Definition push_event (ev : socketEvent) : SM unit := modify_ (λ s, with_events (s_socketEvents s ++ [ev]) s).

(** ** The tables *)

Definition getConnStream (key : string) : SM (option Z) := s ←! get_; done_ (s_conns s !! key).
Definition putConnStream (key : string) (ch : Z) : SM unit :=
  modify_ (λ s, with_conns (<[key := ch]> (s_conns s)) s).
Definition removeConnStream (key : string) : SM unit := modify_ (λ s, with_conns (delete key (s_conns s)) s).
Definition NumConnections (s : UtpSocket) : Z := Z.of_nat (size (s_conns s)).

(** [make(chan *streamEvent, 1000)] *)
Definition make_chan : SM Z :=
  s ←! get_;
  modify_ (with_chans (<[s_next s := []]> (s_chans s)) (s_next s + 1)) ;!
  done_ (s_next s).

Definition getAwaiting (key : string) : SM (option Accept) := s ←! get_; done_ (sm_get key (s_awaiting s)).
Definition putAwaiting (key : string) (acc : Accept) : SM unit :=
  s ←! get_;
  tw ←! lift_ (tw_put key acc AWAITING_CONNECTION_TIMEOUT (s_awaitingExp s));
  modify_ (with_awaiting (sm_put key acc (s_awaiting s)) tw).
Definition removeAwaiting (key : string) : SM unit :=
  modify_ (λ s, with_awaiting (sm_remove key (s_awaiting s)) (tw_remove key (s_awaitingExp s)) s).

Definition putIncomingConn (key : string) (inc : IncomingPacket) : SM unit :=
  s ←! get_;
  tw ←! lift_ (tw_put key inc AWAITING_CONNECTION_TIMEOUT (s_incomingExp s));
  modify_ (with_incoming (sm_put key inc (s_incoming s)) tw).
Definition removeIncomingConn (key : string) : SM (option IncomingPacket) :=
  s ←! get_;
  match sm_get key (s_incoming s) with
  | Some inc =>
      modify_ (with_incoming (sm_remove key (s_incoming s)) (tw_remove key (s_incomingExp s))) ;!
      done_ (Some inc)
  | None => done_ None
  end.

(** [Range] stops at the first entry, which it leaves in the two variables. *)
Definition nextIncomingConn : SM (option IncomingPacket) :=
  s ←! get_;
  let '(cidHash, incomingAccept) :=
    sm_Range (λ key accept _, ((key, Some accept), false)) (s_incoming s) (EmptyString, None) in
  match incomingAccept with
  | Some _ => removeIncomingConn cidHash ;! done_ incomingAccept
  | None => done_ None
  end.

(** ** Ids *)

Section socket.
Context `{Hasher}.

Inductive IdType := IdTypeRecvId | IdTypeSendIdWeInitiated | IdTypeSendIdPeerInitiated.
Definition cidTypes : list IdType := [IdTypeSendIdPeerInitiated; IdTypeSendIdWeInitiated; IdTypeRecvId].

Definition CidFromPacket (p : packet) (src : string) (idType : IdType) : ConnectionId :=
  let id := h_ConnectionId (Header p) in
  let '(send, recv) :=
    match idType with
    | IdTypeRecvId =>
        match h_PacketType (Header p) with
        | st_syn => (id, id ⊕ 1)
        | st_state | st_data | st_fin | st_reset => (id ⊖ 1, id)
        end
    | IdTypeSendIdWeInitiated => (id ⊕ 1, id)
    | IdTypeSendIdPeerInitiated => (id, id ⊖ 1)
    end in
  NewConnectionId src recv send.

(** [draws] are the results of [RandomUint16]; the loop tries the next one while
    the id is taken. *)
Fixpoint GenerateCid (peer : string) (isInitiator : bool) (eventCh : option Z) (draws : list Z)
    : SM ConnectionId :=
  match draws with
  | [] => λ _, NoFuel
  | recv :: draws =>
      let send := if isInitiator then recv ⊕ 1 else recv ⊖ 1 in
      let cid := mk_ConnectionId send recv peer (genHash send recv peer) in
      ex ←! getConnStream (cid_hash cid);
      match ex with
      | None =>
          match eventCh with Some ch => putConnStream (cid_hash cid) ch | None => done_ tt end ;!
          done_ cid
      | Some _ => GenerateCid peer isInitiator eventCh draws
      end
  end.

Definition Cid (peer : string) (isInitiator : bool) (draws : list Z) : SM ConnectionId :=
  GenerateCid peer isInitiator None draws.

(** ** Incoming datagrams *)

(** [select { case connStream <- ...: default: }] *)
Definition offer (ch : Z) (ev : streamEvent) : SM unit :=
  s ←! get_;
  match s_chans s !! ch with
  | Some q => if len q <? STREAM_EVENTS then modify_ (with_chans (<[ch := q ++ [ev]]> (s_chans s)) (s_next s))
              else done_ tt
  | None => done_ tt
  end.

Definition getConnStreamWithCids (cid : ConnectionId) : SM (option Z) :=
  s ←! get_; done_ (s_conns s !! cid_hash cid).

(** The loop over [cidTypes]: whether a connection was found. *)
Fixpoint route (p : packet) (src : string) (types : list IdType) : SM bool :=
  match types with
  | [] => done_ false
  | idType :: types =>
      connStream ←! getConnStreamWithCids (CidFromPacket p src idType);
      match connStream with
      | Some ch => offer ch (streamIncoming p) ;! done_ true
      | None => route p src types
      end
  end.

(** [awaitConnected] dereferences the id of the accept for its log line, before
    it waits for [(err, ok)] on the channel of the connection. *)
Definition awaitConnected (ch : Z) (accept : Accept) (connected : option error * bool) : outcome StreamResult :=
  match acc_cid accept with
  | None => Panic NilDereference
  | Some _ =>
      match connected with
      | (None, true) => mret (mk_StreamResult (Some ch) None)
      | (Some _, _) => mret (mk_StreamResult None (Some ConnectionFailed))
      | (None, false) => mret (mk_StreamResult None (Some ConnectionAborted))
      end
  end.

Definition handleIncomingBuf (e : env) (peer : string) (payload : list Z) : SM unit :=
  r ←! lift_ (DecodePacket payload);
  match r with
  | inl _ => done_ tt
  | inr p =>
      found ←! route p peer cidTypes;
      if found : bool then done_ tt
      else if negb (bool_decide (h_PacketType (Header p) = st_syn)) then
        if negb (bool_decide (h_PacketType (Header p) = st_reset)) then
          push_event (outgoing (Build (NewPacketBuilder st_reset (h_ConnectionId (Header p))
                                  (u32 (UnixMicro (e_now e))) 100000 (e_rand e))) (TPeer peer))
        else done_ tt
      else
        let cid := CidFromPacket p peer IdTypeRecvId in
        acc ←! getAwaiting (cid_hash cid);
        match acc with
        | Some accept =>
            removeAwaiting (cid_hash cid) ;!
            newConnStream ←! make_chan;
            putConnStream (cid_hash cid) newConnStream ;!
            sock_emit (SvNewStream newConnStream cid (acc_config accept) (Some p) (Some accept))
        | None => putIncomingConn (cid_hash cid) (mk_IncomingPacket p cid)
        end
  end.

(** ** Accepts *)

Definition selectAcceptHelper (cid : ConnectionId) (syn : packet) (accept : Accept) : SM unit :=
  ex ←! getConnStream (cid_hash cid);
  match ex with
  | Some _ => sock_emit (SvAccept (acc_stream accept) (mk_StreamResult None (Some CidUnavailable)))
  | None =>
      streamEvents ←! make_chan;
      putConnStream (cid_hash cid) streamEvents ;!
      sock_emit (SvNewStream streamEvents cid (acc_config accept) (Some syn) (Some accept))
  end.

Definition handleNewAcceptWithCidEvent (accept : Accept) : SM unit :=
  match acc_cid accept with
  | None => panic_ NilDereference
  | Some cid =>
      inc ←! removeIncomingConn (cid_hash cid);
      match inc with
      | Some inc => selectAcceptHelper cid (ip_pkt inc) accept
      | None => putAwaiting (cid_hash cid) accept
      end
  end.

Definition handleNewAcceptEvent (accept : Accept) : SM unit :=
  inc ←! nextIncomingConn;
  match inc with
  | Some inc => selectAcceptHelper (ip_cid inc) (ip_pkt inc) accept
  | None => sock_emit (SvAccept (acc_stream accept) (mk_StreamResult None (Some NoIncomingConn)))
  end.

(** [Accept] and [AcceptWithCid] queue a request ([queued] is false when the
    socket's context ends first) and wait for its result or for the context. *)
Inductive accept_wait := AwResult (res : option StreamResult) | AwCtxDone.
Definition accept_return (queued : bool) (wait : accept_wait) : option Z * option socket_error :=
  if queued then
    match wait with
    | AwResult (Some streamRes) => (sr_stream streamRes, None)
    | AwResult None => (None, Some StreamCreationFailed)
    | AwCtxDone => (None, Some CtxDone)
    end
  else (None, Some CtxDone).

Definition sock_Accept (ch : Z) (config : ConnectionConfig) (queued : bool) (wait : accept_wait)
    : Accept * (option Z * option socket_error) :=
  (mk_Accept ch config None false, accept_return queued wait).
Definition sock_AcceptWithCid (ch : Z) (cid : ConnectionId) (config : ConnectionConfig) (queued : bool)
    (wait : accept_wait) : Accept * (option Z * option socket_error) :=
  (mk_Accept ch config (Some cid) true, accept_return queued wait).

(** ** Connecting *)

(** [connected] is the [(err, ok)] received from the channel of the connection,
    [None] when the context ends first. *)
Definition Connect (peer : string) (config : ConnectionConfig) (draws : list Z)
    (connected : option (option error * bool)) : SM (option Z * option socket_error) :=
  streamEvents ←! make_chan;
  cid ←! GenerateCid peer true (Some streamEvents) draws;
  putConnStream (cid_hash cid) streamEvents ;!
  sock_emit (SvNewStream streamEvents cid config None None) ;!
  done_ match connected with
        | Some (err, ok) =>
            match err, ok with
            | None, true => (Some streamEvents, None)
            | Some err, _ => (None, Some (ErrConnected err))
            | None, false => (None, Some ConnectionTimedOut)
            end
        | None => (None, Some CtxDone)
        end.

Definition ConnectWithCid (cid : ConnectionId) (config : ConnectionConfig) (connected : option error * bool)
    : SM (option Z * option socket_error) :=
  ex ←! getConnStream (cid_hash cid);
  match ex with
  | Some _ => done_ (None, Some CidUnavailable)
  | None =>
      streamEvents ←! make_chan;
      putConnStream (cid_hash cid) streamEvents ;!
      sock_emit (SvNewStream streamEvents cid config None None) ;!
      done_ match connected.1 with
            | None => (Some streamEvents, None)
            | Some _ => (None, Some ConnectionTimedOut)
            end
  end.

(** The first receive from the channel of the connection attempt, over what the
    connection did to it: a sent value, or a close. *)
Fixpoint recv_connected (evs : list conn_event) : option (option error * bool) :=
  match evs with
  | [] => None
  | EvConnected err :: _ => Some (err, true)
  | EvConnectedClose :: _ => Some (None, false)
  | _ :: evs => recv_connected evs
  end.

(** ** Outgoing events *)

(** What a connection puts on the queue. *)
Definition conn_events (cid : ConnectionId) (evs : list conn_event) : list socketEvent :=
  omap (λ ev, match ev with
              | EvOutgoing p => Some (outgoing p (TCid cid))
              | EvShutdown => Some (socketShutdown (TCid cid))
              | _ => None
              end) evs.

(** A turn of [writeLoop]. *)
Definition writeLoop_step : SM unit :=
  s ←! get_;
  match s_socketEvents s with
  | [] => done_ tt
  | ev :: q =>
      modify_ (with_events q) ;!
      match ev with
      | outgoing p dst => sock_emit (SvDatagram (Encode p) (target_peer dst))
      | socketShutdown dst => removeConnStream (target_Hash dst)
      end
  end.

(** ** Expiry and closing *)

(** A tick of a wheel; the expiry function removes the key from the map. *)
Definition tick_awaiting : SM unit :=
  s ←! get_;
  '(expired, tw) ←! lift_ (tw_tick (s_awaitingExp s));
  modify_ (with_awaiting (foldr sm_remove (s_awaiting s) (expired.*1)) tw).
Definition tick_incoming : SM unit :=
  s ←! get_;
  '(expired, tw) ←! lift_ (tw_tick (s_incomingExp s));
  modify_ (with_incoming (foldr sm_remove (s_incoming s) (expired.*1)) tw).

(** [ch <- ev] *)
Definition send_chan (ch : Z) (ev : streamEvent) : SM unit :=
  s ←! get_;
  match s_chans s !! ch with
  | Some q => modify_ (with_chans (<[ch := q ++ [ev]]> (s_chans s)) (s_next s))
  | None => done_ tt
  end.

Definition sendShutdownEventToConns : SM unit :=
  s ←! get_;
  each_ (λ kc, send_chan kc.2 streamShutdown) (map_to_list (s_conns s)).

Definition sock_Close : SM unit :=
  modify_ with_cancelled ;!
  sendShutdownEventToConns ;!
  s ←! get_;
  aw ←! lift_ (tw_stop (s_awaitingExp s));
  modify_ (with_awaiting (s_awaiting s) aw) ;!
  inc ←! lift_ (tw_stop (s_incomingExp s));
  modify_ (with_incoming (s_incoming s) inc).

(** ** Steps *)

Inductive sock_input :=
  | SiDatagram (peer : string) (payload : list Z)
  | SiAcceptWithCid (accept : Accept)
  | SiAccept (accept : Accept)
  | SiConnect (peer : string) (config : ConnectionConfig) (draws : list Z) (r : option (option error * bool))
  | SiConnectWithCid (cid : ConnectionId) (config : ConnectionConfig) (r : option error * bool)
  | SiConnEvents (cid : ConnectionId) (evs : list conn_event)
  | SiWrite
  | SiTickAwaiting
  | SiTickIncoming.

Definition sock_step (e : env) (i : sock_input) : SM unit :=
  match i with
  | SiDatagram peer payload => handleIncomingBuf e peer payload
  | SiAcceptWithCid accept => handleNewAcceptWithCidEvent accept
  | SiAccept accept => handleNewAcceptEvent accept
  | SiConnect peer config draws r => Connect peer config draws r ;! done_ tt
  | SiConnectWithCid cid config r => ConnectWithCid cid config r ;! done_ tt
  | SiConnEvents cid evs => modify_ (λ s, with_events (s_socketEvents s ++ conn_events cid evs) s)
  | SiWrite => writeLoop_step
  | SiTickAwaiting => tick_awaiting
  | SiTickIncoming => tick_incoming
  end.
End socket.
