(* ===== verification/SocketTables.v ===== *)
(** * The tables of the socket

    [sock_inv]: no id waits on both sides (an accept and a SYN), every waiting
    entry is in its timing wheel and so will expire, a waiting SYN is filed under
    its own id, every connection has a channel of its own, and the channels stay
    within their capacity.  Every step of the socket keeps it and returns. *)

From Stdlib Require Import ZArith Lia.
From stdpp Require Import base list gmap fin_maps strings.
From S2P Require Import Prelude.
From S2P Require Import Hoare.
From S2P Require Import Packet.
From S2P Require Import TimeWheel.
From S2P Require Import SyncMap.
From S2P Require Import Congestion.
From S2P Require Import Cid.
From S2P Require Import Conn.
From S2P Require Import Socket.

#[local] Open Scope Z_scope.

(** ** Maps with an expiry wheel *)

Section tracked.
Context {P : Type}.
Implicit Types (m : gmap string P) (tw : timeWheel string P).

Definition in_wheel (k : string) tw : Prop := ∃ slot, slot ∈ tw_slots tw ∧ is_Some (slot !! k).

Definition tracked m tw : Prop := tw_inv tw ∧ ∀ k, is_Some (m !! k) → in_wheel k tw.

Lemma in_wheel_insert k k' (v : P) (slots : list (gmap string P)) (i : nat) slot :
  slots !! i = Some slot → (k = k' ∨ ∃ s, s ∈ slots ∧ is_Some (s !! k)) →
  ∃ s, s ∈ <[i := <[k' := v]> slot]> slots ∧ is_Some (s !! k).
Proof.
  intros Hi Hk. pose proof (lookup_lt_Some _ _ _ Hi) as Hlt.
  assert (Hnew : <[k' := v]> slot ∈ <[i := <[k' := v]> slot]> slots).
  { apply list_elem_of_lookup. exists i. by rewrite list_lookup_insert_eq. }
  destruct Hk as [->|(s & Hs & Hk)].
  - exists (<[k' := v]> slot). split; [done|]. by rewrite lookup_insert_eq.
  - apply list_elem_of_lookup in Hs as [j Hj]. destruct (decide (i = j)) as [<-|Hne].
    + assert (s = slot) as -> by congruence. exists (<[k' := v]> slot). split; [done|].
      rewrite lookup_insert. case_decide; [done|exact Hk].
    + exists s. split; [|done]. apply list_elem_of_lookup. exists j. by rewrite list_lookup_insert_ne.
Qed.

Lemma tracked_put k (v : P) d m tw :
  tracked m tw → 0 ≤ d → ∃ tw', tw_put k v d tw = Ret tw' ∧ tracked (<[k := v]> m) tw'.
Proof.
  intros [Hi Ht] Hd. destruct (tw_put_spec k v d tw Hi Hd) as (slot & Hslot & E).
  eexists. split; [exact E|]. split; [by eapply tw_put_inv|]. intros k' Hk'. apply in_wheel_insert; [done|].
  destruct (decide (k' = k)) as [->|Hne]; [by left|right]. apply Ht. by rewrite lookup_insert_ne in Hk'.
Qed.

Lemma tracked_remove k m tw : tracked m tw → tracked (delete k m) (tw_remove k tw).
Proof.
  intros [Hi Ht]. split; [by apply tw_remove_inv|]. intros k' [v [Hne Hk']%lookup_delete_Some].
  destruct (Ht k' ltac:(by eexists)) as (slot & Hs & Hk). clear Hi Ht Hk'. unfold in_wheel. simpl.
  induction (tw_slots tw) as [|s l IH]; [by apply not_elem_of_nil in Hs|]. simpl.
  destruct (s !! k) eqn:E; apply elem_of_cons in Hs as [->|Hs].
  - exists (delete k s). split; [left|]. by rewrite lookup_delete_ne.
  - exists slot. split; [by right|done].
  - exists s. split; [left|done].
  - destruct (IH Hs) as (s' & ? & ?). exists s'. split; [by right|done].
Qed.

Lemma foldr_delete_lookup (ks : list string) m k :
  foldr sm_remove m ks !! k = if decide (k ∈ ks) then None else m !! k.
Proof.
  induction ks as [|k' ks IH]; cbn [foldr]; [by rewrite decide_False by apply not_elem_of_nil|].
  unfold sm_remove at 1. rewrite lookup_delete, IH. repeat case_decide; set_solver.
Qed.

Lemma tracked_tick m tw :
  tracked m tw → ∃ l tw', tw_tick tw = Ret (l, tw') ∧ tracked (foldr sm_remove m l.*1) tw'.
Proof.
  intros [Hi Ht]. destruct (tw_tick_spec tw Hi) as (slot & tw' & Hslot & E & Hi' & Hs' & _).
  eexists _, tw'. split; [exact E|]. split; [done|]. intros k Hk. rewrite foldr_delete_lookup in Hk.
  case_decide as Hin; [by destruct Hk|]. destruct (Ht k Hk) as (s & Hs & Hks). exists s. split; [|done].
  rewrite Hs'. apply list_elem_of_lookup in Hs as [j Hj]. apply list_elem_of_lookup. exists j.
  rewrite list_lookup_insert_ne; [done|]. intros <-. assert (s = slot) as -> by congruence. apply Hin.
  destruct Hks as [v Hv]. apply list_elem_of_fmap. exists (k, v). split; [done|]. by apply elem_of_map_to_list.
Qed.
End tracked.

(** ** Invariant *)

Section tables.
Context `{Hasher}.
Implicit Types s : UtpSocket.

Record sock_inv s : Prop := {
  so_disjoint k : is_Some (s_awaiting s !! k) → s_incoming s !! k = None;
  so_awaiting : tracked (s_awaiting s) (s_awaitingExp s);
  so_incoming : tracked (s_incoming s) (s_incomingExp s);
  so_syn k inc : s_incoming s !! k = Some inc →
    h_PacketType (Header (ip_pkt inc)) = st_syn ∧ header_wf (Header (ip_pkt inc)) ∧
    ip_cid inc = CidFromPacket (ip_pkt inc) (cid_Peer (ip_cid inc)) IdTypeRecvId ∧ cid_hash (ip_cid inc) = k;
  so_chan k ch : s_conns s !! k = Some ch → ∃ q, s_chans s !! ch = Some q;
  so_own k k' ch : s_conns s !! k = Some ch → s_conns s !! k' = Some ch → k = k';
  so_full ch q : s_chans s !! ch = Some q → ch < s_next s ∧ len q ≤ STREAM_EVENTS;
}.

Lemma WithSocket_inv : ∃ s, WithSocket = Ret s ∧ sock_inv s.
Proof.
  assert (Hw : ∀ P, ∃ tw : timeWheel string P, newTimeWheel (2 * Second) 20 = Ret tw ∧ tw_inv tw).
  { intros P. destruct (newTimeWheel_inv (K := string) (P := P) (2 * Second) 20) as (tw & E & Hi & _); [done..|by vm_compute|].
    eauto. }
  destruct (Hw Accept) as (aw & Ea & Ha), (Hw IncomingPacket) as (inc & Ei & Hinc).
  unfold WithSocket. rewrite Ea, Ei. eexists. split; [done|].
  split; unfold newSyncMap; simpl; try (intros *; rewrite lookup_empty; done); (split; [done|]); intros k; rewrite lookup_empty; by intros [].
Qed.

(** The fields that a step may change without touching the invariant. *)
Lemma sock_inv_events s q : sock_inv s → sock_inv (with_events q s).
Proof. by intros []. Qed.
Lemma sock_inv_out s o : sock_inv s → sock_inv (with_sout o s).
Proof. by intros []. Qed.
Lemma sock_inv_cancelled s : sock_inv s → sock_inv (with_cancelled s).
Proof. by intros []. Qed.
#[local] Hint Resolve sock_inv_events sock_inv_out sock_inv_cancelled : core.

Lemma sock_emit_inv ev s : sock_inv s → total (sock_emit ev) s (λ _ s', sock_inv s').
Proof. intros Hs. apply total_modify. by auto. Qed.

(** A new channel, filed under a free key. *)
Definition registered (k : string) s s' : Prop :=
  sock_inv s' ∧ s_conns s' = <[k := s_next s]> (s_conns s) ∧ s_out s' = s_out s ∧
  s_awaiting s' = s_awaiting s ∧ s_incoming s' = s_incoming s ∧ s_socketEvents s' = s_socketEvents s.

Lemma make_chan_total s :
  sock_inv s →
  let s' := with_chans (<[s_next s := []]> (s_chans s)) (s_next s + 1) s in
  make_chan s = Ret (inr (s_next s), s') ∧ sock_inv s'.
Proof.
  intros Hs. split; [done|]. destruct Hs. split; simpl; try done.
  - intros k ch Hk. destruct (so_chan0 k ch Hk) as [q Hq]. rewrite lookup_insert. case_decide; eauto.
  - intros ch q [[<- <-]|[Hne Hq]]%lookup_insert_Some; [split; [lia|done]|].
    destruct (so_full0 ch q Hq). split; [lia|done].
Qed.

Lemma register k s :
  sock_inv s → s_conns s !! k = None →
  let s1 := with_chans (<[s_next s := []]> (s_chans s)) (s_next s + 1) s in
  registered k s (with_conns (<[k := s_next s]> (s_conns s)) s1).
Proof.
  intros Hs Hk. split; [|done]. destruct (make_chan_total s Hs) as [_ [?? ? ? Hc Ho ?]].
  assert (Hfree : ∀ k', s_conns s !! k' = Some (s_next s) → False).
  { intros k' Hk'. destruct (so_chan s Hs k' _ Hk') as [q Hq]. apply (so_full s Hs) in Hq as [? _]. lia. }
  split; simpl in *; try done.
  - intros k' ch [[<- <-]|[Hne Hk']]%lookup_insert_Some; [exists []; by rewrite lookup_insert_eq|by eapply Hc].
  - intros k1 k2 ch [[<- <-]|[Hn1 H1]]%lookup_insert_Some [[<- E]|[Hn2 H2]]%lookup_insert_Some; try done.
    + by destruct (Hfree k2).
    + rewrite <- E in H1. by destruct (Hfree k1).
    + by eapply Ho.
Qed.

Lemma register_total k s :
  sock_inv s → s_conns s !! k = None →
  ∀ {B} (f : Z → SM B) Q,
  (∀ s', registered k s s' → total (f (s_next s)) s' Q) →
  total (ch ←! make_chan; putConnStream k ch ;! f ch) s Q.
Proof.
  intros Hs Hk B f Q Hf. apply total_bind. exists (s_next s). eexists. split; [apply (make_chan_total s Hs)|].
  apply total_bind, total_modify. apply Hf. exact (register k s Hs Hk).
Qed.

(** ** Handlers *)

Lemma offer_total ch ev s : sock_inv s → total (offer ch ev) s (λ _ s', sock_inv s').
Proof.
  intros Hs. unfold offer. apply total_get. destruct (s_chans s !! ch) as [q|] eqn:Hq; [|by apply total_done].
  case_bool; [|by apply total_done]. apply total_modify. pose proof (so_full s Hs ch q Hq) as [Hlt _].
  destruct Hs. split; simpl; try done.
  - intros k ch' Hk. rewrite lookup_insert. case_decide; eauto.
  - intros ch' q' [[<- <-]|[Hne Hq']]%lookup_insert_Some; [|by eapply so_full0].
    split; [done|]. rewrite len_app, len_cons, len_nil. lia.
Qed.

(** The key that a packet has under one of the three readings of its id. *)
Definition key_of (p : packet) (src : string) (t : IdType) : string := cid_hash (CidFromPacket p src t).

Lemma CidFromPacket_Peer p src t : cid_Peer (CidFromPacket p src t) = src.
Proof. unfold CidFromPacket. destruct t, (h_PacketType (Header p)); done. Qed.

Lemma route_total p src types s :
  sock_inv s →
  total (route p src types) s (λ b s', sock_inv s' ∧
    if b : bool then True else s' = s ∧ ∀ t, t ∈ types → s_conns s !! key_of p src t = None).
Proof.
  intros Hs. induction types as [|t types IH]; cbn [route].
  { apply total_done. split_and!; [done..|]. intros t Ht. by apply not_elem_of_nil in Ht. }
  apply total_bind. exists (s_conns s !! key_of p src t), s. split; [done|]. destruct (s_conns s !! key_of p src t) as [ch|] eqn:Hk.
  - eapply total_seq; [by apply offer_total|]. intros _ s' Hs'. by apply total_done.
  - eapply total_weaken; [exact IH|]. intros [] s' [Hs' Hr]; [done|]. split; [done|].
    destruct Hr as [-> Hr]. split; [done|]. intros t' [->|Ht']%elem_of_cons; [done|by apply Hr].
Qed.

Lemma removeAwaiting_inv k s :
  sock_inv s → sock_inv (with_awaiting (delete k (s_awaiting s)) (tw_remove k (s_awaitingExp s)) s).
Proof.
  intros []. split; simpl; try done; [|by apply tracked_remove].
  intros k' [v [_ Hk']%lookup_delete_Some]. apply so_disjoint0. by eexists.
Qed.

Lemma putAwaiting_total k acc s :
  sock_inv s → s_incoming s !! k = None →
  total (putAwaiting k acc) s (λ _ s', sock_inv s' ∧ s_awaiting s' = <[k := acc]> (s_awaiting s) ∧
    s_conns s' = s_conns s ∧ s_incoming s' = s_incoming s ∧ s_out s' = s_out s ∧ s_next s' = s_next s).
Proof.
  intros Hs Hk. destruct (tracked_put k acc AWAITING_CONNECTION_TIMEOUT _ _ (so_awaiting s Hs)) as (tw & E & Ht); [done|].
  unfold putAwaiting. apply total_get. apply total_bind. eapply total_lift; [exact E|]. apply total_modify.
  split; [|done]. destruct Hs. split; simpl; try done.
  intros k' Hk'. destruct (decide (k' = k)) as [->|Hne]; [done|]. rewrite lookup_insert_ne in Hk' by done. by apply so_disjoint0.
Qed.

Lemma putIncomingConn_total k inc s :
  sock_inv s → s_awaiting s !! k = None →
  h_PacketType (Header (ip_pkt inc)) = st_syn → header_wf (Header (ip_pkt inc)) →
  ip_cid inc = CidFromPacket (ip_pkt inc) (cid_Peer (ip_cid inc)) IdTypeRecvId → cid_hash (ip_cid inc) = k →
  total (putIncomingConn k inc) s (λ _ s', sock_inv s' ∧ s_incoming s' = <[k := inc]> (s_incoming s) ∧
    s_conns s' = s_conns s ∧ s_awaiting s' = s_awaiting s ∧ s_out s' = s_out s ∧ s_next s' = s_next s).
Proof.
  intros Hs Hk Hty Hwf Hcid Hhash.
  destruct (tracked_put k inc AWAITING_CONNECTION_TIMEOUT _ _ (so_incoming s Hs)) as (tw & E & Ht); [done|].
  unfold putIncomingConn. apply total_get. apply total_bind. eapply total_lift; [exact E|]. apply total_modify.
  split; [|done]. destruct Hs. split; simpl; try done.
  - intros k' Hk'. rewrite lookup_insert. case_decide as Ek; [|by apply so_disjoint0]. subst k'. rewrite Hk in Hk'. by destruct Hk'.
  - intros k' inc' [[<- <-]|[_ Hk']]%lookup_insert_Some; [done|by apply so_syn0].
Qed.

Lemma removeIncoming_inv k s :
  sock_inv s → sock_inv (with_incoming (delete k (s_incoming s)) (tw_remove k (s_incomingExp s)) s).
Proof.
  intros []. split; simpl; try done; [|by apply tracked_remove|].
  - intros k' Hk'. rewrite lookup_delete. case_decide; [done|by apply so_disjoint0].
  - intros k' inc [_ Hk']%lookup_delete_Some. by apply so_syn0.
Qed.

Lemma selectAcceptHelper_total cid syn acc s :
  sock_inv s → total (selectAcceptHelper cid syn acc) s (λ _ s', sock_inv s').
Proof.
  intros Hs. unfold selectAcceptHelper. apply total_bind. exists (s_conns s !! cid_hash cid), s. split; [done|].
  destruct (s_conns s !! cid_hash cid) eqn:Hk; [by apply sock_emit_inv|].
  apply register_total; [done|done|]. intros s' [Hs' _]. by apply sock_emit_inv.
Qed.

Lemma handleNewAcceptWithCid_total acc s :
  sock_inv s → is_Some (acc_cid acc) → total (handleNewAcceptWithCidEvent acc) s (λ _ s', sock_inv s').
Proof.
  intros Hs [cid Hc]. unfold handleNewAcceptWithCidEvent. rewrite Hc. unfold removeIncomingConn, sm_get, sm_remove.
  apply total_bind, total_get. destruct (s_incoming s !! cid_hash cid) as [inc|] eqn:Hk.
  - apply total_bind, total_modify, total_done. apply selectAcceptHelper_total. by apply removeIncoming_inv.
  - apply total_done. eapply total_weaken; [by apply putAwaiting_total|]. by intros _ s' [? _].
Qed.

(** The first entry that [Range] finds is taken out. *)
Lemma nextIncomingConn_eq s :
  nextIncomingConn s = match map_to_list (s_incoming s) with
                       | (cidHash, inc) :: _ => (removeIncomingConn cidHash ;! done_ (Some inc)) s
                       | [] => Ret (inr None, s)
                       end.
Proof.
  unfold nextIncomingConn. erewrite bind_Ret by done.
  rewrite (sm_Range_first (λ key accept (_ : string * option IncomingPacket), (key, Some accept))).
  by destruct (map_to_list (s_incoming s)) as [|[k inc] l].
Qed.

Lemma handleNewAccept_total acc s : sock_inv s → total (handleNewAcceptEvent acc) s (λ _ s', sock_inv s').
Proof.
  intros Hs. unfold handleNewAcceptEvent. apply total_bind. unfold total at 1. rewrite nextIncomingConn_eq.
  destruct (map_to_list (s_incoming s)) as [|[k inc] l] eqn:Hl; [eexists _, s; split; [done|]; by apply sock_emit_inv|].
  fold (total (removeIncomingConn k ;! done_ (Some inc)) s). unfold removeIncomingConn, sm_get, sm_remove. assert (Hk : s_incoming s !! k = Some inc) by (apply elem_of_map_to_list; rewrite Hl; by left).
  apply total_bind, total_get. rewrite Hk. apply total_bind, total_modify, total_done, total_done.
  apply selectAcceptHelper_total. by apply removeIncoming_inv.
Qed.

Lemma handleIncomingBuf_total e peer b s :
  sock_inv s → Forall is_u8 b → total (handleIncomingBuf e peer b) s (λ _ s', sock_inv s').
Proof.
  intros Hs Hb. unfold handleIncomingBuf. destruct (DecodePacket_cases b Hb) as (r & E & Hr).
  apply total_bind. eapply total_lift; [exact E|]. destruct r as [err|p]; [by apply total_done|].
  destruct Hr as [Hwf _]. apply total_bind. eapply total_weaken; [by apply route_total|].
  intros [] s1 [Hs1 Hr]; [by apply total_done|]. destruct Hr as [-> Hfree].
  destruct (bool_decide (h_PacketType (Header p) = st_syn)) eqn:Hsyn; simpl negb; cbv iota.
  2: { destruct (negb _); [|by apply total_done]. apply total_modify. by auto. }
  apply bool_decide_eq_true in Hsyn. apply total_bind. exists (s_awaiting s !! key_of p peer IdTypeRecvId), s.
  split; [done|]. specialize (Hfree IdTypeRecvId ltac:(unfold cidTypes; set_solver)).
  fold (key_of p peer IdTypeRecvId). destruct (s_awaiting s !! _) as [acc|] eqn:Ha.
  - apply total_bind, total_modify. apply register_total; [by apply removeAwaiting_inv|done|].
    intros s' [Hs' _]. by apply sock_emit_inv.
  - eapply total_weaken; [apply putIncomingConn_total; try done|by intros _ s' [? _]].
    simpl ip_cid. by rewrite CidFromPacket_Peer.
Qed.

Lemma GenerateCid_cases peer ini ch draws s :
  let id recv := NewConnectionId peer recv (if ini : bool then recv ⊕ 1 else recv ⊖ 1) in
  (∃ recv, recv ∈ draws ∧ s_conns s !! cid_hash (id recv) = None ∧
     GenerateCid peer ini ch draws s
     = Ret (inr (id recv), match ch with
                           | Some c => with_conns (<[cid_hash (id recv) := c]> (s_conns s)) s
                           | None => s
                           end)) ∨
  ((∀ recv, recv ∈ draws → is_Some (s_conns s !! cid_hash (id recv))) ∧ GenerateCid peer ini ch draws s = NoFuel).
Proof.
  cbv zeta. induction draws as [|recv draws IH]; [right; split; [|done]; by intros recv Hr%not_elem_of_nil|].
  cbn [GenerateCid]. set (send := if ini then recv ⊕ 1 else recv ⊖ 1).
  assert (E : getConnStream (genHash send recv peer) s = Ret (inr (s_conns s !! genHash send recv peer), s)) by done.
  cbn [cid_hash]. rewrite (bind_Ret _ _ _ _ _ E). destruct (s_conns s !! genHash send recv peer) eqn:Hk.
  - destruct IH as [(r & Hr & Hn & Eg)|[Hall Eg]]; [left; exists r; split_and!; [by right|done|done]|right].
    split; [|done]. intros r [->|Hr]%elem_of_cons; [eexists; exact Hk|by apply Hall].
  - left. exists recv. split_and!; [left|done|]. by destruct ch.
Qed.

Lemma ConnectWithCid_total cid cfg r s :
  sock_inv s → total (ConnectWithCid cid cfg r) s (λ _ s', sock_inv s').
Proof.
  intros Hs. unfold ConnectWithCid. apply total_bind. exists (s_conns s !! cid_hash cid), s. split; [done|].
  destruct (s_conns s !! cid_hash cid) eqn:Hk; [by apply total_done|].
  apply register_total; [done|done|]. intros s' [Hs' _]. eapply total_seq; [by apply sock_emit_inv|].
  intros _ s2 Hs2. by apply total_done.
Qed.

Lemma Connect_cases peer cfg draws r s :
  sock_inv s →
  total (Connect peer cfg draws r) s (λ _ s', sock_inv s') ∨
  ((∀ recv, recv ∈ draws → is_Some (s_conns s !! cid_hash (NewConnectionId peer recv (recv ⊕ 1)))) ∧
   Connect peer cfg draws r s = NoFuel).
Proof.
  intros Hs. unfold Connect, total. destruct (make_chan_total s Hs) as [E Hs1].
  set (s1 := with_chans _ _ s) in *. rewrite (bind_Ret _ _ _ _ _ E).
  destruct (GenerateCid_cases peer true (Some (s_next s)) draws s1) as [(recv & Hr & Hk & Eg)|[Hall Eg]]; [left|right].
  - rewrite (bind_Ret _ _ _ _ _ Eg). apply total_bind, total_modify.
    destruct (register _ s Hs Hk) as [Hreg _]. fold s1 in Hreg. set (s2 := with_conns _ _).
    assert (s2 = with_conns (<[cid_hash (NewConnectionId peer recv (recv ⊕ 1)) := s_next s]> (s_conns s)) s1) as ->.
    { unfold s2, with_conns at 1. simpl. by rewrite insert_insert_eq. }
    eapply total_seq; [by apply sock_emit_inv|]. intros _ s3 Hs3. by apply total_done.
  - split; [exact Hall|]. unfold bind_ at 1. by rewrite Eg.
Qed.

Lemma writeLoop_total s : sock_inv s → total writeLoop_step s (λ _ s', sock_inv s').
Proof.
  intros Hs. unfold writeLoop_step. apply total_get. destruct (s_socketEvents s) as [|[p dst|dst] q]; [by apply total_done|..];
    apply total_bind, total_modify.
  - apply sock_emit_inv. by auto.
  - apply total_modify. destruct Hs. split; simpl; try done.
    + intros k ch [_ Hk]%lookup_delete_Some. by eapply so_chan0.
    + intros k k' ch [_ Hk]%lookup_delete_Some [_ Hk']%lookup_delete_Some. by eapply so_own0.
Qed.

Lemma tick_awaiting_total s : sock_inv s → total tick_awaiting s (λ _ s', sock_inv s').
Proof.
  intros Hs. unfold tick_awaiting. apply total_get. destruct (tracked_tick _ _ (so_awaiting s Hs)) as (l & tw & E & Ht).
  apply total_bind. eapply total_lift; [exact E|]. apply total_modify. destruct Hs. split; simpl; try done.
  intros k. rewrite foldr_delete_lookup. case_decide; [by intros []|apply so_disjoint0].
Qed.

Lemma tick_incoming_total s : sock_inv s → total tick_incoming s (λ _ s', sock_inv s').
Proof.
  intros Hs. unfold tick_incoming. apply total_get. destruct (tracked_tick _ _ (so_incoming s Hs)) as (l & tw & E & Ht).
  apply total_bind. eapply total_lift; [exact E|]. apply total_modify. destruct Hs. split; simpl; try done.
  - intros k Hk. rewrite foldr_delete_lookup. case_decide; [done|by apply so_disjoint0].
  - intros k inc. rewrite foldr_delete_lookup. case_decide; [done|apply so_syn0].
Qed.
End tables.

(** ** Claims *)

(** Datagrams are bytes, and [AcceptWithCid] is called with an id. *)
Definition sock_input_ok (i : sock_input) : Prop :=
  match i with
  | SiDatagram _ payload => Forall is_u8 payload
  | SiAcceptWithCid acc => is_Some (acc_cid acc)
  | _ => True
  end.

Lemma sock_step_cases `{Hasher} e i s :
  sock_inv s → sock_input_ok i →
  (∃ s', sock_step e i s = Ret (inr tt, s') ∧ sock_inv s') ∨
  (sock_step e i s = NoFuel ∧
   match i with
   | SiConnect peer _ draws _ =>
       ∀ recv, recv ∈ draws → is_Some (s_conns s !! cid_hash (NewConnectionId peer recv (recv ⊕ 1)))
   | _ => False
   end).
Proof.
  intros Hs Hi.
  assert (Ht : ∀ m : SM unit, total m s (λ _ s', sock_inv s') → ∃ s', m s = Ret (inr tt, s') ∧ sock_inv s').
  { intros m ([] & s' & E & Hs'). by exists s'. }
  destruct i; simpl sock_step.
  - left. apply Ht. by apply handleIncomingBuf_total.
  - left. apply Ht. by apply handleNewAcceptWithCid_total.
  - left. apply Ht. by apply handleNewAccept_total.
  - destruct (Connect_cases peer config draws r s Hs) as [Hc|[Hall E]]; [left|right].
    + apply Ht. eapply total_seq; [exact Hc|]. intros _ s' Hs'. by apply total_done.
    + split; [|exact Hall]. unfold bind_. by rewrite E.
  - left. apply Ht. eapply total_seq; [by apply ConnectWithCid_total|]. intros _ s' Hs'. by apply total_done.
  - left. apply Ht, total_modify. by apply sock_inv_events.
  - left. apply Ht. by apply writeLoop_total.
  - left. apply Ht. by apply tick_awaiting_total.
  - left. apply Ht. by apply tick_incoming_total.
Qed.

(** C13.  The tables of the socket.  A new socket meets the invariant: no id has
    both an accept and a SYN waiting, every waiting entry is in its expiry wheel,
    a waiting SYN is filed under its own id, no two connections share a channel,
    and channels stay within their capacity.  Every step (a datagram, an accept,
    a connect, an event of a connection, a tick) returns and keeps it; only the
    search for a free id in [Connect] can go on, while every number drawn is
    taken. *)
Theorem socket_tables_safe `{Hasher} :
  (∃ s0, WithSocket = Ret s0 ∧ sock_inv s0) ∧
  ∀ e i s, sock_inv s → sock_input_ok i →
  (∃ s', sock_step e i s = Ret (inr tt, s') ∧ sock_inv s') ∨
  (sock_step e i s = NoFuel ∧
   match i with
   | SiConnect peer _ draws _ =>
       ∀ recv, recv ∈ draws → is_Some (s_conns s !! cid_hash (NewConnectionId peer recv (recv ⊕ 1)))
   | _ => False
   end).
Proof. split; [apply WithSocket_inv|apply sock_step_cases]. Qed.

(** ** Witnesses *)

Definition demo_socket : UtpSocket := mk_UtpSocket ∅ ∅ 0 ∅ (mkWheel false (2 * Second) (replicate 20 ∅) 0 20 (40 * Second))
  ∅ (mkWheel false (2 * Second) (replicate 20 ∅) 0 20 (40 * Second)) [] false [].

Lemma demo_socket_new : WithSocket = Ret demo_socket.
Proof. vm_compute. reflexivity. Qed.

Lemma demo_socket_inv : sock_inv demo_socket.
Proof. destruct WithSocket_inv as (s & E & Hs). rewrite demo_socket_new in E. injection E as <-. exact Hs. Qed.

Definition demo_sock_env : env := mk_env 5000 321.
Definition demo_syn : packet := Build (NewPacketBuilder st_syn 7 5 1000 100).

Lemma socket_tables_safe_witness :
  ∃ s', sock_step demo_sock_env (SiDatagram demo_peer_a (Encode demo_syn)) demo_socket = Ret (inr tt, s') ∧ sock_inv s'.
Proof.
  destruct (proj2 socket_tables_safe demo_sock_env (SiDatagram demo_peer_a (Encode demo_syn)) demo_socket) as [Hs|[_ []]].
  - apply demo_socket_inv.
  - vm_compute. repeat constructor; congruence.
  - exact Hs.
Defined.
