(* ===== verification/SocketRouting.v ===== *)
(** * Routing, accepting and connecting

    What the handlers of the socket do: to which connection a datagram goes,
    that an accept and its SYN meet in either order, which ids [GenerateCid]
    picks, and what the callers of [Accept] and [Connect] get. *)

From Stdlib Require Import ZArith Lia.
From stdpp Require Import base list gmap fin_maps strings.
From S2P Require Import Prelude.
From S2P Require Import Hoare.
From S2P Require Import SelectiveAck.
From S2P Require Import Packet.
From S2P Require Import BTree.
From S2P Require Import TimeWheel.
From S2P Require Import SyncMap.
From S2P Require Import Float64.
From S2P Require Import Congestion.
From S2P Require Import Cid.
From S2P Require Import Conn.
From S2P Require Import ConnStates.
From S2P Require Import ConnSafety.
From S2P Require Import ConnLoop.
From S2P Require Import Handshake.
From S2P Require Import Socket.
From S2P Require Import SocketTables.

#[local] Open Scope Z_scope.

Section routing.
Context `{Hasher}.
Implicit Types s : UtpSocket.

(** ** Datagrams *)

(** The event [ev] appended to the channel [ch]. *)
Definition delivered_to (ch : Z) (q : list streamEvent) (ev : streamEvent) s : UtpSocket :=
  with_chans (<[ch := q ++ [ev]]> (s_chans s)) (s_next s) s.

Lemma route_hit p src pre t post s ch q :
  (∀ t', t' ∈ pre → s_conns s !! key_of p src t' = None) → s_conns s !! key_of p src t = Some ch →
  s_chans s !! ch = Some q → len q < STREAM_EVENTS →
  route p src (pre ++ t :: post) s = Ret (inr true, delivered_to ch q (streamIncoming p) s).
Proof.
  intros Hpre Hk Hq Hl. induction pre as [|t' pre IH]; simpl app; cbn [route].
  - erewrite bind_Ret by done. unfold key_of in Hk. rewrite Hk. erewrite bind_Ret; [done|].
    unfold offer. erewrite bind_Ret by done. rewrite Hq. case_bool; [done|lia].
  - erewrite bind_Ret by done. pose proof (Hpre t' ltac:(by left)) as Ht. unfold key_of in Ht. rewrite Ht.
    apply IH. intros t2 Ht2. apply Hpre. by right.
Qed.

Lemma route_miss p src types s :
  (∀ t, t ∈ types → s_conns s !! key_of p src t = None) → route p src types s = Ret (inr false, s).
Proof.
  induction types as [|t types IH]; intros Hn; cbn [route]; [done|]. erewrite bind_Ret by done.
  pose proof (Hn t ltac:(by left)) as Ht. unfold key_of in Ht. rewrite Ht. apply IH. intros t' Ht'. apply Hn. by right.
Qed.

Lemma handle_hit e peer b p pre t post s ch q :
  DecodePacket b = ok p → cidTypes = pre ++ t :: post →
  (∀ t', t' ∈ pre → s_conns s !! key_of p peer t' = None) → s_conns s !! key_of p peer t = Some ch →
  s_chans s !! ch = Some q → len q < STREAM_EVENTS →
  handleIncomingBuf e peer b s = Ret (inr tt, delivered_to ch q (streamIncoming p) s).
Proof.
  intros E Ht Hpre Hk Hq Hl. unfold handleIncomingBuf. erewrite bind_Ret; [|unfold lift_; rewrite E; done]. cbv iota beta.
  rewrite Ht. rewrite (bind_Ret _ _ _ _ _ (route_hit p peer pre t post s ch q Hpre Hk Hq Hl)). done.
Qed.

Lemma handle_syn e peer b p s :
  DecodePacket b = ok p → h_PacketType (Header p) = st_syn →
  (∀ t, t ∈ cidTypes → s_conns s !! key_of p peer t = None) →
  handleIncomingBuf e peer b s =
  (let cid := CidFromPacket p peer IdTypeRecvId in
   acc ←! getAwaiting (cid_hash cid);
   match acc with
   | Some accept =>
       removeAwaiting (cid_hash cid) ;!
       newConnStream ←! make_chan;
       putConnStream (cid_hash cid) newConnStream ;!
       sock_emit (SvNewStream newConnStream cid (acc_config accept) (Some p) (Some accept))
   | None => putIncomingConn (cid_hash cid) (mk_IncomingPacket p cid)
   end) s.
Proof.
  intros E Hty Hk. unfold handleIncomingBuf. erewrite bind_Ret; [|unfold lift_; rewrite E; done]. cbv iota beta.
  rewrite (bind_Ret _ _ _ _ _ (route_miss p peer cidTypes s Hk)). rewrite Hty. done.
Qed.

(** The keys of a packet that is not a SYN. *)
Lemma key_of_data p peer t :
  h_PacketType (Header p) ≠ st_syn →
  key_of p peer t =
  let id := h_ConnectionId (Header p) in
  match t with
  | IdTypeRecvId => genHash (id ⊖ 1) id peer
  | IdTypeSendIdWeInitiated => genHash (id ⊕ 1) id peer
  | IdTypeSendIdPeerInitiated => genHash id (id ⊖ 1) peer
  end.
Proof. intros Hn. unfold key_of, CidFromPacket. destruct t; try done. by destruct (h_PacketType (Header p)). Qed.
End routing.

(** C26.  Routing.  A packet that is not a SYN and carries a connection's receive
    number, from the connection's peer, is appended to that connection's channel
    and changes nothing else: for a connection that we initiated, unless the
    peer-initiated reading of the number names a connection too; for one that we
    accepted, unless one of the two readings that are tried before does. *)
Theorem routing_reaches_connection `{Hasher} (e : env) (peer : string) (b : list Z) (p : packet) (s : UtpSocket)
    (recv : Z) (initiated : bool) (ch : Z) (q : list streamEvent) :
  DecodePacket b = ok p → h_PacketType (Header p) ≠ st_syn → h_ConnectionId (Header p) = recv →
  s_conns s !! cid_hash (NewConnectionId peer recv (if initiated then recv ⊕ 1 else recv ⊖ 1)) = Some ch →
  s_chans s !! ch = Some q → len q < STREAM_EVENTS →
  s_conns s !! cid_hash (NewConnectionId peer (recv ⊖ 1) recv) = None →
  (initiated = false → s_conns s !! cid_hash (NewConnectionId peer recv (recv ⊕ 1)) = None) →
  handleIncomingBuf e peer b s
  = Ret (inr tt, with_chans (<[ch := q ++ [streamIncoming p]]> (s_chans s)) (s_next s) s).
Proof.
  intros E Hty Hid Hk Hq Hl Hfree Hfree'. destruct initiated.
  - apply (handle_hit e peer b p [IdTypeSendIdPeerInitiated] IdTypeSendIdWeInitiated [IdTypeRecvId]);
      try done; [|by rewrite key_of_data, Hid by done].
    intros t ->%list_elem_of_singleton. by rewrite key_of_data, Hid by done.
  - specialize (Hfree' eq_refl).
    apply (handle_hit e peer b p [IdTypeSendIdPeerInitiated; IdTypeSendIdWeInitiated] IdTypeRecvId []);
      try done; [|by rewrite key_of_data, Hid by done].
    intros t [->|[->|Ht%not_elem_of_nil]%elem_of_cons]%elem_of_cons; [by rewrite key_of_data, Hid by done..|done].
Qed.

(** C37.  Neighbouring ids.  Two connections that we initiated to the same peer,
    with receive numbers [recv - 1] and [recv], are both open.  A packet of the
    second one (it carries [recv]) is given to the first one: its number is the
    send number of the first, and that reading is tried first. *)
Theorem adjacent_cids_misroute `{Hasher} (e : env) (peer : string) (b : list Z) (p : packet) (s : UtpSocket)
    (recv ch1 ch2 : Z) (q1 : list streamEvent) :
  DecodePacket b = ok p → h_PacketType (Header p) ≠ st_syn → h_ConnectionId (Header p) = recv →
  s_conns s !! cid_hash (NewConnectionId peer (recv ⊖ 1) recv) = Some ch1 →
  s_conns s !! cid_hash (NewConnectionId peer recv (recv ⊕ 1)) = Some ch2 → ch1 ≠ ch2 →
  s_chans s !! ch1 = Some q1 → len q1 < STREAM_EVENTS →
  ∃ s', handleIncomingBuf e peer b s = Ret (inr tt, s') ∧
    s_chans s' !! ch1 = Some (q1 ++ [streamIncoming p]) ∧ s_chans s' !! ch2 = s_chans s !! ch2.
Proof.
  intros E Hty Hid Hk1 Hk2 Hne Hq Hl. eexists. split; [|split].
  - apply (handle_hit e peer b p [] IdTypeSendIdPeerInitiated [IdTypeSendIdWeInitiated; IdTypeRecvId]); try done.
    + intros t Ht. by apply not_elem_of_nil in Ht.
    + by rewrite key_of_data, Hid by done.
  - simpl. by rewrite lookup_insert_eq.
  - simpl. by rewrite lookup_insert_ne.
Qed.

(** ** Accepts *)

Section accepts.
Context `{Hasher}.
Implicit Types s : UtpSocket.

(** One new stream for the id, and nothing else changed in the tables. *)
Definition stream_opened (cid : ConnectionId) (syn : packet) (acc : Accept) s s' : Prop :=
  s_conns s' = <[cid_hash cid := s_next s]> (s_conns s) ∧ s_awaiting s' = s_awaiting s ∧
  s_incoming s' = s_incoming s ∧ s_socketEvents s' = s_socketEvents s ∧
  s_out s' = s_out s ++ [SvNewStream (s_next s) cid (acc_config acc) (Some syn) (Some acc)].

Lemma syn_then_accept e peer b p s acc :
  sock_inv s → Forall is_u8 b → DecodePacket b = ok p → h_PacketType (Header p) = st_syn →
  acc_cid acc = Some (CidFromPacket p peer IdTypeRecvId) →
  (∀ t, t ∈ cidTypes → s_conns s !! key_of p peer t = None) →
  s_awaiting s !! key_of p peer IdTypeRecvId = None → s_incoming s !! key_of p peer IdTypeRecvId = None →
  ∃ s', (handleIncomingBuf e peer b ;! handleNewAcceptWithCidEvent acc) s = Ret (inr tt, s') ∧
        stream_opened (CidFromPacket p peer IdTypeRecvId) p acc s s'.
Proof.
  intros Hs Hb E Hty Hacc Hfree Ha Hi. set (cid := CidFromPacket p peer IdTypeRecvId) in *.
  destruct (tracked_put (cid_hash cid) (mk_IncomingPacket p cid) AWAITING_CONNECTION_TIMEOUT _ _ (so_incoming s Hs))
    as (tw & Etw & _); [done|].
  eexists. split.
  - erewrite bind_Ret; [|rewrite (handle_syn e peer b p s E Hty Hfree); cbv zeta; fold cid;
      erewrite bind_Ret by done; unfold key_of in Ha; fold cid in Ha; unfold sm_get; rewrite Ha; unfold putIncomingConn;
      erewrite bind_Ret by done; erewrite bind_Ret; [|unfold lift_; rewrite Etw; done]; done].
    unfold handleNewAcceptWithCidEvent. rewrite Hacc. cbv beta iota.
    erewrite bind_Ret; [|unfold removeIncomingConn; erewrite bind_Ret by done; simpl; rewrite lookup_insert_eq; done].
    cbv iota beta. unfold selectAcceptHelper. erewrite bind_Ret by done. cbn [s_conns with_incoming].
    pose proof (Hfree IdTypeRecvId ltac:(unfold cidTypes; set_solver)) as Hk. unfold key_of in Hk. fold cid in Hk.
    rewrite Hk. cbv iota. erewrite bind_Ret by done. erewrite bind_Ret by done. reflexivity.
  - split_and!; try done. simpl. rewrite delete_insert_id; [done|]. exact Hi.
Qed.

Lemma accept_then_syn e peer b p s acc :
  sock_inv s → DecodePacket b = ok p → h_PacketType (Header p) = st_syn →
  acc_cid acc = Some (CidFromPacket p peer IdTypeRecvId) →
  (∀ t, t ∈ cidTypes → s_conns s !! key_of p peer t = None) →
  s_awaiting s !! key_of p peer IdTypeRecvId = None → s_incoming s !! key_of p peer IdTypeRecvId = None →
  ∃ s', (handleNewAcceptWithCidEvent acc ;! handleIncomingBuf e peer b) s = Ret (inr tt, s') ∧
        stream_opened (CidFromPacket p peer IdTypeRecvId) p acc s s'.
Proof.
  intros Hs E Hty Hacc Hfree Ha Hi. set (cid := CidFromPacket p peer IdTypeRecvId) in *.
  destruct (tracked_put (cid_hash cid) acc AWAITING_CONNECTION_TIMEOUT _ _ (so_awaiting s Hs)) as (tw & Etw & _); [done|].
  eexists. split.
  - erewrite bind_Ret; [|unfold handleNewAcceptWithCidEvent; rewrite Hacc; cbv beta iota;
      erewrite bind_Ret; [|unfold removeIncomingConn; erewrite bind_Ret by done;
        unfold key_of in Hi; fold cid in Hi; unfold sm_get; rewrite Hi; done];
      cbv beta iota; unfold putAwaiting; erewrite bind_Ret by done;
      erewrite bind_Ret; [|unfold lift_; rewrite Etw; done]; done].
    cbv beta. rewrite (handle_syn e peer b p); [|exact E|exact Hty|exact Hfree]. cbv zeta. fold cid. erewrite bind_Ret by done.
    cbn [s_awaiting with_awaiting]. unfold sm_get, sm_put. rewrite lookup_insert_eq. cbv iota.
    do 3 erewrite bind_Ret by done. reflexivity.
  - split_and!; try done. simpl. rewrite delete_insert_id; [done|]. exact Ha.
Qed.
End accepts.

(** C14.  An accept and its SYN.  [AcceptWithCid] and the SYN with that id may come
    in either order: both orders open exactly one stream for the id, with the
    configuration of the accept and the SYN, register it under a new channel, and
    leave neither the accept nor the SYN waiting. *)
Theorem accept_and_syn_meet `{Hasher} (e : env) (peer : string) (b : list Z) (p : packet) (s : UtpSocket)
    (acc : Accept) :
  sock_inv s → Forall is_u8 b → DecodePacket b = ok p → h_PacketType (Header p) = st_syn →
  acc_cid acc = Some (CidFromPacket p peer IdTypeRecvId) →
  (∀ t, t ∈ cidTypes → s_conns s !! key_of p peer t = None) →
  s_awaiting s !! key_of p peer IdTypeRecvId = None → s_incoming s !! key_of p peer IdTypeRecvId = None →
  ∃ s1 s2,
    (handleIncomingBuf e peer b ;! handleNewAcceptWithCidEvent acc) s = Ret (inr tt, s1) ∧
    (handleNewAcceptWithCidEvent acc ;! handleIncomingBuf e peer b) s = Ret (inr tt, s2) ∧
    stream_opened (CidFromPacket p peer IdTypeRecvId) p acc s s1 ∧
    stream_opened (CidFromPacket p peer IdTypeRecvId) p acc s s2.
Proof.
  intros Hs Hb E Hty Hacc Hfree Ha Hi.
  destruct (syn_then_accept e peer b p s acc) as (s1 & E1 & H1); try done.
  destruct (accept_then_syn e peer b p s acc) as (s2 & E2 & H2); try done. by exists s1, s2.
Qed.

(** C39.  Accepting without an id.  [Accept] makes a request without an id.  When a
    SYN waits, the socket opens the stream, and the goroutine that reports it
    dereferences the missing id: it panics, whatever the outcome of the
    connection.  When none waits, the error that is sent back is dropped and the
    caller gets neither a stream nor an error. *)
Theorem Accept_crashes `{Hasher} (s : UtpSocket) (ch : Z) (config : ConnectionConfig) (wait : accept_wait) :
  sock_inv s →
  let acc := (sock_Accept ch config true wait).1 in
  match map_to_list (s_incoming s) with
  | [] => handleNewAcceptEvent acc s
          = Ret (inr tt, with_sout (s_out s ++ [SvAccept ch (mk_StreamResult None (Some NoIncomingConn))]) s) ∧
          (sock_Accept ch config true (AwResult (Some (mk_StreamResult None (Some NoIncomingConn))))).2 = (None, None)
  | (k, inc) :: _ =>
      s_conns s !! k = None →
      ∃ s', handleNewAcceptEvent acc s = Ret (inr tt, s') ∧
        s_out s' = s_out s ++ [SvNewStream (s_next s) (ip_cid inc) config (Some (ip_pkt inc)) (Some acc)] ∧
        ∀ connected, awaitConnected (s_next s) acc connected = Panic NilDereference
  end.
Proof.
  intros Hs acc. destruct (map_to_list (s_incoming s)) as [|[k inc] l] eqn:Hl.
  - split; [|done].
    assert (En : nextIncomingConn s = Ret (inr None, s)).
    { by rewrite nextIncomingConn_eq, Hl. }
    unfold handleNewAcceptEvent. by rewrite (bind_Ret _ _ _ _ _ En).
  - intros Hk. assert (Hin : s_incoming s !! k = Some inc) by (apply elem_of_map_to_list; rewrite Hl; by left).
    destruct (so_syn s Hs k inc Hin) as (_ & _ & _ & Hh). eexists. split; [|split; [|done]].
    + unfold handleNewAcceptEvent.
      erewrite bind_Ret; [|rewrite nextIncomingConn_eq, Hl;
        erewrite bind_Ret; [|unfold removeIncomingConn; erewrite bind_Ret by done; unfold sm_get; rewrite Hin; done]; done].
      cbv iota beta. unfold selectAcceptHelper. rewrite Hh. erewrite bind_Ret by done. cbn [s_conns with_incoming]. rewrite Hk.
      cbv iota. do 2 erewrite bind_Ret by done. reflexivity.
    + done.
Qed.

(** ** Connecting *)

Section connecting.
Context `{Hasher}.
Implicit Types s : UtpSocket.

(** Some number drawn gives a free id. *)
Definition free_draw (peer : string) (ini : bool) (draws : list Z) s : Prop :=
  ∃ recv, recv ∈ draws ∧
    s_conns s !! cid_hash (NewConnectionId peer recv (if ini then recv ⊕ 1 else recv ⊖ 1)) = None.

Lemma GenerateCid_free peer ini ch draws s :
  free_draw peer ini draws s →
  ∃ recv, let cid := NewConnectionId peer recv (if ini then recv ⊕ 1 else recv ⊖ 1) in
    recv ∈ draws ∧ s_conns s !! cid_hash cid = None ∧
    GenerateCid peer ini ch draws s
    = Ret (inr cid, match ch with
                    | Some c => with_conns (<[cid_hash cid := c]> (s_conns s)) s
                    | None => s
                    end).
Proof.
  intros (r & Hr & Hk). destruct (GenerateCid_cases peer ini ch draws s) as [(recv & Hrec & Hn & E)|[Hall _]].
  - by exists recv.
  - destruct (Hall r Hr) as [c Hc]. congruence.
Qed.

(** The result of [Connect] for what it receives from the connection. *)
Lemma Connect_returns peer cfg draws r s :
  free_draw peer true draws s →
  ∃ s', Connect peer cfg draws (Some r) s
        = Ret (inr (match r with
                    | (None, true) => (Some (s_next s), None)
                    | (Some err, _) => (None, Some (ErrConnected err))
                    | (None, false) => (None, Some ConnectionTimedOut)
                    end), s').
Proof.
  intros Hf. set (s1 := with_chans (<[s_next s := []]> (s_chans s)) (s_next s + 1) s).
  destruct (GenerateCid_free peer true (Some (s_next s)) draws s1) as (recv & Hr & Hk & E); [exact Hf|].
  eexists. unfold Connect. erewrite bind_Ret by done. fold s1. rewrite (bind_Ret _ _ _ _ _ E).
  do 2 erewrite bind_Ret by done. by destruct r as [[err|] []].
Qed.
End connecting.

(** C27.  Fresh ids.  When one of the numbers drawn is free, [GenerateCid] returns an
    id whose receive number was drawn, whose send number is the next one for an
    initiator and the previous one for an acceptor, whose key no connection has,
    and registers the caller's channel under that key. *)
Theorem GenerateCid_fresh `{Hasher} (peer : string) (ini : bool) (ch : option Z) (draws : list Z) (s : UtpSocket) :
  free_draw peer ini draws s →
  ∃ cid s', GenerateCid peer ini ch draws s = Ret (inr cid, s') ∧
    cid_Peer cid = peer ∧ cid_Recv cid ∈ draws ∧
    cid_Send cid = (if ini then cid_Recv cid ⊕ 1 else cid_Recv cid ⊖ 1) ∧
    cid_hash cid = genHash (cid_Send cid) (cid_Recv cid) peer ∧ s_conns s !! cid_hash cid = None ∧
    match ch with
    | Some c => s_conns s' = <[cid_hash cid := c]> (s_conns s)
    | None => s' = s
    end.
Proof.
  intros Hf. destruct (GenerateCid_free peer ini ch draws s Hf) as (recv & Hr & Hk & E). eexists _, _.
  split; [exact E|]. split_and!; try done. by destruct ch.
Qed.

(** C38.  The outcome of connecting.  When the STATE packet arrives the connection
    closes its channel without a value.  [Connect] takes that for a failure: it
    returns "connection timed out" although the connection is established;
    [ConnectWithCid], on the same event, returns the stream. *)
Theorem Connect_fails_on_success `{BTreeLaws} `{FloatConv} `{Hasher} (e1 e2 : env) (cid : ConnectionId)
    (cfg : ConnectionConfig) (synAck : packet) (now : Z) :
  cfg_ok cfg → is_u16 (e_rand e1) →
  h_PacketType (Header synAck) = st_state → h_AckNum (Header synAck) = e_rand e1 →
  Eack synAck = None → Body synAck = [] →
  ∃ i0 i1 i2, newConnection e1 cid cfg None (Some true) = Ret i0 ∧ start e1 i0 = Ret (inr tt, i1) ∧
    onPacket e2 synAck now i1 = Ret (inr tt, i2) ∧ c_type i2 = ConnConnected ∧
    recv_connected (c_out i2) = Some (None, false) ∧
    (∀ s draws, free_draw (cid_Peer cid) true draws s →
       ∃ s', Connect (cid_Peer cid) cfg draws (recv_connected (c_out i2)) s
             = Ret (inr (None, Some ConnectionTimedOut), s')) ∧
    (∀ s, s_conns s !! cid_hash cid = None →
       ∃ s', ConnectWithCid cid cfg (None, false) s = Ret (inr (Some (s_next s), None), s')).
Proof.
  intros Hcfg Hr Hty Hack Hek Hbody.
  destruct (initiator_started e1 cid cfg Hcfg Hr) as (i0 & i1 & En & Es & Ho & Ht & Hep & Hcf & Hch & Hcl & _).
  destruct (initiator_connects e2 synAck now i1) as (i2 & E & Ht2 & Ho2 & _);
    try done; try (rewrite ?Hep, ?Hcf; done).
  assert (Hrecv : recv_connected (c_out i2) = Some (None, false)) by (by rewrite Ho2, Ho).
  exists i0, i1, i2. split_and!; try done.
  - intros s draws Hf. rewrite Hrecv. exact (Connect_returns _ cfg draws (None, false) s Hf).
  - intros s Hk. eexists. unfold ConnectWithCid. erewrite bind_Ret by done. rewrite Hk. cbv iota.
    do 3 erewrite bind_Ret by done. reflexivity.
Qed.

(** ** Witnesses *)

(** A datagram for the connection with receive number 7, from peer [b]. *)
Definition demo_data : packet := Build (WithPayload [42] (NewPacketBuilder st_data 7 5 1000 101)).
Definition demo_datagram : list Z := Encode demo_data.

Definition demo_sock1 : UtpSocket :=
  with_conns {[cid_hash demo_cid := 0]} (with_chans {[0 := []]} 1 demo_socket).
Definition demo_sock2 : UtpSocket :=
  with_conns {[cid_hash (NewConnectionId demo_peer_b 6 7) := 1; cid_hash demo_cid := 0]}
    (with_chans {[0 := []; 1 := []]} 2 demo_socket).

Lemma routing_reaches_connection_witness :
  ∃ s', handleIncomingBuf demo_sock_env demo_peer_b demo_datagram demo_sock1 = Ret (inr tt, s') ∧
        s_chans s' !! 0 = Some [streamIncoming demo_data].
Proof.
  eexists. split.
  - apply (routing_reaches_connection demo_sock_env demo_peer_b demo_datagram demo_data demo_sock1 7 true 0 []);
      try (vm_compute; reflexivity).
    + vm_compute. congruence.
    + intros [=].
  - vm_compute. reflexivity.
Defined.

Lemma adjacent_cids_misroute_witness :
  ∃ s', handleIncomingBuf demo_sock_env demo_peer_b demo_datagram demo_sock2 = Ret (inr tt, s') ∧
        s_chans s' !! 1 = Some [streamIncoming demo_data] ∧ s_chans s' !! 0 = Some [].
Proof.
  destruct (adjacent_cids_misroute demo_sock_env demo_peer_b demo_datagram demo_data demo_sock2 7 1 0 [])
    as (s' & E & H1 & H2); try (vm_compute; reflexivity).
  - vm_compute. congruence.
  - congruence.
  - exists s'. split; [exact E|]. split; [exact H1|]. rewrite H2. vm_compute. reflexivity.
Defined.

Definition demo_accept : Accept :=
  (sock_AcceptWithCid 9 (CidFromPacket demo_syn demo_peer_a IdTypeRecvId) NewConnectionConfig true AwCtxDone).1.

Lemma accept_and_syn_meet_witness :
  ∃ s1, (handleIncomingBuf demo_sock_env demo_peer_a (Encode demo_syn) ;! handleNewAcceptWithCidEvent demo_accept) demo_socket
        = Ret (inr tt, s1) ∧ size (s_conns s1) = 1%nat.
Proof.
  destruct (accept_and_syn_meet demo_sock_env demo_peer_a (Encode demo_syn) demo_syn demo_socket demo_accept)
    as (s1 & s2 & E1 & _ & (Hc & _) & _).
  - apply demo_socket_inv.
  - vm_compute. repeat constructor; congruence.
  - vm_compute. reflexivity.
  - reflexivity.
  - reflexivity.
  - intros t _. destruct t; vm_compute; reflexivity.
  - vm_compute. reflexivity.
  - vm_compute. reflexivity.
  - exists s1. split; [exact E1|]. rewrite Hc. vm_compute. reflexivity.
Defined.

(** The socket after a SYN that nobody waits for. *)
Definition demo_sock3 : UtpSocket :=
  match handleIncomingBuf demo_sock_env demo_peer_a (Encode demo_syn) demo_socket with
  | Ret (_, s) => s
  | _ => demo_socket
  end.

Lemma demo_sock3_inv : sock_inv demo_sock3.
Proof.
  destruct (handleIncomingBuf_total demo_sock_env demo_peer_a (Encode demo_syn) demo_socket demo_socket_inv)
    as (a & s' & E & Hs); [vm_compute; repeat constructor; congruence|].
  unfold demo_sock3. rewrite E. exact Hs.
Qed.

Lemma Accept_crashes_witness :
  (∃ s', handleNewAcceptEvent (sock_Accept 9 NewConnectionConfig true AwCtxDone).1 demo_sock3 = Ret (inr tt, s')) ∧
  awaitConnected 0 (sock_Accept 9 NewConnectionConfig true AwCtxDone).1 (None, true) = Panic NilDereference.
Proof.
  pose proof (Accept_crashes demo_sock3 9 NewConnectionConfig AwCtxDone demo_sock3_inv) as Hc. cbv zeta in Hc.
  assert (Hl : map_to_list (s_incoming demo_sock3)
    = [(cid_hash demo_cid_b, mk_IncomingPacket demo_syn demo_cid_b)]) by (vm_compute; reflexivity).
  rewrite Hl in Hc. destruct Hc as (s' & E & _ & Hp); [vm_compute; reflexivity|].
  split; [exists s'; exact E|]. exact (Hp (None, true)).
Defined.

Lemma GenerateCid_fresh_witness :
  ∃ cid s', GenerateCid demo_peer_b true None [7; 11] demo_sock1 = Ret (inr cid, s') ∧ cid_Recv cid ∈ [7; 11].
Proof.
  destruct (GenerateCid_fresh demo_peer_b true None [7; 11] demo_sock1) as (cid & s' & E & _ & Hr & _).
  - exists 11. split; [right; left|]. vm_compute. reflexivity.
  - exists cid, s'. split; [exact E|exact Hr].
Defined.

Lemma Connect_fails_on_success_witness :
  ∃ s', Connect demo_peer_b NewConnectionConfig [7] (Some (None, false)) demo_socket
        = Ret (inr (None, Some ConnectionTimedOut), s').
Proof.
  destruct (Connect_fails_on_success (demo_env 1) (demo_env 2) demo_cid NewConnectionConfig demo_synack 2)
    as (i0 & i1 & i2 & _ & _ & _ & _ & Hr & Hc & _).
  - apply default_cfg_ok.
  - vm_compute. split; congruence.
  - reflexivity.
  - reflexivity.
  - reflexivity.
  - reflexivity.
  - rewrite Hr in Hc. apply Hc. exists 7. split; [left|]. vm_compute. reflexivity.
Defined.
