(* ===== verification/SocketIO.v ===== *)
(** * The loops of the socket (utp_socket.go)

    [readLoop] reads every datagram into one array and hands a copy to the event
    loop, which takes datagrams before requests to accept.  Byte slices are
    references here: an array lives in a store, and what the event loop gets is
    the name of an array, whose contents are those at the time it looks.  The
    specification has no store: a queue of datagrams between the network and the
    handler of the socket. *)

From Stdlib Require Import ZArith Lia.
From stdpp Require Import base list gmap fin_maps strings.
From S2P Require Import Prelude.
From S2P Require Import Packet.
From S2P Require Import BTree.
From S2P Require Import TimeWheel.
From S2P Require Import Cid.
From S2P Require Import Conn.
From S2P Require Import Socket.

#[local] Open Scope Z_scope.

(** A received datagram, with the name of the array that holds it. *)
Record IncomingPacketRaw := mk_Raw { raw_peer : string; raw_payload : nat }.

(** What a read of the UDP connection gives. *)
Inductive read_result :=
  | ReadDatagram (b : list Z) (from : string)
  | ReadTemporary
  | ReadFailed.

(** [io_arrays] is the store, [io_buf] the array of [readLoop], [io_fresh] the
    next free name. *)
Record sock_io := mk_io {
  io_sock : UtpSocket;
  io_incomingBuf : list IncomingPacketRaw;
  io_acceptsWithCid : list Accept;
  io_accepts : list Accept;
  io_arrays : gmap nat (list Z);
  io_buf : nat;
  io_fresh : nat;
}.

Definition with_sock s io :=
  mk_io s (io_incomingBuf io) (io_acceptsWithCid io) (io_accepts io) (io_arrays io) (io_buf io) (io_fresh io).
Definition with_incomingBuf q io :=
  mk_io (io_sock io) q (io_acceptsWithCid io) (io_accepts io) (io_arrays io) (io_buf io) (io_fresh io).
Definition with_accepts qc q io :=
  mk_io (io_sock io) (io_incomingBuf io) qc q (io_arrays io) (io_buf io) (io_fresh io).
Definition with_arrays a n io :=
  mk_io (io_sock io) (io_incomingBuf io) (io_acceptsWithCid io) (io_accepts io) a (io_buf io) n.

Abbreviation IM := (method sock_io).

Definition array (a : nat) : IM (list Z) :=
  io ←! get_; match io_arrays io !! a with Some b => done_ b | None => panic_ NilDereference end.
Definition store (a : nat) (b : list Z) : IM unit :=
  modify_ (λ io, with_arrays (<[a := b]> (io_arrays io)) (io_fresh io) io).
(** [make([]byte, n)] *)
Definition make_array (n : Z) : IM nat :=
  io ←! get_;
  modify_ (with_arrays (<[io_fresh io := replicate (Z.to_nat n) 0]> (io_arrays io)) (S (io_fresh io))) ;!
  done_ (io_fresh io).

(** A call of the socket's own handlers. *)
Definition on_sock {A} (m : SM A) : IM A := λ io,
  '(r, s) ← m (io_sock io); Ret (r, with_sock s io).

(** The call of [ReadFrom] in [readLoop]: the datagram is written over the
    buffer, as far as it fits. *)
Definition ReadFrom (b : list Z) : IM Z :=
  io ←! get_;
  buf ←! array (io_buf io);
  store (io_buf io) (go_copy buf b) ;!
  done_ (Z.min (len b) (len buf)).

(** A turn of [readLoop]; [true] when the loop returns. *)
Definition readLoop_step (r : read_result) : IM bool :=
  io ←! get_;
  if s_cancelled (io_sock io) then done_ true
  else
    match r with
    | ReadTemporary => done_ false
    | ReadFailed => done_ true
    | ReadDatagram b from =>
        n ←! ReadFrom b;
        dstBuf ←! make_array n;
        buf ←! array (io_buf io);
        src ←! lift_ (slice buf 0 n);
        dst ←! array dstBuf;
        store dstBuf (go_copy dst src) ;!
        modify_ (λ io, with_incomingBuf (io_incomingBuf io ++ [mk_Raw from dstBuf]) io) ;!
        done_ false
    end.

(** The case that the second [select] of the event loop takes. *)
Inductive pick := PickAcceptWithCid | PickAccept | PickCtxDone.

Section loops.
Context `{Hasher}.

(** A turn of the socket's [eventLoop]; a case that is not ready is not taken. *)
Definition eventLoop_step (e : env) (choice : pick) : IM bool :=
  io ←! get_;
  match io_incomingBuf io with
  | incomingRaw :: q =>
      modify_ (with_incomingBuf q) ;!
      payload ←! array (raw_payload incomingRaw);
      on_sock (handleIncomingBuf e (raw_peer incomingRaw) payload) ;!
      done_ false
  | [] =>
      match choice with
      | PickAcceptWithCid =>
          match io_acceptsWithCid io with
          | acceptWithCid :: q =>
              modify_ (with_accepts q (io_accepts io)) ;!
              on_sock (handleNewAcceptWithCidEvent acceptWithCid) ;!
              done_ false
          | [] => done_ false
          end
      | PickAccept =>
          match io_accepts io with
          | accept :: q =>
              modify_ (with_accepts (io_acceptsWithCid io) q) ;!
              on_sock (handleNewAcceptEvent accept) ;!
              done_ false
          | [] => done_ false
          end
      | PickCtxDone => done_ (s_cancelled (io_sock io))
      end
  end.

(** The turns of the two loops, and the requests of the user. *)
Inductive io_input :=
  | IoRead (r : read_result)
  | IoEvent (e : env) (choice : pick)
  | IoAcceptWithCid (accept : Accept)
  | IoAccept (accept : Accept)
  | IoSock (e : env) (i : sock_input).

Definition io_step (i : io_input) : IM bool :=
  match i with
  | IoRead r => readLoop_step r
  | IoEvent e choice => eventLoop_step e choice
  | IoAcceptWithCid acc => modify_ (λ io, with_accepts (io_acceptsWithCid io ++ [acc]) (io_accepts io) io) ;! done_ false
  | IoAccept acc => modify_ (λ io, with_accepts (io_acceptsWithCid io) (io_accepts io ++ [acc]) io) ;! done_ false
  | IoSock e i => on_sock (sock_step e i) ;! done_ false
  end.

Definition new_io (s : UtpSocket) : sock_io := mk_io s [] [] [] {[ 0%nat := replicate (Z.to_nat MaxUint16) 0 ]} 0 1.

(** ** Specification: a queue of datagrams *)

Record net := mk_net {
  n_sock : UtpSocket;
  n_queue : list (string * list Z);
  n_acceptsWithCid : list Accept;
  n_accepts : list Accept;
}.

Definition net_sock {A} (m : SM A) : method net A := λ n,
  '(r, s) ← m (n_sock n); Ret (r, mk_net s (n_queue n) (n_acceptsWithCid n) (n_accepts n)).

(** Datagrams are queued in the order of their arrival and handled before accepts. *)
Definition net_step (i : io_input) : method net bool :=
  n ←! get_;
  match i with
  | IoRead r =>
      if s_cancelled (n_sock n) then done_ true
      else
        match r with
        | ReadTemporary => done_ false
        | ReadFailed => done_ true
        | ReadDatagram b from =>
            put_ (mk_net (n_sock n) (n_queue n ++ [(from, take (Z.to_nat MaxUint16) b)]) (n_acceptsWithCid n) (n_accepts n)) ;! done_ false
        end
  | IoEvent e choice =>
      match n_queue n, choice with
      | (peer, b) :: q, _ =>
          put_ (mk_net (n_sock n) q (n_acceptsWithCid n) (n_accepts n)) ;! net_sock (handleIncomingBuf e peer b) ;! done_ false
      | [], PickAcceptWithCid =>
          match n_acceptsWithCid n with
          | acc :: q =>
              put_ (mk_net (n_sock n) [] q (n_accepts n)) ;! net_sock (handleNewAcceptWithCidEvent acc) ;! done_ false
          | [] => done_ false
          end
      | [], PickAccept =>
          match n_accepts n with
          | acc :: q =>
              put_ (mk_net (n_sock n) [] (n_acceptsWithCid n) q) ;! net_sock (handleNewAcceptEvent acc) ;! done_ false
          | [] => done_ false
          end
      | [], PickCtxDone => done_ (s_cancelled (n_sock n))
      end
  | IoAcceptWithCid acc =>
      put_ (mk_net (n_sock n) (n_queue n) (n_acceptsWithCid n ++ [acc]) (n_accepts n)) ;! done_ false
  | IoAccept acc => put_ (mk_net (n_sock n) (n_queue n) (n_acceptsWithCid n) (n_accepts n ++ [acc])) ;! done_ false
  | IoSock e i => net_sock (sock_step e i) ;! done_ false
  end.
End loops.

(** A sequence of turns, with their results. *)
Fixpoint turns {S I A} (step : I → method S A) (ins : list I) (s : S) : outcome (list (error + A) * S) :=
  match ins with
  | [] => mret ([], s)
  | i :: ins =>
      '(r, s) ← step i s;
      '(rs, s) ← turns step ins s;
      mret (r :: rs, s)
  end.

(** ** Refinement *)

Section refinement.
Context `{Hasher}.
Implicit Types io : sock_io.

Record io_inv io : Prop := {
  ii_buf : ∃ buf, io_arrays io !! io_buf io = Some buf ∧ len buf = MaxUint16;
  ii_buf_old : (io_buf io < io_fresh io)%nat;
  ii_queue : Forall (λ raw, raw_payload raw ≠ io_buf io ∧ (raw_payload raw < io_fresh io)%nat ∧
                            is_Some (io_arrays io !! raw_payload raw)) (io_incomingBuf io);
}.

(** What the queue holds now. *)
Definition contents io (raw : IncomingPacketRaw) : string * list Z :=
  (raw_peer raw, default [] (io_arrays io !! raw_payload raw)).

Definition io_abs io : net :=
  mk_net (io_sock io) (contents io <$> io_incomingBuf io) (io_acceptsWithCid io) (io_accepts io).

(** The step of the code is the step of the specification. *)
Definition simulates io i : Prop :=
  match io_step i io with
  | Ret (r, io') => net_step i (io_abs io) = Ret (r, io_abs io') ∧ io_inv io'
  | Panic p => net_step i (io_abs io) = Panic p
  | NoFuel => net_step i (io_abs io) = NoFuel
  end.

Lemma new_io_inv s : io_inv (new_io s).
Proof.
  split; [|exact (Nat.lt_0_1)|by constructor]. exists (replicate (Z.to_nat MaxUint16) 0).
  split; [exact (lookup_singleton_eq _ _)|]. unfold len. by rewrite length_replicate, Z2Nat.id.
Qed.

Lemma io_inv_sock io s : io_inv io → io_inv (with_sock s io).
Proof. by intros []. Qed.
Lemma io_inv_accepts io qc q : io_inv io → io_inv (with_accepts qc q io).
Proof. by intros []. Qed.

(** A handler of the socket, after the queues have changed. *)
Lemma on_sock_simulates (m : SM unit) io :
  io_inv io →
  match (on_sock m ;! done_ false) io with
  | Ret (r, io') => (net_sock m ;! done_ false) (io_abs io) = Ret (r, io_abs io') ∧ io_inv io'
  | Panic p => (net_sock m ;! done_ false) (io_abs io) = Panic p
  | NoFuel => (net_sock m ;! done_ false) (io_abs io) = NoFuel
  end.
Proof.
  intros Hi. unfold bind_, on_sock, net_sock. simpl. destruct (m (io_sock io)) as [[[err|[]] s]|p|]; simpl; try done;
    (split; [done|by apply io_inv_sock]).
Qed.

Lemma go_copy_fits (dst src : list Z) : length src = length dst → go_copy dst src = src.
Proof. intros E. unfold go_copy. rewrite <- E, firstn_all, skipn_all2 by lia. apply app_nil_r. Qed.

Lemma go_copy_prefix (dst src : list Z) :
  slice (go_copy dst src) 0 (Z.min (len src) (len dst)) = Ret (take (length dst) src).
Proof.
  unfold go_copy. assert (E : Z.min (len src) (len dst) = len (take (length dst) src)).
  { unfold len. rewrite length_take. lia. }
  rewrite E, slice_prefix by (rewrite ?len_app; pose proof (len_nonneg (drop (length src) dst)); unfold len in *; lia).
  f_equal. unfold len. rewrite Nat2Z.id. by rewrite take_app_length.
Qed.

(** The store after a datagram: the buffer is overwritten, the copy is new. *)
Definition received (buf b : list Z) io : gmap nat (list Z) :=
  <[io_fresh io := take (length buf) b]> (<[io_fresh io := replicate (Z.to_nat (Z.min (len b) (len buf))) 0]>
    (<[io_buf io := go_copy buf b]> (io_arrays io))).

Lemma readLoop_datagram b from buf io :
  (io_buf io < io_fresh io)%nat → io_arrays io !! io_buf io = Some buf → s_cancelled (io_sock io) = false →
  readLoop_step (ReadDatagram b from) io
  = Ret (inr false, with_incomingBuf (io_incomingBuf io ++ [mk_Raw from (io_fresh io)])
                      (with_arrays (received buf b io) (S (io_fresh io)) io)).
Proof.
  intros Hlt Hbuf Hc. unfold readLoop_step. erewrite bind_Ret by done. rewrite Hc.
  erewrite bind_Ret; [|unfold ReadFrom; erewrite bind_Ret by done; erewrite bind_Ret;
    [|unfold array; erewrite bind_Ret by done; by rewrite Hbuf]; by erewrite bind_Ret].
  erewrite bind_Ret by done.
  erewrite bind_Ret; [|unfold array; erewrite bind_Ret by done; cbn; rewrite lookup_insert_ne by lia; by rewrite lookup_insert_eq].
  erewrite bind_Ret; [|unfold lift_; by rewrite go_copy_prefix].
  erewrite bind_Ret; [|unfold array; erewrite bind_Ret by done; cbn; by rewrite lookup_insert_eq].
  erewrite bind_Ret by done. erewrite bind_Ret by done. unfold done_. do 2 f_equal. unfold with_arrays, with_incomingBuf, received. cbn.
  rewrite go_copy_fits; [done|]. rewrite length_replicate, length_take. unfold len. lia.
Qed.

(** Arrays that the queue names keep their contents. *)
Lemma received_other buf b io a :
  a ≠ io_buf io → (a < io_fresh io)%nat → received buf b io !! a = io_arrays io !! a.
Proof. intros Hb Hf. unfold received. by rewrite !lookup_insert_ne by lia. Qed.

Lemma read_simulates r io : io_inv io → simulates io (IoRead r).
Proof.
  intros Hi. pose proof Hi as [(buf & Hbuf & Hlen) Hlt Hq]. unfold simulates, net_step. cbn [io_step].
  rewrite (bind_Ret get_ _ (io_abs io) (io_abs io) (io_abs io) eq_refl). cbn [io_abs n_sock].
  destruct (s_cancelled (io_sock io)) eqn:Hc.
  { unfold readLoop_step. erewrite bind_Ret by done. rewrite Hc. done. }
  destruct r as [b from| |]; [|unfold readLoop_step; erewrite bind_Ret by done; by rewrite Hc..].
  rewrite (readLoop_datagram b from buf io Hlt Hbuf Hc). split.
  - unfold bind_, put_, done_. cbn. do 2 f_equal. unfold io_abs. cbn. f_equal. rewrite fmap_app. cbn. f_equal.
    + apply list_fmap_ext. intros i raw Hraw. unfold contents. cbn. f_equal.
      rewrite Forall_lookup in Hq. destruct (Hq i raw Hraw) as (H1 & H2 & _). by rewrite received_other.
    + unfold contents. cbn. unfold received. rewrite lookup_insert_eq. cbn. do 3 f_equal. unfold len in Hlen. lia.
  - split; cbn.
    + exists (go_copy buf b). unfold received. rewrite !lookup_insert_ne by lia. split; [apply lookup_insert_eq|].
      unfold len in *. by rewrite go_copy_length.
    + lia.
    + rewrite Forall_app, Forall_singleton. cbn. split.
      * eapply Forall_impl; [exact Hq|]. intros raw (H1 & H2 & H3). split_and!; [done|lia|by rewrite received_other].
      * split_and!; [lia|lia|]. unfold received. by rewrite lookup_insert_eq.
Qed.

Lemma event_simulates e choice io : io_inv io → simulates io (IoEvent e choice).
Proof.
  intros Hi. pose proof Hi as [Hbuf Hlt Hq]. unfold simulates, net_step. cbn [io_step].
  rewrite (bind_Ret get_ _ (io_abs io) (io_abs io) (io_abs io) eq_refl). unfold eventLoop_step. erewrite bind_Ret by done.
  destruct (io_incomingBuf io) as [|raw q] eqn:Hqueue.
  - assert (E : n_queue (io_abs io) = []) by (unfold io_abs; cbn; by rewrite Hqueue). rewrite E.
    destruct choice; cbn [io_abs n_acceptsWithCid n_accepts n_sock].
    + destruct (io_acceptsWithCid io) as [|acc qc]; [done|]. rewrite 2 (bind_Ret _ _ _ _ _ eq_refl).
      pose proof (on_sock_simulates (handleNewAcceptWithCidEvent acc) (with_accepts qc (io_accepts io) io)
        (io_inv_accepts _ _ _ Hi)) as Hs. unfold io_abs in Hs. cbn in Hs. rewrite Hqueue in Hs. exact Hs.
    + destruct (io_accepts io) as [|acc qa]; [done|]. rewrite 2 (bind_Ret _ _ _ _ _ eq_refl).
      pose proof (on_sock_simulates (handleNewAcceptEvent acc) (with_accepts (io_acceptsWithCid io) qa io)
        (io_inv_accepts _ _ _ Hi)) as Hs. unfold io_abs in Hs. cbn in Hs. rewrite Hqueue in Hs. exact Hs.
    + done.
  - apply Forall_cons in Hq as [(H1 & H2 & [b Hb]) Hq].
    assert (E : n_queue (io_abs io) = (raw_peer raw, b) :: (contents io <$> q)).
    { unfold io_abs. cbn. rewrite Hqueue. cbn. unfold contents at 1. by rewrite Hb. }
    rewrite E. erewrite bind_Ret by done. erewrite bind_Ret; [|unfold array; erewrite bind_Ret by done; cbn; by rewrite Hb].
    rewrite (bind_Ret (put_ _) _ _ _ _ eq_refl).
    assert (Hi' : io_inv (with_incomingBuf q io)) by (by split).
    exact (on_sock_simulates (handleIncomingBuf e (raw_peer raw) b) (with_incomingBuf q io) Hi').
Qed.

Lemma io_step_simulates i io : io_inv io → simulates io i.
Proof.
  intros Hi. destruct i as [r|e choice|acc|acc|e i].
  - by apply read_simulates.
  - by apply event_simulates.
  - split; [done|]. by apply io_inv_accepts.
  - split; [done|]. by apply io_inv_accepts.
  - unfold simulates, net_step. cbn [io_step]. rewrite (bind_Ret get_ _ (io_abs io) (io_abs io) (io_abs io) eq_refl).
    by apply on_sock_simulates.
Qed.
End refinement.

(** C12.  The loops of the socket.  Whatever the interleaving of the read loop, the
    event loop and the requests of the user, the socket behaves as if every
    datagram (cut to 65535 bytes) were queued on arrival and handled in that
    order, before any waiting accept: although all datagrams are read into the
    same array, none is changed between its arrival and its handling. *)
Theorem socket_loops_refine_queue `{Hasher} (ins : list io_input) (s : UtpSocket) :
  match turns io_step ins (new_io s) with
  | Ret (rs, io) => turns net_step ins (mk_net s [] [] []) = Ret (rs, io_abs io)
  | Panic p => turns net_step ins (mk_net s [] [] []) = Panic p
  | NoFuel => turns net_step ins (mk_net s [] [] []) = NoFuel
  end.
Proof.
  change (mk_net s [] [] []) with (io_abs (new_io s)). pose proof (new_io_inv s) as Hi. revert Hi.
  generalize (new_io s). induction ins as [|i ins IH]; intros io Hi; [done|]. cbn [turns].
  pose proof (io_step_simulates i io Hi) as Hs. unfold simulates in Hs.
  destruct (io_step i io) as [[r io']|p|]; [|by rewrite Hs..]. destruct Hs as [-> Hi']. cbn [mbind outcome_bind].
  specialize (IH io' Hi'). destruct (turns io_step ins io') as [[rs io2]|p|]; by rewrite IH.
Qed.
