(* ===== verification/MockLink.v ===== *)
(** * The mock network of the integration tests (integrated/test_utils.go)

    Two sockets joined by a pair of channels of capacity one; each side asks its
    link decider whether a packet is sent or dropped.  The channels are shared, so
    they live in a store.  A call on a channel that is not ready waits. *)

From Stdlib Require Import ZArith Lia.
From stdpp Require Import base list gmap fin_maps strings.
From S2P Require Import Prelude.
From S2P Require Import Packet.
From S2P Require Import BTree.
From S2P Require Import Cid.
From S2P Require Import Socket.
From S2P Require Import SocketTables.

#[local] Open Scope Z_scope.

(** The implementations of the interface [LinkDecider]. *)
Inductive LinkDecider :=
  | ManualLinkDecider (upSwitch : bool)
  | DropFirstNSent (targetDropsN curDropsN : Z).

Definition newManualLinkDecider : LinkDecider := ManualLinkDecider true.
Definition newDropFirstNSent (dropsN : Z) : LinkDecider := DropFirstNSent dropsN 0.

Definition shouldSend (d : LinkDecider) : bool * LinkDecider :=
  match d with
  | ManualLinkDecider upSwitch => (upSwitch, d)
  | DropFirstNSent target cur => if cur <? target then (false, DropFirstNSent target (cur + 1)) else (true, d)
  end.

Inductive mock_error := ErrChClosed.

(** A channel of capacity one; the sockets name the channels. *)
Record mock_chan := mk_chan { mc_queue : list (list Z); mc_closed : bool }.

Record MockUdpSocket := mk_MockUdpSocket {
  mu_sendCh : Z;
  mu_recvCh : Z;
  mu_onlyPeer : string;
  mu_linkDecider : LinkDecider;
}.

(** [buf] is the caller's slice; the result has its new contents. *)
Definition mock_ReadFrom (s : MockUdpSocket) (buf : list Z) (chans : gmap Z mock_chan)
    : outcome ((mock_error + Z * string * list Z) * gmap Z mock_chan) :=
  match chans !! mu_recvCh s with
  | Some (mk_chan (b :: q) closed) =>
      let chans := <[mu_recvCh s := mk_chan q closed]> chans in
      if len buf <? len b then mret (inl ErrChClosed, chans)
      else mret (inr (len b, mu_onlyPeer s, go_copy buf b), chans)
  | Some (mk_chan [] true) => mret (inl ErrChClosed, chans)
  | _ => NoFuel
  end.

Definition mock_WriteTo (b : list Z) (dst : string) (s : MockUdpSocket) (chans : gmap Z mock_chan)
    : outcome (Z * MockUdpSocket * gmap Z mock_chan) :=
  if negb (bool_decide (dst = mu_onlyPeer s)) then Panic PanicWrongPeer
  else
    let '(send, d) := shouldSend (mu_linkDecider s) in
    let s := mk_MockUdpSocket (mu_sendCh s) (mu_recvCh s) (mu_onlyPeer s) d in
    if negb send then mret (len b, s, chans)
    else
      match chans !! mu_sendCh s with
      | Some (mk_chan [] false) => mret (len b, s, <[mu_sendCh s := mk_chan [b] false]> chans)
      | Some (mk_chan _ true) => Panic PanicSendOnClosedChannel
      | _ => NoFuel
      end.

(** [peerACh] and [peerBCh] are the channels 0 and 1. *)
Definition peerA : string := "peerA".
Definition peerB : string := "peerB".
Definition buildLinkPair (aDecider bDecider : LinkDecider) : MockUdpSocket * MockUdpSocket * gmap Z mock_chan :=
  (mk_MockUdpSocket 0 1 peerB aDecider, mk_MockUdpSocket 1 0 peerA bDecider,
   {[ 0 := mk_chan [] false; 1 := mk_chan [] false ]}).

Section cids.
Context `{Hasher}.

Definition buildCidPair (socketA socketB : MockUdpSocket) (lowerId : Z) : ConnectionId * ConnectionId :=
  let higherId := lowerId ⊕ 1 in
  (NewConnectionId (mu_onlyPeer socketA) lowerId higherId, NewConnectionId (mu_onlyPeer socketB) higherId lowerId).

Definition buildConnectedPair : MockUdpSocket * ConnectionId * MockUdpSocket * ConnectionId * gmap Z mock_chan :=
  let '(socketA, socketB, chans) := buildLinkPair newManualLinkDecider newManualLinkDecider in
  let '(cidA, cidB) := buildCidPair socketA socketB 100 in
  (socketA, cidA, socketB, cidB, chans).

Definition buildLinkDropSentPair (n : Z) : MockUdpSocket * ConnectionId * MockUdpSocket * ConnectionId * gmap Z mock_chan :=
  let '(socketA, socketB, chans) := buildLinkPair newManualLinkDecider (newDropFirstNSent n) in
  let '(cidA, cidB) := buildCidPair socketA socketB 100 in
  (socketA, cidA, socketB, cidB, chans).

(** The two ids name the same connection: what one side sends, with its send
    number (or, in the SYN, its receive number), is filed at the other side under
    the other's id. *)
Lemma cid_pair_routes sA sB low p :
  is_u16 low →
  let '(cidA, cidB) := buildCidPair sA sB low in
  (h_PacketType (Header p) = st_syn → h_ConnectionId (Header p) = cid_Recv cidA →
   key_of p (mu_onlyPeer sB) IdTypeRecvId = cid_hash cidB) ∧
  (h_PacketType (Header p) ≠ st_syn → h_ConnectionId (Header p) = cid_Send cidA →
   key_of p (mu_onlyPeer sB) IdTypeRecvId = cid_hash cidB) ∧
  (h_PacketType (Header p) ≠ st_syn → h_ConnectionId (Header p) = cid_Send cidB →
   key_of p (mu_onlyPeer sA) IdTypeSendIdWeInitiated = cid_hash cidA).
Proof.
  intros Hl. unfold buildCidPair, key_of, CidFromPacket. cbn. split_and!; intros Hty ->; [rewrite Hty; done| |done].
  replace (low ⊕ 1 ⊖ 1) with low by go_lia. by destruct (h_PacketType (Header p)).
Qed.
End cids.

(** ** Exchanges *)

(** One side writes packets; the other reads after each one that got through. *)
Fixpoint exchange (bs : list (list Z)) (buf : list Z) (from to : MockUdpSocket) (chans : gmap Z mock_chan)
    : outcome (list (mock_error + Z * string * list Z) * MockUdpSocket * gmap Z mock_chan) :=
  match bs with
  | [] => mret ([], from, chans)
  | b :: bs =>
      '(_, from, chans) ← mock_WriteTo b (mu_onlyPeer from) from chans;
      match chans !! mu_recvCh to with
      | Some (mk_chan (_ :: _) _) =>
          '(r, chans) ← mock_ReadFrom to buf chans;
          '(rs, from, chans) ← exchange bs buf from to chans;
          mret (r :: rs, from, chans)
      | _ => exchange bs buf from to chans
      end
  end.

(** The link that drops the first [n] packets delivers the others, in order. *)
Theorem drop_link_delivers `{Hasher} (n : Z) (bs : list (list Z)) (buf : list Z) :
  0 ≤ n → Forall (λ b, len b ≤ len buf) bs →
  let '(socketA, _, socketB, _, chans) := buildLinkDropSentPair n in
  ∃ socketB' chans', exchange bs buf socketB socketA chans
    = Ret ((λ b, inr (len b, peerB, go_copy buf b)) <$> drop (Z.to_nat n) bs, socketB', chans').
Proof.
  intros Hn Hbs. cbn. set (A := mk_MockUdpSocket 0 1 peerB _). set (chans := {[0 := _; 1 := _]}).
  assert (Hgen : ∀ cur cs, 0 ≤ cur ≤ n → cs !! 1 = Some (mk_chan [] false) →
    ∃ B' chans', exchange bs buf (mk_MockUdpSocket 1 0 peerA (DropFirstNSent n cur)) A cs
      = Ret ((λ b, inr (len b, peerB, go_copy buf b)) <$> drop (Z.to_nat (n - cur)) bs, B', chans')).
  { induction Hbs as [|b bs Hb Hbs IH]; intros cur cs Hcur Hc; [rewrite drop_nil; by eexists _, _|].
    cbn [exchange]. unfold mock_WriteTo. cbn. rewrite bool_decide_eq_true_2 by done. destruct (Z.ltb_spec cur n) as [Hlt|Hge]; cbn.
    - rewrite Hc. cbn. destruct (IH (cur + 1) cs ltac:(lia) Hc) as (B' & cs' & E). eexists _, _. rewrite E.
      replace (Z.to_nat (n - cur)) with (S (Z.to_nat (n - (cur + 1)))) by lia. done.
    - rewrite Hc. cbn. rewrite lookup_insert_eq. cbn. unfold mock_ReadFrom. cbn. rewrite lookup_insert_eq.
      destruct (Z.ltb_spec (len buf) (len b)); [lia|]. cbn. replace (Z.to_nat (n - cur)) with 0%nat in * by lia.
      edestruct (IH cur (<[1:=mk_chan [] false]> (<[1:=mk_chan [b] false]> cs)) Hcur) as (B' & cs' & E); [apply lookup_insert_eq|].
      eexists _, _. rewrite E. replace (Z.to_nat (n - cur)) with 0%nat by lia. done. }
  destruct (Hgen 0 chans ltac:(lia) eq_refl) as (B' & cs' & E). rewrite Z.sub_0_r in E. by eexists B', cs'.
Qed.
