(* ===== verification/Stream.v ===== *)
(** * The stream (stream.go)

    What a caller of [ReadToEOF] and [Write] gets.  A blocking [select] takes
    the sequence of what becomes ready as an argument; a call that would wait for
    ever runs out of it.  The theorems connect the stream with the connection of
    Conn.v: the results that [processReads] and [processWrites] put on the
    channels are the ones that the calls take. *)

From Stdlib Require Import ZArith Lia.
From stdpp Require Import base list gmap fin_maps.
From S2P Require Import Prelude.
From S2P Require Import Hoare.
From S2P Require Import SelectiveAck.
From S2P Require Import Packet.
From S2P Require Import SendBuffer.
From S2P Require Import BTree.
From S2P Require Import RecvBuffer.
From S2P Require Import TimeWheel.
From S2P Require Import Float64.
From S2P Require Import Controller.
From S2P Require Import Congestion.
From S2P Require Import SentPackets.
From S2P Require Import Cid.
From S2P Require Import Conn.
From S2P Require Import ConnStates.
From S2P Require Import Emissions.
From S2P Require Import ConnSafety.
From S2P Require Import ConnLoop.

Inductive stream_error :=
  | ErrNotConnected
  | SeResult (e : error)
  | SeCtx
  | SeStreamCtx.

(** The fields of the stream that its methods change. *)
Record UtpStream := mk_UtpStream {
  us_shutdown : bool;
  us_cancelled : bool;
  us_closed : bool;
}.

(** What [ReadToEOF] finds ready: a result, the closed channel, a context. *)
Inductive read_input :=
  | RdResult (res : readOrWriteResult)
  | RdChanClosed
  | RdCtxDone
  | RdStreamDone.

Fixpoint read_to_eof (ins : list read_input) (n : Z) (data buf : list Z)
    : outcome (Z * option stream_error * list Z) :=
  match ins with
  | [] => NoFuel
  | RdCtxDone :: _ => mret (n, Some SeCtx, buf)
  | RdStreamDone :: _ => mret (0, Some SeStreamCtx, buf)
  | RdChanClosed :: _ => mret (n, None, buf)
  | RdResult res :: ins =>
      if len (rw_Data res) =? 0 then mret (n, SeResult <$> rw_Err res, buf)
      else
        d ← slice (rw_Data res) 0 (rw_Len res);
        read_to_eof ins (n + rw_Len res) (data ++ d) (data ++ d)
  end.

Definition ReadToEOF (ins : list read_input) (buf : list Z) : outcome (Z * option stream_error * list Z) :=
  read_to_eof ins 0 [] buf.

(** What [Write] finds ready: the queue ([WrQueued]) and then a result (possibly
    nil), or a context. *)
Inductive write_wait := WrResult (res : option readOrWriteResult) | WrCtxDone | WrStreamDone.

Definition stream_Write (queued : bool) (wait : write_wait) (resCh : Z) (buf : list Z) (s : UtpStream)
    : option queuedWrite * (Z * option stream_error) :=
  if us_shutdown s then (None, (0, Some ErrNotConnected))
  else if queued then
    (Some (mk_queuedWrite buf 0 resCh),
     match wait with
     | WrResult (Some writeRes) => (rw_Len writeRes, SeResult <$> rw_Err writeRes)
     | WrResult None => (0, None)
     | WrCtxDone => (0, Some SeCtx)
     | WrStreamDone => (0, Some SeStreamCtx)
     end)
  else (None, (0, Some SeCtx)).

(** [closeOnce] makes a second call do nothing. *)
Definition stream_Close (s : UtpStream) : UtpStream :=
  if us_closed s then s else mk_UtpStream true true true.

(** ** The life of a stream *)

Section life.
Context `{BTreeImpl} `{FloatConv}.

(** The loop proper: the error of the connection, or of the context.  The inputs
    are what becomes ready; without a next one the loop waits. *)
Fixpoint event_loop (steps : list (env * conn_input)) : M (option stream_error) :=
  match steps with
  | [] => λ _, NoFuel
  | (e, i) :: steps =>
      returned ←! loop_step e i;
      if returned : bool then
        match i with
        | InCtxDone => done_ (Some SeStreamCtx)
        | _ => c ←! get_; done_ (SeResult <$> cs_Err (c_state c))
        end
      else event_loop steps
  end.

(** [eventLoop], with its deferred call. *)
Definition eventLoop (e : env) (steps : list (env * conn_input)) : M (option stream_error) :=
  start e ;!
  err ←! event_loop steps;
  c ←! get_;
  tw ←! lift_ (tw_stop (c_unacked c));
  modify_ (with_unacked tw) ;!
  done_ err.

(** [NewUtpStream] starts [eventLoop] in a goroutine. *)
Definition NewUtpStream (e : env) (cid : ConnectionId) (config : ConnectionConfig) (syn : option packet)
    (connected : option bool) : outcome (UtpStream * connection) :=
  c ← newConnection e cid config syn connected;
  mret (mk_UtpStream false false false, c).

(** How the loop ended: with the context cancelled, and then the socket is not
    told; or with the connection closed, and then the notice to the socket is the
    last message, sent this once. *)
Definition ended_with (steps : list (env * conn_input)) (r : option stream_error) (c : connection) : Prop :=
  (r = Some SeStreamCtx ∧ (∃ e, (e, InCtxDone) ∈ steps) ∧ EvShutdown ∉ c_out c) ∨
  (c_type c = ConnClosed ∧ r = SeResult <$> cs_Err (c_state c) ∧
   ∃ evs, c_out c = evs ++ [EvShutdown] ∧ EvShutdown ∉ evs).

Lemma ended_with_later s steps r c : ended_with steps r c → ended_with (s :: steps) r c.
Proof. intros [(Hr & [e He] & Hn)|Hr]; [left|by right]. split_and!; [done|exists e; by right|done]. Qed.

(** A turn sends no notice before its end. *)
Lemma quiet_calm evs : Forall (calm (λ _, True)) evs → EvShutdown ∉ evs.
Proof. rewrite Forall_forall. intros Hall Hin. exact (Hall _ Hin). Qed.

Lemma event_loop_run steps c b c' :
  EvShutdown ∉ c_out c → conn_run steps c = Ret (inr b, c') →
  if b : bool then ∃ r, event_loop steps c = Ret (inr r, c') ∧ ended_with steps r c' else event_loop steps c = NoFuel.
Proof.
  revert c. induction steps as [|[e i] steps IH]; intros c Hn E; cbn [conn_run event_loop] in *; [by injection E as <- <-|].
  unfold bind_ in E at 1. destruct (loop_step e i c) as [[[err|ret] c1]| |] eqn:E1; cbn in E; try done.
  rewrite (bind_Ret _ _ _ _ _ E1).
  destruct (loop_step_emits (λ _, True) (λ _, I) e i c ret c1 (λ _ _, I) E1) as (evs & Ho & Hq%quiet_calm).
  assert (Hn1 : EvShutdown ∉ c_out c ++ evs) by (rewrite elem_of_app; tauto). rewrite app_assoc in Ho. destruct ret.
  - injection E as <- <-. pose proof (loop_step_ends e i c c1 true E1) as Hx.
    destruct i; try done; try (eexists; split; [done|]; right; split_and!; [by apply Hx|done|by exists (c_out c ++ evs)]).
    eexists. split; [done|]. left. cbn [notice] in Ho. rewrite app_nil_r in Ho. rewrite Ho. split_and!; [done| |done]. exists e. left.
  - assert (Hn2 : EvShutdown ∉ c_out c1) by (rewrite Ho; destruct i; cbn [notice]; by rewrite app_nil_r).
    specialize (IH c1 Hn2 E). destruct b; [|done]. destruct IH as (r & El & Hr). exists r. split; [done|]. by apply ended_with_later.
Qed.

Lemma event_loop_panic steps c p : conn_run steps c = Panic p → event_loop steps c = Panic p.
Proof.
  revert c. induction steps as [|[e i] steps IH]; intros c; cbn [conn_run event_loop]; [done|].
  intros E. unfold bind_ in E at 1. destruct (loop_step e i c) as [[[err|[]] c1]| |] eqn:E1; cbn in E; try done.
  - rewrite (bind_Ret _ _ _ _ _ E1). by apply IH.
  - injection E as ->. by apply bind_panic.
Qed.
End life.

(** ** Reading *)

Definition read_results (evs : list conn_event) : list read_input :=
  omap (λ ev, match ev with EvRead res => Some (RdResult res) | _ => None end) evs.

Lemma read_results_read rs : read_results (EvRead <$> rs) = RdResult <$> rs.
Proof. induction rs as [|r rs IH]; [done|]. simpl. by f_equal. Qed.

Lemma read_to_eof_handed rs bytes tail n data buf :
  handed_out rs bytes →
  read_to_eof ((RdResult <$> rs) ++ tail) n data buf
  = read_to_eof tail (n + len bytes) (data ++ bytes) (if decide (rs = []) then buf else data ++ bytes).
Proof.
  intros [Hall <-]. revert n data buf. induction Hall as [|r rs [_ Hr] Hall IH]; intros n data buf.
  - simpl. rewrite len_nil, Z.add_0_r, app_nil_r. done.
  - rewrite fmap_cons. cbn [app read_to_eof]. destruct (Z.eqb_spec (len (rw_Data r)) 0); [lia|].
    rewrite slice_prefix by lia. cbn [mbind outcome_bind]. rewrite IH. rewrite (decide_False (P := r :: rs = [])) by done.
    rewrite fmap_cons. cbn [concat]. rewrite len_app, len_take, app_assoc. f_equal; [lia|].
    case_decide as Ers; [|done]. subst rs. simpl. by rewrite app_nil_r.
Qed.

(** C24.  Reading to the end.  When the FIN of the peer has been reached,
    [processReads] hands out everything the receive buffer holds in order and
    then the end of file; a reader that takes these results gets exactly the
    bytes of the buffer, their number, and [io.EOF]. *)
Theorem ReadToEOF_returns_stream `{BTreeLaws} `{FloatConv} (T0 n : Z) (c : connection) (rb : receiveBuffer)
    (buf : list Z) (more : list read_input) :
  loop_inv T0 n c → c_type c = ConnConnected → cs_RecvBuf (c_state c) = Some rb →
  remote_fin c = Some (rb_AckNum rb) →
  ∃ c' rb' evs, processReads c = Ret (inr tt, c') ∧ c_out c' = c_out c ++ evs ∧
    cs_RecvBuf (c_state c') = Some rb' ∧ readable rb' = [] ∧
    ReadToEOF (read_results evs ++ more) buf
    = Ret (len (readable rb), Some (SeResult ErrEOF), match readable rb with [] => buf | bytes => bytes end).
Proof.
  intros [W (Hb & _ & Hs)] Ht Erb Hfin. rewrite Ht in Hs. destruct Hs as (rb0 & sb & sp & Hc & _).
  assert (rb0 = rb) as -> by (rewrite (cn_recv _ _ _ _ _ _ Hc) in Erb; congruence).
  destruct (processReads_connected T0 n c rb sb sp Hc Ht (bi_cfg c Hb))
    as ([] & c' & E & rb' & rs & Hc' & _ & Ho & Hh & Hr' & _).
  assert (Heof : at_eof c rb = true).
  { unfold remote_fin in Hfin. unfold at_eof. destruct (cs_closing (c_state c)) as [[l [r|]]|]; try done.
    simpl in Hfin. injection Hfin as ->. apply Z.eqb_refl. }
  rewrite Heof in Ho. eexists c', rb', _. split_and!; [exact E|exact Ho|apply Hc'|exact Hr'|].
  rewrite read_results_read, fmap_app, <- app_assoc. unfold ReadToEOF.
  rewrite (read_to_eof_handed rs (readable rb)) by done. simpl. do 3 f_equal.
  destruct Hh as [Hall <-]. destruct Hall as [|r rs [_ Hr] Hall]; [done|]. rewrite decide_False by done.
  rewrite fmap_cons. cbn [concat]. destruct (take _ (rw_Data r) ++ _) eqn:Et; [|done].
  apply app_eq_nil in Et as [Et _]. assert (Hl : len (take (Z.to_nat (rw_Len r)) (rw_Data r)) = 0) by (by rewrite Et).
  rewrite len_take in Hl. lia.
Qed.

(** What the caller of [Write] gets, by the state in which [processWrites] runs. *)
Definition write_answer `{BTreeImpl} (c : connection) (total : Z) : Z * option stream_error :=
  match c_type c with
  | ConnClosed => (0, SeResult <$> cs_Err (c_state c))
  | _ => (total, None)
  end.

(** C25.  Results of writes.  While every waiting write adds up to the length its
    caller asked for, a pass of [processWrites] keeps it so, in every state.  A
    connection that is connecting answers no write.  A connected one answers only
    writes whose bytes it has all taken: the caller of [Write] gets the full
    length and no error, never a part of it.  A closed one answers every waiting
    write, in order, with length 0 and the error of the connection (nil after a
    close without error), also a write of which a part was already taken. *)
Theorem write_results_full_length `{BTreeLaws} `{FloatConv} (T0 n : Z) (e : env) (c : connection) (tot : Z → Z) :
  loop_inv T0 n c → has_room c → 1 ≤ n → env_ok T0 e →
  Forall (λ w, qw_written w + len (qw_data w) = tot (qw_resultCh w)) (c_pendingWrites c) →
  ∃ c' evs, processWrites e (e_now e) c = Ret (inr tt, c') ∧ c_out c' = c_out c ++ evs ∧
    Forall (λ w, qw_written w + len (qw_data w) = tot (qw_resultCh w)) (c_pendingWrites c') ∧
    (∀ ch res buf, EvWrite ch res ∈ evs →
      stream_Write true (WrResult (Some res)) ch buf (mk_UtpStream false false false)
      = (Some (mk_queuedWrite buf 0 ch), write_answer c (tot ch))) ∧
    (c_type c = ConnConnecting → evs = []) ∧
    (c_type c = ConnClosed → evs = closed_answer c <$> c_pendingWrites c).
Proof.
  intros [W (Hb & _ & Hs)] Hr Hn [Hnow _] Hw. destruct (c_type c) eqn:Ht.
  - rewrite processWrites_connecting by done. exists c, []. rewrite app_nil_r. split_and!; try done.
    intros ch res buf Hin. by apply not_elem_of_nil in Hin.
  - destruct Hs as (rb & sb & sp & Hc & _).
    destruct (processWrites_connected T0 e (e_now e) n c rb sb sp Hc Ht Hb Hn Hnow)
      as ([] & c' & E & sb' & sp' & evs & _ & Ho & _ & _ & _ & _ & _ & Hk).
    { apply Hr; apply Hc. }
    destruct (Hk tot Hw) as [Hw' Hans]. exists c', evs. split_and!; try done.
    intros ch res buf Hin. rewrite Forall_forall in Hans. specialize (Hans _ Hin). destruct Hans as [He Hl].
    unfold stream_Write, write_answer. simpl. by rewrite Ht, He, Hl.
  - rewrite processWrites_closed by done. eexists _, _. split_and!; [done..| |done|done].
    intros ch res buf (w & [= -> ->] & _)%list_elem_of_fmap. unfold stream_Write, write_answer. simpl. by rewrite Ht.
Qed.

(** C11.  The life of a stream.  For a usable configuration [NewUtpStream] returns,
    and its goroutine, on any sequence of events, waits for more, returns, or dies
    of the FIN that the congestion controller refuses ([dies_of_fin]: the stream
    was shut down, nothing was left to send, and the bytes in flight exceed the
    window).  When it returns, the timer of the connection is stopped (once:
    stopping it again would panic), and either the connection is closed, its error
    is returned, and the last message is the notice to the socket, the only one;
    or the context was cancelled, its error is returned, and the socket is not
    told. *)
Theorem stream_lifecycle `{BTreeLaws} `{FloatConv} (T0 : Z) (e e' : env) (cid : ConnectionId)
    (cfg : ConnectionConfig) (syn : option packet) :
  cfg_ok cfg → cid_ok cid → is_u16 (e_rand e) → (∀ p, syn = Some p → header_wf (Header p)) →
  ∃ s c, NewUtpStream e cid cfg syn (Some true) = Ret (s, c) ∧ us_shutdown s = false ∧
  ∃ c', start e' c = Ret (inr tt, c') ∧
    ∀ steps, turns_ok T0 steps c' → len steps < MaxUint32 - 1 →
      (eventLoop e' steps c = NoFuel ∧ ∃ c1, conn_run steps c' = Ret (inr false, c1) ∧ EvShutdown ∉ c_out c1) ∨
      (eventLoop e' steps c = Panic PanicController ∧ dies_of_fin steps c') ∨
      ∃ r c1, eventLoop e' steps c = Ret (inr r, c1) ∧ ended_with steps r c1 ∧ tw_stopped (c_unacked c1) = true ∧
        tw_stop (c_unacked c1) = Panic PanicCloseOfClosedChannel.
Proof.
  intros Hcfg Hcid Hr Hsyn. destruct (start_total T0 e e' cid cfg syn Hcfg Hcid Hr Hsyn) as (c & c' & E & Es & Hi).
  exists (mk_UtpStream false false false), c. unfold NewUtpStream. rewrite E. split_and!; [done..|]. exists c'. split; [done|].
  assert (Hout : EvShutdown ∉ c_out c').
  { destruct (start_emits (λ _, True) (λ _, I) e' c _ _ Es) as (evs & -> & Hq%quiet_calm). by rewrite (newConnection_out _ _ _ _ _ _ E). }
  intros steps Hok Hlen. unfold eventLoop. rewrite (bind_Ret _ _ _ _ _ Es).
  destruct (conn_run_cases T0 steps 1 c') as [(b & c1 & Er & W & Hi1)|[Ep Hd]]; [by exists []|lia|lia|done|..].
  2: { right. left. split; [|done]. apply bind_panic. by apply event_loop_panic. }
  pose proof (event_loop_run steps c' b c1 Hout Er) as Hl. destruct b.
  - right. right. destruct Hl as (r & El & Hend). rewrite (bind_Ret _ _ _ _ _ El). erewrite bind_Ret by done.
    destruct Hi1 as (Hb & _). pose proof (ti_running _ (bi_wheel _ Hb)) as Hrun.
    erewrite bind_Ret; [|unfold lift_, tw_stop; by rewrite Hrun]. erewrite bind_Ret by done. by eexists r, _.
  - left. split; [unfold bind_ at 1; by rewrite Hl|]. exists c1. split; [done|].
    destruct (conn_run_emits (λ _, True) (λ _, I) steps c' c1 (λ _ _ _ _, I) Er) as (evs & -> & Hq%quiet_calm).
    rewrite elem_of_app. tauto.
Qed.

(** ** Witnesses *)

(** The connection of the demonstration after it has sent its data and received
    three bytes, and after the FIN of the peer. *)
Definition demo_in_data : conn_input :=
  InIncoming (Build (WithPayload [7; 8; 9] (WithAckNum 100 (NewPacketBuilder st_data 7 0 256 500)))).
Definition demo_in_fin : conn_input := InIncoming (Build (WithAckNum 100 (NewPacketBuilder st_fin 7 0 256 501))).
Definition demo_sent : connection := demo_turn 3 InWritable demo_connected.
Definition demo_received : connection := demo_turn 4 demo_in_data demo_sent.
Definition demo_reading : connection := demo_turn 5 demo_in_fin demo_received.

Lemma demo_reading_inv : loop_inv 0 6 demo_reading.
Proof.
  assert (Hs : loop_inv 0 4 demo_sent).
  { apply (demo_turn_inv 3 _ 3); [apply demo_connected_inv|apply demo_connected_room|done..|vm_compute; reflexivity]. }
  assert (Hr : loop_inv 0 5 demo_received).
  { apply (demo_turn_inv 4 _ 4); [exact Hs| |done|done| |vm_compute; reflexivity].
    - apply (demo_room _ 0 1 252); vm_compute; reflexivity.
    - split; vm_compute; split; congruence. }
  apply (demo_turn_inv 5 _ 5); [exact Hr| |done|done| |vm_compute; reflexivity].
  - apply (demo_room _ 0 1 252); vm_compute; reflexivity.
  - split; vm_compute; split; congruence.
Qed.

Lemma ReadToEOF_returns_stream_witness :
  ∃ c' evs, processReads demo_reading = Ret (inr tt, c') ∧ c_out c' = c_out demo_reading ++ evs ∧
    ReadToEOF (read_results evs) [] = Ret (3, Some (SeResult ErrEOF), [7; 8; 9]).
Proof.
  assert (Hrb : option_map (λ rb, (rb_AckNum rb, readable rb)) (cs_RecvBuf (c_state demo_reading)) = Some (501, [7; 8; 9]))
    by (vm_compute; reflexivity).
  destruct (cs_RecvBuf (c_state demo_reading)) as [rb|] eqn:Erb; [|discriminate Hrb].
  assert (rb_AckNum rb = 501 ∧ readable rb = [7; 8; 9]) as [Ha Hd] by (injection Hrb; auto).
  destruct (ReadToEOF_returns_stream 0 6 demo_reading rb [] []) as (c' & rb' & evs & E & Ho & _ & _ & Hread).
  - apply demo_reading_inv.
  - vm_compute. reflexivity.
  - exact Erb.
  - rewrite Ha. vm_compute. reflexivity.
  - exists c', evs. split; [exact E|]. split; [exact Ho|]. rewrite app_nil_r, Hd in Hread. exact Hread.
Defined.

(** A write of which two bytes were taken, on a connection that is connected and
    on one that a reset has closed. *)
Definition demo_part : queuedWrite := mk_queuedWrite [5; 6] 2 0.
Definition demo_waiting : connection := with_pendingWrites [demo_part] demo_connected.
Definition demo_broken : connection := with_state (st_close (Some ErrReset)) demo_waiting.

Lemma demo_waiting_inv : loop_inv 0 3 demo_waiting ∧ loop_inv 0 3 demo_broken.
Proof.
  assert (Hi : loop_inv 0 3 demo_waiting).
  { destruct demo_connected_inv as [W Hi]. exists (W ++ [5; 6]).
    exact (inv_push 0 MAX_PACKETS W demo_part 3 demo_connected Hi ltac:(vm_compute; reflexivity)). }
  split; [exact Hi|]. destruct Hi as [W Hi].
  destruct (inv_close 0 MAX_PACKETS W 3 (Some ErrReset) demo_waiting Hi) as ([] & c' & E & Hi').
  exists W. injection E as <-. exact Hi'.
Qed.

Lemma write_results_full_length_witness :
  (∃ c' evs, processWrites (demo_env 3) 3 demo_waiting = Ret (inr tt, c') ∧
    c_out c' = c_out demo_waiting ++ evs ∧ EvWrite 0 (mk_result None 4 []) ∈ evs ∧
    ∀ ch res, EvWrite ch res ∈ evs → rw_Len res = 4 ∧ rw_Err res = None) ∧
  (∃ c' evs, processWrites (demo_env 3) 3 demo_broken = Ret (inr tt, c') ∧
    c_out c' = c_out demo_broken ++ evs ∧ evs = [EvWrite 0 (mk_result (Some ErrReset) 0 [])]).
Proof.
  split.
  - destruct (write_results_full_length 0 3 (demo_env 3) demo_waiting (λ _, 4)) as (c' & evs & E & Ho & _ & Hres & _).
    + apply demo_waiting_inv.
    + apply (demo_room _ 1 0 256); vm_compute; reflexivity.
    + lia.
    + apply demo_env_ok. lia.
    + repeat constructor.
    + exists c', evs. split; [exact E|]. split; [exact Ho|]. split.
      * assert (Hin : drop (length (c_out demo_waiting)) (c_out (outcome_of (processWrites (demo_env 3) 3) demo_waiting).2)
          !! 0%nat = Some (EvWrite 0 (mk_result None 4 []))) by (vm_compute; reflexivity).
        change (e_now (demo_env 3)) with 3 in E. unfold outcome_of in Hin. rewrite E in Hin. cbn [force snd] in Hin. rewrite Ho, drop_app_length in Hin.
        exact (list_elem_of_lookup_2 _ _ _ Hin).
      * intros ch res Hin. specialize (Hres ch res [] Hin).
        assert (Hw : write_answer demo_waiting 4 = (4, None)) by (vm_compute; reflexivity). rewrite Hw in Hres. injection Hres as Hl He.
        split; [exact Hl|]. destruct (rw_Err res); [discriminate He|reflexivity].
  - destruct (write_results_full_length 0 3 (demo_env 3) demo_broken (λ _, 4)) as (c' & evs & E & Ho & _ & _ & _ & Hcl).
    + apply demo_waiting_inv.
    + apply (demo_room _ 1 0 256); vm_compute; reflexivity.
    + lia.
    + apply demo_env_ok. lia.
    + repeat constructor.
    + exists c', evs. split; [exact E|]. split; [exact Ho|]. rewrite Hcl; vm_compute; reflexivity.
Defined.

Lemma stream_lifecycle_witness :
  ∃ s c, NewUtpStream (demo_env 0) demo_cid demo_config None (Some true) = Ret (s, c) ∧
    eventLoop (demo_env 0) [] c = NoFuel ∧
    Forall (λ steps, ∃ r c1, eventLoop (demo_env 0) steps c = Ret (inr r, c1) ∧ ended_with steps r c1)
      [[(demo_env 1, InTick); (demo_env 2, InCtxDone)]; [(demo_env 1, InShutdown)]].
Proof.
  destruct (stream_lifecycle 0 (demo_env 0) (demo_env 0) demo_cid demo_config None)
    as (s & c & E & _ & c' & Es & Hl).
  - apply demo_cfg_ok.
  - split; vm_compute; split; congruence.
  - vm_compute. split; congruence.
  - discriminate.
  - assert (c = demo_init) as -> by (unfold NewUtpStream in E; rewrite demo_init_eq in E; injection E; auto).
    assert (c' = demo_started) as -> by exact (demo_start_eq _ _ Es).
    exists s, demo_init. split; [exact E|]. split.
    + destruct (Hl [] I) as [[En _]|[[Ep _]|(r & c1 & Er & _)]]; [vm_compute; reflexivity|exact En|..].
      * unfold eventLoop in Ep. rewrite (bind_Ret _ _ _ _ _ Es) in Ep. discriminate Ep.
      * unfold eventLoop in Er. rewrite (bind_Ret _ _ _ _ _ Es) in Er. discriminate Er.
    + assert (Hend : ∀ steps, is_Ret (eventLoop (demo_env 0) steps demo_init) = true → turns_okb steps demo_started = true →
        len steps < MaxUint32 - 1 → ∃ r c1, eventLoop (demo_env 0) steps demo_init = Ret (inr r, c1) ∧ ended_with steps r c1).
      { intros steps Hret Hok Hlen.
        destruct (Hl steps (turns_okb_sound steps demo_started Hok) Hlen) as [[En _]|[[Ep _]|(r & c1 & Er & He & _)]].
        - rewrite En in Hret. discriminate Hret.
        - rewrite Ep in Hret. discriminate Hret.
        - exists r, c1. split; [exact Er|exact He]. }
      constructor; [|constructor; [|constructor]]; apply Hend; vm_compute; reflexivity.
Defined.
