(* ===== verification/Delivery.v ===== *)
(** * Delivery of the stream

    Two connections and a network between them that loses, duplicates and
    reorders packets.  The first part follows the receiver: what its handlers do
    to the bytes handed to the reader, when DATA and FIN packets come from a
    given list of packets.  The second part is the system of both connections,
    in which the network hands over any packet of the sender's trace, any number
    of times and in any order, through [Encode] and [DecodePacket]. *)

From Stdlib Require Import ZArith Lia.
From stdpp Require Import base list gmap fin_maps.
From S2P Require Import Prelude.
From S2P Require Import Hoare.
From S2P Require Import Seq.
From S2P Require Import SelectiveAck.
From S2P Require Import Packet.
From S2P Require Import SendBuffer.
From S2P Require Import BTree.
From S2P Require Import RecvBuffer.
From S2P Require Import TimeWheel.
From S2P Require Import Float64.
From S2P Require Import Controller.
From S2P Require Import Congestion.
From S2P Require Import SentPackets.
From S2P Require Import Cid.
From S2P Require Import Conn.
From S2P Require Import ConnStates.
From S2P Require Import Emissions.
From S2P Require Import ConnSafety.
From S2P Require Import ConnLoop.
From S2P Require Import Handshake.

(** ** Bytes handed to the reader *)

Definition read_bytes (evs : list conn_event) : list Z :=
  concat (omap (λ ev, match ev with
                      | EvRead r => Some (take (Z.to_nat (rw_Len r)) (rw_Data r))
                      | _ => None
                      end) evs).

Definition eof_result : readOrWriteResult := mk_result (Some ErrEOF) 0 [].

Lemma read_bytes_app l1 l2 : read_bytes (l1 ++ l2) = read_bytes l1 ++ read_bytes l2.
Proof. unfold read_bytes. by rewrite omap_app, concat_app. Qed.

(** The payloads of the first packets of a list. *)
Definition payload_at (ps : list (PacketType * list Z)) (i : nat) : list Z := default [] (snd <$> ps !! i).

Lemma payload_at_seq ps n : concat (payload_at ps <$> seq 0 n) = concat (take n ps).*2.
Proof.
  induction n as [|n IH]; [done|]. rewrite seq_S, fmap_app, concat_app, IH. simpl. rewrite app_nil_r.
  unfold payload_at. destruct (ps !! n) as [[t d]|] eqn:Hn; simpl.
  - rewrite (take_S_r _ _ _ Hn), fmap_app, concat_app. simpl. by rewrite app_nil_r.
  - apply lookup_ge_None in Hn. rewrite !take_ge by lia. apply app_nil_r.
Qed.

Lemma concat_take_prefix (ps : list (PacketType * list Z)) n : concat (take n ps).*2 `prefix_of` concat ps.*2.
Proof. exists (concat (drop n ps).*2). by rewrite <- concat_app, <- fmap_app, take_drop. Qed.

Section receiver.
Context `{BTreeLaws} `{FloatConv}.
Implicit Types c : connection.

(** The packets of the sender, in order, and the number before the first. *)
Context (ps : list (PacketType * list Z)) (init : Z).
Hypothesis Hps : len ps ≤ MAX_PACKETS.

(** [f] gives the payloads of the list (and anything beyond it). *)
Definition agrees (f : nat → list Z) : Prop := ∀ i t d, ps !! i = Some (t, d) → f i = d.

Lemma payload_at_agrees : agrees (payload_at ps).
Proof. intros i t d E. unfold payload_at. by rewrite E. Qed.

(** The state of a connection that receives packets of the list. *)
Record receives c : Prop := {
  rc_type : c_type c ≠ ConnConnecting;
  rc_cfg : 0 < MaxPacketSize (c_config c);
  rc_err : cs_Err (c_state c) ≠ Some ErrEOF;
  rc_buf : ∃ rb size got, cs_RecvBuf (c_state c) = Some rb ∧
    ∀ f, agrees f → reassembling f init size (read_bytes (c_out c)) got rb;
  rc_fin r : remote_fin c = Some r → ∃ i d, ps !! i = Some (st_fin, d) ∧ r = packet_seq init i;
  rc_eof : EvRead eof_result ∈ c_out c →
    ∃ i d, ps !! i = Some (st_fin, d) ∧ concat (take (S i) ps).*2 `prefix_of` read_bytes (c_out c);
}.

(** A handler keeps that state. *)
Definition keeps c c' : Prop := receives c → receives c'.

#[global] Instance keeps_preorder : PreOrder keeps.
Proof. split; [by intros c Hr|]. intros c1 c2 c3 H12 H23 Hr. by apply H23, H12. Qed.

Lemma receives_eq c c' :
  receives c → c_type c' ≠ ConnConnecting → c_config c' = c_config c → cs_Err (c_state c') ≠ Some ErrEOF →
  cs_RecvBuf (c_state c') = cs_RecvBuf (c_state c) → remote_fin c' = remote_fin c → c_out c' = c_out c → receives c'.
Proof. intros [] E1 E2 E3 E4 E5 E6. split; rewrite ?E2, ?E4, ?E5, ?E6; done. Qed.

(** Updates that leave the receive buffer and the trace as they are. *)
Ltac keep := let Hr := fresh in intros Hr; pose proof Hr as []; by eapply receives_eq.

Lemma keeps_send sb c : keeps c (with_state (st_send sb) c).
Proof. keep. Qed.
Lemma keeps_sent sp c : keeps c (with_state (st_sent sp) c).
Proof. keep. Qed.
Lemma keeps_close err c : err ≠ Some ErrEOF → keeps c (with_state (st_close err) c).
Proof. intros He. keep. Qed.
Lemma keeps_closed c : keeps c (with_state (st_type ConnClosed) c).
Proof. keep. Qed.
Lemma keeps_ch ch c : keeps c (with_state (st_connectedCh ch) c).
Proof. keep. Qed.
Lemma keeps_unacked tw c : keeps c (with_unacked tw c).
Proof. keep. Qed.
Lemma keeps_timeouts q c : keeps c (with_timeouts q c).
Proof. keep. Qed.
Lemma keeps_tokens r w c : keeps c (with_tokens r w c).
Proof. keep. Qed.
Lemma keeps_pending ws c : keeps c (with_pendingWrites ws c).
Proof. keep. Qed.
Lemma keeps_syn p c : keeps c (with_synState p c).
Proof. keep. Qed.
Lemma keeps_latest t c : keeps c (with_latestTimeout t c).
Proof. keep. Qed.
Lemma keeps_shutdown b c : keeps c (with_shutdown b c).
Proof. keep. Qed.
Lemma keeps_peer d w c : keeps c (with_peer d w c).
Proof. keep. Qed.
Lemma keeps_endpoint ep c : keeps c (with_endpoint ep c).
Proof. keep. Qed.
Lemma keeps_closing l r c :
  (remote_fin c = r) → keeps c (with_state (st_closing (mk_Closing l r)) c).
Proof. intros <-. keep. Qed.
Lemma keeps_emit ev c :
  match ev with EvRead _ => False | _ => True end → keeps c (with_out (c_out c ++ [ev]) c).
Proof.
  intros Hev [R1 R2 R3 R4 R5 R6]. assert (Hrd : read_bytes (c_out c ++ [ev]) = read_bytes (c_out c)).
  { rewrite read_bytes_app. destruct ev; try done; apply app_nil_r. }
  split; try done; cbn [c_out with_out]; rewrite Hrd; [done|].
  intros [Hin|Hin%list_elem_of_singleton]%elem_of_app; [by apply R6|]. by destruct ev.
Qed.
#[local] Hint Resolve keeps_send keeps_sent keeps_closed keeps_ch keeps_unacked keeps_timeouts keeps_tokens
  keeps_pending keeps_syn keeps_latest keeps_shutdown keeps_peer keeps_endpoint : conn.
#[local] Hint Extern 1 (keeps _ (with_state (st_close _) _)) => (apply keeps_close; done) : conn.
#[local] Hint Extern 1 (keeps _ (with_out (c_out _ ++ [?ev]) _)) => (apply keeps_emit; exact I) : conn.

Lemma deref_keeps {A} (f : ConnState → option A) c : ensures keeps (deref f) c.
Proof. intros r c' E. unfold deref in E. destruct (f (c_state c)); [|done]. by injection E as _ <-. Qed.
#[local] Hint Resolve deref_keeps : conn.

Ltac keeping := repeat first
  [ progress (auto with conn)
  | progress (unfold recvBuf, sendBuf, sent, notify_readable, notify_writable, stateType, closing, push_write,
              close_connected, send_connected, emit)
  | ensures_step ].

Lemma statePacket_keeps e c : ensures keeps (statePacket e) c.
Proof. unfold statePacket. keeping. Qed.
Lemma fin_packet_keeps e c : ensures keeps (fin_packet e) c.
Proof. unfold fin_packet. keeping. Qed.
Lemma synPacket_keeps e n c : ensures keeps (synPacket e n) c.
Proof. unfold synPacket. keeping. Qed.
Lemma transmit_keeps p now c : ensures keeps (transmit p now) c.
Proof. unfold transmit. keeping. Qed.
Lemma eof_keeps c : ensures keeps eof c.
Proof. unfold eof. keeping. Qed.
Lemma nothing_to_send_keeps c : ensures keeps nothing_to_send c.
Proof. unfold nothing_to_send. keeping. Qed.
#[local] Hint Resolve statePacket_keeps fin_packet_keeps synPacket_keeps transmit_keeps eof_keeps
  nothing_to_send_keeps : conn.

Lemma fill_keeps fuel c : ensures keeps (fill fuel) c.
Proof. revert c. induction fuel; intros c; simpl; keeping. Qed.
Lemma transmit_all_keeps e now n w a s l c : ensures keeps (transmit_all e now n w a s l) c.
Proof. revert n c. induction l; intros n c; simpl; keeping. Qed.
Lemma retransmit_all_keeps e now w d l c : ensures keeps (retransmit_all e now w d l) c.
Proof. revert c. induction l; intros c; simpl; keeping. Qed.
#[local] Hint Resolve fill_keeps transmit_all_keeps retransmit_all_keeps : conn.
Lemma processWrites_keeps e now c : ensures keeps (processWrites e now) c.
Proof. unfold processWrites. keeping. Qed.
Lemma retransmitLostPackets_keeps e now c : ensures keeps (retransmitLostPackets e now) c.
Proof. unfold retransmitLostPackets. keeping. Qed.
Lemma reply_keeps e p c : ensures keeps (reply e p) c.
Proof. unfold reply. keeping. Qed.
Lemma reset_keeps err c : err ≠ ErrEOF → ensures keeps (reset err) c.
Proof. intros He. assert (Some err ≠ Some ErrEOF) by congruence. unfold reset. keeping. Qed.
#[local] Hint Resolve processWrites_keeps retransmitLostPackets_keeps reply_keeps : conn.
#[local] Hint Extern 1 (ensures keeps (reset _) _) => (apply reset_keeps; done) : conn.
Lemma onWrite_keeps e w c : ensures keeps (onWrite e w) c.
Proof. unfold onWrite. keeping. Qed.
Lemma onTimeout_keeps e p now c : ensures keeps (onTimeout e p now) c.
Proof. unfold onTimeout. keeping. Qed.
Lemma onSyn_keeps n c : ensures keeps (onSyn n) c.
Proof. unfold onSyn. ensures_step. cbv zeta. destruct (ep_Type _); [keeping|]. destruct (negb _); keeping. Qed.
Lemma onReset_keeps c : ensures keeps onReset c.
Proof. unfold onReset. keeping. Qed.

(** ** Reading *)

Lemma receives_buf c rb :
  receives c → cs_RecvBuf (c_state c) = Some rb →
  ∃ size got, ∀ f, agrees f → reassembling f init size (read_bytes (c_out c)) got rb.
Proof.
  intros Hr E. destruct (rc_buf c Hr) as (rb' & size & got & E' & Hf). rewrite E in E'. injection E' as <-. eauto.
Qed.

(** What was read and what can be read are the first [consumed] packets. *)
Lemma receives_bytes c rb :
  receives c → cs_RecvBuf (c_state c) = Some rb →
  read_bytes (c_out c) ++ readable rb = concat (take (Z.to_nat (rb_consumed rb)) ps).*2 ∧ rb_inv rb ∧
  rb_initSeqNum rb = init.
Proof.
  intros Hr E. destruct (receives_buf c rb Hr E) as (size & got & Hf). destruct (Hf _ payload_at_agrees).
  split_and!; [|done|done]. by rewrite rs_bytes, payload_at_seq.
Qed.

(** One [Read] with its result. *)
Lemma receives_read c rb buf n buf' rb' :
  receives c → cs_RecvBuf (c_state c) = Some rb → rb_Read buf rb = Ret (n, buf', rb') →
  receives (with_out (c_out c ++ [EvRead (mk_result None n buf')]) (with_state (st_recv rb') c)).
Proof.
  intros Hr E Hrd. destruct (receives_buf c rb Hr E) as (size & got & Hf). destruct Hr as [R1 R2 R3 _ R5 R6].
  assert (Hb : read_bytes (c_out c ++ [EvRead (mk_result None n buf')]) = read_bytes (c_out c) ++ take (Z.to_nat n) buf')
    by (rewrite read_bytes_app; f_equal; apply app_nil_r).
  split; try done; cbn [c_out with_out c_state with_state]; rewrite Hb.
  - exists rb', size, got. split; [done|]. intros f Hag. by eapply reassembling_Read; [apply Hf|].
  - intros [Hin|Hin%list_elem_of_singleton]%elem_of_app; [|discriminate Hin].
    destruct (R6 Hin) as (i & d & Hi & Hpre). exists i, d. split; [done|]. by apply prefix_app_r.
Qed.

Lemma receives_read_empty c rb buf buf' rb' :
  receives c → cs_RecvBuf (c_state c) = Some rb → rb_Read buf rb = Ret (0, buf', rb') →
  receives (with_state (st_recv rb') c).
Proof.
  intros Hr E Hrd. destruct (receives_buf c rb Hr E) as (size & got & Hf). destruct Hr as [R1 R2 R3 _ R5 R6].
  split; try done. exists rb', size, got. split; [done|]. intros f Hag.
  pose proof (reassembling_Read f init size _ _ _ _ _ _ _ (Hf f Hag) Hrd) as HR. by rewrite app_nil_r in HR.
Qed.

Lemma read_loop_receives fuel c r c' :
  receives c → read_loop fuel c = Ret (r, c') →
  receives c' ∧ ∃ rb', cs_RecvBuf (c_state c') = Some rb' ∧ readable rb' = [].
Proof.
  revert c. induction fuel as [|fuel IH]; intros c Hr E; [done|]. cbn [read_loop] in E.
  destruct (rc_buf c Hr) as (rb & _ & _ & Erb & _).
  erewrite bind_Ret in E; [|unfold recvBuf, deref; by rewrite Erb].
  destruct (receives_bytes c rb Hr Erb) as (_ & Hinv & _).
  destruct (rb_IsEmpty rb) eqn:Hempty.
  { injection E as _ <-. split; [done|]. exists rb. split; [done|]. apply readable_empty.
    unfold rb_IsEmpty in Hempty. apply andb_true_iff in Hempty as [Hempty%Z.eqb_eq _]. lia. }
  erewrite bind_Ret in E by done.
  set (buf := replicate (Z.to_nat (MaxPacketSize (c_config c))) 0) in E.
  assert (Hlen : len buf = MaxPacketSize (c_config c)) by (unfold len, buf; rewrite length_replicate; pose proof (rc_cfg c Hr); lia).
  destruct (rb_Read_spec buf rb Hinv) as (buf' & rb' & Erd & Hinv' & _ & _ & _ & _ & _ & Ho & _).
  erewrite bind_Ret in E; [|unfold lift_; by rewrite Erd]. cbv beta iota in E. erewrite bind_Ret in E by done.
  destruct (Z.eqb_spec (Z.min (len buf) (rb_offset rb)) 0) as [Hz|Hz].
  - injection E as _ <-. rewrite Hz in Erd. split; [by eapply receives_read_empty|]. exists rb'. split; [done|].
    apply readable_empty. rewrite Ho. pose proof (rc_cfg c Hr). destruct Hinv. lia.
  - erewrite bind_Ret in E by done. eapply IH; [|exact E]. exact (receives_read c rb buf _ buf' rb' Hr Erb Erd).
Qed.

Lemma processReads_keeps c : ensures keeps processReads c.
Proof.
  intros r c' E Hr. unfold processReads in E. erewrite bind_Ret in E by done. fold (c_type c) in E.
  destruct (c_type c) eqn:Ht; [by injection E as _ <-|..].
  - destruct (rc_buf c Hr) as (rb & _ & _ & Erb & _). rewrite Erb in E.
    unfold bind_ at 1 in E. destruct (read_loop _ c) as [[[err|[]] c1]| |] eqn:E1; simpl in E; try done.
    { injection E as _ <-. by eapply read_loop_receives. }
    destruct (read_loop_receives _ _ _ _ Hr E1) as [Hr1 (rb1 & Erb1 & Hempty)].
    assert (Ht1 : c_type c1 = ConnConnected) by (by rewrite (fr_type _ _ (read_loop_frame _ _ _ _ E1))).
    destruct (receives_bytes c1 rb1 Hr1 Erb1) as (Hb & Hinv & Hinit). rewrite Hempty, app_nil_r in Hb.
    unfold bind_ at 1, eof in E. erewrite bind_Ret in E by done. unfold c_type in Ht1. rewrite Ht1 in E.
    destruct (cs_closing (c_state c1)) as [[l [rf|]]|] eqn:Hcl; try by injection E as _ <-.
    erewrite bind_Ret in E; [|unfold recvBuf, deref; by rewrite Erb1]. simpl in E.
    destruct (Z.eqb_spec (rb_AckNum rb1) rf) as [Hack|]; [|by injection E as _ <-]. injection E as _ <-.
    assert (Hfin : remote_fin c1 = Some rf) by (unfold remote_fin; by rewrite Hcl).
    destruct (rc_fin c1 Hr1 rf Hfin) as (i & d & Hi & Hs).
    assert (Hc : Z.to_nat (rb_consumed rb1) = S i).
    { pose proof (lookup_lt_Some _ _ _ Hi) as Hlt. pose proof Hps as Hl. unfold rb_AckNum, packet_seq in *. rewrite Hinit in Hack.
      destruct Hinv as [_ Hcons _ _ _]. unfold len, MAX_PACKETS in *. rewrite <- Hack in Hs. go_lia. }
    assert (Hrb : read_bytes (c_out c1 ++ [EvRead eof_result]) = read_bytes (c_out c1)) by (rewrite read_bytes_app; apply app_nil_r).
    destruct Hr1. split; try done; cbn [c_out with_out]; fold eof_result; rewrite Hrb; [done|].
    intros _. exists i, d. split; [done|]. rewrite Hb, Hc. done.
  - injection E as _ <-. assert (Hrb : read_bytes (c_out c ++ [EvRead (mk_result (cs_Err (c_state c)) 0 [])]) = read_bytes (c_out c))
      by (rewrite read_bytes_app; apply app_nil_r).
    destruct Hr. split; try done; cbn [c_out with_out]; rewrite Hrb; [done|].
    intros [Hin|Hin%list_elem_of_singleton]%elem_of_app; [by apply rc_eof0|]. injection Hin as Herr. by symmetry in Herr.
Qed.
#[local] Hint Resolve processReads_keeps onWrite_keeps onTimeout_keeps onSyn_keeps onReset_keeps : conn.

(** ** Packets of the list *)

(** A packet of the list, under its sequence number. *)
Definition listed (t : PacketType) (data : list Z) (seqNum : Z) : Prop :=
  ∃ i, ps !! i = Some (t, data) ∧ seqNum = packet_seq init i.

Lemma recv_write_keeps t data seqNum c : listed t data seqNum → ensures keeps (recv_write data seqNum) c.
Proof.
  intros (i & Hi & ->) r c' E Hr. destruct (rc_buf c Hr) as (rb & size & got & Erb & Hf).
  unfold recv_write in E. erewrite bind_Ret in E; [|unfold recvBuf, deref; by rewrite Erb].
  assert (Hlt : Z.of_nat i < 65535).
  { apply lookup_lt_Some in Hi. pose proof Hps as Hl. unfold len, MAX_PACKETS in Hl. lia. }
  assert (Hw : ∀ f, agrees f → ∃ err rb', rb_Write data (packet_seq init i) rb = Ret (err, rb') ∧
    reassembling f init size (read_bytes (c_out c)) (match err with None => i :: got | Some _ => got end) rb').
  { intros f Hag. destruct (reassembling_Write f init size i _ _ _ (Hf f Hag) Hlt) as (err & rb' & Ew & HR & _).
    rewrite (Hag i t data Hi) in Ew. eauto. }
  destruct (Hw _ payload_at_agrees) as (err & rb' & Ew & _).
  erewrite bind_Ret in E; [|unfold lift_; by rewrite Ew]. cbv beta iota in E. erewrite bind_Ret in E by done.
  assert (c' = with_state (st_recv rb') c) as -> by (by destruct err; injection E as _ <-).
  destruct Hr. split; try done. eexists rb', size, _. split; [done|]. intros f Hag.
  destruct (Hw f Hag) as (err' & rb2 & Ew2 & HR). rewrite Ew in Ew2. injection Ew2 as <- <-. exact HR.
Qed.

Lemma onData_keeps data seqNum c : listed st_data data seqNum → ensures keeps (onData seqNum data) c.
Proof.
  intros Hl. pose proof (λ c', recv_write_keeps _ _ _ c' Hl) as Hw. unfold onData. keeping.
Qed.

(** A FIN sets its number as the end of the stream. *)
Lemma keeps_fin data seqNum l c :
  listed st_fin data seqNum → keeps c (with_state (st_closing (mk_Closing l (Some seqNum))) c).
Proof.
  intros (i & Hi & Es) []. split; try done. intros r [= <-]. exists i, data. done.
Qed.

Lemma onFin_keeps data seqNum c : listed st_fin data seqNum → ensures keeps (onFin seqNum data) c.
Proof.
  intros Hl. pose proof (λ c', recv_write_keeps _ _ _ c' Hl) as Hw.
  pose proof (λ l c', keeps_fin data seqNum l c' Hl) as Hf. unfold onFin. keeping.
Qed.

Lemma onState_keeps n a c : ensures keeps (onState n a) c.
Proof.
  intros r c' E Hr. pose proof (rc_type c Hr) as Ht. unfold c_type in Ht. unfold onState in E. erewrite bind_Ret in E by done.
  destruct (cs_stateType (c_state c)); [done|..]; by injection E as _ <-.
Qed.

Lemma processAck_keeps a s d now clk c : ensures keeps (processAck a s d now clk) c.
Proof.
  unfold processAck. keeping. match goal with E : bool_decide (_ = _) = true |- _ => apply bool_decide_eq_true in E as -> end.
  by apply reset_keeps.
Qed.

Lemma close_if_acked_keeps c : ensures keeps close_if_acked c.
Proof. unfold close_if_acked. keeping. Qed.
Lemma close_if_remote_keeps c : ensures keeps close_if_remote c.
Proof. unfold close_if_remote. keeping. Qed.
Lemma close_if_both_keeps c : ensures keeps close_if_both c.
Proof. unfold close_if_both. keeping. Qed.
#[local] Hint Resolve onState_keeps processAck_keeps close_if_acked_keeps close_if_remote_keeps close_if_both_keeps : conn.

(** A packet that may come to the receiver: one of the list, or one that carries
    nothing of the stream. *)
Definition from_sender (p : packet) : Prop :=
  match h_PacketType (Header p) with
  | st_data | st_fin => listed (h_PacketType (Header p)) (Body p) (h_SeqNum (Header p))
  | _ => True
  end.

Lemma onPacket_keeps e p now c : from_sender p → ensures keeps (onPacket e p now) c.
Proof.
  intros Hp. assert (Hd : ∀ c', ensures keeps (dispatch p) c').
  { intros c'. unfold from_sender in Hp. unfold dispatch.
    destruct (h_PacketType (Header p)); auto with conn; by apply onData_keeps || by apply onFin_keeps. }
  unfold onPacket. keeping.
Qed.
#[local] Hint Resolve onPacket_keeps : conn.

Lemma shutdown_keeps e c : ensures keeps (shutdown e) c.
Proof.
  unfold shutdown. refine (ensures_read _ _ _ _ (c_type c) eq_refl _).
  destruct (c_type c); [keeping| |keeping].
  refine (ensures_read _ _ _ _ (cs_closing (c_state c)) eq_refl _).
  destruct (cs_closing (c_state c)) as [[[l|] r]|] eqn:Hcl; [keeping|..].
  - refine (ensures_bind _ _ _ _ _ _); [keeping|]. intros idle c1 _ E1.
    destruct idle; [|keeping]. refine (ensures_bind _ _ _ _ _ _); [keeping|]. intros fin c2 _ E2.
    refine (ensures_bind _ _ _ _ _ _); [|keeping]. apply ensures_modify. apply keeps_closing.
    unfold remote_fin. rewrite (fr_closing _ _ (fin_packet_frame _ _ _ _ E2)),
      (fr_closing _ _ (nothing_to_send_frame _ _ _ E1)), Hcl. done.
  - refine (ensures_bind _ _ _ _ _ _); [keeping|]. intros idle c1 _ E1.
    refine (ensures_bind _ _ _ _ _ _); [destruct idle; keeping|].
    intros l c2 _ E2. apply ensures_modify. apply keeps_closing.
    assert (Hf : frame c1 c2) by (destruct idle; [by eapply send_fin_frame|by injection E2 as _ <-]).
    unfold remote_fin. by rewrite (fr_closing _ _ Hf), (fr_closing _ _ (nothing_to_send_frame _ _ _ E1)), Hcl.
Qed.
#[local] Hint Resolve shutdown_keeps : conn.

(** An input of the receiver. *)
Definition fed (i : conn_input) : Prop := match i with InIncoming p => from_sender p | _ => True end.

Lemma loop_step_keeps e i c : fed i → ensures keeps (loop_step e i) c.
Proof.
  intros Hi. assert (Hh : ensures keeps (handle e i) c).
  { destruct i; unfold handle; simpl in Hi; keeping. }
  unfold loop_step. refine (ensures_bind _ _ _ _ _ _); [exact Hh|]. intros _ c1 _ _.
  assert (Ha : ensures keeps (after_select e) c1) by (unfold after_select; keeping).
  destruct i; auto; keeping.
Qed.

(** The start: a connected connection that has handed out nothing. *)
Lemma receives_start c size :
  c_type c = ConnConnected → 0 < MaxPacketSize (c_config c) → 0 ≤ size → is_u16 init →
  cs_Err (c_state c) = None → cs_closing (c_state c) = None →
  cs_RecvBuf (c_state c) = Some (newReceiveBuffer size init) →
  (∀ r, EvRead r ∉ c_out c) → receives c.
Proof.
  intros Ht Hm Hs Hi He Hcl Hb Hno.
  assert (Hrd : read_bytes (c_out c) = []).
  { assert (Hall : ∀ l, (∀ r, EvRead r ∉ l) → read_bytes l = []).
    { induction l as [|ev l IH]; intros Hl; [done|]. change (ev :: l) with ([ev] ++ l). rewrite read_bytes_app, IH.
      - destruct ev; try done. destruct (Hl r). left.
      - intros r Hr. apply (Hl r). by right. }
    by apply Hall. }
  split.
  - by rewrite Ht.
  - done.
  - by rewrite He.
  - exists (newReceiveBuffer size init), size, []. split; [done|]. intros f _. rewrite Hrd. by apply reassembling_new.
  - intros r. unfold remote_fin. by rewrite Hcl.
  - intros Hin. by apply Hno in Hin.
Qed.
End receiver.

(** ** Sender and receiver *)

Section delivery.
Context `{BTreeLaws} `{FloatConv}.
Implicit Types c : connection.

(** What the network may hand to the receiver: the wire image of any packet that
    the sender ever sends, at any time and any number of times, and any packet that
    carries nothing of the stream.  Left out are the packets whose extension byte
    does not say whether a selective ack follows: the code sends them, after a
    timeout ([timeout_corrupts_payload]), and here they never arrive. *)
Definition delivered (sender : connection) (i : conn_input) : Prop :=
  match i with
  | InIncoming p =>
      (h_PacketType (Header p) ≠ st_data ∧ h_PacketType (Header p) ≠ st_fin) ∨
      ∃ q, EvOutgoing q ∈ c_out sender ∧ ext_consistent q ∧ DecodePacket (Encode q) = ok p
  | _ => True
  end.

Lemma sent_body_u8 W n c sp p :
  history n W c sp → Forall is_u8 W → faithful sp (EvOutgoing p) → sendable p → Forall is_u8 (Body p).
Proof.
  intros Hh HW Hf Hsd. destruct Hf as [(_ & Hd & Hfin)|(? & [= <-] & _ & Hp)].
  { pose proof (sd_body p Hsd) as Hb. unfold body_ok in Hb. destruct (h_PacketType (Header p)); (done || by rewrite Hb). }
  destruct Hp as [Hsyn|(i & q & Hq & _ & Eb & _)].
  { pose proof (sd_body p Hsd) as Hb. unfold is_syn in Hsyn. rewrite Hsyn in Hb. simpl in Hb. by rewrite Hb. }
  rewrite Eb. apply Forall_forall. intros x Hx. rewrite Forall_forall in HW. apply HW.
  destruct (hi_sent _ _ _ _ Hh) as [rest ->]. apply elem_of_app. left. rewrite sent_bytes_data.
  apply list_elem_of_In, in_concat. exists (p_data q). split; [|by apply list_elem_of_In].
  apply list_elem_of_In, list_elem_of_fmap. exists q. split; [done|]. by eapply list_elem_of_lookup_2.
Qed.

Lemma faithful_sendable sp p : faithful sp (EvOutgoing p) → sendable p.
Proof. intros [[Hs _]|(? & [= <-] & Hs & _)]; done. Qed.

(** What the network hands over comes from the list of sent packets. *)
Lemma delivered_fed N W c sp i :
  history N W c sp → Forall is_u8 W → delivered c i → fed (kinds sp) (sp_initSeqNum sp) i.
Proof.
  intros Hh HW. destruct i as [p| | | | | | | |]; try done. unfold delivered, fed, from_sender.
  intros [[Hd Hf]|(q & Hin & Hext & Hdec)]; [by destruct (h_PacketType (Header p))|].
  pose proof (hi_out _ _ _ _ Hh) as Hall. rewrite Forall_forall in Hall. specialize (Hall _ Hin).
  pose proof (faithful_sendable sp q Hall) as Hsd.
  pose proof (wire_roundtrip q (sendable_wf q Hsd Hext) (sent_body_u8 W N c sp q Hh HW Hall Hsd)) as Hw.
  rewrite Hdec in Hw. injection Hw as ->. simpl.
  destruct Hall as [(_ & Hd & Hf)|(? & [= <-] & _ & [Hsyn|(j & x & Hx & Es & Eb & Et)])].
  - by destruct (h_PacketType (Header q)).
  - unfold is_syn in Hsyn. by rewrite Hsyn.
  - assert (Hl : listed (kinds sp) (sp_initSeqNum sp) (h_PacketType (Header q)) (Body q) (h_SeqNum (Header q))).
    { exists j. unfold kinds. rewrite list_lookup_fmap, Hx. simpl. by rewrite Eb, Et, Es. }
    by destruct (h_PacketType (Header q)).
Qed.

Lemma conn_run_keeps ps init steps c :
  len ps ≤ MAX_PACKETS → Forall (λ s, fed ps init s.2) steps → ensures (keeps ps init) (conn_run steps) c.
Proof.
  intros Hps Hall. revert c. induction Hall as [|[e i] steps Hi Hall IH]; intros c; [refine (ensures_done _ _ _)|].
  cbn [conn_run]. refine (ensures_bind _ _ _ _ _ _); [by apply loop_step_keeps|]. intros b c' _ _.
  destruct b; [refine (ensures_done _ _ _)|apply IH].
Qed.

(** A receiver fed by a sender with history reads a prefix of its stream. *)
Lemma receives_prefix N W cA sp c :
  history N W cA sp → receives (kinds sp) (sp_initSeqNum sp) c →
  read_bytes (c_out c) `prefix_of` W ∧ (EvRead eof_result ∈ c_out c → read_bytes (c_out c) = W).
Proof.
  intros Hh Hr. destruct (rc_buf _ _ _ Hr) as (rb & _ & _ & Erb & _).
  destruct (receives_bytes _ _ c rb Hr Erb) as (Hb & _).
  assert (Hpre : read_bytes (c_out c) `prefix_of` sent_bytes sp).
  { trans (read_bytes (c_out c) ++ readable rb); [by apply prefix_app_r|]. rewrite Hb. apply concat_take_prefix. }
  split; [by etrans; [|apply Hh]|]. intros Heof. destruct (rc_eof _ _ _ Hr Heof) as (i & d & Hi & Hp).
  destruct (hi_fin _ _ _ _ Hh i d Hi) as [Hl Hs]. rewrite take_ge in Hp by lia. fold (sent_bytes sp) in Hp.
  rewrite Hs in *. by apply (anti_symm prefix).
Qed.

(** A connection of either role, ready to send and to receive. *)
Record ready (T0 n init : Z) c : Prop := {
  rd_inv : stream_inv T0 [] n c;
  rd_type : c_type c = ConnConnected;
  rd_sent : is_Some (cs_SentPackets (c_state c));
  rd_buf : cs_RecvBuf (c_state c) = Some (newReceiveBuffer (BufferSize (c_config c)) init);
  rd_closing : cs_closing (c_state c) = None;
  rd_err : cs_Err (c_state c) = None;
  rd_out r : EvRead r ∉ c_out c;
}.

(** A run of the sender ends with the history of the accepted bytes. *)
Lemma run_history T0 n init steps c b c' :
  ready T0 n init c → 1 ≤ n → n + len steps < MaxUint32 → turns_ok T0 steps c → conn_run steps c = Ret (inr b, c') →
  ∃ sp, history MAX_PACKETS (accepted steps c) c' sp ∧ sp_initSeqNum sp = first_seq (c_endpoint c).
Proof.
  intros Hrd Hn Hmax Hok E. pose proof (conn_run_evolves steps c _ _ E) as Hev.
  destruct (ev_sent _ _ Hev (rd_sent _ _ _ _ Hrd)) as [sp Hsp].
  destruct (conn_run_stream T0 steps [] n c (rd_inv _ _ _ _ Hrd) Hn Hmax Hok) as [(b2 & c2 & E2 & _ & Hh & _)|[E2 _]];
    [|congruence]. rewrite E in E2. injection E2 as <- <-. unfold past in Hh. rewrite Hsp in Hh. exists sp. split; [done|].
  rewrite (hi_first _ _ _ _ Hh). unfold first_seq. by destruct (ev_endpoint _ _ Hev) as (-> & -> & ->).
Qed.

(** The run of a receiver, fed by such a sender. *)
Lemma run_delivers T0 n W cA sp c steps b c' :
  ready T0 n (sp_initSeqNum sp) c → history MAX_PACKETS W cA sp → Forall is_u8 W →
  Forall (λ s, delivered cA s.2) steps → conn_run steps c = Ret (inr b, c') →
  read_bytes (c_out c') `prefix_of` W ∧ (EvRead eof_result ∈ c_out c' → read_bytes (c_out c') = W).
Proof.
  intros Hrd Hh HW Hsteps E. pose proof (rd_inv _ _ _ _ Hrd) as (Hb & _).
  pose proof (bi_cfg c Hb) as Hcfg. pose proof (cfg_packet _ Hcfg). eapply receives_prefix; [exact Hh|].
  eapply conn_run_keeps; [apply Hh| |exact E|].
  - eapply Forall_impl; [exact Hsteps|]. intros s. by apply delivered_fed with MAX_PACKETS W.
  - eapply receives_start; [apply Hrd|lia|apply Hcfg|apply Hh|apply Hrd|apply Hrd|apply Hrd|apply Hrd].
Qed.

(** Every packet sent so far was built anew. *)
Definition all_fresh c : Prop := ∀ p, EvOutgoing p ∈ c_out c → fresh_extension p.

Lemma emits_fresh c c' : all_fresh c → emits fresh_extension c c' → all_fresh c'.
Proof.
  intros Hc (evs & Ho & Hf) p. rewrite Ho. intros [Hin|Hin]%elem_of_app; [by apply Hc|].
  rewrite Forall_forall in Hf. exact (Hf _ Hin).
Qed.

Lemma start_fresh e e' cid cfg syn ch c c' r :
  newConnection e cid cfg syn ch = Ret c → start e' c = Ret (r, c') → all_fresh c'.
Proof.
  intros E Es. eapply emits_fresh; [|by eapply start_emits; [apply Build_fresh|exact Es]].
  intros p. rewrite (newConnection_out _ _ _ _ _ _ E). by intros ?%not_elem_of_nil.
Qed.

(** Without a timeout no packet has a stale extension byte. *)
Definition no_timeout (steps : list (env * conn_input)) : Prop := Forall (λ s, s.2 ≠ InTimeout) steps.

Lemma run_consistent N W steps c b c' sp p :
  all_fresh c → no_timeout steps → conn_run steps c = Ret (inr b, c') → history N W c' sp →
  EvOutgoing p ∈ c_out c' → ext_consistent p.
Proof.
  intros Hc Hs E Hh Hin. apply fresh_consistent.
  - destruct (conn_run_packets fresh_extension Build_fresh steps c b c' p) as [?|?]; [|done|done|by apply Hc|done].
    intros s Hin' Et. unfold no_timeout in Hs. rewrite Forall_forall in Hs. by destruct (Hs s Hin').
  - pose proof (hi_out _ _ _ _ Hh) as Hall. rewrite Forall_forall in Hall. exact (sd_sack _ (faithful_sendable _ _ (Hall _ Hin))).
Qed.

(** The two ends after the handshake. *)
Lemma handshake_ready T0 e1 e2 e3 cid1 cid2 cfg1 cfg2 :
  cfg_ok cfg1 → cfg_ok cfg2 → cid_ok cid1 → cid_ok cid2 → env_ok T0 e1 → env_ok T0 e2 → env_ok T0 e3 →
  ∃ i0 i1 i2 a0 a1 syn synAck,
    newConnection e1 cid1 cfg1 None (Some true) = Ret i0 ∧ start e1 i0 = Ret (inr tt, i1) ∧
    c_out i1 = [EvOutgoing syn] ∧
    newConnection e2 cid2 cfg2 (Some syn) (Some true) = Ret a0 ∧ start e2 a0 = Ret (inr tt, a1) ∧
    c_out a1 = [EvOutgoing synAck; EvConnected None] ∧
    onPacket e3 synAck (e_now e3) i1 = Ret (inr tt, i2) ∧
    ready T0 2 (first_seq (c_endpoint a1)) i2 ∧ ready T0 1 (first_seq (c_endpoint i2)) a1 ∧
    all_fresh i2 ∧ all_fresh a1.
Proof.
  intros Hc1 Hc2 Hi1 Hi2 [_ Hr1] [_ Hr2] [Hn3 Hr3].
  destruct (initiator_started e1 cid1 cfg1 Hc1 Hr1) as (i0 & i1 & En1 & Es1 & Ho1 & Ht1 & Hep & Hcf & Hch & Hcl & _ & Her).
  set (syn := syn_of e1 cid1 cfg1 (e_rand e1)) in *.
  assert (Hsyn : header_wf (Header syn)).
  { apply sd_header. unfold syn, syn_of. built; [apply Hi1|apply Hc1]. }
  destruct (acceptor_started e2 e2 cid2 cfg2 syn Hc2)
    as (a0 & a1 & sa & En2 & Es2 & Ho2 & Ht2 & Hty & Hseq & Hack & Hek & Hbody & Hrb & Hsp & Hcf2 & Hcl2 & Her2 & Hep2).
  destruct (start_total T0 e1 e1 cid1 cfg1 None Hc1 Hi1 Hr1) as (x & y & Ex & Ey & Hinv1); [done|].
  rewrite En1 in Ex. injection Ex as <-. rewrite Es1 in Ey. injection Ey as <-.
  destruct (start_total T0 e2 e2 cid2 cfg2 (Some syn) Hc2 Hi2 Hr2) as (x & y & Ex & Ey & Hinv2); [by intros p [= <-]|].
  rewrite En2 in Ex. injection Ex as <-. rewrite Es2 in Ey. injection Ey as <-.
  assert (Hsa : header_wf (Header sa)).
  { pose proof Hinv2 as (_ & Hh & _). unfold past in Hh. rewrite Hsp in Hh. pose proof (hi_out _ _ _ _ Hh) as Hout.
    rewrite Ho2 in Hout. apply Forall_cons in Hout as [Hf _]. by apply sd_header, (faithful_sendable _ _ Hf). }
  destruct (initiator_connects e3 sa (e_now e3) i1) as (i2 & E & Ht & Ho & Hrb' & Hsp' & Hcf' & Hcl' & Her' & Hep');
    try done; try (rewrite ?Hep, ?Hcf; done).
  destruct (onPacket_total T0 MAX_PACKETS [] ltac:(done) e3 sa (e_now e3) 1 i1 Hinv1 Hsa Hr3 Hn3 ltac:(done))
    as ([] & i2' & E' & Hinv3). rewrite E in E'. injection E' as <-.
  exists i0, i1, i2, a0, a1, syn, sa. split_and!; try done.
  - split; try done.
    + rewrite Hcf', Hrb', Hseq, Hep2. done.
    + by rewrite Her', Her.
    + intros r. rewrite Ho, Ho1. simpl. rewrite !not_elem_of_cons. by split_and!; [..|apply not_elem_of_nil].
  - split; try done.
    + rewrite Hrb, Hcf2, Hep', Hep. done.
    + intros r. rewrite Ho2. rewrite !not_elem_of_cons. by split_and!; [..|apply not_elem_of_nil].
  - apply (emits_fresh i1); [exact (start_fresh _ _ _ _ _ _ _ _ _ En1 Es1)|exact (onPacket_emits _ Build_fresh _ _ _ _ _ _ E)].
  - exact (start_fresh _ _ _ _ _ _ _ _ _ En2 Es2).
Qed.
End delivery.

(** C1.  Delivery of the stream, end to end.  An initiator and an acceptor are
    created and shake hands.  Then both run their event loops on any inputs, where
    the network may lose, repeat and reorder the datagrams of either side at will
    and inject packets other than DATA and FIN, and delivers every packet it is
    given but those with a stale extension byte.  Each side's reader has been given
    a prefix, in order, of exactly the bytes of the writes that the other side
    accepted; and a reader that was told the end of the file has been given all of
    them.  The exception is real: a packet sent again after a timeout may be stale,
    and when it arrives the stream is corrupted ([timeout_corrupts_payload]).  It
    is also the only one: a side that has handled no timeout has sent no stale
    packet, so that nothing is excluded. *)
Theorem stream_end_to_end `{BTreeLaws} `{FloatConv} (T0 : Z) (e1 e2 e3 : env) (cid1 cid2 : ConnectionId)
    (cfg1 cfg2 : ConnectionConfig) :
  cfg_ok cfg1 → cfg_ok cfg2 → cid_ok cid1 → cid_ok cid2 → env_ok T0 e1 → env_ok T0 e2 → env_ok T0 e3 →
  ∃ i0 i1 i2 a0 a1 syn synAck,
    newConnection e1 cid1 cfg1 None (Some true) = Ret i0 ∧ start e1 i0 = Ret (inr tt, i1) ∧
    c_out i1 = [EvOutgoing syn] ∧
    newConnection e2 cid2 cfg2 (Some syn) (Some true) = Ret a0 ∧ start e2 a0 = Ret (inr tt, a1) ∧
    c_out a1 = [EvOutgoing synAck; EvConnected None] ∧
    onPacket e3 synAck (e_now e3) i1 = Ret (inr tt, i2) ∧
    ∀ stepsI stepsA i' a' bi ba,
      turns_ok T0 stepsI i2 → turns_ok T0 stepsA a1 →
      2 + len stepsI < MaxUint32 → 1 + len stepsA < MaxUint32 →
      conn_run stepsI i2 = Ret (inr bi, i') → conn_run stepsA a1 = Ret (inr ba, a') →
      Forall (λ s, delivered a' s.2) stepsI → Forall (λ s, delivered i' s.2) stepsA →
      Forall is_u8 (accepted stepsI i2) → Forall is_u8 (accepted stepsA a1) →
      (read_bytes (c_out a') `prefix_of` accepted stepsI i2 ∧
       (EvRead eof_result ∈ c_out a' → read_bytes (c_out a') = accepted stepsI i2)) ∧
      (read_bytes (c_out i') `prefix_of` accepted stepsA a1 ∧
       (EvRead eof_result ∈ c_out i' → read_bytes (c_out i') = accepted stepsA a1)) ∧
      (no_timeout stepsI → ∀ q, EvOutgoing q ∈ c_out i' → ext_consistent q) ∧
      (no_timeout stepsA → ∀ q, EvOutgoing q ∈ c_out a' → ext_consistent q).
Proof.
  intros Hc1 Hc2 Hi1 Hi2 He1 He2 He3.
  destruct (handshake_ready T0 e1 e2 e3 cid1 cid2 cfg1 cfg2 Hc1 Hc2 Hi1 Hi2 He1 He2 He3)
    as (i0 & i1 & i2 & a0 & a1 & syn & sa & E1 & E2 & E3 & E4 & E5 & E6 & E7 & Hri & Hra & Hfi & Hfa).
  exists i0, i1, i2, a0, a1, syn, sa. split_and!; try done.
  intros stepsI stepsA i' a' bi ba Hti Hta Hli Hla Ei Ea Hdi Hda Hbi Hba.
  destruct (run_history T0 2 _ stepsI i2 bi i' Hri ltac:(lia) Hli Hti Ei) as (spi & Hhi & Efi).
  destruct (run_history T0 1 _ stepsA a1 ba a' Hra ltac:(lia) Hla Hta Ea) as (spa & Hha & Efa).
  rewrite <- Efi in Hra. rewrite <- Efa in Hri. split; [|split; [|split]].
  - exact (run_delivers T0 1 _ i' spi a1 stepsA ba a' Hra Hhi Hbi Hda Ea).
  - exact (run_delivers T0 2 _ a' spa i2 stepsI bi i' Hri Hha Hba Hdi Ei).
  - intros Hs q. exact (run_consistent _ _ stepsI i2 bi i' spi q Hfi Hs Ei Hhi).
  - intros Hs q. exact (run_consistent _ _ stepsA a1 ba a' spa q Hfa Hs Ea Hha).
Qed.

(** ** Packets on the wire *)

Section wire.
Context `{BTreeLaws} `{FloatConv}.
Implicit Types c : connection.

(** Every packet of the trace fits the wire format. *)
Lemma past_typed N W c p :
  past N W c → Forall is_u8 W → EvOutgoing p ∈ c_out c → sendable p ∧ Forall is_u8 (Body p).
Proof.
  unfold past. intros Hp HW Hin. destruct (cs_SentPackets (c_state c)) as [sp|].
  - pose proof (hi_out _ _ _ _ Hp) as Hall. rewrite Forall_forall in Hall. specialize (Hall _ Hin).
    pose proof (faithful_sendable sp p Hall) as Hsd. split; [done|]. by eapply sent_body_u8.
  - rewrite Forall_forall in Hp. destruct (Hp _ Hin) as (Hsd & Hd & _). split; [done|].
    pose proof (sd_body p Hsd) as Hb. unfold body_ok in Hb. destruct (h_PacketType (Header p)); (done || by rewrite Hb).
Qed.

Lemma transmit_out p now c c' :
  transmit p now c = Ret (inr tt, c') → c_out c' = c_out c ++ [EvOutgoing p].
Proof.
  unfold transmit. destruct (if 0 <? len (Body p) then _ else _) as [data l]. intros E.
  unfold bind_ at 1, sent, deref in E. destruct (cs_SentPackets (c_state c)) as [sp|]; [|done]. simpl in E.
  unfold bind_ at 1, lift_ in E. destruct (sp_OnTransmit _ _ _ _ _ _) as [sp'| |]; try done. simpl in E.
  unfold bind_ in E. simpl in E. destruct (tw_put _ _ _ _) as [tw| |]; try done. simpl in E. by injection E as <-.
Qed.

(** The packet that a timeout sends again. *)
Definition resent (e : env) (p : packet) c (rb : receiveBuffer) : packet :=
  mkPacket
    (mkHeader (h_PacketType (Header p)) (h_Version (Header p)) (h_Extension (Header p)) (h_ConnectionId (Header p))
       (UnixMicro (e_now e)) (u32 (Microseconds (c_peerTsDiff c))) (u32 (rb_Available rb))
       (h_SeqNum (Header p)) (rb_AckNum rb))
    (rb_SelectiveAck rb) (Body p).

Lemma onTimeout_resends e p c c' rb sp :
  c_type c = ConnConnected → cs_RecvBuf (c_state c) = Some rb → cs_SentPackets (c_state c) = Some sp → ¬ is_syn p →
  onTimeout e p (e_now e) c = Ret (inr tt, c') → c_out c' = c_out c ++ [EvOutgoing (resent e p c rb)].
Proof.
  intros Ht Hrb Hsp Hsyn E. unfold onTimeout in E. erewrite bind_Ret in E by done. unfold c_type in Ht. rewrite Ht in E.
  rewrite bool_decide_false in E by done. erewrite bind_Ret in E; [|unfold sent, deref; by rewrite Hsp]. cbv zeta in E.
  match type of E with bind_ (if ?b then _ else _) _ _ = _ => destruct b end;
    (erewrite bind_Ret in E by done; erewrite bind_Ret in E; [|unfold recvBuf, deref; simpl; by rewrite Hrb]);
    apply transmit_out in E; exact E.
Qed.
End wire.

(** C5.  Types on the wire.  Along any run of a connection, every packet it sends
    has all header fields within their widths, a selective ack that fits its
    one-byte length if it has one, and a payload exactly if it is a DATA packet;
    and unless its extension byte is stale, decoding its encoding gives the
    packet back. *)
Theorem outgoing_packets_typed `{BTreeLaws} `{FloatConv} (T0 : Z) (e e' : env) (cid : ConnectionId)
    (cfg : ConnectionConfig) (syn : option packet) :
  cfg_ok cfg → cid_ok cid → is_u16 (e_rand e) → (∀ p, syn = Some p → header_wf (Header p)) →
  ∃ c c', newConnection e cid cfg syn (Some true) = Ret c ∧ start e' c = Ret (inr tt, c') ∧
    ∀ steps b c'', turns_ok T0 steps c' → len steps < MaxUint32 - 1 → conn_run steps c' = Ret (inr b, c'') →
      Forall is_u8 (accepted steps c') →
      ∀ p, EvOutgoing p ∈ c_out c'' →
        header_wf (Header p) ∧ (∀ s, Eack p = Some s → sack_encodable s) ∧
        body_ok (h_PacketType (Header p)) (Body p) ∧
        (ext_consistent p → DecodePacket (Encode p) = ok (wire_packet p)).
Proof.
  intros Hcfg Hcid Hr Hsyn. destruct (start_total T0 e e' cid cfg syn Hcfg Hcid Hr Hsyn) as (c & c' & E & Es & Hi).
  exists c, c'. split_and!; [done..|]. intros steps b c'' Hok Hlen Er HW p Hin.
  destruct (conn_run_stream T0 steps [] 1 c' Hi ltac:(lia) ltac:(lia) Hok) as [(b2 & c2 & E2 & _ & Hp & _)|[E2 _]]; [|congruence].
  rewrite Er in E2. injection E2 as <- <-. destruct (past_typed _ _ _ p Hp HW Hin) as [Hsd Hb].
  split_and!; [apply Hsd|apply Hsd|apply Hsd|]. intros Hext. apply wire_roundtrip; [by apply sendable_wf|done].
Qed.

(** C31.  Retransmission after a timeout corrupts the stream.  The packet sent
    again has the extension byte of the original header and the selective ack of
    this moment.  When a DATA packet was first sent without a selective ack and
    times out while packets of the peer wait in the receive buffer, the peer
    decodes a DATA packet with the right sequence number whose payload starts
    with the bytes of the selective ack. *)
Theorem timeout_corrupts_payload `{BTreeLaws} `{FloatConv} (T0 n : Z) (W : list Z) (e : env) (c : connection)
    (rb : receiveBuffer) (s : SelectiveAck) (p : packet) (later : list packet) :
  stream_inv T0 W n c → c_type c = ConnConnected → n < MaxUint32 → env_ok T0 e → Forall is_u8 W →
  cs_RecvBuf (c_state c) = Some rb → rb_SelectiveAck rb = Some s →
  c_unackTimeoutCh c = p :: later → h_PacketType (Header p) = st_data → h_Extension (Header p) = 0 →
  ∃ c' q p', handle e InTimeout c = Ret (inr tt, c') ∧ c_out c' = c_out c ++ [EvOutgoing q] ∧
    DecodePacket (Encode q) = ok p' ∧ h_PacketType (Header p') = st_data ∧
    h_SeqNum (Header p') = h_SeqNum (Header p) ∧
    Body p' = [0; u8 (len (sa_Encode s))] ++ sa_Encode s ++ Body p.
Proof.
  intros Hi Ht Hn He HW Hrb Hs Hq Hty Hext.
  destruct (inv_next_timeout T0 MAX_PACKETS W n c p later Hi Hq) as [Hi1 Hexp].
  destruct (onTimeout_total T0 MAX_PACKETS W e p n (with_timeouts later c) Hi1 Hexp He Hn) as ([] & c' & E & _ & Hpast & _).
  pose proof Hi as (_ & _ & Hst). rewrite Ht in Hst. destruct Hst as (rb0 & sb & sp & Hc & _).
  assert (rb0 = rb) as -> by (rewrite (cn_recv _ _ _ _ _ _ Hc) in Hrb; congruence).
  assert (Hout : c_out c' = c_out c ++ [EvOutgoing (resent e p c rb)]).
  { eapply (onTimeout_resends e p (with_timeouts later c)); try done; [apply Hc|]. unfold is_syn. by rewrite Hty. }
  destruct (past_typed _ _ c' (resent e p c rb) Hpast HW) as [Hsd Hb]; [rewrite Hout; apply elem_of_app; right; by left|].
  eexists c', _, _. split_and!; [|exact Hout| |..].
  - unfold handle. erewrite bind_Ret by done. rewrite Hq. by erewrite bind_Ret.
  - apply (stale_extension_misparse _ s); [apply Hsd|done|done|by apply (sd_sack _ Hsd)|done].
  - done.
  - done.
  - done.
Qed.

(** ** A run *)

Definition demo_i0 : connection := force demo_new (newConnection (demo_env 1) demo_cid demo_config None (Some true)).
Definition demo_i1 : connection := (outcome_of (start (demo_env 1)) demo_i0).2.
Definition first_packet (c : connection) : packet :=
  match c_out c with EvOutgoing p :: _ => p | _ => demo_synack end.
Definition demo_a0 : connection :=
  force demo_new (newConnection (demo_env 2) demo_cid_b demo_config (Some (first_packet demo_i1)) (Some true)).
Definition demo_a1 : connection := (outcome_of (start (demo_env 2)) demo_a0).2.
Definition demo_i2 : connection := (outcome_of (onPacket (demo_env 3) (first_packet demo_a1) 3) demo_i1).2.

(** The initiator writes four bytes, sends them and closes. *)
Definition demo_stepsI : list (env * conn_input) :=
  [(demo_env 4, InWrite (mk_queuedWrite [1; 2; 3; 4] 0 0)); (demo_env 5, InWritable); (demo_env 6, InShutdown)].
Definition demo_i3 : connection := (outcome_of (conn_run demo_stepsI) demo_i2).2.

(** The acceptor gets the FIN twice, and then the data. *)
Definition wire (p : packet) : packet :=
  match DecodePacket (Encode p) with Ret (inr q) => q | _ => p end.
Definition sent_packet (k : nat) : packet :=
  match c_out demo_i3 !! k with Some (EvOutgoing p) => p | _ => demo_synack end.
Definition demo_stepsA : list (env * conn_input) :=
  [(demo_env 7, InIncoming (wire (sent_packet 4))); (demo_env 8, InIncoming (wire (sent_packet 4)));
   (demo_env 9, InIncoming (wire (sent_packet 3)))].
Definition demo_a2 : connection := (outcome_of (conn_run demo_stepsA) demo_a1).2.

Lemma stream_end_to_end_witness :
  ∃ i' a', conn_run demo_stepsI demo_i2 = Ret (inr false, i') ∧ conn_run demo_stepsA demo_a1 = Ret (inr true, a') ∧
    read_bytes (c_out a') = [1; 2; 3; 4] ∧ (∀ q, EvOutgoing q ∈ c_out i' → ext_consistent q).
Proof.
  destruct (stream_end_to_end 0 (demo_env 1) (demo_env 2) (demo_env 3) demo_cid demo_cid_b demo_config demo_config)
    as (i0 & i1 & i2 & a0 & a1 & syn & sa & E1 & E2 & E3 & E4 & E5 & E6 & E7 & Hrun).
  1-2: apply demo_cfg_ok.
  1-2: split; vm_compute; split; congruence.
  1-3: apply demo_env_ok; lia.
  assert (i0 = demo_i0) as -> by (unfold demo_i0; by rewrite E1).
  assert (i1 = demo_i1) as -> by (unfold demo_i1, outcome_of; by rewrite E2).
  assert (syn = first_packet demo_i1) as -> by (unfold first_packet; by rewrite E3).
  assert (a0 = demo_a0) as -> by (unfold demo_a0; by rewrite E4).
  assert (a1 = demo_a1) as -> by (unfold demo_a1, outcome_of; by rewrite E5).
  assert (sa = first_packet demo_a1) as -> by (unfold first_packet; by rewrite E6).
  assert (i2 = demo_i2) as -> by (change (e_now (demo_env 3)) with 3 in E7; unfold demo_i2, outcome_of; by rewrite E7).
  assert (Ei : conn_run demo_stepsI demo_i2 = Ret (inr false, demo_i3)).
  { unfold demo_i3. rewrite outcome_of_Ret at 1 by (vm_compute; reflexivity). do 2 f_equal. }
  assert (Ea : conn_run demo_stepsA demo_a1 = Ret (inr true, demo_a2)).
  { unfold demo_a2. rewrite outcome_of_Ret at 1 by (vm_compute; reflexivity). do 2 f_equal. }
  destruct (Hrun demo_stepsI demo_stepsA demo_i3 demo_a2 false true) as ([_ Heof] & _ & Hext & _).
  - apply turns_okb_sound. vm_compute. reflexivity.
  - apply turns_okb_sound. vm_compute. reflexivity.
  - vm_compute. reflexivity.
  - vm_compute. reflexivity.
  - exact Ei.
  - exact Ea.
  - repeat constructor.
  - assert (Hd : ∀ k, EvOutgoing (sent_packet k) ∈ c_out demo_i3 → ext_consistent (sent_packet k) →
      DecodePacket (Encode (sent_packet k)) = ok (wire (sent_packet k)) → delivered demo_i3 (InIncoming (wire (sent_packet k)))).
    { intros k H1 H2 H3. right. exists (sent_packet k). split; [exact H1|]. split; [exact H2|exact H3]. }
    assert (H4 : delivered demo_i3 (InIncoming (wire (sent_packet 4)))).
    { apply (Hd 4%nat); [eapply (list_elem_of_lookup_2 (c_out demo_i3) 4%nat)|..]; vm_compute; reflexivity. }
    assert (H3 : delivered demo_i3 (InIncoming (wire (sent_packet 3)))).
    { apply (Hd 3%nat); [eapply (list_elem_of_lookup_2 (c_out demo_i3) 3%nat)|..]; vm_compute; reflexivity. }
    constructor; [exact H4|constructor; [exact H4|constructor; [exact H3|constructor]]].
  - vm_compute. repeat constructor; congruence.
  - vm_compute. constructor.
  - exists demo_i3, demo_a2. split; [exact Ei|]. split; [exact Ea|]. split.
    + rewrite Heof; [vm_compute; reflexivity|]. apply (list_elem_of_lookup_2 (c_out demo_a2) 6). vm_compute. reflexivity.
    + apply Hext. repeat constructor; discriminate.
Defined.

Lemma demo_ready :
  ready 0 2 (first_seq (c_endpoint demo_a1)) demo_i2 ∧ ready 0 1 (first_seq (c_endpoint demo_i2)) demo_a1.
Proof.
  destruct (handshake_ready 0 (demo_env 1) (demo_env 2) (demo_env 3) demo_cid demo_cid_b demo_config demo_config)
    as (i0 & i1 & i2 & a0 & a1 & syn & sa & E1 & E2 & E3 & E4 & E5 & E6 & E7 & Hrun).
  1-2: apply demo_cfg_ok.
  1-2: split; vm_compute; split; congruence.
  1-3: apply demo_env_ok; lia.
  assert (i0 = demo_i0) as -> by (unfold demo_i0; by rewrite E1).
  assert (i1 = demo_i1) as -> by (unfold demo_i1, outcome_of; by rewrite E2).
  assert (syn = first_packet demo_i1) as -> by (unfold first_packet; by rewrite E3).
  assert (a0 = demo_a0) as -> by (unfold demo_a0; by rewrite E4).
  assert (a1 = demo_a1) as -> by (unfold demo_a1, outcome_of; by rewrite E5).
  assert (sa = first_packet demo_a1) as -> by (unfold first_packet; by rewrite E6).
  assert (i2 = demo_i2) as -> by (change (e_now (demo_env 3)) with 3 in E7; unfold demo_i2, outcome_of; by rewrite E7).
  split; apply Hrun.
Qed.

(** The initiator sends four bytes without a selective ack, a packet of the peer
    overtakes another, and the four bytes time out. *)
Definition demo_late : packet := Build (WithPayload [9] (WithAckNum 100 (NewPacketBuilder st_data 7 0 256 101))).
Definition demo_stepsT : list (env * conn_input) :=
  [(demo_env 4, InWrite (mk_queuedWrite [1; 2; 3; 4] 0 0)); (demo_env 5, InWritable); (demo_env 6, InIncoming demo_late)]
  ++ replicate 5 (demo_env 7, InTick).
Definition demo_timeout : connection := (outcome_of (conn_run demo_stepsT) demo_i2).2.

Lemma demo_timeout_inv : stream_inv 0 [1; 2; 3; 4] 10 demo_timeout.
Proof.
  destruct (conn_run_stream 0 demo_stepsT [] 2 demo_i2) as [(b & c' & E & Hi)|[E _]].
  - exact (rd_inv _ _ _ _ (proj1 demo_ready)).
  - lia.
  - vm_compute. reflexivity.
  - apply turns_okb_sound. vm_compute. reflexivity.
  - assert (c' = demo_timeout) as -> by (unfold demo_timeout, outcome_of; by rewrite E).
    assert (Ha : accepted demo_stepsT demo_i2 = [1; 2; 3; 4]) by (vm_compute; reflexivity).
    rewrite Ha in Hi. exact Hi.
  - assert (Hr : is_Ret (conn_run demo_stepsT demo_i2) = true) by (vm_compute; reflexivity). rewrite E in Hr. discriminate Hr.
Qed.

Lemma timeout_corrupts_payload_witness :
  ∃ c' q p', handle (demo_env 8) InTimeout demo_timeout = Ret (inr tt, c') ∧
    c_out c' = c_out demo_timeout ++ [EvOutgoing q] ∧ DecodePacket (Encode q) = ok p' ∧
    Body p' = [0; 4; 128; 0; 0; 0; 1; 2; 3; 4].
Proof.
  assert (∃ rb, cs_RecvBuf (c_state demo_timeout) = Some rb) as [rb Erb] by (vm_compute; eexists; reflexivity).
  assert (Hs : rb_SelectiveAck <$> cs_RecvBuf (c_state demo_timeout) = Some (Some (NewSelectiveAck [true]))) by (vm_compute; reflexivity).
  rewrite Erb in Hs. apply (inj Some) in Hs.
  assert (Eq : c_unackTimeoutCh demo_timeout = [sent_packet 3]) by (vm_compute; reflexivity).
  destruct (timeout_corrupts_payload 0 10 [1; 2; 3; 4] (demo_env 8) demo_timeout rb (NewSelectiveAck [true]) (sent_packet 3) [])
    as (c' & q & p' & E & Ho & Hd & _ & _ & Hb).
  - apply demo_timeout_inv.
  - vm_compute. reflexivity.
  - vm_compute. reflexivity.
  - apply demo_env_ok. lia.
  - repeat constructor; vm_compute; congruence.
  - exact Erb.
  - exact Hs.
  - exact Eq.
  - vm_compute. reflexivity.
  - vm_compute. reflexivity.
  - exists c', q, p'. split; [exact E|]. split; [exact Ho|]. split; [exact Hd|]. rewrite Hb. vm_compute. reflexivity.
Defined.

Lemma outgoing_packets_typed_witness :
  ∃ c', start (demo_env 1) demo_i0 = Ret (inr tt, c') ∧
    let steps := (demo_env 3, InIncoming (first_packet demo_a1)) :: demo_stepsI in
    ∃ c'', conn_run steps c' = Ret (inr false, c'') ∧
      EvOutgoing (sent_packet 3) ∈ c_out c'' ∧ header_wf (Header (sent_packet 3)) ∧
      DecodePacket (Encode (sent_packet 3)) = ok (wire_packet (sent_packet 3)).
Proof.
  destruct (outgoing_packets_typed 0 (demo_env 1) (demo_env 1) demo_cid demo_config None) as (c & c' & E & Es & Hall).
  - apply demo_cfg_ok.
  - split; vm_compute; split; congruence.
  - vm_compute. split; congruence.
  - discriminate.
  - assert (c = demo_i0) as -> by (unfold demo_i0; by rewrite E).
    assert (c' = demo_i1) as -> by (unfold demo_i1, outcome_of; by rewrite Es).
    exists demo_i1. split; [exact Es|]. intros steps.
    set (c'' := (outcome_of (conn_run steps) demo_i1).2).
    assert (Er : conn_run steps demo_i1 = Ret (inr false, c'')).
    { unfold c''. rewrite outcome_of_Ret at 1 by (vm_compute; reflexivity). do 2 f_equal. }
    assert (Hin : EvOutgoing (sent_packet 3) ∈ c_out c'') by (eapply (list_elem_of_lookup_2 (c_out c'') 3); vm_compute; reflexivity).
    destruct (Hall steps false c'') with (p := sent_packet 3) as (Hh & _ & _ & Hd).
    + apply turns_okb_sound. vm_compute. reflexivity.
    + vm_compute. reflexivity.
    + exact Er.
    + vm_compute. repeat constructor; congruence.
    + exact Hin.
    + exists c''. split; [exact Er|]. split; [exact Hin|]. split; [exact Hh|]. apply Hd. vm_compute. reflexivity.
Defined.
