(* ===== verification/Liveness.v ===== *)
(** * The end of a connection attempt

    An initiator that hears nothing from its peer gives up after a bounded number
    of rounds of the ticker and the timeout case of its event loop, and tells its
    caller.  One that is refused by its peer ends without telling its caller. *)

From Stdlib Require Import ZArith Lia.
From stdpp Require Import base list gmap fin_maps.
From S2P Require Import Prelude.
From S2P Require Import Hoare.
From S2P Require Import SelectiveAck.
From S2P Require Import Packet.
From S2P Require Import SendBuffer.
From S2P Require Import BTree.
From S2P Require Import RecvBuffer.
From S2P Require Import TimeWheel.
From S2P Require Import Float64.
From S2P Require Import Controller.
From S2P Require Import Congestion.
From S2P Require Import SentPackets.
From S2P Require Import Cid.
From S2P Require Import Conn.
From S2P Require Import ConnStates.
From S2P Require Import ConnSafety.
From S2P Require Import ConnLoop.
From S2P Require Import Socket.

(** ** Entries of a wheel *)

Section due.
Context {K : Type} `{Countable K} {P : Type}.
Implicit Types tw : timeWheel K P.

(** Some entry expires at the [j]-th next tick. *)
Definition due (j : nat) tw : Prop :=
  Z.of_nat j < tw_slotNum tw ∧
  ∃ slot, tw_slots tw !! Z.to_nat ((tw_current tw + Z.of_nat j) mod tw_slotNum tw) = Some slot ∧ slot ≠ ∅.

Lemma due_put k v d tw :
  tw_inv tw → 0 ≤ d → ∃ tw' j, tw_put k v d tw = Ret tw' ∧ tw_inv tw' ∧ tw_slotNum tw' = tw_slotNum tw ∧ due j tw'.
Proof.
  intros Hi Hd. destruct (tw_put_spec k v d tw Hi Hd) as (slot & Hs & E). pose proof (put_slot_range tw d Hi) as Hr.
  pose proof Hi as [_ Hn _ Hc _].
  set (j := (put_slot tw d - tw_current tw) mod tw_slotNum tw).
  assert (Hj : 0 ≤ j < tw_slotNum tw) by (apply Z.mod_pos_bound; done).
  eexists _, (Z.to_nat j). split; [exact E|]. split; [by eapply tw_put_inv|]. split; [done|].
  split; [simpl; lia|]. exists (<[k := v]> slot). simpl. rewrite Z2Nat.id by lia. split; [|by apply insert_non_empty].
  unfold j. rewrite Zplus_mod_idemp_r.
  replace (tw_current tw + (put_slot tw d - tw_current tw)) with (put_slot tw d) by lia.
  rewrite Z.mod_small by done. apply list_lookup_insert_eq. by eapply lookup_lt_Some.
Qed.

Lemma due_tick_now tw : tw_inv tw → due 0 tw → ∃ l tw', tw_tick tw = Ret (l, tw') ∧ tw_inv tw' ∧
  tw_slotNum tw' = tw_slotNum tw ∧ l ≠ [].
Proof.
  intros Hi (_ & slot & Hs & Hne). destruct (tw_tick_spec tw Hi) as (slot' & tw' & Hs' & E & Hi' & _ & _ & Hn).
  rewrite Z.add_0_r, Z.mod_small in Hs by apply Hi. rewrite Hs in Hs'. injection Hs' as <-.
  eexists _, tw'. split_and!; [exact E|done|done|]. intros El. apply Hne. by apply map_to_list_empty_iff.
Qed.

Lemma due_tick_later j tw : tw_inv tw → due (S j) tw → ∃ l tw', tw_tick tw = Ret (l, tw') ∧ tw_inv tw' ∧
  tw_slotNum tw' = tw_slotNum tw ∧ due j tw'.
Proof.
  intros Hi (Hlt & slot & Hs & Hne). destruct (tw_tick_spec tw Hi) as (slot' & tw' & Hs' & E & Hi' & Hsl & Hcur & Hn).
  eexists _, tw'. split_and!; [exact E|done|done|]. split; [rewrite Hn; lia|]. exists slot. split; [|done].
  rewrite Hsl, Hcur, Hn, Zplus_mod_idemp_l. pose proof Hi as [_ Hpos _ Hc _].
  replace (tw_current tw + 1 + Z.of_nat j) with (tw_current tw + Z.of_nat (S j)) by lia.
  rewrite list_lookup_insert_ne; [done|]. intros Heq. apply Z2Nat.inj in Heq; [|lia|apply Z.mod_pos_bound; lia].
  assert (Heq' : (tw_current tw + Z.of_nat (S j)) mod tw_slotNum tw = tw_current tw mod tw_slotNum tw)
    by (rewrite (Z.mod_small (tw_current tw)); lia).
  assert (Hz : Z.of_nat (S j) mod tw_slotNum tw = 0).
  { replace (Z.of_nat (S j)) with (tw_current tw + Z.of_nat (S j) - tw_current tw) by lia.
    rewrite Zminus_mod, Heq', Z.sub_diag. apply Z.mod_0_l. lia. }
  rewrite Z.mod_small in Hz by lia. lia.
Qed.

Lemma tick_any tw : tw_inv tw → ∃ l tw', tw_tick tw = Ret (l, tw') ∧ tw_inv tw' ∧ tw_slotNum tw' = tw_slotNum tw.
Proof. intros Hi. destruct (tw_tick_spec tw Hi) as (s & tw' & _ & E & Hi' & _ & _ & Hn). eauto 10. Qed.
End due.

Section attempt.
Context `{BTreeLaws} `{FloatConv}.
Implicit Types c : connection.

(** An initiator whose attempt is under way. *)
Record attempting c : Prop := {
  at_type : c_type c = ConnConnecting;
  at_role : ep_Type (c_endpoint c) = Initiator;
  at_ch : cs_connectedCh (c_state c) = Some true;
  at_open : c_streamShutdown c = false;
  at_cfg : cfg_ok (c_config c);
  at_tries : 0 ≤ ep_Attempts (c_endpoint c);
  at_wheel : tw_inv (c_unacked c);
  at_slots : tw_slotNum (c_unacked c) = 8;
  at_quiet : recv_connected (c_out c) = None;
}.

Definition tries_left c : nat := Z.to_nat (MaxConnAttempts (c_config c) - ep_Attempts (c_endpoint c)).

(** How many rounds the attempt can still take. *)
Definition patience c (m : nat) : Prop :=
  (c_unackTimeoutCh c ≠ [] ∧ (10 * tries_left c ≤ m)%nat) ∨
  ∃ j, due j (c_unacked c) ∧ (10 * tries_left c + 1 + j ≤ m)%nat.

(** The attempt has ended, and the caller and the socket know. *)
Record gave_up c : Prop := {
  gu_type : c_type c = ConnClosed;
  gu_err : cs_Err (c_state c) = Some ErrTimedOut;
  gu_told : EvConnected (Some ErrTimedOut) ∈ c_out c;
  gu_out : ∃ evs, c_out c = evs ++ [EvShutdown];
}.

(** Inputs that neither come from the network nor end the connection. *)
Definition silent (i : conn_input) : Prop :=
  match i with InWrite _ | InReadable | InWritable | InTimeout | InTick => True | _ => False end.

(** A turn on input [i] of an attempt with patience [m]. *)
Definition turn_of (c c' : connection) (m : nat) (i : conn_input) : Prop :=
  attempting c' ∧ patience c' m ∧ (i ≠ InTimeout → c_unackTimeoutCh c ≠ [] → c_unackTimeoutCh c' ≠ []) ∧
  (i = InTick → c_unackTimeoutCh c' ≠ [] ∨ ∃ m', m = S m' ∧ patience c' m') ∧
  (i = InTimeout → c_unackTimeoutCh c ≠ [] → ∃ m', m = S m' ∧ patience c' m').

Lemma attempting_eq c c' :
  attempting c → c_state c' = c_state c → c_endpoint c' = c_endpoint c → c_config c' = c_config c →
  c_streamShutdown c' = c_streamShutdown c → c_unacked c' = c_unacked c → c_out c' = c_out c → attempting c'.
Proof. intros [] E1 E2 E3 E4 E5 E6. split; unfold c_type in *; congruence. Qed.

Lemma patience_eq c c' m :
  patience c m → c_endpoint c' = c_endpoint c → c_config c' = c_config c → c_unacked c' = c_unacked c →
  c_unackTimeoutCh c' = c_unackTimeoutCh c → patience c' m.
Proof. unfold patience, tries_left. by intros Hp -> -> -> ->. Qed.

Lemma patience_mono c m m' : patience c m → (m ≤ m')%nat → patience c m'.
Proof. intros [[? ?]|(j & ? & ?)] Hle; [left; split; [done|lia]|right; exists j; split; [done|lia]]. Qed.

(** Turns that leave the timers alone. *)
Lemma turn_other c c' m i :
  attempting c → patience c m → i ≠ InTick → i ≠ InTimeout → c_state c' = c_state c → c_endpoint c' = c_endpoint c →
  c_config c' = c_config c → c_streamShutdown c' = c_streamShutdown c → c_unacked c' = c_unacked c →
  c_unackTimeoutCh c' = c_unackTimeoutCh c → c_out c' = c_out c → turn_of c c' m i.
Proof.
  intros Ha Hp Hi1 Hi2 E1 E2 E3 E4 E5 E6 E7. split_and!; [by eapply attempting_eq|by eapply patience_eq|by rewrite E6|done|done].
Qed.

(** The loop goes on after a case that keeps the attempt under way. *)
Lemma after_attempting e c : attempting c → after_select e c = Ret (inr false, c).
Proof.
  intros []. unfold after_select. erewrite bind_Ret by done. rewrite at_open0. simpl andb. cbv iota.
  erewrite bind_Ret by done. erewrite bind_Ret by done. unfold c_type in at_type0. by rewrite at_type0.
Qed.

Lemma processReads_connecting c : c_type c = ConnConnecting → processReads c = Ret (inr tt, c).
Proof. intros Ht. unfold processReads. erewrite bind_Ret by done. unfold c_type in Ht. by rewrite Ht. Qed.

Lemma turn_write e w c m :
  attempting c → patience c m →
  ∃ c', loop_step e (InWrite w) c = Ret (inr false, c') ∧ turn_of c c' m (InWrite w).
Proof.
  intros Ha Hp. set (c' := with_tokens (c_readable c) (Z.min 3 (c_writable c + 1))
    (with_pendingWrites (c_pendingWrites c ++ [mk_queuedWrite (qw_data w) 0 (qw_resultCh w)]) c)).
  exists c'. assert (Ht : turn_of c c' m (InWrite w)) by (by apply turn_other). split; [|done].
  unfold loop_step. erewrite bind_Ret; [apply after_attempting, Ht|]. unfold handle, onWrite. cbv zeta.
  erewrite bind_Ret by done. pose proof (at_type c Ha) as Hty. unfold c_type in Hty. rewrite Hty.
  erewrite bind_Ret by done. erewrite bind_Ret; [|by apply processWrites_connecting]. done.
Qed.

Lemma turn_token e i c m :
  attempting c → patience c m → i = InReadable ∨ i = InWritable →
  ∃ c', loop_step e i c = Ret (inr false, c') ∧ turn_of c c' m i.
Proof.
  intros Ha Hp Hi.
  assert (∃ c', handle e i c = Ret (inr tt, c') ∧ turn_of c c' m i) as (c' & E & Ht).
  { destruct Hi as [-> | ->]; unfold handle; erewrite bind_Ret by done.
    - destruct (0 <? _); [|exists c; split; [done|by apply turn_other]]. erewrite bind_Ret by done.
      rewrite processReads_connecting by apply Ha. eexists. split; [done|]. by apply turn_other.
    - destruct (0 <? _); [|exists c; split; [done|by apply turn_other]]. erewrite bind_Ret by done.
      rewrite processWrites_connecting by apply Ha. eexists. split; [done|]. by apply turn_other. }
  exists c'. split; [|done]. unfold loop_step. rewrite (bind_Ret _ _ _ _ _ E). destruct Hi as [-> | ->]; apply after_attempting, Ht.
Qed.

Lemma turn_tick e c m :
  attempting c → patience c m →
  ∃ c', loop_step e InTick c = Ret (inr false, c') ∧ turn_of c c' m InTick.
Proof.
  intros Ha Hp. pose proof (at_wheel c Ha) as Hi.
  assert (Hstep : ∀ l tw, tw_tick (c_unacked c) = Ret (l, tw) →
    loop_step e InTick c = Ret (inr false, with_timeouts (c_unackTimeoutCh c ++ l.*2) (with_unacked tw c))).
  { intros l tw E. unfold loop_step, handle. erewrite bind_Ret; [done|]. cbv beta iota. erewrite bind_Ret by done.
    erewrite bind_Ret; [|unfold lift_; by rewrite E]. cbv beta iota. erewrite bind_Ret by done. done. }
  assert (Hat : ∀ q tw, tw_inv tw → tw_slotNum tw = tw_slotNum (c_unacked c) →
    attempting (with_timeouts q (with_unacked tw c))).
  { intros q tw Hw Hn. destruct Ha. split; try done. simpl. congruence. }
  destruct (c_unackTimeoutCh c) as [|p q] eqn:Hq.
  2: { destruct (tick_any _ Hi) as (l & tw & E & Hw & Hn). eexists. split; [by apply Hstep|].
       assert (Hle : (10 * tries_left c ≤ m)%nat) by (destruct Hp as [[_ ?]|(j & _ & ?)]; lia).
       split_and!; [by apply Hat|left; split; [done|exact Hle]|done|by left|done]. }
  destruct Hp as [[Hne _]|(j & Hdue & Hle)]; [by rewrite Hq in Hne|]. destruct j as [|j].
  - destruct (due_tick_now _ Hi Hdue) as (l & tw & E & Hw & Hn & Hne). eexists. split; [by apply Hstep|].
    assert (Hne2 : l.*2 ≠ []) by (by destruct l).
    split_and!; [by apply Hat|left; split; [done|]|done|by left|done]. unfold tries_left in *. simpl. lia.
  - destruct (due_tick_later j _ Hi Hdue) as (l & tw & E & Hw & Hn & Hd). eexists. split; [by apply Hstep|].
    destruct m as [|m]; [lia|].
    assert (Hpat : patience (with_timeouts ([] ++ l.*2) (with_unacked tw c)) m).
    { right. exists j. split; [done|]. unfold tries_left in *. simpl. lia. }
    split_and!; [by apply Hat| |done|right; by exists m|done].
    destruct Hpat as [[? ?]|(j' & ? & ?)]; [left; split; [done|lia]|right; exists j'; split; [done|lia]].
Qed.

(** What the caller of Connect sees of later events. *)
Lemma recv_connected_app o1 o2 : recv_connected o1 = None → recv_connected (o1 ++ o2) = recv_connected o2.
Proof. induction o1 as [|[] o1 IH]; simpl; done || apply IH. Qed.

Lemma recv_connected_answers c l : recv_connected (closed_answer c <$> l) = None.
Proof. by induction l. Qed.

(** The end of the loop of a closed connection. *)
Lemma after_closed e c :
  c_type c = ConnClosed →
  ∃ c' evs, after_select e c = Ret (inr true, c') ∧ frame c c' ∧ c_out c' = c_out c ++ evs ++ [EvShutdown] ∧
    recv_connected evs = None.
Proof.
  unfold c_type. intros Ht. unfold after_select. erewrite bind_Ret by done. rewrite Ht, bool_decide_eq_true_2 by done.
  rewrite andb_false_r. erewrite bind_Ret by done. erewrite bind_Ret by done. rewrite Ht.
  erewrite bind_Ret; [|unfold eof; erewrite bind_Ret by done; by rewrite Ht]. simpl negb. cbv iota. erewrite bind_Ret by done.
  erewrite bind_Ret by (by apply processWrites_closed). eexists _, (closed_answer c <$> c_pendingWrites c).
  split; [done|]. split_and!; [|simpl; by rewrite <- app_assoc|apply recv_connected_answers].
  split; try done. simpl. eexists. by rewrite <- app_assoc.
Qed.

(** The timer of the SYN after the last attempt. *)
Lemma onTimeout_gives_up e p now c :
  attempting c → MaxConnAttempts (c_config c) ≤ ep_Attempts (c_endpoint c) →
  onTimeout e p now c = Ret (inr tt, with_state (st_close (Some ErrTimedOut))
                                       (with_out (c_out c ++ [EvConnected (Some ErrTimedOut)]) c)).
Proof.
  intros [] Hmax. unfold c_type in at_type0. unfold onTimeout. erewrite bind_Ret by done. rewrite at_type0, at_role0.
  destruct (Z.leb_spec (MaxConnAttempts (c_config c)) (ep_Attempts (c_endpoint c))); [|lia]. rewrite at_ch0.
  erewrite bind_Ret; [|unfold send_connected; erewrite bind_Ret by done; by rewrite at_ch0]. done.
Qed.

(** Before: the SYN is sent again, with a timer of its own. *)
Lemma onTimeout_retries e p now c :
  attempting c → ep_Attempts (c_endpoint c) < MaxConnAttempts (c_config c) →
  ∃ c' j, onTimeout e p now c = Ret (inr tt, c') ∧ attempting c' ∧ due j (c_unacked c') ∧
    tries_left c = S (tries_left c').
Proof.
  intros Ha Hmax. pose proof (cfg_attempts _ (at_cfg c Ha)). pose proof (cfg_initial _ (at_cfg c Ha)).
  pose proof (at_tries c Ha) as Hpos. pose proof (backoff_range (ep_Attempts (c_endpoint c) + 1)) as Hback.
  assert (Hd : 0 ≤ i64 (InitialTimeout (c_config c) * backoff (ep_Attempts (c_endpoint c) + 1))).
  { rewrite i64_id; [nia|]. unfold is_i64. nia. }
  destruct (due_put (ep_SynNum (c_endpoint c)) p _ (c_unacked c) (at_wheel c Ha) Hd) as (tw & j & Etw & Hw & Hn & Hdue).
  destruct Ha. unfold c_type in at_type0. eexists _, j. split_and!.
  - unfold onTimeout. erewrite bind_Ret by done. rewrite at_type0, at_role0.
    destruct (Z.leb_spec (MaxConnAttempts (c_config c)) (ep_Attempts (c_endpoint c))); [lia|].
    erewrite bind_Ret by done. erewrite bind_Ret; [|unfold lift_; by rewrite Etw]. cbv beta iota.
    erewrite bind_Ret by done. erewrite bind_Ret by done. done.
  - split; unfold c_type; simpl; try done; [lia|congruence|]. by rewrite recv_connected_app.
  - done.
  - unfold tries_left. simpl. lia.
Qed.

(** The timeout case: another SYN, or the end. *)
Lemma turn_timeout e c m :
  attempting c → patience c m →
  (∃ c', loop_step e InTimeout c = Ret (inr false, c') ∧ turn_of c c' m InTimeout) ∨
  (c_unackTimeoutCh c ≠ [] ∧ ∃ c', loop_step e InTimeout c = Ret (inr true, c') ∧ gave_up c').
Proof.
  intros Ha Hp. destruct (c_unackTimeoutCh c) as [|p q] eqn:Hq.
  { left. exists c. assert (E : handle e InTimeout c = Ret (inr tt, c)) by (unfold handle; erewrite bind_Ret by done; by rewrite Hq).
    split; [unfold loop_step; rewrite (bind_Ret _ _ _ _ _ E); by apply after_attempting|]. by split_and!. }
  assert (Hle : (10 * tries_left c ≤ m)%nat) by (destruct Hp as [[_ ?]|(j & _ & ?)]; lia).
  set (c1 := with_timeouts q c). assert (Ha1 : attempting c1) by (by apply (attempting_eq c)).
  assert (Hh : ∀ c', onTimeout e p (e_now e) c1 = Ret (inr tt, c') → loop_step e InTimeout c = after_select e c').
  { intros c' E. unfold loop_step, handle. erewrite bind_Ret; [done|]. erewrite bind_Ret by done. rewrite Hq. by erewrite bind_Ret. }
  destruct (Z.leb_spec (MaxConnAttempts (c_config c)) (ep_Attempts (c_endpoint c))) as [Hmax|Hmax].
  - right. split; [done|]. pose proof (onTimeout_gives_up e p (e_now e) c1 Ha1 Hmax) as E. set (c2 := with_state _ _) in E.
    destruct (after_closed e c2 eq_refl) as (c3 & evs & E3 & Hf & Ho & _). exists c3. rewrite (Hh c2 E). split; [done|]. split.
    + by rewrite (fr_type _ _ Hf).
    + by rewrite (fr_err _ _ Hf).
    + rewrite Ho. simpl. rewrite !elem_of_app. left. right. by left.
    + exists (c_out c2 ++ evs). by rewrite Ho, <- app_assoc.
  - left. destruct (onTimeout_retries e p (e_now e) c1 Ha1 Hmax) as (c' & j & E & Ha' & Hdue & Htl).
    exists c'. rewrite (Hh c' E). split; [by apply after_attempting|].
    assert (Hpat : patience c' (pred m)).
    { right. exists j. split; [done|]. change (tries_left c1) with (tries_left c) in Htl.
      destruct Hdue as [Hj _]. rewrite (at_slots c' Ha') in Hj. lia. }
    assert (Em : m = S (pred m)) by (change (tries_left c1) with (tries_left c) in Htl; lia).
    split_and!; [done|rewrite Em; eapply patience_mono; [exact Hpat|lia]|done|done|]. intros _ _. by exists (pred m).
Qed.

(** ** Rounds *)

(** The run has ended, or the attempt goes on in a state with [Q]. *)
Definition goes_on (steps : list (env * conn_input)) c (Q : connection → Prop) : Prop :=
  (∃ c', conn_run steps c = Ret (inr true, c') ∧ gave_up c') ∨
  (∃ c', conn_run steps c = Ret (inr false, c') ∧ attempting c' ∧ Q c').

Lemma conn_run_app l1 l2 c :
  conn_run (l1 ++ l2) c = (b ←! conn_run l1; if b : bool then done_ true else conn_run l2) c.
Proof.
  revert c. induction l1 as [|[e i] l1 IH]; intros c; [done|]. cbn [app conn_run]. unfold bind_ in *.
  destruct (loop_step e i c) as [[[err|[]] c1]| |]; simpl; done || apply IH.
Qed.

Lemma goes_on_app l1 l2 c Q R :
  goes_on l1 c Q → (∀ c', attempting c' → Q c' → goes_on l2 c' R) → goes_on (l1 ++ l2) c R.
Proof.
  intros [(c' & E & Hg)|(c' & E & Ha & HQ)] Hk.
  - left. exists c'. split; [|done]. by rewrite conn_run_app, (bind_Ret _ _ _ _ _ E).
  - unfold goes_on. rewrite conn_run_app, (bind_Ret _ _ _ _ _ E). by apply Hk.
Qed.

Lemma goes_on_weaken l c (Q R : connection → Prop) : goes_on l c Q → (∀ c', Q c' → R c') → goes_on l c R.
Proof. intros [?|(c' & E & Ha & HQ)] HR; [by left|right]. exists c'. auto. Qed.

Lemma goes_on_turn e i c m :
  silent i → attempting c → patience c m → goes_on [(e, i)] c (λ c', turn_of c c' m i).
Proof.
  intros Hs Ha Hp. assert (Hstep : (∃ c', loop_step e i c = Ret (inr false, c') ∧ turn_of c c' m i) ∨
    (∃ c', loop_step e i c = Ret (inr true, c') ∧ gave_up c')).
  { destruct i; try done.
    - left. by apply turn_write.
    - left. apply turn_token; auto.
    - left. apply turn_token; auto.
    - destruct (turn_timeout e c m Ha Hp) as [?|[_ ?]]; auto.
    - left. by apply turn_tick. }
  destruct Hstep as [(c' & E & Ht)|(c' & E & Hg)]; [right|left]; exists c';
    (split; [cbn [conn_run]; by rewrite (bind_Ret _ _ _ _ _ E)|]); [split; [apply Ht|done]|done].
Qed.

Lemma goes_on_silent l c m :
  Forall (λ s, silent s.2) l → attempting c → patience c m → goes_on l c (λ c', patience c' m).
Proof.
  intros Hl. revert c. induction Hl as [|[e i] l Hi Hl IH]; intros c Ha Hp; [right; by exists c|].
  apply (goes_on_app [(e, i)] l c (λ c', turn_of c c' m i)); [by apply goes_on_turn|]. intros c' Ha' Ht. apply IH; [done|apply Ht].
Qed.

(** Waiting packets stay until a timeout case takes one. *)
Lemma goes_on_waiting l c m :
  Forall (λ s, silent s.2) l → attempting c → patience c m → c_unackTimeoutCh c ≠ [] →
  goes_on l c (λ c', patience c' m ∧ (c_unackTimeoutCh c' ≠ [] ∨ ∃ m', m = S m' ∧ patience c' m')).
Proof.
  intros Hl. revert c. induction Hl as [|[e i] l Hi Hl IH]; intros c Ha Hp Hq; [right; exists c; auto|].
  apply (goes_on_app [(e, i)] l c (λ c', turn_of c c' m i)); [by apply goes_on_turn|].
  intros c' Ha' (_ & Hp' & Hkeep & _ & Hto). assert (i = InTimeout ∨ i ≠ InTimeout) as [->|Hne] by (destruct i; by auto).
  - destruct (Hto eq_refl Hq) as (m' & -> & Hm'). eapply goes_on_weaken; [by apply (goes_on_silent l c' m')|].
    intros c2 Hp2. split; [eapply patience_mono; [exact Hp2|lia]|]. right. by exists m'.
  - apply IH; [done|done|by apply Hkeep].
Qed.

(** A round: the ticker runs, and later the timeout case is taken. *)
Definition fair_round (l : list (env * conn_input)) : Prop :=
  Forall (λ s, silent s.2) l ∧ ∃ l1 e1 l2 e2 l3, l = l1 ++ [(e1, InTick)] ++ l2 ++ [(e2, InTimeout)] ++ l3.

Lemma goes_on_round l c m :
  fair_round l → attempting c → patience c m → goes_on l c (λ c', ∃ m', m = S m' ∧ patience c' m').
Proof.
  intros [Hs (l1 & e1 & l2 & e2 & l3 & ->)] Ha Hp. rewrite !Forall_app in Hs. destruct Hs as (Hs1 & _ & Hs2 & _ & Hs3).
  assert (Hrest : ∀ l m' c', m = S m' → Forall (λ s, silent s.2) l → attempting c' → patience c' m' →
    goes_on l c' (λ c', ∃ m', m = S m' ∧ patience c' m')).
  { intros l m' c' -> Hl Ha' Hp'. eapply goes_on_weaken; [by apply (goes_on_silent l c' m')|]. intros c2 Hp2. by exists m'. }
  eapply goes_on_app; [by apply (goes_on_silent l1 c m)|]. intros c1 Ha1 Hp1.
  eapply goes_on_app; [by apply (goes_on_turn e1 InTick c1 m)|]. intros c2 Ha2 (_ & Hp2 & _ & Htick & _).
  destruct (Htick eq_refl) as [Hq|(m' & Em & Hm')].
  2: { eapply Hrest; [done| |done|done]. rewrite !Forall_app. split_and!; [done|by constructor|done]. }
  eapply goes_on_app; [by apply (goes_on_waiting l2 c2 m)|]. intros c3 Ha3 [Hp3 [Hq3|(m' & Em & Hm')]].
  2: { eapply Hrest; [done| |done|done]. rewrite Forall_app. split; [by constructor|done]. }
  eapply goes_on_app; [by apply (goes_on_turn e2 InTimeout c3 m)|]. intros c4 Ha4 (_ & _ & _ & _ & Hto).
  destruct (Hto eq_refl Hq3) as (m' & Em & Hm'). by eapply Hrest.
Qed.

(** Enough rounds end the attempt. *)
Lemma rounds_end rounds c m :
  Forall fair_round rounds → attempting c → patience c m → (m < length rounds)%nat →
  ∃ c', conn_run (concat rounds) c = Ret (inr true, c') ∧ gave_up c'.
Proof.
  intros Hr. revert c m. induction Hr as [|l rounds Hl Hr IH]; intros c m Ha Hp Hlt; simpl in Hlt; [lia|]. cbn [concat].
  rewrite conn_run_app. destruct (goes_on_round l c m Hl Ha Hp) as [(c' & E & Hg)|(c' & E & Ha' & m' & -> & Hp')];
    rewrite (bind_Ret _ _ _ _ _ E); [by exists c'|]. apply (IH c' m' Ha' Hp'). lia.
Qed.

(** The start of an attempt. *)
Lemma start_attempting e e' cid cfg :
  cfg_ok cfg →
  ∃ c c', newConnection e cid cfg None (Some true) = Ret c ∧ start e' c = Ret (inr tt, c') ∧ attempting c' ∧
    patience c' (10 * Z.to_nat (MaxConnAttempts cfg - 1) + 8).
Proof.
  intros Hcfg. destruct (newConnection_Ret e cid cfg None Hcfg) as (tw & Htw & _ & E).
  assert (Hn : tw_slotNum tw = 8).
  { unfold newConnection, newTimeWheel in E. destruct (_ <=? 0); [done|]. by injection E as <-. }
  pose proof (cfg_initial _ Hcfg) as Hinit.
  destruct (due_put (e_rand e) (Build (NewPacketBuilder st_syn (cid_Recv cid) (u32 (UnixMicro (e_now e')))
      (WindowSize cfg) (e_rand e))) (InitialTimeout cfg) tw Htw ltac:(lia)) as (tw' & j & Etw & Hw & Hn' & Hdue).
  eexists _, _. split; [exact E|]. split; [|split].
  - unfold start. erewrite bind_Ret by done. cbn [c_endpoint ep_Type]. erewrite bind_Ret by done.
    erewrite bind_Ret by done. erewrite bind_Ret; [|unfold lift_; cbn; by rewrite Etw]. by erewrite bind_Ret.
  - split; try done. simpl. congruence.
  - right. exists j. split; [done|]. destruct Hdue as [Hj _]. unfold tries_left. simpl. lia.
Qed.
End attempt.

(** C3.  A connection attempt ends.  An initiator that gets no packet, and is not
    closed by its user, ends its event loop within ten times as many rounds as
    attempts are allowed, where a round is any sequence of turns (writes, reads,
    ticks, timeouts) in which the ticker runs and later the timeout case is
    taken: the loop returns, the connection is closed with the error "timed
    out", the caller of Connect has been sent that error, and the last message
    is the notice to the socket. *)
Theorem connect_gives_up `{BTreeLaws} `{FloatConv} (e e' : env) (cid : ConnectionId) (cfg : ConnectionConfig) :
  cfg_ok cfg → 1 ≤ MaxConnAttempts cfg →
  ∃ c c', newConnection e cid cfg None (Some true) = Ret c ∧ start e' c = Ret (inr tt, c') ∧
    ∀ rounds, Forall fair_round rounds → 10 * MaxConnAttempts cfg - 1 ≤ len rounds →
      ∃ c'', conn_run (concat rounds) c' = Ret (inr true, c'') ∧
        c_type c'' = ConnClosed ∧ cs_Err (c_state c'') = Some ErrTimedOut ∧
        EvConnected (Some ErrTimedOut) ∈ c_out c'' ∧ ∃ evs, c_out c'' = evs ++ [EvShutdown].
Proof.
  intros Hcfg Hm. destruct (start_attempting e e' cid cfg Hcfg) as (c & c' & E & Es & Ha & Hp).
  exists c, c'. split_and!; [done..|]. intros rounds Hr Hl.
  destruct (rounds_end rounds c' _ Hr Ha Hp) as (c'' & Er & []); [unfold len in Hl; lia|]. by exists c''.
Qed.

(** Inputs that end an attempt from outside: a RESET of the peer, a shutdown of
    the stream, the idle timer, and the end of the context. *)
Definition refusal (i : conn_input) : Prop :=
  match i with
  | InIncoming p => h_PacketType (Header p) = st_reset
  | InShutdown | InIdle | InCtxDone => True
  | _ => False
  end.

Section refused.
Context `{BTreeLaws} `{FloatConv}.
Implicit Types c : connection.

Lemma onPacket_reset e p now c :
  h_PacketType (Header p) = st_reset → c_type c = ConnConnecting →
  ∃ c1, onPacket e p now c = Ret (inr tt, c1) ∧ c_type c1 = ConnClosed ∧ cs_Err (c_state c1) = Some ErrReset ∧
    c_out c1 = c_out c.
Proof.
  unfold c_type. intros Hp Ht. unfold onPacket, dispatch, reply. rewrite Hp. cbv zeta.
  set (c0 := with_peer (capped_ts_diff e (c_config c) (h_TimestampDiff (Header p))) (h_WndSize (Header p)) c).
  set (c1 := with_state (st_close (Some ErrReset)) c0).
  erewrite bind_Ret by done. fold c0.
  assert (Hd : try_ onReset c0 = Ret (inr (inr tt), c1)).
  { unfold try_, onReset. cbn. rewrite Ht, bool_decide_eq_false_2 by done. unfold reset. cbn. by rewrite Ht. }
  rewrite (bind_Ret _ _ _ _ _ Hd).
  cbv beta iota. fold c1. do 4 (erewrite bind_Ret by done). rewrite bool_decide_eq_false_2 by congruence. rewrite orb_false_r.
  destruct (0 <? len (Body p)); (erewrite bind_Ret by done); (erewrite bind_Ret by done); (erewrite bind_Ret by done);
    eexists; done.
Qed.

(** The case of the [select] leaves a closed connection, without a word to the caller. *)
Lemma refusal_closes e i c :
  attempting c → refusal i → i ≠ InCtxDone →
  ∃ c1, loop_step e i c = after_select e c1 ∧ recv_connected (c_out c1) = None ∧
    (c_type c1 = ConnClosed ∨ c_type c1 = ConnConnecting ∧ c_streamShutdown c1 = true).
Proof.
  intros [] Hi Hne. pose proof at_type0 as Ht. unfold c_type in Ht. destruct i as [p| | | | | | | |]; try done.
  - destruct (onPacket_reset e p (e_now e) c Hi) as (c1 & E & Ht1 & _ & Ho); [done|]. exists c1.
    split; [unfold loop_step, handle; by rewrite (bind_Ret _ _ _ _ _ E)|]. rewrite Ho. auto.
  - eexists. split; [unfold loop_step, handle; by erewrite bind_Ret|]. simpl. auto.
  - eexists. split; [unfold loop_step, handle; erewrite bind_Ret; [done|];
      erewrite bind_Ret by done; rewrite Ht; by rewrite bool_decide_eq_false_2|]. simpl. auto.
Qed.

Lemma refusal_ends e i c :
  attempting c → refusal i →
  ∃ c', loop_step e i c = Ret (inr true, c') ∧ recv_connected (c_out c') = None ∧
    (i ≠ InCtxDone → c_type c' = ConnClosed ∧ ∃ evs, c_out c' = evs ++ [EvShutdown]).
Proof.
  intros Ha Hi. assert (i = InCtxDone ∨ i ≠ InCtxDone) as [->|Hne] by (destruct i; by auto).
  { eexists. split; [done|]. split; [apply Ha|done]. }
  destruct (refusal_closes e i c Ha Hi Hne) as (c1 & E & Hq & Hc1). rewrite E.
  assert (∃ c2, after_select e c1 = after_select e c2 ∧ c_type c2 = ConnClosed ∧ c_out c2 = c_out c1) as (c2 & E2 & Ht2 & Ho2).
  { destruct Hc1 as [Ht|[Ht Hs]]; [by exists c1|]. exists (with_state (st_type ConnClosed) c1). split; [|done].
    unfold c_type in Ht. unfold after_select. erewrite bind_Ret by done. rewrite Hs, Ht, bool_decide_eq_false_2 by done.
    simpl negb. simpl andb. cbv iota.
    erewrite bind_Ret; [|unfold shutdown; erewrite bind_Ret by done; by rewrite Ht].
    symmetry. erewrite bind_Ret by done. simpl. rewrite andb_false_r. by erewrite bind_Ret. }
  destruct (after_closed e c2 Ht2) as (c3 & evs & E3 & Hf & Ho & Hr). exists c3. rewrite E2. split_and!; [done| |].
  - rewrite Ho, Ho2, recv_connected_app, recv_connected_app by done. done.
  - intros _. split; [by rewrite (fr_type _ _ Hf)|]. exists (c_out c2 ++ evs). by rewrite Ho, <- app_assoc.
Qed.
End refused.

(** C32.  A refused attempt is not reported.  While an attempt is under way, a RESET
    from the peer, a shutdown of the stream, the idle timer or the end of the
    context ends the event loop; the connection has neither sent a value on the
    channel that Connect waits on nor closed it, so the caller of
    [ConnectWithCid] waits for ever. *)
Theorem refused_attempt_unreported `{BTreeLaws} `{FloatConv} (e e' : env) (cid : ConnectionId) (cfg : ConnectionConfig) :
  cfg_ok cfg →
  ∃ c c', newConnection e cid cfg None (Some true) = Ret c ∧ start e' c = Ret (inr tt, c') ∧
    ∀ steps c1, Forall (λ s, silent s.2) steps → conn_run steps c' = Ret (inr false, c1) →
    ∀ e1 i, refusal i →
      ∃ c2, loop_step e1 i c1 = Ret (inr true, c2) ∧ recv_connected (c_out c2) = None ∧
        (i ≠ InCtxDone → c_type c2 = ConnClosed ∧ ∃ evs, c_out c2 = evs ++ [EvShutdown]).
Proof.
  intros Hcfg. destruct (start_attempting e e' cid cfg Hcfg) as (c & c' & E & Es & Ha & Hp).
  exists c, c'. split_and!; [done..|]. intros steps c1 Hs Er e1 i Hi.
  destruct (goes_on_silent steps c' _ Hs Ha Hp) as [(c2 & E2 & _)|(c2 & E2 & Ha2 & _)]; rewrite Er in E2; [done|].
  injection E2 as <-. by apply refusal_ends.
Qed.

(** ** Witnesses *)

Definition demo_round : list (env * conn_input) := [(demo_env 1, InTick); (demo_env 2, InTimeout)].

Lemma connect_gives_up_witness :
  ∃ c c', newConnection (demo_env 0) demo_cid NewConnectionConfig None (Some true) = Ret c ∧
    start (demo_env 0) c = Ret (inr tt, c') ∧
    ∃ c'', conn_run (concat (replicate 59 demo_round)) c' = Ret (inr true, c'') ∧ c_type c'' = ConnClosed.
Proof.
  destruct (connect_gives_up (demo_env 0) (demo_env 0) demo_cid NewConnectionConfig default_cfg_ok) as (c & c' & E & Es & Hr);
    [vm_compute; discriminate|].
  exists c, c'. split; [exact E|]. split; [exact Es|].
  destruct (Hr (replicate 59 demo_round)) as (c'' & Er & Ht & _).
  - apply Forall_replicate. split; [by repeat constructor|].
    exists [], (demo_env 1), [], (demo_env 2), []. reflexivity.
  - vm_compute. discriminate.
  - exists c''. split; [exact Er|exact Ht].
Defined.

Lemma refused_attempt_unreported_witness :
  ∃ c c', newConnection (demo_env 0) demo_cid NewConnectionConfig None (Some true) = Ret c ∧
    start (demo_env 0) c = Ret (inr tt, c') ∧
    ∃ c2, loop_step (demo_env 1) (InIncoming (Build (NewPacketBuilder st_reset 7 0 0 501))) c' = Ret (inr true, c2) ∧
      recv_connected (c_out c2) = None ∧ c_type c2 = ConnClosed.
Proof.
  destruct (refused_attempt_unreported (demo_env 0) (demo_env 0) demo_cid NewConnectionConfig default_cfg_ok)
    as (c & c' & E & Es & Hr).
  exists c, c'. split; [exact E|]. split; [exact Es|].
  destruct (Hr [] c' (Forall_nil_2 _) eq_refl (demo_env 1) (InIncoming (Build (NewPacketBuilder st_reset 7 0 0 501))) eq_refl)
    as (c2 & E2 & Hn & Ht).
  exists c2. split; [exact E2|]. split; [exact Hn|]. apply Ht. discriminate.
Defined.
